(* ===== verification/_CoqProject ===== *)
-Q . S2P
Prelude.v
Ordering.v
Common.v
PyBytes.v
Util.v
Codec.v
Wire.v
KafkaCodec.v
MessageSet.v
Requests.v
Responses.v
Partitioner.v
Deferred.v
Protocol.v
BrokerClient.v
BrokerProtocol.v
Group.v
Hosts.v
Client.v
ClientInvariant.v
ClientTheorems.v
Coroutine.v
Routing.v
RoutingTheorems.v
RoutingRuns.v
Producer.v
ProducerInvariant.v
ProducerTheorems.v
ProducerWire.v
Coordinator.v
CoordinatorInvariant.v
CoordinatorTheorems.v
Consumer.v
ConsumerSettings.v
ConsumerInvariant.v
ConsumerSafety.v
ConsumerDelivery.v
ConsumerTheorems.v
ConsumerLog.v
ConsumerRuns.v
EndToEnd.v
