(* ===== verification/Prelude.v ===== *)
(** * A verification library for afkak

    afkak is a Kafka client for Twisted (Python, [src/afkak/]). An application
    produces through a [Producer] and consumes through [Consumer]s or a
    [ConsumerGroup]. These use the [KafkaClient], which keeps the cluster's
    metadata, groups payloads by broker and owns one [_KafkaBrokerClient] per
    broker; that one keeps a connection alive and matches responses to requests.
    Everything on the wire is written and read by [KafkaCodec] out of the
    helpers of [_util.py] and [codec.py].

    ** Files

    - [Prelude] (this file): bytes and text, the [result] monad for Python's
      exceptions, the [gen] monad for generators (what was yielded, then how the
      run ended), the loops [for_range], [gfor_range] and [for_each], Python
      dicts as association lists in insertion order ([Dict]), tactics and list
      lemmas.
    - [Ordering]: Python's order on strings and on pairs, [sorted] of lists and
      sets.
    - [Common]: [common.py]. Constants, the named tuples as records, the broker
      error classes with code, message and retriability, [errnos],
      [raise_for_errno], and [exn], the exceptions the program raises.
    - [PyBytes]: what the program uses of the interpreter's library: [struct]
      packing with its range checks, slices, CRC-32, the ASCII and UTF-8 codecs.
    - [Util]: [_util.py]. Coercions, length-prefixed strings,
      [relative_unpack], [group_by_topic_and_partition].
    - [Codec]: [codec.py]. gzip and Snappy, with the xerial block framing. The
      compressors are the class [CompressionLib]; the laws used are
      [CompressionLaws], which [tagged_lib] satisfies.
    - [Wire]: the specification the codec is held to. A grammar of
      Kafka's wire types ([schema]), the values of a schema, their bytes
      ([ser]), and an independent parser ([parse]) for which [parse_ser] holds.
    - [KafkaCodec]: [kafkacodec.py], every encoder and decoder.
      [MessageSet], [Requests] and [Responses] hold its theorems.
    - [Partitioner]: [partitioner.py]. Murmur2, the hashed and the round-robin
      partitioner.
    - [Deferred]: Twisted's Deferred as far as the program relies on it: a
      deferred is issued, fires at most once, and is in the meantime
      outstanding. Firing twice is [AlreadyCalledError].
    - [Protocol]: [_protocol.py], the bootstrap protocol.
    - [BrokerClient]: [brokerclient.py]. [BrokerProtocol] is the [KafkaProtocol] of
      [_protocol.py] that a connection of it runs.
    - [Group]: the consumer protocol of [_group.py] (the class
      [_ConsumerProtocol]): the round-robin assignment and its messages.
    - [Hosts]: [client.py], the bootstrap hosts ([_normalize_hosts],
      [update_cluster_hosts]) and the settings of the constructor.
    - [Client]: [client.py], the cache of [KafkaClient] (topics, leaders,
      coordinators, brokers), the broker clients it owns (states of
      [BrokerClient]), the lookups that fill the cache, and the check of error
      codes. [ClientInvariant] holds what is invariant, [ClientTheorems] the
      results.
    - [Coroutine]: coroutines ([inlineCallbacks]) as resumptions of the state,
      and their runs.
    - [Routing]: [client.py], how [KafkaClient] sends requests: payloads to the
      leaders of their partitions, group requests to coordinators, requests any
      broker can serve, and their timeouts. [RoutingTheorems] is about payloads,
      [RoutingRuns] about the rest.
    - [Producer]: [producer.py]. Queueing and batching of messages, the search for
      their partitions, sending, retries, cancellation and stopping.
      [ProducerInvariant] says what each operation does and what stays true,
      [ProducerTheorems] what follows. [ProducerWire] puts a batch together with
      the encoder: what a broker finds in the request.
    - [Coordinator]: [Coordinator] and [ConsumerGroup] of [_group.py]: the
      member of a consumer group, who joins, sends heartbeats, recovers from
      errors, starts and stops consumers. [CoordinatorInvariant] and
      [CoordinatorTheorems] likewise.
    - [Consumer]: [consumer.py]. Fetching, the starting offset, the blocks of
      messages and the processor, commits and their retries, automatic commits,
      [stop] and [shutdown]. [ConsumerSettings] is about its construction,
      [ConsumerInvariant] holds the invariant that every event keeps,
      [ConsumerSafety] and [ConsumerDelivery] what is kept of the order of the
      messages and of the sizes, [ConsumerTheorems] the results.
    - [ConsumerLog]: the consumer put together with the decoders of [KafkaCodec]
      and brokers that serve a stored log. [ConsumerRuns] has concrete runs: the
      witnesses, and those in which the consumer fails.
    - [EndToEnd]: producer, codec, log and consumer together.

    ** How the model corresponds to the code

    Pure code is a function of the same name on the same data. Code that can
    raise returns [res A]; a generator is a [pygen], whose first component is
    the list of what it yielded before it returned or raised. A read at a
    cursor takes and returns the cursor as an integer, so a cursor that moves
    backwards is expressible, and slices have Python's semantics for negative
    and out-of-range bounds.

    An object is a record of its attributes; a method is a function of
    the same name from the arguments and the record to the new record. What a
    method does to the outside world (writing to the transport, connecting,
    dropping the connection, scheduling a retry) is appended to a list of
    effects in the record, and deferreds are numbered in the order they are
    issued. The reactor is a sequence of events: [enabled] says which can occur,
    [handle] runs the handler, [step] gives the state afterwards (an exception
    leaves the state as it was before the call that raised, which is what the
    theorems on errors need; the handlers raise before they change anything),
    and [reachable] is the set of states of any sequence of events. Answers of
    the environment, such as whether an endpoint connects at once, or whether
    [sendString] raises, are part of the event. A callback of the application that calls back into the object is a
    later event; that it could run in the middle of a handler is not modelled.

    A method that changes its object and may raise in the middle is a [proc] of
    [Prelude], which keeps the state it had reached when it raised. A coroutine
    ([inlineCallbacks]) of [Coordinator] is split where it waits: the places are
    the constructors of a type ([Coordinator.phase], [Coordinator.stop_phase]),
    and what runs when it is resumed is a definition ([resume_join],
    [resume_stop], ...), which an event calls with the answer. A coroutine of
    [Routing] is a [co] of [Coroutine]: it runs on the client as it finds it,
    waits for the answer to a [query], and is resumed with that answer and
    whatever the client has become. Theorems on it quantify over [runs]: any
    answers, and any change of the client between them. The coroutine of
    [Producer] that looks for a partition is a [lookup]: it waits for metadata or
    for a delay, or has ended. The chain of callbacks of [_batch_send_d] is split
    in the same way ([Producer.batch]); [chain] runs its end. What the client
    knows of a topic is a [client_view] that comes with each event, so that it
    may change between any two; delays are numbered by how often they have been
    increased, since a factor of 1.20205 is beyond the integers.

    [Consumer] is written the same way: the operation that is out ([_request_d])
    decides what its answer runs ([request_answered], [commit_answered],
    [processor_ended]); the coroutine [_process_messages] runs [process_loop] as
    far as the processor returns at once, and waits for [processor_ended]
    otherwise. What the processor returns for given messages, whether it raises,
    and how operations end that are cancelled are an [environment] that comes
    with each event and may change between any two. In [ConsumerLog] a [round] is
    the answer to the fetch sent last and the call that sends the next one.

    ** Bounds and fuel

    - A loop of the code without a bound of its own runs with fuel; running out
      is [OutOfFuel], an exception the code does not have, and a theorem says it
      does not arise: one round per byte for [decode_set_loop] and
      [xerial_loop], one per member for [next_subscriber], one per request for
      [close_requests]. [check_send_batch] needs two rounds: the check after a
      batch that ended at once finds an empty queue.
    - In [Consumer] [process_loop] runs once per message, [cancel_waiters] once
      per waiter; [handle_fetch_response] nests at most once (a response that
      waited for a block is handled when the block is done), and [stop_within]
      three deep (the commit that [stop] cancels may end a [shutdown], which calls
      [stop] again). [consumer_safe] says that every handler ends.
    - The [depth] of [_decode_message_set_iter] is the nesting of compressed
      sets the interpreter's stack allows; at depth 0 the model raises
      [PyRecursionError], as Python does. Two levels decode all the program
      writes.
    - Machine integers: [struct] refuses what does not fit its field
      ([StructError]); Murmur2 masks to 32 bits as the code writes it.
    - The fetches of [log_consumed] are bounded by the number of messages and
      [growths], how often the buffer must grow before the largest message fits;
      [fetch_buffer_bounded] bounds every size that is asked for.

    ** Theorems

    - Wire formats ([MessageSet], [Requests], [Responses], [Codec], [Util]):
      round trips; each request parses, under the grammar of [Wire], to exactly
      the caller's fields, or encoding raises; each response a broker can
      write decodes to its fields; truncated and corrupt message sets; decoding
      terminates on every input.
    - State machines ([Protocol], [BrokerClient]): invariants over all reachable
      states (no deferred fires twice, none is forgotten, no handler raises an
      error of its own making), and the effect of each event: which deferred
      fires and with what, what is written and in which order.
    - The cluster client ([ClientTheorems]): what is cached can be routed to,
      responses replace what they speak of, lookups are shared, closing ends
      everything.
    - Sending ([RoutingTheorems], [RoutingRuns]): each payload is sent once, to
      its leader, in order; what the caller gets for each outcome; any broker and
      every bootstrap host is tried before a request is given up; time-outs.
    - The producer ([ProducerTheorems]): each sender is answered once at most; a
      batch becomes one payload per partition with its messages in order; the
      answer reaches the senders it is about; retries end; [stop] leaves nobody
      unanswered.
    - The whole ([EndToEnd]): the messages of the requests of a batch are, with
      their keys and in order, what a consumer gives to its processor, through the
      bytes of the produce request, a log kept as Kafka documents it ([appended],
      [served]) and the bytes of the fetch responses ([produced_is_consumed]).
    - The consumer ([ConsumerTheorems], [ConsumerSettings], [ConsumerLog],
      [ConsumerRuns]): no deferred fires twice and every handler ends; the
      processor gets the messages in order, each at most once, and against a
      broker that serves a log exactly those of the log; commits are answered;
      stopping and shutting down; the buffer; construction; and the runs in which
      it does not do what it means to.
    - The group member ([CoordinatorTheorems]): its consumers always belong to
      the current generation; from every state it can reach without an
      exception it can become a member again; recovery and stopping; and the
      states in which it is stuck, or stops incompletely.
    - Decisions ([Partitioner], [Group]): the hash is Murmur2, partitions are
      chosen as the Java client does, round robin is fair; the group assignment
      is complete, exclusive, balanced and deterministic ([assignment_correct]),
      and reaches its members; the bootstrap hosts become a sorted list without
      repetition of what the argument names ([hosts_normalized]).

    ** Not modelled

    What is not under [src/]: the compressors, [nativeString] of Twisted, the
    digits of other scripts, the compiled Murmur2 and the order in which a set is
    iterated are parameters, with their documented laws where a theorem needs
    them; the framing of [Int32StringReceiver] delivers whole strings. The broker
    client a coroutine has looked up is the one of that node when it is used;
    what a coroutine does when it is itself cancelled is an answer
    ([TwistedCancelledError]) to what it waits for. [__repr__], [__str__] and log
    messages carry no behaviour and are left out, as are the aliases and
    properties kept for compatibility in [client.py], the read-only properties
    of [Consumer], and [__init__.py], which re-exports. *)
From stdpp Require Export prelude strings sorting gmap.
From Stdlib Require Export ZArith Lia.
From Stdlib Require Import Strings.Byte Strings.Ascii.

Open Scope Z_scope.

(** ** Python's two string types

    [bytes] is a list of octets; [str] is a list of Unicode code points. *)

Abbreviation byte := Init.Byte.byte.
Abbreviation bytes := (list Init.Byte.byte).
Abbreviation text := (list Z).

#[export] Instance byte_eq_dec : EqDecision byte := Byte.byte_eq_dec.

(** A [str] literal with ASCII characters. *)
Definition txt (s : string) : text :=
  (λ c, Z.of_N (Ascii.N_of_ascii c)) <$> String.list_ascii_of_string s.

(** ** Results: a Python call returns a value or raises *)

Inductive result (E A : Type) : Type :=
| Ok (a : A)
| Err (e : E).
Global Arguments Ok {_ _} _.
Global Arguments Err {_ _} _.

#[export] Instance result_ret {E} : MRet (result E) := λ A a, Ok a.
#[export] Instance result_bind {E} : MBind (result E) := λ A B f m,
  match m with Ok a => f a | Err e => Err e end.
#[export] Instance result_fmap {E} : FMap (result E) := λ A B f m,
  match m with Ok a => Ok (f a) | Err e => Err e end.
#[export] Instance result_eq_dec {E A} `{EqDecision E, EqDecision A} :
  EqDecision (result E A).
Proof. solve_decision. Defined.

Definition is_ok {E A} (r : result E A) : bool :=
  match r with Ok _ => true | Err _ => false end.

(** ** Generators: the items yielded, then how the generator ended *)

Definition gen (E Y A : Type) : Type := list Y * result E A.

#[export] Instance gen_ret {E Y} : MRet (gen E Y) := λ A a, ([], Ok a).
#[export] Instance gen_bind {E Y} : MBind (gen E Y) := λ A B f m,
  match m with
  | (ys, Ok a) => let '(zs, r) := f a in (ys ++ zs, r)
  | (ys, Err e) => (ys, Err e)
  end.

Definition gyield {E Y} (y : Y) : gen E Y unit := ([y], Ok tt).
Definition glift {E Y A} (r : result E A) : gen E Y A := ([], r).
Definition graise {E Y A} (e : E) : gen E Y A := ([], Err e).

Lemma gen_bind_ret {E Y A B} (a : A) (f : A → gen E Y B) :
  (mret a ≫= f) = f a.
Proof. cbn. by destruct (f a). Qed.

Lemma gen_bind_lift {E Y A B} (a : A) (f : A → gen E Y B) :
  (glift (Ok a) ≫= f) = f a.
Proof. cbn. by destruct (f a). Qed.

Lemma gen_bind_yield {E Y B} (y : Y) (f : unit → gen E Y B) :
  (gyield y ≫= f) = (y :: (f tt).1, (f tt).2).
Proof. cbn. by destruct (f tt). Qed.

Lemma gen_bind_ok {E Y A B} (ys : list Y) (a : A) (f : A → gen E Y B) :
  (((ys, Ok a) : gen E Y A) ≫= f) = (ys ++ (f a).1, (f a).2).
Proof. cbn. by destruct (f a). Qed.

(** [not xs] *)
Definition is_empty {X} (xs : list X) : bool := match xs with [] => true | _ => false end.

(** ** Procedures: code that changes a state and may raise

    What was changed before an exception stays changed. *)

Definition proc (E S A : Type) : Type := S → S * result E A.

#[export] Instance proc_ret {E S} : MRet (proc E S) := λ A a s, (s, Ok a).
#[export] Instance proc_bind {E S} : MBind (proc E S) := λ A B f m s,
  match m s with
  | (s, Ok a) => f a s
  | (s, Err e) => (s, Err e)
  end.

Definition plift {E S A} (r : result E A) : proc E S A := λ s, (s, r).
Definition praise {E S A} (e : E) : proc E S A := λ s, (s, Err e).
Definition pget {E S A} (f : S → A) : proc E S A := λ s, (s, Ok (f s)).
Definition pmodify {E S} (f : S → S) : proc E S unit := λ s, (f s, Ok tt).

(** [try: m except e: h(e)] *)
Definition pcatch {E S A} (m : proc E S A) (h : E → proc E S A) : proc E S A := λ s,
  match m s with
  | (s, Ok a) => (s, Ok a)
  | (s, Err e) => h e s
  end.

Fixpoint pfor_each {E S X} (xs : list X) (body : X → proc E S unit) : proc E S unit :=
  match xs with
  | [] => mret tt
  | x :: xs => _ ← body x; pfor_each xs body
  end.

Lemma proc_bind_ok {E S A B} (m : proc E S A) (f : A → proc E S B) s s1 a :
  m s = (s1, Ok a) → (m ≫= f) s = f a s1.
Proof. unfold mbind, proc_bind. by intros ->. Qed.

Lemma proc_bind_err {E S A B} (m : proc E S A) (f : A → proc E S B) s s1 e :
  m s = (s1, Err e) → (m ≫= f) s = (s1, Err e).
Proof. unfold mbind, proc_bind. by intros ->. Qed.

Lemma proc_bind_inv {E S A B} (m : proc E S A) (f : A → proc E S B) s s' b :
  (m ≫= f) s = (s', Ok b) → ∃ s1 a, m s = (s1, Ok a) ∧ f a s1 = (s', Ok b).
Proof. unfold mbind, proc_bind. destruct (m s) as [s1 [a|e]]; [eauto|done]. Qed.

Lemma pfor_each_step {E S X} x (xs : list X) (body : X → proc E S unit) s s1 :
  body x s = (s1, Ok tt) → pfor_each (x :: xs) body s = pfor_each xs body s1.
Proof. intros H. apply (proc_bind_ok (body x) (λ _, pfor_each xs body) s s1 tt H). Qed.

Lemma pfor_each_fmap {E S X Y} (f : X → Y) (xs : list X) (body : Y → proc E S unit) s :
  pfor_each (f <$> xs) body s = pfor_each xs (λ x, body (f x)) s.
Proof.
  revert s. induction xs as [|x xs IH]; intros s; [done|]. cbn. unfold mbind, proc_bind.
  destruct (body (f x) s) as [s1 [[]|e]]; [apply IH|done].
Qed.

(** A loop over updates that cannot raise. *)
Lemma pfor_each_pure {E S X} (xs : list X) (f : X → S → S) (body : X → proc E S unit) s :
  (∀ x s, x ∈ xs → body x s = (f x s, Ok tt)) →
  pfor_each xs body s = (foldl (λ s x, f x s) s xs, Ok tt).
Proof.
  revert s. induction xs as [|x xs IH]; intros s Hb; [done|]. cbn. unfold mbind, proc_bind.
  rewrite Hb by set_solver. apply IH. set_solver.
Qed.

(** What every step keeps, whether it raises or not, the loop keeps. *)
Lemma pfor_each_inv {E S X} (P : S → Prop) (xs : list X) (body : X → proc E S unit) s :
  P s → (∀ x s, x ∈ xs → P s → P (body x s).1) → P (pfor_each xs body s).1.
Proof.
  revert s. induction xs as [|x xs IH]; intros s Hs Hb; [done|]. cbn. unfold mbind, proc_bind.
  pose proof (Hb x s ltac:(set_solver) Hs) as H1. destruct (body x s) as [s1 [[]|e]]; [|done].
  apply IH; [done|]. set_solver.
Qed.

(** What a procedure keeps, whether it raises or not. *)
Definition keeps {E S A} (P : S → Prop) (m : proc E S A) : Prop := ∀ s, P s → P (m s).1.

Section keeps.
Context {E S : Type} (P : S → Prop).

Lemma keeps_bind {A B} (m : proc E S A) (f : A → proc E S B) :
  keeps P m → (∀ a, keeps P (f a)) → keeps P (m ≫= f).
Proof.
  intros Hm Hf s Hs. unfold mbind, proc_bind. specialize (Hm s Hs).
  destruct (m s) as [s1 [a|e]]; [by apply Hf|done].
Qed.

Lemma keeps_modify f : (∀ s, P s → P (f s)) → keeps P (pmodify (E := E) f).
Proof. by intros H s Hs; apply H. Qed.

Lemma keeps_for {X} (xs : list X) (body : X → proc E S unit) :
  (∀ x, x ∈ xs → keeps P (body x)) → keeps P (pfor_each xs body).
Proof. intros H s Hs. apply pfor_each_inv; [done|]. intros x s' Hx Hs'. by apply H. Qed.

Lemma keeps_get {A} (f : S → A) : keeps P (pget (E := E) f).
Proof. by intros s. Qed.
Lemma keeps_lift {A} (r : result E A) : keeps P (plift r).
Proof. by intros s. Qed.
Lemma keeps_raise {A} (e : E) : keeps P (praise (A := A) e).
Proof. by intros s. Qed.
Lemma keeps_ret {A} (a : A) : keeps P (mret a : proc E S A).
Proof. by intros s. Qed.
End keeps.
Create HintDb keeps.
#[export] Hint Resolve keeps_get keeps_lift keeps_raise keeps_ret : keeps.

Ltac keeps_steps :=
  repeat first
    [ lazymatch goal with
      | |- keeps _ (_ ≫= _) => apply keeps_bind; [|intros ?]
      | |- keeps _ (pmodify _) => apply keeps_modify
      end
    | solve [auto with keeps]
    | case_match ].

(** ** [for _ in range(n)] over a threaded state *)

Fixpoint for_nat {E S} (n : nat) (body : S → result E S) (s : S) : result E S :=
  match n with
  | O => Ok s
  | Datatypes.S n => s' ← body s; for_nat n body s'
  end.

(** [range(n)] is empty for a negative [n]. *)
Definition for_range {E S} (n : Z) (body : S → result E S) (s : S) : result E S :=
  for_nat (Z.to_nat n) body s.

Fixpoint gfor_nat {E Y S} (n : nat) (body : S → gen E Y S) (s : S) : gen E Y S :=
  match n with
  | O => mret s
  | Datatypes.S n => s' ← body s; gfor_nat n body s'
  end.

Definition gfor_range {E Y S} (n : Z) (body : S → gen E Y S) (s : S) : gen E Y S :=
  gfor_nat (Z.to_nat n) body s.

(** [for x in xs: s = body(s, x)] *)
Fixpoint for_each {E S X} (xs : list X) (body : S → X → result E S) (s : S)
  : result E S :=
  match xs with
  | [] => Ok s
  | x :: xs => s' ← body s x; for_each xs body s'
  end.

(** An invariant of the body is one of the loop. *)
Lemma for_each_inv {E S X} (P : S → Prop) (xs : list X) (body : S → X → result E S) s s' :
  P s → (∀ s x s', x ∈ xs → P s → body s x = Ok s' → P s') → for_each xs body s = Ok s' → P s'.
Proof.
  revert s. induction xs as [|x xs IH]; intros s Hs Hb; cbn.
  - by intros [= <-].
  - destruct (body s x) as [s1|] eqn:Hx; [|done]. cbn. apply IH.
    + apply (Hb s x); [set_solver|done|done].
    + intros s2 x2 s3 ?. apply Hb. set_solver.
Qed.

(** ** Lengths as integers, the way [len()] returns them *)

Definition len {A} (l : list A) : Z := Z.of_nat (length l).

Lemma len_nil {A} : len (@nil A) = 0.
Proof. done. Qed.
Lemma len_cons {A} (x : A) l : len (x :: l) = 1 + len l.
Proof. unfold len. cbn [length]. lia. Qed.
Lemma len_app {A} (l k : list A) : len (l ++ k) = len l + len k.
Proof. unfold len. rewrite length_app. lia. Qed.
Lemma len_nonneg {A} (l : list A) : 0 ≤ len l.
Proof. unfold len. lia. Qed.
Lemma len_zero {A} (l : list A) : len l = 0 ↔ l = [].
Proof. unfold len. destruct l; cbn; split; intros; [done|done|lia|done]. Qed.
Lemma len_take {A} (l : list A) (n : nat) :
  len (take n l) = Z.min (Z.of_nat n) (len l).
Proof. unfold len. rewrite length_take. lia. Qed.
Lemma len_drop {A} (l : list A) (n : nat) :
  len (drop n l) = Z.max 0 (len l - Z.of_nat n).
Proof. unfold len. rewrite length_drop. lia. Qed.

Lemma len_fmap {A B} (f : A → B) (l : list A) : len (f <$> l) = len l.
Proof. unfold len. by rewrite length_fmap. Qed.

Create Rewrite HintDb len.
#[export] Hint Rewrite @len_nil @len_cons @len_app @len_fmap : len.

(** Normalises lengths, adds their non-negativity, and calls [lia]. *)
Ltac len_pose :=
  repeat match goal with
  | |- context [len ?l] =>
      lazymatch goal with
      | _ : 0 ≤ len l |- _ => fail
      | _ => pose proof (len_nonneg l)
      end
  | _ : context [len ?l] |- _ =>
      lazymatch goal with
      | _ : 0 ≤ len l |- _ => fail
      | _ => pose proof (len_nonneg l)
      end
  end.
Ltac len_solve := autorewrite with len in *; len_pose; lia.

(** Boolean comparisons of integers as propositions. *)
Ltac zbool :=
  repeat match goal with
  | H : (_ <? _) = true |- _ => apply Z.ltb_lt in H
  | H : (_ <? _) = false |- _ => apply Z.ltb_ge in H
  | H : (_ <=? _) = true |- _ => apply Z.leb_le in H
  | H : (_ <=? _) = false |- _ => apply Z.leb_gt in H
  | H : (_ =? _) = true |- _ => apply Z.eqb_eq in H
  | H : (_ =? _) = false |- _ => apply Z.eqb_neq in H
  end.

(** Decides the boolean tests of the goal that [lia] can refute one way. *)
Ltac case_lia :=
  repeat first [case_match; [exfalso; zbool; lia|]|case_match; [|exfalso; zbool; lia]].

(** ** Python dictionaries: insertion-ordered association lists

    Assigning to a key that is present keeps its position; deleting removes
    the entry; iteration follows insertion order. *)
Module Dict.
Section dict.
Context {K V : Type} `{EqDecision K}.
Implicit Types (d : list (K * V)).

Fixpoint get (k : K) (d : list (K * V)) : option V :=
  match d with
  | [] => None
  | (k', v) :: d => if decide (k = k') then Some v else get k d
  end.

Fixpoint set (k : K) (v : V) (d : list (K * V)) : list (K * V) :=
  match d with
  | [] => [(k, v)]
  | (k', v') :: d => if decide (k = k') then (k, v) :: d else (k', v') :: set k v d
  end.

Fixpoint del (k : K) (d : list (K * V)) : list (K * V) :=
  match d with
  | [] => []
  | (k', v') :: d => if decide (k = k') then d else (k', v') :: del k d
  end.

Definition keys (d : list (K * V)) : list K := d.*1.
Definition values (d : list (K * V)) : list V := d.*2.

Lemma get_set d k k' v :
  get k (set k' v d) = if decide (k = k') then Some v else get k d.
Proof.
  induction d as [|[k0 v0] d IH]; cbn; repeat case_decide; cbn;
    repeat case_decide; simplify_eq; auto.
Qed.

Lemma get_set_eq d k v : get k (set k v d) = Some v.
Proof. rewrite get_set. by case_decide. Qed.

Lemma get_set_ne d k k' v : k ≠ k' → get k (set k' v d) = get k d.
Proof. intros. rewrite get_set. by case_decide. Qed.

Lemma get_Some_elem d k v : get k d = Some v → (k, v) ∈ d.
Proof.
  induction d as [|[k0 v0] d IH]; cbn; [done|].
  case_decide; intros; simplify_eq; set_solver.
Qed.

Lemma get_None d k : get k d = None ↔ k ∉ keys d.
Proof.
  induction d as [|[k0 v0] d IH]; cbn; [set_solver|].
  case_decide; simplify_eq; set_solver.
Qed.

Lemma get_elem d k v : NoDup (keys d) → (k, v) ∈ d → get k d = Some v.
Proof.
  induction d as [|[k0 v0] d IH]; cbn; [set_solver|].
  intros [Hk Hd]%NoDup_cons Hin. apply elem_of_cons in Hin as [?|Hin]; simplify_eq.
  - by case_decide.
  - case_decide; simplify_eq; [|auto].
    exfalso. apply Hk. apply list_elem_of_fmap. by exists (k0, v).
Qed.

Lemma get_elem_iff d k v : NoDup (keys d) → get k d = Some v ↔ (k, v) ∈ d.
Proof. split; auto using get_Some_elem, get_elem. Qed.

Lemma keys_set d k v :
  keys (set k v d) = if decide (k ∈ keys d) then keys d else keys d ++ [k].
Proof.
  induction d as [|[k0 v0] d IH]; cbn; [reflexivity|].
  destruct (decide (k = k0)) as [->|]; cbn.
  - rewrite decide_True; [done|set_solver].
  - unfold keys in IH |- *. rewrite IH.
    destruct (decide (k ∈ d.*1)).
    + rewrite decide_True; [done|set_solver].
    + rewrite decide_False; [done|set_solver].
Qed.

Lemma set_fresh d k v : k ∉ keys d → set k v d = d ++ [(k, v)].
Proof.
  induction d as [|[k0 v0] d IH]; cbn; [done|]. intros Hk.
  rewrite decide_False by set_solver. rewrite IH; [done|set_solver].
Qed.

Lemma NoDup_set d k v : NoDup (keys d) → NoDup (keys (set k v d)).
Proof.
  intros. rewrite keys_set. case_decide; [done|].
  apply NoDup_app. split; [done|]. split; [set_solver|].
  apply NoDup_singleton.
Qed.

Lemma keys_del_subset d k : keys (del k d) ⊆ keys d.
Proof.
  induction d as [|[k0 v0] d IH]; cbn; [set_solver|].
  case_decide; set_solver.
Qed.

Lemma del_sublist d k : sublist (del k d) d.
Proof.
  induction d as [|[k0 v0] d IH]; cbn; [done|].
  case_decide; [by apply sublist_cons|by apply sublist_skip].
Qed.

Lemma NoDup_del d k : NoDup (keys d) → NoDup (keys (del k d)).
Proof.
  intros. eapply sublist_NoDup; [done|].
  by apply fmap_sublist, del_sublist.
Qed.

Lemma get_del d k k' :
  NoDup (keys d) → get k (del k' d) = if decide (k = k') then None else get k d.
Proof.
  induction d as [|[k0 v0] d IH]; cbn; [by case_decide|].
  intros [Hk Hd]%NoDup_cons.
  destruct (decide (k' = k0)) as [->|]; cbn; repeat case_decide; simplify_eq; auto.
  - by apply get_None.
Qed.

Lemma del_fresh d k : k ∉ keys d → del k d = d.
Proof.
  induction d as [|[k0 v0] d IH]; cbn; [done|]. intros Hk.
  rewrite decide_False by set_solver. rewrite IH; [done|set_solver].
Qed.

Lemma keys_app d d' : keys (d ++ d') = keys d ++ keys d'.
Proof. apply fmap_app. Qed.

Lemma values_app d d' : values (d ++ d') = values d ++ values d'.
Proof. apply fmap_app. Qed.

Lemma values_del d k v : get k d = Some v → values d ≡ₚ v :: values (del k d).
Proof.
  induction d as [|[k0 v0] d IH]; cbn; [done|]. case_decide; intros; simplify_eq; [done|].
  cbn. rewrite IH by done. apply Permutation_swap.
Qed.

Lemma keys_del d k v : get k d = Some v → keys d ≡ₚ k :: keys (del k d).
Proof.
  induction d as [|[k0 v0] d IH]; cbn; [done|]. case_decide; intros; simplify_eq; [done|].
  cbn. rewrite IH by done. apply Permutation_swap.
Qed.

End dict.
End Dict.

(** Operations on a dictionary split at an entry. *)
Section dict_middle.
Context {K V : Type} `{EqDecision K}.
Implicit Types (d : list (K * V)).

Lemma dict_split d k v :
  NoDup (Dict.keys d) → Dict.get k d = Some v →
  ∃ d1 d2, d = (d1 ++ (k, v) :: d2) ∧ (k ∉ Dict.keys d1) ∧ (k ∉ Dict.keys d2).
Proof.
  intros Hnd Hg. apply Dict.get_Some_elem in Hg.
  apply list_elem_of_split in Hg as (d1 & d2 & ->). exists d1, d2. split; [done|].
  rewrite Dict.keys_app in Hnd. cbn in Hnd. apply NoDup_app in Hnd as (_ & H1 & [H2 _]%NoDup_cons).
  split; [|done]. intros Hin. by apply (H1 k Hin); left.
Qed.

Lemma dict_get_middle d1 d2 k v :
  k ∉ Dict.keys d1 → Dict.get k (d1 ++ (k, v) :: d2) = Some v.
Proof.
  induction d1 as [|[k0 v0] d1 IH]; cbn; [by rewrite decide_True|].
  intros Hk. rewrite decide_False by set_solver. apply IH. set_solver.
Qed.

Lemma dict_set_middle d1 d2 k v v' :
  k ∉ Dict.keys d1 → Dict.set k v' (d1 ++ (k, v) :: d2) = d1 ++ (k, v') :: d2.
Proof.
  induction d1 as [|[k0 v0] d1 IH]; cbn; [by rewrite decide_True|].
  intros Hk. rewrite decide_False by set_solver. rewrite IH; set_solver.
Qed.

Lemma dict_del_middle d1 d2 k v :
  k ∉ Dict.keys d1 → Dict.del k (d1 ++ (k, v) :: d2) = d1 ++ d2.
Proof.
  induction d1 as [|[k0 v0] d1 IH]; cbn; [by rewrite decide_True|].
  intros Hk. rewrite decide_False by set_solver. rewrite IH; set_solver.
Qed.
End dict_middle.

(** ** [defaultdict(list)]: collecting values under keys *)
Section collect.
Context {K X : Type} `{EqDecision K}.
Implicit Types (d : list (K * list X)) (l : list (K * X)).

(** [d[k].append(x)] *)
Definition dict_append (k : K) (x : X) d : list (K * list X) :=
  Dict.set k (default [] (Dict.get k d) ++ [x]) d.

Definition collect l d : list (K * list X) := foldl (λ d kx, dict_append kx.1 kx.2 d) d l.

Lemma collect_snoc l kx : collect (l ++ [kx]) [] = dict_append kx.1 kx.2 (collect l []).
Proof. unfold collect. by rewrite foldl_app. Qed.

(** Under each key, its values in order; no key without values. *)
Lemma collect_get l k : default [] (Dict.get k (collect l [])) = (filter (λ kx, kx.1 = k) l).*2.
Proof.
  induction l as [|[k' x] l IH] using rev_ind; [done|]. rewrite collect_snoc. unfold dict_append.
  rewrite Dict.get_set, filter_app, fmap_app, filter_cons, filter_nil. cbn [fst snd].
  destruct (decide (k = k')) as [->|].
  - rewrite decide_True by done. cbn. by rewrite IH.
  - by rewrite decide_False, app_nil_r, IH.
Qed.

Lemma collect_nodup l : NoDup (Dict.keys (collect l [])).
Proof.
  induction l as [|kx l IH] using rev_ind; [constructor|]. rewrite collect_snoc. by apply Dict.NoDup_set.
Qed.

Lemma collect_keys l k : k ∈ Dict.keys (collect l []) ↔ k ∈ l.*1.
Proof.
  induction l as [|[k' x] l IH] using rev_ind; [done|]. rewrite collect_snoc, fmap_app, elem_of_app, <- IH.
  unfold dict_append. cbn. rewrite Dict.keys_set. case_decide; rewrite ?elem_of_app, list_elem_of_singleton.
  - split; [by left|]. by intros [?| ->].
  - done.
Qed.

Lemma collect_elem l k xs :
  (k, xs) ∈ collect l [] → xs = (filter (λ kx, kx.1 = k) l).*2 ∧ xs ≠ [].
Proof.
  intros Hin. pose proof (Dict.get_elem _ _ _ (collect_nodup l) Hin) as Hg.
  pose proof (collect_get l k) as Hc. rewrite Hg in Hc. cbn in Hc. split; [done|]. subst xs.
  assert (k ∈ l.*1) as Hk by (apply collect_keys, list_elem_of_fmap; by exists (k, (filter (λ kx, kx.1 = k) l).*2)).
  apply list_elem_of_fmap in Hk as ([k' x] & -> & Hk). cbn in *.
  assert (x ∈ (filter (λ kx : K * X, kx.1 = k') l).*2) as Hx.
  { apply list_elem_of_fmap. exists (k', x). split; [done|]. by apply list_elem_of_filter. }
  intros He. rewrite He in Hx. by apply elem_of_nil in Hx.
Qed.

Lemma concat_append k x d : concat (dict_append k x d).*2 ≡ₚ x :: concat d.*2.
Proof.
  unfold dict_append. induction d as [|[k' xs] d IH]; cbn; [done|].
  destruct (decide (k = k')) as [->|]; cbn.
  - rewrite <- app_assoc. cbn. by rewrite <- Permutation_middle.
  - rewrite IH. by rewrite <- Permutation_middle.
Qed.

Lemma collect_perm l : concat (collect l []).*2 ≡ₚ l.*2.
Proof.
  induction l as [|kx l IH] using rev_ind; [done|].
  rewrite collect_snoc, concat_append, IH, fmap_app. cbn. apply Permutation_cons_append.
Qed.
End collect.

Lemma filter_ext_in {A} (P Q : A → Prop) `{∀ x, Decision (P x), ∀ x, Decision (Q x)} (l : list A) :
  (∀ x, x ∈ l → P x ↔ Q x) → filter P l = filter Q l.
Proof.
  induction l as [|x l IH]; intros Hl; [done|]. rewrite !filter_cons, IH by set_solver.
  pose proof (Hl x ltac:(set_solver)). by repeat case_decide; tauto.
Qed.

Lemma omap_cons_app {A B} (f : A → option B) x l :
  omap f (x :: l) = option_list (f x) ++ omap f l.
Proof. cbn. by destruct (f x). Qed.

Lemma NoDup_app_middle {A} (l1 l2 : list A) x : NoDup (l1 ++ x :: l2) → NoDup (l1 ++ l2).
Proof.
  intros H. eapply sublist_NoDup; [exact H|]. apply sublist_app; [done|]. by apply sublist_cons.
Qed.

(** The dictionary seen as a finite map: iteration order is forgotten. *)
Lemma dict_get_map `{Countable K} {V} (d : list (K * V)) k :
  Dict.get k d = (list_to_map d : gmap K V) !! k.
Proof.
  induction d as [|[k0 v0] d IH]; cbn; [done|].
  destruct (decide (k = k0)) as [->|]; [by rewrite lookup_insert_eq|].
  by rewrite lookup_insert_ne.
Qed.
