(* ===== verification/Ordering.v ===== *)
(** How Python orders strings and tuples, [sorted] of lists and of sets: shared by
    the assignment of partitions and the bootstrap hosts. *)
From S2P Require Import Prelude.
Local Open Scope Z_scope.

(** ** Order of strings and of (topic, partition) pairs *)

(** [str] comparison: code point by code point. *)
Fixpoint text_leb (s t : text) : bool :=
  match s, t with
  | [], _ => true
  | _ :: _, [] => false
  | x :: s, y :: t => if x =? y then text_leb s t else x <? y
  end.

(** Tuple comparison. *)
Definition pair_leb (p q : text * Z) : bool :=
  if bool_decide (p.1 = q.1) then p.2 <=? q.2 else text_leb p.1 q.1.

Definition text_le (s t : text) : Prop := text_leb s t = true.
Definition pair_le (p q : text * Z) : Prop := pair_leb p q = true.

#[export] Instance text_le_dec : RelDecision text_le := λ s t, bool_eq_dec _ _.
#[export] Instance pair_le_dec : RelDecision pair_le := λ p q, bool_eq_dec _ _.

(** [sorted(s)] of a set [s], given by its elements. *)
Definition sorted_set (xs : list (text * Z)) : list (text * Z) := merge_sort pair_le (remove_dups xs).

(** ** The orders are total orders *)

Lemma text_leb_refl s : text_leb s s = true.
Proof. induction s as [|x s IH]; [done|]. cbn. by rewrite Z.eqb_refl. Qed.

Lemma text_leb_antisym s t : text_leb s t = true → text_leb t s = true → s = t.
Proof.
  revert t. induction s as [|x s IH]; intros [|y t]; cbn; try done.
  destruct (x =? y) eqn:Hxy, (y =? x) eqn:Hyx; zbool; intros; zbool; try lia.
  subst. f_equal. auto.
Qed.

Lemma text_leb_total s t : text_leb s t = true ∨ text_leb t s = true.
Proof.
  revert t. induction s as [|x s IH]; intros [|y t]; cbn; auto.
  destruct (x =? y) eqn:Hxy, (y =? x) eqn:Hyx; zbool; subst; try lia; auto.
Qed.

Lemma text_leb_trans s t u : text_leb s t = true → text_leb t u = true → text_leb s u = true.
Proof.
  revert t u. induction s as [|x s IH]; intros [|y t] [|z u]; cbn; try done.
  destruct (x =? y) eqn:Hxy, (y =? z) eqn:Hyz, (x =? z) eqn:Hxz; zbool; intros; zbool;
    subst; try lia; try apply Z.ltb_lt; try lia; eauto.
Qed.

#[export] Instance text_le_trans : Transitive text_le.
Proof. intros s t u. apply text_leb_trans. Qed.
#[export] Instance text_le_antisym : AntiSymm (=) text_le.
Proof. intros s t. apply text_leb_antisym. Qed.
#[export] Instance text_le_total : Total text_le.
Proof. intros s t. apply text_leb_total. Qed.

#[export] Instance pair_le_trans : Transitive pair_le.
Proof.
  intros [s a] [t b] [u c]. unfold pair_le, pair_leb. cbn.
  repeat case_bool_decide; subst; intros; zbool; try done.
  - apply Z.leb_le. lia.
  - exfalso. auto using text_leb_antisym.
  - eauto using text_leb_trans.
Qed.
#[export] Instance pair_le_antisym : AntiSymm (=) pair_le.
Proof.
  intros [s a] [t b]. unfold pair_le, pair_leb. cbn.
  repeat case_bool_decide; subst; intros; zbool; try done; [f_equal; lia|].
  exfalso. auto using text_leb_antisym.
Qed.
#[export] Instance pair_le_total : Total pair_le.
Proof.
  intros [s a] [t b]. unfold pair_le, pair_leb. cbn.
  repeat case_bool_decide; subst; try done; [|apply text_leb_total].
  destruct (a <=? b) eqn:?; zbool; [by left|right]. apply Z.leb_le. lia.
Qed.

(** Sorting forgets the order of its input. *)
Lemma merge_sort_eq {A} (R : relation A) `{!RelDecision R, !Transitive R, !AntiSymm (=) R, !Total R}
    l k : l ≡ₚ k → merge_sort R l = merge_sort R k.
Proof.
  intros Hp. apply (Sorted_unique R).
  - apply Sorted_merge_sort, _.
  - apply Sorted_merge_sort, _.
  - by rewrite !merge_sort_Permutation.
Qed.

Lemma sorted_set_elem xs x : x ∈ sorted_set xs ↔ x ∈ xs.
Proof. unfold sorted_set. rewrite (merge_sort_Permutation pair_le). apply elem_of_remove_dups. Qed.

Lemma sorted_set_nodup xs : NoDup (sorted_set xs).
Proof. unfold sorted_set. rewrite (merge_sort_Permutation pair_le). apply NoDup_remove_dups. Qed.

Lemma sorted_set_sorted xs : Sorted pair_le (sorted_set xs).
Proof. apply (Sorted_merge_sort pair_le). Qed.

(** There is only one sorted list of the elements of a set. *)
Lemma sorted_set_unique xs l : Sorted pair_le l → NoDup l → (∀ x, x ∈ l ↔ x ∈ xs) → l = sorted_set xs.
Proof.
  intros Hs Hnd He. apply (Sorted_unique pair_le); [done|apply sorted_set_sorted|].
  apply NoDup_Permutation; [done|apply sorted_set_nodup|]. intros x. by rewrite sorted_set_elem.
Qed.
