(* ===== verification/Common.v ===== *)
(** [afkak/common.py]: the constants, the request and response structs and
    the exception hierarchy, with the error-code table
    [BrokerResponseError.errnos] and the functions that read it. *)
From S2P Require Import Prelude.
From stdpp Require Import pretty.
Local Open Scope Z_scope.

(** ** Constants *)

Definition DefaultKafkaPort : Z := 9092.
Definition OFFSET_EARLIEST : Z := -2.
Definition OFFSET_LATEST : Z := -1.
Definition OFFSET_NOT_COMMITTED : Z := -1.
Definition OFFSET_COMMITTED : Z := -101.
Definition TIMESTAMP_INVALID : Z := -1.
Definition KAFKA_SUCCESS : Z := 0.
Definition PRODUCER_ACK_NOT_REQUIRED : Z := 0.
Definition PRODUCER_ACK_LOCAL_WRITE : Z := 1.
Definition PRODUCER_ACK_ALL_REPLICAS : Z := -1.
Definition CODEC_NONE : Z := 0.
Definition CODEC_GZIP : Z := 1.
Definition CODEC_SNAPPY : Z := 2.
Definition CODEC_LZ4 : Z := 3.
Definition _ALL_CODECS : list Z := [CODEC_NONE; CODEC_GZIP; CODEC_SNAPPY].

(** ** Structs *)

(** A Kafka message in format 0. A [None] key or value is the null string. *)
Record Message := mkMessage {
  magic : Z;
  attributes : Z;
  key : option bytes;
  value : option bytes;
}.

Record OffsetAndMessage := mkOffsetAndMessage {
  om_offset : Z;
  om_message : Message;
}.

Record TopicAndPartition := mkTopicAndPartition {
  tp_topic : text;
  tp_partition : Z;
}.

(** [sr_deferred] is the identity of the [Deferred]. *)
Record SendRequest := mkSendRequest {
  sr_topic : text;
  sr_key : option bytes;
  sr_messages : list (option bytes);
  sr_deferred : nat;
}.

Record ProduceRequest := mkProduceRequest {
  pr_topic : text;
  pr_partition : Z;
  pr_messages : list Message;
}.

Record FetchRequest := mkFetchRequest {
  fr_topic : text;
  fr_partition : Z;
  fr_offset : Z;
  fr_max_bytes : Z;
}.

Record OffsetRequest := mkOffsetRequest {
  or_topic : text;
  or_partition : Z;
  or_time : Z;
  or_max_offsets : Z;
}.

Record OffsetCommitRequest := mkOffsetCommitRequest {
  ocr_topic : text;
  ocr_partition : Z;
  ocr_offset : Z;
  ocr_timestamp : Z;
  ocr_metadata : option bytes;
}.

Record OffsetFetchRequest := mkOffsetFetchRequest {
  ofr_topic : text;
  ofr_partition : Z;
}.

Record ProduceResponse := mkProduceResponse {
  prr_topic : text;
  prr_partition : Z;
  prr_error : Z;
  prr_offset : Z;
}.

(** [M] is the type of the [messages] attribute: in the source it is a
    generator, here the run of one. *)
Record FetchResponse (M : Type) := mkFetchResponse {
  frr_topic : text;
  frr_partition : Z;
  frr_error : Z;
  frr_highwaterMark : Z;
  frr_messages : M;
}.
Arguments mkFetchResponse {_} _ _ _ _ _.
Arguments frr_topic {_} _.
Arguments frr_partition {_} _.
Arguments frr_error {_} _.
Arguments frr_highwaterMark {_} _.
Arguments frr_messages {_} _.

Record OffsetResponse := mkOffsetResponse {
  orr_topic : text;
  orr_partition : Z;
  orr_error : Z;
  orr_offsets : list Z;
}.

Record OffsetCommitResponse := mkOffsetCommitResponse {
  ocrr_topic : text;
  ocrr_partition : Z;
  ocrr_error : Z;
}.

Record OffsetFetchResponse := mkOffsetFetchResponse {
  ofrr_topic : text;
  ofrr_partition : Z;
  ofrr_offset : Z;
  ofrr_metadata : option bytes;
  ofrr_error : Z;
}.

Record ConsumerMetadataResponse := mkConsumerMetadataResponse {
  cmr_error : Z;
  cmr_node_id : Z;
  cmr_host : text;
  cmr_port : Z;
}.

Record BrokerMetadata := mkBrokerMetadata {
  bm_node_id : Z;
  bm_host : text;
  bm_port : Z;
}.

Record PartitionMetadata := mkPartitionMetadata {
  pm_topic : text;
  pm_partition : Z;
  pm_partition_error_code : Z;
  pm_leader : Z;
  pm_replicas : list Z;
  pm_isr : list Z;
}.

(** [tm_partition_metadata] is a [dict] keyed by partition number. *)
Record TopicMetadata := mkTopicMetadata {
  tm_topic : text;
  tm_topic_error_code : Z;
  tm_partition_metadata : list (Z * PartitionMetadata);
}.

Record _JoinGroupRequestProtocol := mkJoinGroupRequestProtocol {
  jgp_protocol_name : text;
  jgp_protocol_metadata : option bytes;
}.

Record _JoinGroupProtocolMetadata := mkJoinGroupProtocolMetadata {
  jgpm_version : Z;
  jgpm_subscriptions : list text;
  jgpm_user_data : option bytes;
}.

Record _JoinGroupRequest := mkJoinGroupRequest {
  jgr_group : text;
  jgr_session_timeout : Z;
  jgr_member_id : text;
  jgr_protocol_type : text;
  jgr_group_protocols : list _JoinGroupRequestProtocol;
}.

Record _JoinGroupResponseMember := mkJoinGroupResponseMember {
  jgm_member_id : text;
  jgm_member_metadata : option bytes;
}.

Record _JoinGroupResponse := mkJoinGroupResponse {
  jgrr_error : Z;
  jgrr_generation_id : Z;
  jgrr_group_protocol : text;
  jgrr_leader_id : text;
  jgrr_member_id : text;
  jgrr_members : list _JoinGroupResponseMember;
}.

Record _SyncGroupRequestMember := mkSyncGroupRequestMember {
  sgm_member_id : text;
  sgm_member_metadata : option bytes;
}.

(** [sga_assignments] is a [dict] from topic to partition numbers. *)
Record _SyncGroupMemberAssignment := mkSyncGroupMemberAssignment {
  sga_version : Z;
  sga_assignments : list (text * list Z);
  sga_user_data : option bytes;
}.

Record _SyncGroupRequest := mkSyncGroupRequest {
  sgr_group : text;
  sgr_generation_id : Z;
  sgr_member_id : text;
  sgr_group_assignment : list _SyncGroupRequestMember;
}.

Record _SyncGroupResponse := mkSyncGroupResponse {
  sgrr_error : Z;
  sgrr_member_assignment : option bytes;
}.

Record _HeartbeatRequest := mkHeartbeatRequest {
  hbr_group : text;
  hbr_generation_id : Z;
  hbr_member_id : text;
}.

Record _HeartbeatResponse := mkHeartbeatResponse { hbrr_error : Z }.

Record _LeaveGroupRequest := mkLeaveGroupRequest {
  lgr_group : text;
  lgr_member_id : text;
}.

Record _LeaveGroupResponse := mkLeaveGroupResponse { lgrr_error : Z }.

#[export] Instance Message_eq_dec : EqDecision Message.
Proof. solve_decision. Defined.
#[export] Instance OffsetAndMessage_eq_dec : EqDecision OffsetAndMessage.
Proof. solve_decision. Defined.
#[export] Instance BrokerMetadata_eq_dec : EqDecision BrokerMetadata.
Proof. solve_decision. Defined.

(** ** Broker error codes

    One constructor for each subclass of [BrokerResponseError] that carries an
    error code. *)

Inductive broker_class : Type :=
| UnknownError
| OffsetOutOfRangeError
| CorruptMessage
| UnknownTopicOrPartitionError
| InvalidFetchRequestError
| LeaderNotAvailableError
| NotLeaderForPartitionError
| RequestTimedOutError
| BrokerNotAvailableError
| ReplicaNotAvailableError
| MessageSizeTooLargeError
| StaleControllerEpochError
| OffsetMetadataTooLargeError
| NetworkException
| CoordinatorLoadInProgress
| CoordinatorNotAvailable
| NotCoordinator
| InvalidTopic
| RecordListTooLarge
| NotEnoughReplicas
| NotEnoughReplicasAfterAppend
| InvalidRequiredAcks
| IllegalGeneration
| InconsistentGroupProtocol
| InvalidGroupId
| UnknownMemberId
| InvalidSessionTimeout
| RebalanceInProgress
| InvalidCommitOffsetSize
| TopicAuthorizationFailed
| GroupAuthorizationFailed
| ClusterAuthorizationFailed
| InvalidTimestamp
| UnsupportedSaslMechanism
| IllegalSaslState
| UnsupportedVersion
| TopicAlreadyExists
| InvalidPartitions
| InvalidReplicationFactor
| InvalidReplicaAssignment
| InvalidConfig
| NotController
| InvalidRequest
| UnsupportedForMessageFormat
| PolicyViolation
| OutOfOrderSequenceNumber
| DuplicateSequenceNumber
| InvalidProducerEpoch
| InvalidTxnState
| InvalidProducerIdMapping
| InvalidTransactionTimeout
| ConcurrentTransactions
| TransactionCoordinatorFenced
| TransactionalIdAuthorizationFailed
| SecurityDisabled
| OperationNotAttempted
| KafkaStorageError
| LogDirNotFound
| SaslAuthenticationFailed
| UnknownProducerId
| ReassignmentInProgress
| DelegationTokenAuthDisabled
| DelegationTokenNotFound
| DelegationTokenOwnerMismatch
| DelegationTokenRequestNotAllowed
| DelegationTokenAuthorizationFailed
| DelegationTokenExpired
| InvalidPrincipalType
| NonEmptyGroup
| GroupIdNotFound
| FetchSessionIdNotFound
| InvalidFetchSessionEpoch
| ListenerNotFound.

#[export] Instance broker_class_eq_dec : EqDecision broker_class.
Proof. solve_decision. Defined.

(** The [errno] class attribute. *)
Definition errno (c : broker_class) : Z :=
  match c with
  | UnknownError => (-1)
  | OffsetOutOfRangeError => 1
  | CorruptMessage => 2
  | UnknownTopicOrPartitionError => 3
  | InvalidFetchRequestError => 4
  | LeaderNotAvailableError => 5
  | NotLeaderForPartitionError => 6
  | RequestTimedOutError => 7
  | BrokerNotAvailableError => 8
  | ReplicaNotAvailableError => 9
  | MessageSizeTooLargeError => 10
  | StaleControllerEpochError => 11
  | OffsetMetadataTooLargeError => 12
  | NetworkException => 13
  | CoordinatorLoadInProgress => 14
  | CoordinatorNotAvailable => 15
  | NotCoordinator => 16
  | InvalidTopic => 17
  | RecordListTooLarge => 18
  | NotEnoughReplicas => 19
  | NotEnoughReplicasAfterAppend => 20
  | InvalidRequiredAcks => 21
  | IllegalGeneration => 22
  | InconsistentGroupProtocol => 23
  | InvalidGroupId => 24
  | UnknownMemberId => 25
  | InvalidSessionTimeout => 26
  | RebalanceInProgress => 27
  | InvalidCommitOffsetSize => 28
  | TopicAuthorizationFailed => 29
  | GroupAuthorizationFailed => 30
  | ClusterAuthorizationFailed => 31
  | InvalidTimestamp => 32
  | UnsupportedSaslMechanism => 33
  | IllegalSaslState => 34
  | UnsupportedVersion => 35
  | TopicAlreadyExists => 36
  | InvalidPartitions => 37
  | InvalidReplicationFactor => 38
  | InvalidReplicaAssignment => 39
  | InvalidConfig => 40
  | NotController => 41
  | InvalidRequest => 42
  | UnsupportedForMessageFormat => 43
  | PolicyViolation => 44
  | OutOfOrderSequenceNumber => 45
  | DuplicateSequenceNumber => 46
  | InvalidProducerEpoch => 47
  | InvalidTxnState => 48
  | InvalidProducerIdMapping => 49
  | InvalidTransactionTimeout => 50
  | ConcurrentTransactions => 51
  | TransactionCoordinatorFenced => 52
  | TransactionalIdAuthorizationFailed => 53
  | SecurityDisabled => 54
  | OperationNotAttempted => 55
  | KafkaStorageError => 56
  | LogDirNotFound => 57
  | SaslAuthenticationFailed => 58
  | UnknownProducerId => 59
  | ReassignmentInProgress => 60
  | DelegationTokenAuthDisabled => 61
  | DelegationTokenNotFound => 62
  | DelegationTokenOwnerMismatch => 63
  | DelegationTokenRequestNotAllowed => 64
  | DelegationTokenAuthorizationFailed => 65
  | DelegationTokenExpired => 66
  | InvalidPrincipalType => 67
  | NonEmptyGroup => 68
  | GroupIdNotFound => 69
  | FetchSessionIdNotFound => 70
  | InvalidFetchSessionEpoch => 71
  | ListenerNotFound => 72
  end.

(** The [message] class attribute. *)
Definition message (c : broker_class) : string :=
  match c with
  | UnknownError => "UNKNOWN_SERVER_ERROR"
  | OffsetOutOfRangeError => "OFFSET_OUT_OF_RANGE"
  | CorruptMessage => "CORRUPT_MESSAGE"
  | UnknownTopicOrPartitionError => "UNKNOWN_TOPIC_OR_PARTITION"
  | InvalidFetchRequestError => "INVALID_FETCH_SIZE"
  | LeaderNotAvailableError => "LEADER_NOT_AVAILABLE"
  | NotLeaderForPartitionError => "NOT_LEADER_FOR_PARTITION"
  | RequestTimedOutError => "REQUEST_TIMED_OUT"
  | BrokerNotAvailableError => "BROKER_NOT_AVAILABLE"
  | ReplicaNotAvailableError => "REPLICA_NOT_AVAILABLE"
  | MessageSizeTooLargeError => "MESSAGE_SIZE_TOO_LARGE"
  | StaleControllerEpochError => "STALE_CONTROLLER_EPOCH"
  | OffsetMetadataTooLargeError => "OFFSET_METADATA_TOO_LARGE"
  | NetworkException => "NETWORK_EXCEPTION"
  | CoordinatorLoadInProgress => "COORDINATOR_LOAD_IN_PROGRESS"
  | CoordinatorNotAvailable => "COORDINATOR_NOT_AVAILABLE"
  | NotCoordinator => "NOT_COORDINATOR"
  | InvalidTopic => "INVALID_TOPIC_EXCEPTION"
  | RecordListTooLarge => "RECORD_LIST_TOO_LARGE"
  | NotEnoughReplicas => "NOT_ENOUGH_REPLICAS"
  | NotEnoughReplicasAfterAppend => "NOT_ENOUGH_REPLICAS_AFTER_APPEND"
  | InvalidRequiredAcks => "INVALID_REQUIRED_ACKS"
  | IllegalGeneration => "ILLEGAL_GENERATION"
  | InconsistentGroupProtocol => "INCONSISTENT_GROUP_PROTOCOL"
  | InvalidGroupId => "INVALID_GROUP_ID"
  | UnknownMemberId => "UNKNOWN_MEMBER_ID"
  | InvalidSessionTimeout => "INVALID_SESSION_TIMEOUT"
  | RebalanceInProgress => "REBALANCE_IN_PROGRESS"
  | InvalidCommitOffsetSize => "INVALID_COMMIT_OFFSET_SIZE"
  | TopicAuthorizationFailed => "TOPIC_AUTHORIZATION_FAILED"
  | GroupAuthorizationFailed => "GROUP_AUTHORIZATION_FAILED"
  | ClusterAuthorizationFailed => "CLUSTER_AUTHORIZATION_FAILED"
  | InvalidTimestamp => "INVALID_TIMESTAMP"
  | UnsupportedSaslMechanism => "UNSUPPORTED_SASL_MECHANISM"
  | IllegalSaslState => "ILLEGAL_SASL_STATE"
  | UnsupportedVersion => "UNSUPPORTED_VERSION"
  | TopicAlreadyExists => "TOPIC_ALREADY_EXISTS"
  | InvalidPartitions => "INVALID_PARTITIONS"
  | InvalidReplicationFactor => "INVALID_REPLICATION_FACTOR"
  | InvalidReplicaAssignment => "INVALID_REPLICA_ASSIGNMENT"
  | InvalidConfig => "INVALID_CONFIG"
  | NotController => "NOT_CONTROLLER"
  | InvalidRequest => "INVALID_REQUEST"
  | UnsupportedForMessageFormat => "UNSUPPORTED_FOR_MESSAGE_FORMAT"
  | PolicyViolation => "POLICY_VIOLATION"
  | OutOfOrderSequenceNumber => "OUT_OF_ORDER_SEQUENCE_NUMBER"
  | DuplicateSequenceNumber => "DUPLICATE_SEQUENCE_NUMBER"
  | InvalidProducerEpoch => "INVALID_PRODUCER_EPOCH"
  | InvalidTxnState => "INVALID_TXN_STATE"
  | InvalidProducerIdMapping => "INVALID_PRODUCER_ID_MAPPING"
  | InvalidTransactionTimeout => "INVALID_TRANSACTION_TIMEOUT"
  | ConcurrentTransactions => "CONCURRENT_TRANSACTIONS"
  | TransactionCoordinatorFenced => "TRANSACTION_COORDINATOR_FENCED"
  | TransactionalIdAuthorizationFailed => "TRANSACTIONAL_ID_AUTHORIZATION_FAILED"
  | SecurityDisabled => "SECURITY_DISABLED"
  | OperationNotAttempted => "OPERATION_NOT_ATTEMPTED"
  | KafkaStorageError => "KAFKA_STORAGE_ERROR"
  | LogDirNotFound => "LOG_DIR_NOT_FOUND"
  | SaslAuthenticationFailed => "SASL_AUTHENTICATION_FAILED"
  | UnknownProducerId => "UNKNOWN_PRODUCER_ID"
  | ReassignmentInProgress => "REASSIGNMENT_IN_PROGRESS"
  | DelegationTokenAuthDisabled => "DELEGATION_TOKEN_AUTH_DISABLED"
  | DelegationTokenNotFound => "DELEGATION_TOKEN_NOT_FOUND"
  | DelegationTokenOwnerMismatch => "DELEGATION_TOKEN_OWNER_MISMATCH"
  | DelegationTokenRequestNotAllowed => "DELEGATION_TOKEN_REQUEST_NOT_ALLOWED"
  | DelegationTokenAuthorizationFailed => "DELEGATION_TOKEN_AUTHORIZATION_FAILED"
  | DelegationTokenExpired => "DELEGATION_TOKEN_EXPIRED"
  | InvalidPrincipalType => "INVALID_PRINCIPAL_TYPE"
  | NonEmptyGroup => "NON_EMPTY_GROUP"
  | GroupIdNotFound => "GROUP_ID_NOT_FOUND"
  | FetchSessionIdNotFound => "FETCH_SESSION_ID_NOT_FOUND"
  | InvalidFetchSessionEpoch => "INVALID_FETCH_SESSION_EPOCH"
  | ListenerNotFound => "LISTENER_NOT_FOUND"
  end.

(** The [retriable] class attribute: set by the base class
    [RetriableBrokerResponseError], unset by [BrokerResponseError]. *)
Definition retriable (c : broker_class) : bool :=
  match c with
  | CorruptMessage
  | UnknownTopicOrPartitionError
  | LeaderNotAvailableError
  | NotLeaderForPartitionError
  | RequestTimedOutError
  | NetworkException
  | CoordinatorLoadInProgress
  | CoordinatorNotAvailable
  | NotCoordinator
  | NotEnoughReplicas
  | NotEnoughReplicasAfterAppend
  | NotController
  | KafkaStorageError
  | FetchSessionIdNotFound
  | InvalidFetchSessionEpoch
  | ListenerNotFound => true
  | _ => false
  end.

(** [BrokerResponseError.errnos], in the order of the source. *)
Definition errnos : list (Z * broker_class) := [
  ((-1), UnknownError);
  (1, OffsetOutOfRangeError);
  (2, CorruptMessage);
  (3, UnknownTopicOrPartitionError);
  (4, InvalidFetchRequestError);
  (5, LeaderNotAvailableError);
  (6, NotLeaderForPartitionError);
  (7, RequestTimedOutError);
  (8, BrokerNotAvailableError);
  (9, ReplicaNotAvailableError);
  (10, MessageSizeTooLargeError);
  (11, StaleControllerEpochError);
  (12, OffsetMetadataTooLargeError);
  (13, NetworkException);
  (14, CoordinatorLoadInProgress);
  (15, CoordinatorNotAvailable);
  (16, NotCoordinator);
  (17, InvalidTopic);
  (18, RecordListTooLarge);
  (19, NotEnoughReplicas);
  (20, NotEnoughReplicasAfterAppend);
  (21, InvalidRequiredAcks);
  (22, IllegalGeneration);
  (23, InconsistentGroupProtocol);
  (24, InvalidGroupId);
  (25, UnknownMemberId);
  (26, InvalidSessionTimeout);
  (27, RebalanceInProgress);
  (28, InvalidCommitOffsetSize);
  (29, TopicAuthorizationFailed);
  (30, GroupAuthorizationFailed);
  (31, ClusterAuthorizationFailed);
  (32, InvalidTimestamp);
  (33, UnsupportedSaslMechanism);
  (34, IllegalSaslState);
  (35, UnsupportedVersion);
  (36, TopicAlreadyExists);
  (37, InvalidPartitions);
  (38, InvalidReplicationFactor);
  (39, InvalidReplicaAssignment);
  (40, InvalidConfig);
  (41, NotController);
  (42, InvalidRequest);
  (43, UnsupportedForMessageFormat);
  (44, PolicyViolation);
  (45, OutOfOrderSequenceNumber);
  (46, DuplicateSequenceNumber);
  (47, InvalidProducerEpoch);
  (48, InvalidTxnState);
  (49, InvalidProducerIdMapping);
  (50, InvalidTransactionTimeout);
  (51, ConcurrentTransactions);
  (52, TransactionCoordinatorFenced);
  (53, TransactionalIdAuthorizationFailed);
  (54, SecurityDisabled);
  (55, OperationNotAttempted);
  (56, KafkaStorageError);
  (57, LogDirNotFound);
  (58, SaslAuthenticationFailed);
  (59, UnknownProducerId);
  (60, ReassignmentInProgress);
  (61, DelegationTokenAuthDisabled);
  (62, DelegationTokenNotFound);
  (63, DelegationTokenOwnerMismatch);
  (64, DelegationTokenRequestNotAllowed);
  (65, DelegationTokenAuthorizationFailed);
  (66, DelegationTokenExpired);
  (67, InvalidPrincipalType);
  (68, NonEmptyGroup);
  (69, GroupIdNotFound);
  (70, FetchSessionIdNotFound);
  (71, InvalidFetchSessionEpoch);
  (72, ListenerNotFound)
].
(** ** Exceptions

    The exceptions of [common.py], then the built-in, [struct] and Twisted
    exceptions the modelled code raises. [OutOfFuel] is not a Python exception:
    it marks a bounded loop of the model that did not finish, and the
    termination theorems show it never arises. *)
Inductive exn : Type :=
| BrokerError (cls : broker_class)
| BrokerErrorUnknown (code : Z)
| ClientError
| RestartError
| RestopError
| DuplicateRequestError
| KafkaUnavailableError
| LeaderUnavailableError
| PartitionUnavailableError
| FailedPayloadsError
| KafkaConnectionError
| BufferUnderflowError
| ChecksumError
| ConsumerFetchSizeTooSmall
| ProtocolError
| UnsupportedCodecError
| CancelledError (request_sent : option bool)
| InvalidConsumerGroupError
| NoResponseError
| OperationInProgress
| PyTypeError
| PyValueError
| PyKeyError
| PyIndexError
| PyAttributeError
| PyAssertionError
| PyNotImplementedError
| PyZeroDivisionError
| PyStopIteration
| AlreadyCalledError
| PyRecursionError
| PyUnicodeEncodeError
| PyUnicodeDecodeError
| StructError
| CodecLibraryError
| TwistedCancelledError
| OtherError
| OutOfFuel.

#[export] Instance exn_eq_dec : EqDecision exn.
Proof. solve_decision. Defined.

Abbreviation res := (result exn).
Abbreviation pygen := (gen exn).

(** [isinstance(e, BrokerResponseError)] *)
Definition is_BrokerResponseError (e : exn) : bool :=
  match e with BrokerError _ | BrokerErrorUnknown _ => true | _ => false end.

(** [isinstance(e, KafkaError)] *)
Definition is_KafkaError (e : exn) : bool :=
  match e with
  | BrokerError _ | BrokerErrorUnknown _ | ClientError | RestartError
  | RestopError | DuplicateRequestError | KafkaUnavailableError
  | LeaderUnavailableError | PartitionUnavailableError | FailedPayloadsError
  | KafkaConnectionError | BufferUnderflowError | ChecksumError
  | ConsumerFetchSizeTooSmall | ProtocolError | UnsupportedCodecError
  | CancelledError _ | InvalidConsumerGroupError | NoResponseError
  | OperationInProgress => true
  | _ => false
  end.

(** The [errno] attribute of a raised broker error. *)
Definition exn_errno (e : exn) : option Z :=
  match e with
  | BrokerError c => Some (errno c)
  | BrokerErrorUnknown code => Some code
  | _ => None
  end.

(** [BrokerResponseError.raise_for_errno(errno)] *)
Definition raise_for_errno (code : Z) : res unit :=
  if decide (code = 0) then Ok tt
  else match Dict.get code errnos with
       | None => Err (BrokerErrorUnknown code)
       | Some subcls => Err (BrokerError subcls)
       end.

(** [_pretty_errno(errno)] *)
Definition _pretty_errno (code : Z) : string :=
  let message :=
    if decide (code = 0) then "no error"
    else match Dict.get code errnos with
         | None => "unknown error"
         | Some cls => message cls
         end in
  pretty code +:+ " (" +:+ message +:+ ")".

(** ** Theorems *)

Lemma errnos_keys_NoDup : NoDup (Dict.keys errnos).
Proof. apply (bool_decide_unpack _). by vm_compute. Qed.

Lemma errnos_get_errno (c : broker_class) : Dict.get (errno c) errnos = Some c.
Proof. destruct c; reflexivity. Qed.

Lemma errnos_sound : Forall (λ kv, errno kv.2 = kv.1 ∧ kv.1 ≠ 0) errnos.
Proof. apply (bool_decide_unpack _). by vm_compute. Qed.

Lemma errnos_get_sound code c : Dict.get code errnos = Some c → code = errno c ∧ code ≠ 0.
Proof.
  intros Hin%Dict.get_Some_elem.
  pose proof errnos_sound as Hs. rewrite Forall_forall in Hs.
  destruct (Hs _ Hin) as [? ?]. done.
Qed.

(** The error-code table is a bijection between the listed codes and the
    exception classes: looking a code up gives the class whose [errno] attribute
    is that code, and every class is found under its own code. *)
Theorem errnos_correct (code : Z) (c : broker_class) :
  Dict.get code errnos = Some c ↔ errno c = code.
Proof.
  split.
  - by intros [-> _]%errnos_get_sound.
  - intros <-. apply errnos_get_errno.
Qed.

(** [raise_for_errno] returns only for code 0; for any other code it raises a
    [BrokerResponseError] whose [errno] is that code, of the specific subclass
    exactly when one is defined. *)
Theorem raise_for_errno_spec (code : Z) :
  match raise_for_errno code with
  | Ok _ => code = 0
  | Err e => code ≠ 0 ∧ is_BrokerResponseError e = true ∧ is_KafkaError e = true ∧
             exn_errno e = Some code ∧
             (∀ c, e = BrokerError c ↔ errno c = code)
  end.
Proof.
  unfold raise_for_errno. case_decide as Hz; [done|].
  destruct (Dict.get code errnos) as [c|] eqn:Hc; cbn.
  - destruct (errnos_get_sound _ _ Hc) as [-> _].
    repeat split; [done|by intros [= ->]|].
    intros Heq. f_equal. pose proof (errnos_get_errno c0) as H0.
    rewrite Heq in H0. congruence.
  - repeat split; [done|intros; done|].
    intros <-. by rewrite errnos_get_errno in Hc.
Qed.
