(* ===== verification/PyBytes.v ===== *)
(** The parts of Python's standard library the wire code uses: [bytes]
    slicing with negative indices, [struct.pack]/[struct.unpack] of big-endian
    fields, [zlib.crc32], and the ASCII and UTF-8 codecs of [str]. *)
From S2P Require Import Prelude Common.
From Stdlib Require Import Strings.Byte.
Local Open Scope Z_scope.

(** ** Octets *)

Definition Z_of_byte (b : byte) : Z := Z.of_N (Byte.to_N b).

Definition byte_of_Z (z : Z) : byte :=
  match Byte.of_N (Z.to_N (z mod 256)) with Some b => b | None => Byte.x00 end.

Lemma Z_of_byte_range b : 0 ≤ Z_of_byte b < 256.
Proof. unfold Z_of_byte. pose proof (Byte.to_N_bounded b). lia. Qed.

Lemma Z_of_byte_of_Z z : Z_of_byte (byte_of_Z z) = z mod 256.
Proof.
  unfold Z_of_byte, byte_of_Z.
  pose proof (Z.mod_pos_bound z 256 ltac:(lia)) as Hz.
  destruct (Byte.of_N (Z.to_N (z mod 256))) as [b|] eqn:Hb.
  - apply Byte.to_of_N in Hb. rewrite Hb. lia.
  - apply Byte.of_N_None_iff in Hb. lia.
Qed.

Lemma byte_of_Z_of_byte b : byte_of_Z (Z_of_byte b) = b.
Proof.
  unfold byte_of_Z. pose proof (Z_of_byte_range b).
  rewrite Z.mod_small by done. unfold Z_of_byte. rewrite N2Z.id.
  by rewrite Byte.of_to_N.
Qed.

(** ** Big-endian integers *)

Fixpoint be_encode (n : nat) (z : Z) : bytes :=
  match n with
  | O => []
  | S n => be_encode n (z / 256) ++ [byte_of_Z z]
  end.

Definition be_decode (b : bytes) : Z :=
  foldl (λ acc x, acc * 256 + Z_of_byte x) 0 b.

Lemma be_decode_snoc b x : be_decode (b ++ [x]) = be_decode b * 256 + Z_of_byte x.
Proof. unfold be_decode. by rewrite foldl_app. Qed.

Lemma length_be_encode n z : length (be_encode n z) = n.
Proof.
  revert z. induction n as [|n IH]; intros z; [done|].
  cbn [be_encode]. rewrite length_app, IH. cbn. lia.
Qed.

Lemma len_be_encode n z : len (be_encode n z) = Z.of_nat n.
Proof. unfold len. by rewrite length_be_encode. Qed.

Lemma be_decode_encode n z : be_decode (be_encode n z) = z mod 256 ^ Z.of_nat n.
Proof.
  revert z. induction n as [|n IH]; intros z.
  - by rewrite Z.mod_1_r.
  - cbn [be_encode]. rewrite be_decode_snoc, IH, Z_of_byte_of_Z.
    rewrite Nat2Z.inj_succ, Z.pow_succ_r by lia.
    assert (0 < 256 ^ Z.of_nat n) by (apply Z.pow_pos_nonneg; lia).
    rewrite (Z.rem_mul_r z 256) by lia. lia.
Qed.

Lemma be_decode_range b : 0 ≤ be_decode b < 256 ^ len b.
Proof.
  induction b as [|x b IH] using rev_ind; [change (256 ^ len []) with 1; cbn; lia|].
  rewrite be_decode_snoc, len_app. change (len [x]) with 1.
  rewrite Z.pow_add_r by len_solve. pose proof (Z_of_byte_range x). lia.
Qed.

Lemma be_encode_decode b : be_encode (length b) (be_decode b) = b.
Proof.
  induction b as [|x b IH] using rev_ind; [done|].
  rewrite length_app, Nat.add_comm. cbn [length Nat.add be_encode].
  pose proof (Z_of_byte_range x).
  rewrite be_decode_snoc. f_equal.
  - rewrite Z.div_add_l, Z.div_small, Z.add_0_r by lia. done.
  - f_equal. rewrite <-(byte_of_Z_of_byte x) at 2. unfold byte_of_Z.
    do 2 f_equal. rewrite Z.add_comm, Z.mod_add by lia. done.
Qed.

(** Two's complement reading of a [w]-bit word. *)
Definition to_signed (w u : Z) : Z := if u <? 2 ^ (w - 1) then u else u - 2 ^ w.

(** ** [struct]: the format characters the code uses, all big-endian *)

Inductive fmt := Fh | Fi | Fq | FB | FI.

Definition fsize (f : fmt) : nat :=
  match f with Fh => 2 | Fi => 4 | Fq => 8 | FB => 1 | FI => 4 end.

Definition fsigned (f : fmt) : bool :=
  match f with Fh | Fi | Fq => true | FB | FI => false end.

Definition fbits (f : fmt) : Z := 8 * Z.of_nat (fsize f).

(** The integers [struct.pack] accepts for a format character. *)
Definition frange (f : fmt) (z : Z) : bool :=
  if fsigned f then (- 2 ^ (fbits f - 1) <=? z) && (z <? 2 ^ (fbits f - 1))
  else (0 <=? z) && (z <? 2 ^ fbits f).

Definition pack1 (f : fmt) (z : Z) : res bytes :=
  if frange f z then Ok (be_encode (fsize f) z) else Err StructError.

Definition unpack1 (f : fmt) (b : bytes) : Z :=
  if fsigned f then to_signed (fbits f) (be_decode b) else be_decode b.

(** The tuple a format unpacks to. *)
Fixpoint ztuple (fs : list fmt) : Type :=
  match fs with [] => unit | _ :: fs => Z * ztuple fs end.

Definition calcsize (fs : list fmt) : Z := foldr (λ f n, Z.of_nat (fsize f) + n) 0 fs.

Fixpoint pack (fs : list fmt) : ztuple fs → res bytes :=
  match fs with
  | [] => λ _, Ok []
  | f :: fs => λ zs, b ← pack1 f zs.1; bs ← pack fs zs.2; Ok (b ++ bs)
  end.

Fixpoint unpack_all (fs : list fmt) (b : bytes) : ztuple fs :=
  match fs with
  | [] => tt
  | f :: fs => (unpack1 f (take (fsize f) b), unpack_all fs (drop (fsize f) b))
  end.

(** [struct.unpack(fmt, b)] insists on the exact size. *)
Definition unpack (fs : list fmt) (b : bytes) : res (ztuple fs) :=
  if len b =? calcsize fs then Ok (unpack_all fs b) else Err StructError.

(** [struct.unpack('>%di' % n, b)] and its [calcsize]: a count of [i] fields
    computed at run time; a negative count is not a format. *)
Definition calcsize_ints (n : Z) : res Z := if n <? 0 then Err StructError else Ok (4 * n).

Fixpoint unpack_ints_all (n : nat) (b : bytes) : list Z :=
  match n with
  | O => []
  | S n => unpack1 Fi (take 4 b) :: unpack_ints_all n (drop 4 b)
  end.

Definition unpack_ints (n : Z) (b : bytes) : res (list Z) :=
  size ← calcsize_ints n;
  if len b =? size then Ok (unpack_ints_all (Z.to_nat n) b) else Err StructError.

Fixpoint pack_ints (zs : list Z) : res bytes :=
  match zs with
  | [] => Ok []
  | z :: zs => b ← pack1 Fi z; bs ← pack_ints zs; Ok (b ++ bs)
  end.

(** ** Slices: [l[i:j]] *)

Definition slice_index (n i : Z) : Z := if i <? 0 then Z.max 0 (i + n) else Z.min i n.

Definition slice {A} (l : list A) (i j : Z) : list A :=
  let s := slice_index (len l) i in
  let e := slice_index (len l) j in
  take (Z.to_nat (e - s)) (drop (Z.to_nat s) l).

Lemma len_slice {A} (l : list A) i j :
  len (slice l i j) = Z.max 0 (slice_index (len l) j - slice_index (len l) i).
Proof.
  unfold slice. rewrite len_take, len_drop.
  unfold slice_index. pose proof (len_nonneg l).
  destruct (i <? 0) eqn:?, (j <? 0) eqn:?; lia.
Qed.

(** Slicing out the middle of a concatenation. *)
Lemma slice_app3 {A} (pre m suf : list A) i j :
  i = len pre → j = len pre + len m → slice (pre ++ m ++ suf) i j = m.
Proof.
  intros -> ->. unfold slice, slice_index. rewrite !len_app. len_pose.
  rewrite !(proj2 (Z.ltb_ge _ _)) by lia.
  rewrite !Z.min_l by lia.
  replace (Z.to_nat (len pre)) with (length pre) by (unfold len; lia).
  rewrite drop_app_length.
  replace (Z.to_nat (len pre + len m - len pre)) with (length m) by (unfold len; lia).
  by rewrite take_app_length.
Qed.

(** ** [struct] round trips *)

Lemma fbits_pow f : 256 ^ Z.of_nat (fsize f) = 2 ^ fbits f.
Proof. destruct f; reflexivity. Qed.

Lemma unpack1_encode f z : frange f z = true → unpack1 f (be_encode (fsize f) z) = z.
Proof.
  intros Hr. unfold unpack1. rewrite be_decode_encode, fbits_pow.
  unfold frange in Hr. assert (0 < 2 ^ (fbits f - 1)) by (destruct f; reflexivity).
  assert (2 ^ fbits f = 2 * 2 ^ (fbits f - 1)) as Hd by (destruct f; reflexivity).
  destruct (fsigned f).
  - unfold to_signed. apply andb_true_iff in Hr as [?%Z.leb_le ?%Z.ltb_lt].
    destruct (Z.neg_nonneg_cases z).
    + rewrite <-(Z.mod_add z 1) by lia. rewrite Z.mod_small by lia.
      rewrite (proj2 (Z.ltb_ge _ _)) by lia. lia.
    + rewrite Z.mod_small by lia. by rewrite (proj2 (Z.ltb_lt _ _)) by lia.
  - apply andb_true_iff in Hr as [?%Z.leb_le ?%Z.ltb_lt]. by rewrite Z.mod_small by lia.
Qed.

(** Encoding sees an integer modulo the word, so it inverts [unpack1] too. *)
Lemma be_encode_shift n z k : be_encode n (z + k * 256 ^ Z.of_nat n) = be_encode n z.
Proof.
  revert z. induction n as [|n IH]; intros z; [done|]. cbn [be_encode].
  rewrite Nat2Z.inj_succ, Z.pow_succ_r by lia.
  replace (z + k * (256 * 256 ^ Z.of_nat n)) with (z + (k * 256 ^ Z.of_nat n) * 256) by lia.
  rewrite Z.div_add by lia. rewrite IH. f_equal. f_equal.
  unfold byte_of_Z. by rewrite Z.mod_add by lia.
Qed.

Lemma be_encode_unpack1 f b : length b = fsize f → be_encode (fsize f) (unpack1 f b) = b.
Proof.
  intros Hl. rewrite <-(be_encode_decode b) at 2. rewrite Hl. unfold unpack1, to_signed.
  destruct (fsigned f); [|done]. destruct (_ <? _); [done|].
  rewrite <-fbits_pow. rewrite <-(be_encode_shift _ (be_decode b) (-1)). done.
Qed.

Lemma unpack1_range f b : length b = fsize f → frange f (unpack1 f b) = true.
Proof.
  intros Hl. pose proof (be_decode_range b) as Hb.
  unfold len in Hb. rewrite Hl, fbits_pow in Hb. unfold frange, unpack1.
  assert (2 ^ fbits f = 2 * 2 ^ (fbits f - 1)) as Hd by (destruct f; reflexivity).
  destruct (fsigned f).
  - unfold to_signed. destruct (_ <? _) eqn:Hlt; apply andb_true_iff; lia.
  - apply andb_true_iff; lia.
Qed.

(** The well-typed tuples of a format: every component in range. *)
Fixpoint tuple_ok (fs : list fmt) : ztuple fs → bool :=
  match fs with
  | [] => λ _, true
  | f :: fs => λ zs, frange f zs.1 && tuple_ok fs zs.2
  end.

(** The bytes of a well-typed tuple. *)
Fixpoint tuple_bytes (fs : list fmt) : ztuple fs → bytes :=
  match fs with
  | [] => λ _, []
  | f :: fs => λ zs, be_encode (fsize f) zs.1 ++ tuple_bytes fs zs.2
  end.

Lemma pack_tuple fs zs :
  pack fs zs = if tuple_ok fs zs then Ok (tuple_bytes fs zs) else Err StructError.
Proof.
  induction fs as [|f fs IH]; cbn; [done|].
  unfold pack1. destruct (frange f zs.1); cbn; [|done].
  rewrite IH. by destruct (tuple_ok fs zs.2).
Qed.

Lemma len_tuple_bytes fs zs : len (tuple_bytes fs zs) = calcsize fs.
Proof.
  induction fs as [|f fs IH]; cbn; [done|].
  rewrite len_app, len_be_encode, IH. done.
Qed.

Lemma unpack_all_tuple fs zs :
  tuple_ok fs zs = true → unpack_all fs (tuple_bytes fs zs) = zs.
Proof.
  induction fs as [|f fs IH]; cbn; [by destruct zs|].
  destruct zs as [z zs]. cbn. intros [Hz Hzs]%andb_true_iff.
  rewrite take_app_length' by (by rewrite length_be_encode).
  rewrite drop_app_length' by (by rewrite length_be_encode).
  by rewrite unpack1_encode, IH.
Qed.

Lemma unpack_tuple fs zs :
  tuple_ok fs zs = true → unpack fs (tuple_bytes fs zs) = Ok zs.
Proof.
  intros Hok. unfold unpack. rewrite len_tuple_bytes, Z.eqb_refl.
  by rewrite unpack_all_tuple.
Qed.

Lemma calcsize_cons f fs : calcsize (f :: fs) = Z.of_nat (fsize f) + calcsize fs.
Proof. done. Qed.

Lemma calcsize_nonneg fs : 0 ≤ calcsize fs.
Proof. induction fs as [|f fs IH]; [done|]. rewrite calcsize_cons. lia. Qed.

Lemma unpack_all_ok fs b : len b = calcsize fs → tuple_ok fs (unpack_all fs b) = true.
Proof.
  revert b. induction fs as [|f fs IH]; intros b; [done|].
  rewrite calcsize_cons. intros Hl. pose proof (calcsize_nonneg fs).
  cbn. rewrite unpack1_range, IH; [done| |].
  - rewrite len_drop. lia.
  - rewrite length_take. unfold len in Hl. lia.
Qed.

(** The bytes of a run of [i] fields. *)
Definition ints_bytes (zs : list Z) : bytes := zs ≫= be_encode 4.

Lemma len_ints_bytes zs : len (ints_bytes zs) = 4 * len zs.
Proof.
  induction zs as [|z zs IH]; [done|]. unfold ints_bytes in *. cbn [mbind list_bind].
  rewrite len_app, IH, len_cons, len_be_encode. lia.
Qed.

Lemma pack_ints_bytes zs :
  pack_ints zs = if forallb (frange Fi) zs then Ok (ints_bytes zs) else Err StructError.
Proof.
  induction zs as [|z zs IH]; [done|]. cbn [pack_ints forallb].
  unfold pack1 at 1. rewrite IH.
  destruct (frange Fi z), (forallb (frange Fi) zs); reflexivity.
Qed.

Lemma unpack_ints_bytes zs :
  forallb (frange Fi) zs = true → unpack_ints (len zs) (ints_bytes zs) = Ok zs.
Proof.
  intros Hzs. unfold unpack_ints, calcsize_ints. len_pose.
  rewrite (proj2 (Z.ltb_ge _ _)) by lia. cbn [mbind result_bind].
  rewrite len_ints_bytes, Z.eqb_refl. f_equal. unfold len. rewrite Nat2Z.id.
  induction zs as [|z zs IH]; [done|]. cbn [length unpack_ints_all forallb] in *.
  apply andb_true_iff in Hzs as [Hz Hzs].
  change (ints_bytes (z :: zs)) with (be_encode 4 z ++ ints_bytes zs).
  rewrite take_app_length' by (by rewrite length_be_encode).
  rewrite drop_app_length' by (by rewrite length_be_encode).
  f_equal; [by apply (unpack1_encode Fi)|]. apply IH; first [done|apply len_nonneg].
Qed.

(** ** [zlib.crc32]

    The reflected CRC-32 with polynomial 0xEDB88320, bit by bit. *)

Definition crc32_bit (c : Z) : Z :=
  if Z.testbit c 0 then Z.lxor (Z.shiftr c 1) 0xEDB88320 else Z.shiftr c 1.

Definition crc32_byte (c : Z) (b : byte) : Z :=
  Nat.iter 8 crc32_bit (Z.lxor c (Z_of_byte b)).

Definition crc32 (data : bytes) : Z :=
  Z.lxor (foldl crc32_byte 0xFFFFFFFF data) 0xFFFFFFFF.

Definition u32 (z : Z) : Prop := 0 ≤ z < 2 ^ 32.

Lemma u32_land z : u32 z ↔ Z.land z 0xffffffff = z.
Proof.
  change 0xffffffff with (Z.ones 32). rewrite Z.land_ones by lia. unfold u32.
  split; intros H; [by apply Z.mod_small|].
  rewrite <-H. apply Z.mod_pos_bound. lia.
Qed.

Lemma u32_lxor a b : u32 a → u32 b → u32 (Z.lxor a b).
Proof.
  rewrite !u32_land. intros Ha Hb. rewrite <-Ha, <-Hb at 2.
  apply Z.bits_inj'. intros n Hn. rewrite !Z.land_spec, !Z.lxor_spec.
  rewrite <-Ha, <-Hb, !Z.land_spec.
  by destruct (Z.testbit a n), (Z.testbit b n), (Z.testbit _ n).
Qed.

Lemma u32_shiftr a n : 0 ≤ n → u32 a → u32 (Z.shiftr a n).
Proof.
  intros Hn [H1 H2]. unfold u32. rewrite Z.shiftr_div_pow2 by done.
  assert (0 < 2 ^ n) by (apply Z.pow_pos_nonneg; lia). split.
  - by apply Z.div_pos.
  - apply Z.div_lt_upper_bound; nia.
Qed.

Lemma u32_byte b : u32 (Z_of_byte b).
Proof. pose proof (Z_of_byte_range b). unfold u32. lia. Qed.

Create HintDb word.
#[export] Hint Resolve u32_lxor u32_shiftr u32_byte : word.
#[export] Hint Extern 2 (0 ≤ _) => lia : word.
#[export] Hint Extern 1 (u32 _) => (unfold u32; lia) : word.

Lemma crc32_bit_u32 c : u32 c → u32 (crc32_bit c).
Proof. intros. unfold crc32_bit. case_match; auto with word. Qed.

Lemma crc32_byte_u32 c b : u32 c → u32 (crc32_byte c b).
Proof.
  intros. unfold crc32_byte. generalize 8%nat. intros n.
  induction n; cbn; auto using crc32_bit_u32 with word.
Qed.

(** The checksum is an unsigned 32-bit word, so [& 0xffffffff] is the
    identity on it. *)
Lemma crc32_u32 data : u32 (crc32 data).
Proof.
  unfold crc32. apply u32_lxor; [|unfold u32; lia].
  assert (∀ c, u32 c → u32 (foldl crc32_byte c data)) as H.
  { induction data as [|b data IH]; intros c Hc; [done|]. by apply IH, crc32_byte_u32. }
  apply H. unfold u32. lia.
Qed.

(** The standard check value of the CRC-32 used by gzip: the CRC of the ASCII
    digits 1 to 9. *)
Example crc32_check :
  crc32 (byte_of_Z <$> txt "123456789") = 0xCBF43926.
Proof. reflexivity. Qed.

(** ** [str.encode] and [bytes.decode] *)

Definition ascii_encode (s : text) : res bytes :=
  if forallb (λ c, (0 <=? c) && (c <? 128)) s then Ok (byte_of_Z <$> s)
  else Err PyUnicodeEncodeError.

Definition ascii_decode (b : bytes) : res text :=
  if forallb (λ x, Z_of_byte x <? 128) b then Ok (Z_of_byte <$> b)
  else Err PyUnicodeDecodeError.

(** UTF-8 of one code point; a surrogate cannot be encoded. *)
Definition utf8_encode1 (c : Z) : res bytes :=
  if c <? 0 then Err PyUnicodeEncodeError
  else if c <? 0x80 then Ok [byte_of_Z c]
  else if c <? 0x800 then
    Ok [byte_of_Z (0xC0 + c / 64); byte_of_Z (0x80 + c mod 64)]
  else if (0xD800 <=? c) && (c <=? 0xDFFF) then Err PyUnicodeEncodeError
  else if c <? 0x10000 then
    Ok [byte_of_Z (0xE0 + c / 4096); byte_of_Z (0x80 + c / 64 mod 64);
        byte_of_Z (0x80 + c mod 64)]
  else if c <? 0x110000 then
    Ok [byte_of_Z (0xF0 + c / 262144); byte_of_Z (0x80 + c / 4096 mod 64);
        byte_of_Z (0x80 + c / 64 mod 64); byte_of_Z (0x80 + c mod 64)]
  else Err PyUnicodeEncodeError.

Fixpoint utf8_encode (s : text) : res bytes :=
  match s with
  | [] => Ok []
  | c :: s => b ← utf8_encode1 c; bs ← utf8_encode s; Ok (b ++ bs)
  end.

(** A continuation byte's six bits. *)
Definition utf8_cont (b : byte) : option Z :=
  let z := Z_of_byte b in
  if (0x80 <=? z) && (z <? 0xC0) then Some (z - 0x80) else None.

(** The strict decoder: no overlong form, no surrogate, nothing above
    U+10FFFF. *)
Fixpoint utf8_decode (bs : bytes) : res text :=
  match bs with
  | [] => Ok []
  | b0 :: rest =>
    let z := Z_of_byte b0 in
    if z <? 0x80 then s ← utf8_decode rest; Ok (z :: s)
    else if z <? 0xC2 then Err PyUnicodeDecodeError
    else if z <? 0xE0 then
      match rest with
      | b1 :: rest =>
        match utf8_cont b1 with
        | Some c1 => s ← utf8_decode rest; Ok ((z - 0xC0) * 64 + c1 :: s)
        | _ => Err PyUnicodeDecodeError
        end
      | _ => Err PyUnicodeDecodeError
      end
    else if z <? 0xF0 then
      match rest with
      | b1 :: b2 :: rest =>
        match utf8_cont b1, utf8_cont b2 with
        | Some c1, Some c2 =>
          let c := (z - 0xE0) * 4096 + c1 * 64 + c2 in
          if (c <? 0x800) || ((0xD800 <=? c) && (c <=? 0xDFFF))
          then Err PyUnicodeDecodeError
          else s ← utf8_decode rest; Ok (c :: s)
        | _, _ => Err PyUnicodeDecodeError
        end
      | _ => Err PyUnicodeDecodeError
      end
    else if z <? 0xF5 then
      match rest with
      | b1 :: b2 :: b3 :: rest =>
        match utf8_cont b1, utf8_cont b2, utf8_cont b3 with
        | Some c1, Some c2, Some c3 =>
          let c := (z - 0xF0) * 262144 + c1 * 4096 + c2 * 64 + c3 in
          if (c <? 0x10000) || (0x10FFFF <? c) then Err PyUnicodeDecodeError
          else s ← utf8_decode rest; Ok (c :: s)
        | _, _, _ => Err PyUnicodeDecodeError
        end
      | _ => Err PyUnicodeDecodeError
      end
    else Err PyUnicodeDecodeError
  end.

Lemma ascii_decode_encode s b : ascii_encode s = Ok b → ascii_decode b = Ok s.
Proof.
  unfold ascii_encode. case_match eqn:Hs; intros [= <-].
  unfold ascii_decode. rewrite forallb_forall in Hs.
  assert (Z_of_byte <$> (byte_of_Z <$> s) = s) as Heq.
  { rewrite <-list_fmap_compose. rewrite <-(list_fmap_id s) at 2.
    apply list_fmap_ext. intros i x Hx. cbn. rewrite Z_of_byte_of_Z.
    assert (In x s) as Hin by (apply list_elem_of_In; by eapply list_elem_of_lookup_2).
    apply Z.mod_small. specialize (Hs _ Hin). lia. }
  rewrite Heq. rewrite (proj2 (forallb_forall _ _)); [done|].
  intros x Hx. apply in_map_iff in Hx as (c & <- & Hc).
  specialize (Hs c Hc). rewrite Z_of_byte_of_Z, Z.mod_small by lia. lia.
Qed.

Lemma ascii_encode_len s b : ascii_encode s = Ok b → len b = len s.
Proof.
  unfold ascii_encode. case_match; intros [= <-]. unfold len. by rewrite length_fmap.
Qed.

Lemma utf8_cont_of_Z x : 0 ≤ x < 64 → utf8_cont (byte_of_Z (0x80 + x)) = Some x.
Proof.
  intros Hx. unfold utf8_cont. rewrite Z_of_byte_of_Z, Z.mod_small by lia.
  replace ((0x80 <=? 0x80 + x) && (0x80 + x <? 0xC0)) with true by lia.
  f_equal. lia.
Qed.

(** Decoding what one code point encodes to, whatever follows. *)
Lemma utf8_decode_encode1 c b rest :
  utf8_encode1 c = Ok b →
  utf8_decode (b ++ rest) = s ← utf8_decode rest; Ok (c :: s).
Proof.
  unfold utf8_encode1. intros H.
  pose proof (Z.div_mod c 64 ltac:(lia)). pose proof (Z.mod_pos_bound c 64 ltac:(lia)).
  pose proof (Z.div_mod (c / 64) 64 ltac:(lia)).
  pose proof (Z.mod_pos_bound (c / 64) 64 ltac:(lia)).
  assert (c / 64 / 64 = c / 4096) as H64 by (rewrite Z.div_div by lia; done).
  pose proof (Z.div_mod (c / 4096) 64 ltac:(lia)).
  pose proof (Z.mod_pos_bound (c / 4096) 64 ltac:(lia)).
  assert (c / 4096 / 64 = c / 262144) as H4096 by (rewrite Z.div_div by lia; done).
  destruct (c <? 0) eqn:E0; [done|].
  destruct (c <? 0x80) eqn:E1; [injection H as <-|].
  { cbn [app utf8_decode]. rewrite Z_of_byte_of_Z, Z.mod_small by lia. by rewrite E1. }
  destruct (c <? 0x800) eqn:E2; [injection H as <-|].
  { cbn [app utf8_decode]. rewrite utf8_cont_of_Z by lia.
    rewrite Z_of_byte_of_Z, Z.mod_small by lia.
    case_lia.
    replace ((0xC0 + c / 64 - 0xC0) * 64 + c mod 64) with c by lia. done. }
  destruct ((0xD800 <=? c) && (c <=? 0xDFFF)) eqn:E3; [done|].
  destruct (c <? 0x10000) eqn:E4; [injection H as <-|].
  { cbn [app utf8_decode]. rewrite !utf8_cont_of_Z by lia.
    rewrite Z_of_byte_of_Z, Z.mod_small by lia.
    replace ((0xE0 + c / 4096 - 0xE0) * 4096 + c / 64 mod 64 * 64 + c mod 64) with c by lia.
    cbv zeta. rewrite E2, E3. cbn [orb].
    case_lia. done. }
  destruct (c <? 0x110000) eqn:E5; [injection H as <-|done].
  cbn [app utf8_decode]. rewrite !utf8_cont_of_Z by lia.
  rewrite Z_of_byte_of_Z, Z.mod_small by lia.
  replace ((0xF0 + c / 262144 - 0xF0) * 262144 + c / 4096 mod 64 * 4096 +
           c / 64 mod 64 * 64 + c mod 64) with c by lia.
  cbv zeta. rewrite E4. replace (0x10FFFF <? c) with false by lia. cbn [orb].
  case_lia. done.
Qed.

(** UTF-8 decoding inverts encoding. *)
Lemma utf8_decode_encode s b : utf8_encode s = Ok b → utf8_decode b = Ok s.
Proof.
  revert b. induction s as [|c s IH]; intros b; cbn [utf8_encode].
  - by intros [= <-].
  - destruct (utf8_encode1 c) as [b1|] eqn:H1; [|done]. cbn.
    destruct (utf8_encode s) as [b2|] eqn:H2; [|done]. cbn. intros [= <-].
    rewrite (utf8_decode_encode1 c b1 b2 H1), (IH b2 eq_refl). done.
Qed.

Lemma utf8_decode_err b e : utf8_decode b = Err e → e = PyUnicodeDecodeError.
Proof.
  induction b as [b IH] using (induction_ltof1 _ length). unfold ltof in IH.
  assert (∀ c rest, (length rest < length b)%nat →
    (s ← utf8_decode rest; Ok (c :: s)) = Err e → e = PyUnicodeDecodeError) as Hn.
  { intros c rest Hl. unfold mbind, result_bind. destruct (utf8_decode rest) eqn:Hr; [done|].
    intros [= ->]. by eapply IH. }
  destruct b as [|b0 rest]; [done|]. cbn [utf8_decode].
  repeat first [ by intros [= <-] | (apply Hn; cbn; lia) | case_match ].
Qed.
