(* ===== verification/Util.v ===== *)
(** [afkak/_util.py]: coercions, the length-prefixed strings of the Kafka
    protocol, and grouping of payloads. A reader takes the whole buffer and a
    cursor and returns the value with the new cursor; a cursor is an integer,
    and may go backwards or below zero when a corrupt length says so, because
    the source only guards against lengths that are too large. *)
From S2P Require Import Prelude Common PyBytes.
Local Open Scope Z_scope.

(** ** Coercions of dynamically typed arguments *)

(** The Python values the coercions tell apart. *)
Inductive pyval :=
| VStr (s : text)
| VBytes (b : bytes)
| VOther.

Definition _coerce_topic (topic : pyval) : res text :=
  match topic with
  | VStr s =>
    if len s <? 1 then Err PyValueError
    else if 249 <? len s then Err PyValueError
    else Ok s
  | _ => Err PyTypeError
  end.

Definition _coerce_consumer_group (consumer_group : pyval) : res text :=
  match consumer_group with
  | VStr s => Ok s
  | VBytes b => utf8_decode b
  | VOther => Err PyTypeError
  end.

Definition _coerce_client_id (client_id : pyval) : res bytes :=
  match client_id with
  | VStr s => utf8_encode s
  | VBytes b => Ok b
  | VOther => Err PyTypeError
  end.

(** ** Writers *)

Definition _NULL_SHORT_STRING : bytes := be_encode 2 (-1).

Definition write_int_string (s : option bytes) : res bytes :=
  match s with
  | None => pack [Fi] (-1, tt)
  | Some s => h ← pack [Fi] (len s, tt); Ok (h ++ s)
  end.

Definition write_short_bytes (b : option bytes) : res bytes :=
  match b with
  | None => Ok _NULL_SHORT_STRING
  | Some b =>
    if 32767 <? len b then Err StructError
    else h ← pack [Fh] (len b, tt); Ok (h ++ b)
  end.

Definition write_short_ascii (s : option text) : res bytes :=
  match s with
  | None => Ok _NULL_SHORT_STRING
  | Some s => b ← ascii_encode s; write_short_bytes (Some b)
  end.

Definition write_short_text (s : option text) : res bytes :=
  match s with
  | None => Ok _NULL_SHORT_STRING
  | Some s => b ← utf8_encode s; write_short_bytes (Some b)
  end.

(** ** Readers *)

Definition relative_unpack (fs : list fmt) (data : bytes) (cur : Z) : res (ztuple fs * Z) :=
  let size := calcsize fs in
  if len data <? cur + size then Err BufferUnderflowError
  else out ← unpack fs (slice data cur (cur + size)); Ok (out, cur + size).

(** [relative_unpack('>%di' % n, data, cur)] *)
Definition relative_unpack_ints (n : Z) (data : bytes) (cur : Z) : res (list Z * Z) :=
  size ← calcsize_ints n;
  if len data <? cur + size then Err BufferUnderflowError
  else out ← unpack_ints n (slice data cur (cur + size)); Ok (out, cur + size).

Definition read_short_bytes (data : bytes) (cur : Z) : res (option bytes * Z) :=
  if len data <? cur + 2 then Err BufferUnderflowError
  else
    '(strlen, _) ← unpack [Fh] (slice data cur (cur + 2));
    if strlen =? -1 then Ok (None, cur + 2)
    else
      let cur := cur + 2 in
      if len data <? cur + strlen then Err BufferUnderflowError
      else Ok (Some (slice data cur (cur + strlen)), cur + strlen).

(** [b.decode(...)] on the null string is an [AttributeError]. *)
Definition read_short_ascii (data : bytes) (cur : Z) : res (text * Z) :=
  '(b, cur) ← read_short_bytes data cur;
  match b with
  | None => Err PyAttributeError
  | Some b => s ← ascii_decode b; Ok (s, cur)
  end.

Definition read_short_text (data : bytes) (cur : Z) : res (text * Z) :=
  '(b, cur) ← read_short_bytes data cur;
  match b with
  | None => Err PyAttributeError
  | Some b => s ← utf8_decode b; Ok (s, cur)
  end.

Definition read_int_string (data : bytes) (cur : Z) : res (option bytes * Z) :=
  if len data <? cur + 4 then Err BufferUnderflowError
  else
    '(strlen, _) ← unpack [Fi] (slice data cur (cur + 4));
    if strlen =? -1 then Ok (None, cur + 4)
    else
      let cur := cur + 4 in
      if len data <? cur + strlen then Err BufferUnderflowError
      else Ok (Some (slice data cur (cur + strlen)), cur + strlen).

(** ** Grouping

    [out[t.topic][t.partition] = t] over a [defaultdict(dict)]. *)
Definition group_step {P} (topic : P → text) (partition : P → Z)
    (out : list (text * list (Z * P))) (t : P) : list (text * list (Z * P)) :=
  let inner := default [] (Dict.get (topic t) out) in
  Dict.set (topic t) (Dict.set (partition t) t inner) out.

Definition group_by_topic_and_partition {P} (topic : P → text) (partition : P → Z)
    (tuples : list P) : list (text * list (Z * P)) :=
  foldl (group_step topic partition) [] tuples.

(** ** What it means to read an encoding

    [reads rd enc a]: wherever [enc] stands in a buffer, [rd] started at its
    first byte returns [a] with the cursor just past it. *)
Definition reads {A} (rd : bytes → Z → res (A * Z)) (enc : bytes) (a : A) : Prop :=
  ∀ pre suf, rd (pre ++ enc ++ suf) (len pre) = Ok (a, len pre + len enc).

(** The same for a generator: [ys] are the items it yields on the way. *)
Definition greads {Y} (g : bytes → Z → pygen Y Z) (enc : bytes) (ys : list Y) : Prop :=
  ∀ pre suf, g (pre ++ enc ++ suf) (len pre) = (ys, Ok (len pre + len enc)).

Section reads.
Context {A B Y : Type}.

Lemma reads_ret (a : A) : reads (λ _ c, Ok (a, c)) [] a.
Proof. intros pre suf. by rewrite len_nil, Z.add_0_r. Qed.

Lemma reads_bind (rd : bytes → Z → res (A * Z)) (k : A → bytes → Z → res (B * Z)) e1 a e2 b :
  reads rd e1 a → reads (k a) e2 b →
  reads (λ d c, '(x, c') ← rd d c; k x d c') (e1 ++ e2) b.
Proof.
  intros H1 H2 pre suf. rewrite <-app_assoc, (H1 pre (e2 ++ suf)). cbn.
  specialize (H2 (pre ++ e1) suf). rewrite <-app_assoc, len_app in H2. rewrite H2.
  do 2 f_equal. rewrite len_app. lia.
Qed.

Lemma greads_ret : greads (Y := Y) (λ _ c, mret c) [] [].
Proof. intros pre suf. by rewrite len_nil, Z.add_0_r. Qed.

Lemma greads_bind (rd : bytes → Z → res (A * Z)) (k : A → bytes → Z → pygen Y Z) e1 a e2 ys :
  reads rd e1 a → greads (k a) e2 ys →
  greads (λ d c, '(x, c') ← glift (rd d c); k x d c') (e1 ++ e2) ys.
Proof.
  intros H1 H2 pre suf. rewrite <-app_assoc, (H1 pre (e2 ++ suf)), gen_bind_lift. cbn.
  specialize (H2 (pre ++ e1) suf). rewrite <-app_assoc, len_app in H2. rewrite H2.
  do 2 f_equal. rewrite len_app. lia.
Qed.

Lemma greads_yield (y : Y) (k : bytes → Z → pygen Y Z) e ys :
  greads k e ys → greads (λ d c, _ ← gyield y; k d c) e (y :: ys).
Proof. intros H pre suf. by rewrite gen_bind_yield, H. Qed.

Lemma reads_ext (f g : bytes → Z → res (A * Z)) e a :
  (∀ d c, f d c = g d c) → reads g e a → reads f e a.
Proof. intros Hfg Hg pre suf. by rewrite Hfg. Qed.

Lemma greads_ext (f g : bytes → Z → pygen Y Z) e ys :
  (∀ d c, f d c = g d c) → greads g e ys → greads f e ys.
Proof. intros Hfg Hg pre suf. by rewrite Hfg. Qed.
End reads.

Lemma greads_for {X Y} (items : list X) (enc : X → bytes) (out : X → list Y)
    (body : bytes → Z → pygen Y Z) n :
  n = len items → (∀ x, x ∈ items → greads body (enc x) (out x)) →
  greads (λ d c, gfor_range n (body d) c) (items ≫= enc) (items ≫= out).
Proof.
  intros -> Hb pre suf. unfold gfor_range, len at 1. rewrite Nat2Z.id.
  revert pre Hb. induction items as [|x items IH]; intros pre Hb.
  - cbn. by rewrite len_nil, Z.add_0_r.
  - cbn [length gfor_nat mbind list_bind]. rewrite <-app_assoc.
    rewrite (Hb x (list_elem_of_here _ _)), gen_bind_ok.
    specialize (IH (pre ++ enc x)). rewrite <-app_assoc, len_app in IH.
    rewrite IH by set_solver. cbn. do 2 f_equal. rewrite len_app. lia.
Qed.

Lemma reads_for {X S} (items : list X) (enc : X → bytes) (step : S → X → S)
    (body : bytes → S * Z → res (S * Z)) n s0 :
  n = len items →
  (∀ s x, x ∈ items → reads (λ d c, body d (s, c)) (enc x) (step s x)) →
  reads (λ d c, for_range n (body d) (s0, c)) (items ≫= enc) (foldl step s0 items).
Proof.
  intros -> Hb pre suf. unfold for_range, len at 1. rewrite Nat2Z.id.
  revert pre s0 Hb. induction items as [|x items IH]; intros pre s0 Hb.
  - cbn. by rewrite len_nil, Z.add_0_r.
  - cbn [length for_nat mbind list_bind foldl]. rewrite <-app_assoc.
    rewrite (Hb s0 x (list_elem_of_here _ _)). cbn [mbind result_bind].
    specialize (IH (pre ++ enc x)). rewrite <-app_assoc, len_app in IH.
    rewrite IH by set_solver. do 2 f_equal. rewrite len_app. lia.
Qed.

(** ** The primitive readers read what the writers write *)

Lemma reads_relative_unpack fs zs :
  tuple_ok fs zs = true → reads (relative_unpack fs) (tuple_bytes fs zs) zs.
Proof.
  intros Hok pre suf. unfold relative_unpack. rewrite !len_app, len_tuple_bytes.
  rewrite (proj2 (Z.ltb_ge _ _)) by len_solve.
  rewrite slice_app3 by (by rewrite ?len_tuple_bytes).
  by rewrite unpack_tuple.
Qed.

Lemma reads_relative_unpack_ints zs :
  forallb (frange Fi) zs = true → reads (relative_unpack_ints (len zs)) (ints_bytes zs) zs.
Proof.
  intros Hok pre suf. unfold relative_unpack_ints, calcsize_ints. len_pose.
  rewrite (proj2 (Z.ltb_ge (len zs) 0)) by lia. cbn [mbind result_bind].
  rewrite !len_app, len_ints_bytes. rewrite (proj2 (Z.ltb_ge _ _)) by len_solve.
  rewrite slice_app3 by (by rewrite ?len_ints_bytes). by rewrite unpack_ints_bytes.
Qed.

(** A one-field read at the front of a longer encoding. *)
Lemma unpack1_at f z pre suf :
  frange f z = true →
  unpack [f] (slice (pre ++ be_encode (fsize f) z ++ suf)
                    (len pre) (len pre + Z.of_nat (fsize f))) = Ok (z, tt).
Proof.
  intros Hz. rewrite slice_app3 by (by rewrite ?len_be_encode).
  assert (be_encode (fsize f) z = tuple_bytes [f] (z, tt)) as -> by (cbn; by rewrite app_nil_r).
  apply unpack_tuple. cbn. by rewrite Hz.
Qed.

(** The bytes [write_int_string] and [write_short_bytes] produce. *)
Definition int_string_bytes (s : option bytes) : bytes :=
  match s with None => be_encode 4 (-1) | Some s => be_encode 4 (len s) ++ s end.

Definition short_string_bytes (s : option bytes) : bytes :=
  match s with None => be_encode 2 (-1) | Some s => be_encode 2 (len s) ++ s end.

Definition int_string_ok (s : option bytes) : bool :=
  match s with None => true | Some s => len s <? 2 ^ 31 end.

Definition short_string_ok (s : option bytes) : bool :=
  match s with None => true | Some s => len s <=? 32767 end.

Lemma write_int_string_eq s :
  write_int_string s =
    if int_string_ok s then Ok (int_string_bytes s) else Err StructError.
Proof.
  destruct s as [s|]; [|done]. cbn -[be_encode Z.pow]. unfold pack1, frange. cbn -[be_encode Z.pow].
  change (fbits Fi - 1) with 31. len_pose.
  replace (- 2 ^ 31 <=? len s) with true by lia. cbn -[be_encode Z.pow].
  destruct (len s <? 2 ^ 31); cbn -[be_encode]; [|done]. by rewrite app_nil_r.
Qed.

Lemma write_short_bytes_eq s :
  write_short_bytes s =
    if short_string_ok s then Ok (short_string_bytes s) else Err StructError.
Proof.
  destruct s as [s|]; [|done]. cbn -[be_encode Z.pow]. unfold pack1, frange. cbn -[be_encode Z.pow].
  change (fbits Fh - 1) with 15. len_pose.
  replace (- 2 ^ 15 <=? len s) with true by lia. cbn -[be_encode Z.pow].
  destruct (32767 <? len s) eqn:E1, (len s <=? 32767) eqn:E2; try lia; [done|].
  replace (len s <? 2 ^ 15) with true by lia. cbn -[be_encode]. by rewrite app_nil_r.
Qed.

(** Both length-prefixed readers are one reader at two widths. *)
Definition read_string (f : fmt) (data : bytes) (cur : Z) : res (option bytes * Z) :=
  let w := Z.of_nat (fsize f) in
  if len data <? cur + w then Err BufferUnderflowError
  else
    '(strlen, _) ← unpack [f] (slice data cur (cur + w));
    if strlen =? -1 then Ok (None, cur + w)
    else if len data <? cur + w + strlen then Err BufferUnderflowError
    else Ok (Some (slice data (cur + w) (cur + w + strlen)), cur + w + strlen).

Lemma read_int_string_with : read_int_string = read_string Fi.
Proof. reflexivity. Qed.

Lemma read_short_bytes_with : read_short_bytes = read_string Fh.
Proof. reflexivity. Qed.

Definition string_bytes (f : fmt) (s : option bytes) : bytes :=
  match s with
  | None => be_encode (fsize f) (-1)
  | Some s => be_encode (fsize f) (len s) ++ s
  end.

Lemma reads_string f s :
  frange f (match s with None => -1 | Some s => len s end) = true →
  reads (read_string f) (string_bytes f s) s.
Proof.
  intros Hr pre suf. unfold read_string. destruct s as [s|]; cbn [string_bytes].
  - rewrite <-app_assoc, unpack1_at by done. cbn [mbind result_bind].
    rewrite !len_app, len_be_encode. len_pose. case_lia.
    rewrite (app_assoc pre), (slice_app3 (pre ++ _))
      by (rewrite len_app, len_be_encode; lia).
    do 2 f_equal. lia.
  - rewrite unpack1_at by done. cbn [mbind result_bind].
    rewrite !len_app, len_be_encode. len_pose. by case_lia.
Qed.

Lemma reads_int_string s :
  int_string_ok s = true → reads read_int_string (int_string_bytes s) s.
Proof.
  intros Hok. rewrite read_int_string_with. apply (reads_string Fi s).
  unfold frange. cbn -[Z.pow]. change (fbits Fi - 1) with 31.
  destruct s; cbn -[Z.pow] in *; len_pose; lia.
Qed.

Lemma reads_short_bytes s :
  short_string_ok s = true → reads read_short_bytes (short_string_bytes s) s.
Proof.
  intros Hok. rewrite read_short_bytes_with. apply (reads_string Fh s).
  unfold frange. cbn -[Z.pow]. change (fbits Fh - 1) with 15.
  destruct s; cbn -[Z.pow] in *; len_pose; lia.
Qed.

Lemma reads_short_decoded (dec : bytes → res text) (rd : bytes → Z → res (text * Z)) s e b :
  (∀ d c, rd d c = '(b, c') ← read_short_bytes d c;
                   match b with
                   | None => Err PyAttributeError
                   | Some b => s ← dec b; Ok (s, c')
                   end) →
  dec e = Ok s → write_short_bytes (Some e) = Ok b → reads rd b s.
Proof.
  intros Hrd Hdec Hw pre suf. rewrite write_short_bytes_eq in Hw.
  destruct (short_string_ok (Some e)) eqn:Hok; [|done].
  assert (b = short_string_bytes (Some e)) as -> by congruence.
  rewrite Hrd, reads_short_bytes by done. cbn [mbind result_bind]. by rewrite Hdec.
Qed.

Lemma reads_short_ascii s b :
  write_short_ascii (Some s) = Ok b → reads read_short_ascii b s.
Proof.
  unfold write_short_ascii. destruct (ascii_encode s) as [e|] eqn:He; [|done].
  apply (reads_short_decoded ascii_decode); [done|by apply ascii_decode_encode].
Qed.

Lemma reads_short_text s b :
  write_short_text (Some s) = Ok b → reads read_short_text b s.
Proof.
  unfold write_short_text. destruct (utf8_encode s) as [e|] eqn:He; [|done].
  apply (reads_short_decoded utf8_decode); [done|by apply utf8_decode_encode].
Qed.

(** ** Truncated input

    [truncated rd enc]: when the buffer ends inside the encoding, the reader
    raises [BufferUnderflowError] and nothing else. *)
Definition truncated {A} (rd : bytes → Z → res (A * Z)) (enc : bytes) : Prop :=
  ∀ pre k, (k < length enc)%nat → rd (pre ++ take k enc) (len pre) = Err BufferUnderflowError.

Lemma truncated_relative_unpack fs zs :
  truncated (relative_unpack fs) (tuple_bytes fs zs).
Proof.
  intros pre k Hk. unfold relative_unpack.
  pose proof (len_tuple_bytes fs zs) as Hl. unfold len in Hl at 1.
  rewrite len_app, len_take. len_pose.
  by rewrite (proj2 (Z.ltb_lt _ _)) by lia.
Qed.

Lemma truncated_string f s :
  frange f (len s) = true → truncated (read_string f) (string_bytes f (Some s)).
Proof.
  intros Hr pre k Hk. unfold read_string. cbn [string_bytes] in *.
  rewrite length_app, length_be_encode in Hk.
  destruct (Nat.lt_ge_cases k (fsize f)).
  - rewrite len_app, len_take. len_pose. by rewrite (proj2 (Z.ltb_lt _ _)) by lia.
  - rewrite take_app_ge by (rewrite length_be_encode; lia). rewrite length_be_encode.
    rewrite unpack1_at by done. cbn [mbind result_bind].
    rewrite !len_app, len_be_encode, len_take.
    len_pose. unfold len in *. by case_lia.
Qed.

Lemma truncated_bind {A B} (rd : bytes → Z → res (A * Z))
    (k : A → bytes → Z → res (B * Z)) e1 a e2 :
  truncated rd e1 → reads rd e1 a → truncated (k a) e2 →
  truncated (λ d c, '(x, c') ← rd d c; k x d c') (e1 ++ e2).
Proof.
  intros Ht1 H1 Ht2 pre n Hn. rewrite length_app in Hn.
  destruct (Nat.lt_ge_cases n (length e1)).
  - rewrite take_app_le by lia. by rewrite Ht1.
  - rewrite take_app_ge by lia. rewrite (H1 pre (take _ e2)). cbn [mbind result_bind].
    specialize (Ht2 (pre ++ e1) (n - length e1)%nat).
    rewrite <-app_assoc, len_app in Ht2. apply Ht2. lia.
Qed.

(** ** Grouping: lookups and completeness *)

Section group.
Context {P : Type} (topic : P → text) (partition : P → Z).
Abbreviation group := (group_by_topic_and_partition topic partition).

(** [grouped[t][p]] *)
Definition grouped_get (t : text) (p : Z) (g : list (text * list (Z * P))) : option P :=
  Dict.get t g ≫= Dict.get p.

(** Every payload of the grouping, in the order the encoders visit them. *)
Definition grouped_payloads (g : list (text * list (Z * P))) : list P :=
  g ≫= λ tg, tg.2.*2.

(** The invariant: distinct topics, distinct partitions within a topic, and
    every payload filed under its own topic and partition. *)
Definition grouped_wf (g : list (text * list (Z * P))) : Prop :=
  NoDup (Dict.keys g) ∧
  (∀ t inner, (t, inner) ∈ g → NoDup (Dict.keys inner)) ∧
  (∀ t inner p x, (t, inner) ∈ g → (p, x) ∈ inner → topic x = t ∧ partition x = p).

Lemma grouped_get_step t p g x :
  grouped_get t p (group_step topic partition g x) =
    if decide (topic x = t ∧ partition x = p) then Some x else grouped_get t p g.
Proof.
  unfold grouped_get, group_step. rewrite Dict.get_set.
  destruct (decide (t = topic x)) as [->|]; cbn.
  - rewrite Dict.get_set. repeat case_decide; try naive_solver.
    by destruct (Dict.get (topic x) g).
  - by rewrite decide_False by naive_solver.
Qed.

Lemma group_get_last t p ts :
  grouped_get t p (group ts) =
    last (filter (λ x, topic x = t ∧ partition x = p) ts).
Proof.
  induction ts as [|x ts IH] using rev_ind; [done|].
  unfold group_by_topic_and_partition. rewrite foldl_app. cbn [foldl].
  fold (group ts). rewrite grouped_get_step, IH, filter_app.
  case_decide as Hx.
  - rewrite filter_cons_True, filter_nil by done. by rewrite last_snoc.
  - rewrite filter_cons_False, filter_nil by done. by rewrite app_nil_r.
Qed.

Lemma set_elem_inv {K V} `{EqDecision K} (d : list (K * V)) k v kv :
  kv ∈ Dict.set k v d → kv = (k, v) ∨ kv ∈ d.
Proof.
  induction d as [|[k0 v0] d IH]; cbn; [set_solver|]. case_decide; set_solver.
Qed.

Lemma group_step_wf g x : grouped_wf g → grouped_wf (group_step topic partition g x).
Proof.
  intros (H1 & H2 & H3). unfold group_step.
  destruct (Dict.get (topic x) g) as [inner|] eqn:Hg; cbn.
  - apply Dict.get_Some_elem in Hg. split_and!.
    + by apply Dict.NoDup_set.
    + intros t i [?|?]%set_elem_inv; simplify_eq; [|eauto].
      apply Dict.NoDup_set. eauto.
    + intros t i p y [?|?]%set_elem_inv Hy; simplify_eq; [|eauto].
      apply set_elem_inv in Hy as [?|?]; simplify_eq; eauto.
  - split_and!.
    + by apply Dict.NoDup_set.
    + intros t i [?|?]%set_elem_inv; simplify_eq; [|eauto]. apply NoDup_singleton.
    + intros t i p y [?|?]%set_elem_inv Hy; simplify_eq; [|eauto].
      apply list_elem_of_singleton in Hy. by simplify_eq.
Qed.

Lemma group_wf ts : grouped_wf (group ts).
Proof.
  unfold group_by_topic_and_partition.
  assert (grouped_wf []) as H0 by (split_and!; [constructor|set_solver..]).
  revert H0. generalize (@nil (text * list (Z * P))).
  induction ts as [|x ts IH]; intros g Hg; [done|]. by apply IH, group_step_wf.
Qed.

Lemma grouped_payloads_set g t inner inner' :
  Dict.get t g = Some inner →
  grouped_payloads (Dict.set t inner' g) ++ inner.*2 ≡ₚ grouped_payloads g ++ inner'.*2.
Proof.
  induction g as [|[t0 i0] g IH]; cbn; [done|]. case_decide; intros; simplify_eq; cbn.
  - fold (grouped_payloads g). solve_Permutation.
  - fold (grouped_payloads g) (grouped_payloads (Dict.set t inner' g)).
    rewrite <-!app_assoc. by rewrite IH.
Qed.

Lemma group_step_payloads g x :
  grouped_get (topic x) (partition x) g = None →
  grouped_payloads (group_step topic partition g x) ≡ₚ x :: grouped_payloads g.
Proof.
  unfold grouped_get, group_step. intros Hn.
  destruct (Dict.get (topic x) g) as [inner|] eqn:Hg; cbn in *.
  - apply Dict.get_None in Hn.
    pose proof (grouped_payloads_set g _ _ (Dict.set (partition x) x inner) Hg) as Hp.
    rewrite (Dict.set_fresh inner) in Hp |- * by done.
    rewrite fmap_app in Hp. cbn in Hp. apply (Permutation_app_inv_r (inner.*2)).
    rewrite Hp. solve_Permutation.
  - apply Dict.get_None in Hg. rewrite Dict.set_fresh by done.
    unfold grouped_payloads. rewrite bind_app. cbn. solve_Permutation.
Qed.

(** Distinct payloads are all kept, none is duplicated. *)
Lemma group_complete ts :
  NoDup ((λ x, (topic x, partition x)) <$> ts) → grouped_payloads (group ts) ≡ₚ ts.
Proof.
  induction ts as [|x ts IH] using rev_ind; [done|].
  rewrite fmap_app. cbn. intros (Hts & Hx & _)%NoDup_app.
  unfold group_by_topic_and_partition. rewrite foldl_app. cbn [foldl].
  fold (group ts). rewrite group_step_payloads.
  - rewrite IH by done. solve_Permutation.
  - rewrite group_get_last.
    destruct (last _) as [y|] eqn:Hl; [|done]. exfalso.
    apply last_Some_elem_of in Hl. apply list_elem_of_filter in Hl as [[Ht Hp] Hy].
    apply (Hx (topic x, partition x)); [|set_solver].
    apply list_elem_of_fmap. exists y. by rewrite Ht, Hp.
Qed.
End group.

(** ** Theorems *)

(** For every string, null or not, that fits its length prefix,
    [write_short_bytes] and [write_int_string] succeed and their readers give
    the string back, wherever in a buffer it stands. *)
Theorem strings_roundtrip (s : option bytes) :
  (short_string_ok s = true →
     ∃ b, write_short_bytes s = Ok b ∧ reads read_short_bytes b s) ∧
  (int_string_ok s = true →
     ∃ b, write_int_string s = Ok b ∧ reads read_int_string b s) ∧
  (short_string_ok s = false → write_short_bytes s = Err StructError) ∧
  (int_string_ok s = false → write_int_string s = Err StructError).
Proof.
  rewrite write_short_bytes_eq, write_int_string_eq. split_and!; intros H; rewrite H;
    eauto using reads_short_bytes, reads_int_string.
Qed.

(** Text that can be encoded and fits 32767 bytes is read back unchanged by
    the matching reader, for the ASCII and the UTF-8 form. *)
Theorem text_roundtrip (s : text) (b : bytes) :
  (write_short_ascii (Some s) = Ok b → reads read_short_ascii b s) ∧
  (write_short_text (Some s) = Ok b → reads read_short_text b s).
Proof. eauto using reads_short_ascii, reads_short_text. Qed.

Example text_roundtrip_witness :
  reads read_short_text (be_encode 2 3 ++ (byte_of_Z <$> [0xE2; 0x82; 0xAC])) [0x20AC].
Proof. apply (proj2 (text_roundtrip [0x20AC] _)). reflexivity. Defined.

(** A length prefix below -1 is not rejected: the reader returns an empty
    string and steps the cursor back into bytes already consumed. *)
Theorem negative_length_rewinds :
  read_int_string (be_encode 8 0 ++ be_encode 4 (-8)) 8 = Ok (Some [], 4) ∧
  read_short_bytes (be_encode 4 0 ++ be_encode 2 (-3)) 4 = Ok (Some [], 3).
Proof. split; reflexivity. Qed.

(** Grouping files each payload under its topic and partition: a lookup
    finds the last payload of the list with that topic and partition (an
    earlier one with the same key is replaced), and when the keys are distinct
    every payload is kept exactly once. *)
Theorem group_by_topic_and_partition_correct {P} (topic : P → text) (partition : P → Z)
    (ts : list P) :
  let g := group_by_topic_and_partition topic partition ts in
  grouped_wf topic partition g ∧
  (∀ t p, grouped_get t p g = last (filter (λ x, topic x = t ∧ partition x = p) ts)) ∧
  (NoDup ((λ x, (topic x, partition x)) <$> ts) → grouped_payloads g ≡ₚ ts).
Proof.
  split_and!; [apply group_wf|intros; apply group_get_last|apply group_complete].
Qed.
