(* ===== verification/Codec.v ===== *)
(** [afkak/codec.py]: gzip and Snappy compression, with the xerial block
    framing of Snappy. DEFLATE ([gzip.GzipFile]) and Snappy itself
    ([python-snappy], a third-party package) are the operations of the class
    [CompressionLib]; what the code relies on is [CompressionLaws]. *)
From S2P Require Import Prelude Common PyBytes.
Local Open Scope Z_scope.

Definition _XERIAL_HEADER : bytes :=
  byte_of_Z <$> [0x82; 0x53; 0x4E; 0x41; 0x50; 0x50; 0x59; 0; 0; 0; 0; 1; 0; 0; 0; 1].

(** The compression libraries the code calls; [None] is the library's own
    exception for input that is not a valid stream. *)
Class CompressionLib := {
  gzip_compress : bytes → bytes;
  gzip_decompress : bytes → option bytes;
  snappy_available : bool;
  snappy_compress : bytes → bytes;
  snappy_decompress : bytes → option bytes;
}.

(** Their documented behaviour: decompression inverts compression; Snappy's
    worst-case expansion is [32 + n + n/6]; and Snappy rejects the empty input
    and any input that agrees with the xerial header as far as both go (the
    header would be a length varint followed by a back-reference before any
    output). *)
Class CompressionLaws (L : CompressionLib) : Prop := {
  gzip_law x : gzip_decompress (gzip_compress x) = Some x;
  snappy_law x : snappy_decompress (snappy_compress x) = Some x;
  snappy_size_law x : len (snappy_compress x) ≤ 32 + len x + len x / 6;
  snappy_reject_law x :
    x `prefix_of` _XERIAL_HEADER ∨ _XERIAL_HEADER `prefix_of` x → snappy_decompress x = None;
}.

(** A library call that may reject its input. *)
Definition library {A} (r : option A) : res A :=
  match r with Some x => Ok x | None => Err CodecLibraryError end.

Section codec.
Context {L : CompressionLib}.

Definition has_gzip : bool := true.
Definition has_snappy : bool := snappy_available.

Definition gzip_encode (payload : bytes) : bytes := gzip_compress payload.

(** [BytesIO(None)] is an empty buffer. *)
Definition gzip_decode (payload : option bytes) : res bytes :=
  library (gzip_decompress (default [] payload)).

(** [range(0, n, step)]; a zero step is a [ValueError]. *)
Definition py_range_step (n step : Z) : res (list Z) :=
  if step =? 0 then Err PyValueError
  else if step <? 0 then Ok []
  else Ok ((λ i, i * step) <$> seqZ 0 ((n + step - 1) / step)).

(** [_chunker()] *)
Definition chunker (payload : bytes) (blocksize : Z) : res (list bytes) :=
  idxs ← py_range_step (len payload) blocksize;
  Ok ((λ i, slice payload i (i + blocksize)) <$> (idxs : list Z)).

Definition snappy_encode (payload : bytes) (xerial_compatible : bool)
    (xerial_blocksize : Z) : res bytes :=
  if negb has_snappy then Err PyNotImplementedError
  else if xerial_compatible then
    chunks ← chunker payload xerial_blocksize;
    for_each chunks (λ out chunk,
      let block := snappy_compress chunk in
      h ← pack [Fi] (len block, tt);
      Ok (out ++ h ++ block)) _XERIAL_HEADER
  else Ok (snappy_compress payload).

(** [struct.unpack_from('!i', view, cursor)] *)
Definition unpack_from_i (view : bytes) (cursor : Z) : res Z :=
  let offset := if cursor <? 0 then cursor + len view else cursor in
  if (offset <? 0) || (len view - offset <? 4) then Err StructError
  else '(z, _) ← unpack [Fi] (slice view offset (offset + 4)); Ok z.

(** The [while cursor < length] loop. *)
Fixpoint xerial_loop (fuel : nat) (view : bytes) (cursor : Z) (out : list bytes)
    : res (list bytes) :=
  match fuel with
  | O => Err OutOfFuel
  | S fuel =>
    if cursor <? len view then
      block_size ← unpack_from_i view cursor;
      let cursor := cursor + 4 in
      let end_ := cursor + block_size in
      block ← library (snappy_decompress (slice view cursor end_));
      xerial_loop fuel view end_ (out ++ [block])
    else Ok out
  end.

Definition snappy_decode (payload : option bytes) : res bytes :=
  if negb has_snappy then Err PyNotImplementedError
  else match payload with
  | None => Err PyAttributeError
  | Some payload =>
    if decide (_XERIAL_HEADER `prefix_of` payload) then
      out ← xerial_loop (S (length payload)) payload 16 [];
      Ok (concat out)
    else library (snappy_decompress payload)
  end.

(** ** Chunks and frames *)

(** One length-prefixed block of the xerial stream. *)
Definition frame (block : bytes) : bytes := be_encode 4 (len block) ++ block.

Lemma slice_take_drop {A} (l : list A) (i n : nat) :
  (i ≤ length l)%nat →
  slice l (Z.of_nat i) (Z.of_nat i + Z.of_nat n) = take n (drop i l).
Proof.
  intros Hi. unfold slice, slice_index.
  rewrite (proj2 (Z.ltb_ge (Z.of_nat i) 0)), (proj2 (Z.ltb_ge (_ + _) 0)) by lia.
  rewrite (Z.min_l (Z.of_nat i)) by (unfold len; lia). rewrite Nat2Z.id.
  destruct (Nat.le_ge_cases (i + n) (length l)).
  - rewrite Z.min_l by (unfold len; lia). f_equal. lia.
  - rewrite Z.min_r by (unfold len; lia).
    rewrite !take_ge; [done|rewrite length_drop; unfold len; lia..].
Qed.

Lemma chunks_take (l : bytes) (step k : nat) :
  (0 < step)%nat → ((k - 1) * step ≤ length l)%nat →
  concat ((λ i, slice l (i * Z.of_nat step) (i * Z.of_nat step + Z.of_nat step))
            <$> seqZ 0 (Z.of_nat k)) = take (k * step) l.
Proof.
  intros Hstep. induction k as [|k IH]; intros Hk; [done|].
  rewrite Nat2Z.inj_succ, <-Z.add_1_r, seqZ_app by lia.
  rewrite fmap_app, concat_app, IH by lia.
  change (seqZ (0 + Z.of_nat k) 1) with [Z.of_nat k].
  cbn [fmap list_fmap concat]. rewrite app_nil_r.
  rewrite <-Nat2Z.inj_mul, slice_take_drop by lia.
  rewrite take_take_drop. f_equal. lia.
Qed.

Lemma chunker_concat payload blocksize :
  0 < blocksize → ∃ cs, chunker payload blocksize = Ok cs ∧ concat cs = payload ∧
    Forall (λ c, len c ≤ blocksize) cs.
Proof.
  intros Hb. unfold chunker, py_range_step.
  rewrite (proj2 (Z.eqb_neq _ _)), (proj2 (Z.ltb_ge _ _)) by lia. cbn.
  eexists. split; [done|]. rewrite <-list_fmap_compose. unfold compose.
  set (k := (len payload + blocksize - 1) / blocksize).
  pose proof (len_nonneg payload).
  assert (0 ≤ k) by (apply Z.div_pos; lia).
  assert (blocksize * k ≤ len payload + blocksize - 1 < blocksize * k + blocksize).
  { unfold k. pose proof (Z.div_mod (len payload + blocksize - 1) blocksize ltac:(lia)).
    pose proof (Z.mod_pos_bound (len payload + blocksize - 1) blocksize ltac:(lia)). lia. }
  split.
  - pose proof (chunks_take payload (Z.to_nat blocksize) (Z.to_nat k)) as Hc.
    rewrite !Z2Nat.id in Hc by lia. rewrite Hc by (unfold len in *; nia).
    apply take_ge. unfold len in *. nia.
  - apply Forall_fmap, Forall_true. intros i. cbn. rewrite len_slice.
    unfold slice_index. generalize (i * blocksize). intros x. repeat case_match; zbool; lia.
Qed.

Lemma encode_frames chunks out :
  Forall (λ c, len (snappy_compress c) < 2 ^ 31) chunks →
  for_each chunks (λ out chunk,
      let block := snappy_compress chunk in
      h ← pack [Fi] (len block, tt);
      Ok (out ++ h ++ block)) out =
  Ok (out ++ (chunks ≫= λ c, frame (snappy_compress c))).
Proof.
  intros Hc. revert out. induction Hc as [|c chunks Hlen _ IH]; intros out.
  - cbn. by rewrite app_nil_r.
  - cbn [for_each]. cbv zeta. rewrite pack_tuple.
    assert (tuple_ok [Fi] (len (snappy_compress c), tt) = true) as ->.
    { cbn -[Z.pow]. unfold frange. cbn -[Z.pow]. change (fbits Fi - 1) with 31.
      len_pose. lia. }
    cbn [mbind result_bind]. rewrite IH. f_equal. cbn -[be_encode]. unfold frame.
    by rewrite app_nil_r, <-!app_assoc.
Qed.

Context {H : CompressionLaws L}.

Lemma xerial_loop_frames fuel pre chunks out :
  Forall (λ c, len (snappy_compress c) < 2 ^ 31) chunks →
  (length chunks < fuel)%nat →
  xerial_loop fuel (pre ++ (chunks ≫= λ c, frame (snappy_compress c))) (len pre) out =
    Ok (out ++ chunks).
Proof.
  intros Hc. revert fuel pre out.
  induction Hc as [|c chunks Hlen _ IH]; intros fuel pre out Hf;
    (destruct fuel as [|fuel]; [cbn in Hf; lia|]); cbn [xerial_loop mbind list_bind].
  - by rewrite !app_nil_r, Z.ltb_irrefl.
  - set (b := snappy_compress c) in *. set (rest := mbind _ chunks).
    unfold frame. rewrite <-app_assoc, !len_app, len_be_encode. len_pose.
    rewrite (proj2 (Z.ltb_lt _ _)) by lia.
    unfold unpack_from_i. rewrite (proj2 (Z.ltb_ge (len pre) 0)) by lia.
    rewrite !len_app, len_be_encode.
    rewrite (proj2 (Z.ltb_ge (len pre) 0)), (proj2 (Z.ltb_ge _ _)) by lia. cbn [orb].
    rewrite slice_app3 by (by rewrite ?len_be_encode).
    assert (be_encode 4 (len b) = tuple_bytes [Fi] (len b, tt)) as Hbe
      by (cbn -[be_encode]; by rewrite app_nil_r).
    rewrite Hbe at 1. rewrite unpack_tuple.
    2:{ cbn -[Z.pow]. unfold frange. cbn -[Z.pow]. change (fbits Fi - 1) with 31. lia. }
    cbn [mbind result_bind].
    rewrite (app_assoc pre), slice_app3 by (rewrite len_app, len_be_encode; lia).
    assert (snappy_decompress b = Some c) as -> by apply snappy_law.
    cbn [library mbind result_bind].
    rewrite (app_assoc (pre ++ _)).
    specialize (IH fuel ((pre ++ be_encode 4 (len b)) ++ b) (out ++ [c])).
    rewrite !len_app, len_be_encode in IH.
    replace (len pre + 4 + len b) with (len pre + Z.of_nat 4 + len b) by lia.
    unfold rest. rewrite IH by (cbn in Hf; lia). by rewrite <-app_assoc.
Qed.
End codec.

(** ** Theorems *)

(** gzip: decoding what [gzip_encode] produced gives the payload back. *)
Lemma gzip_roundtrip `{CompressionLaws} payload :
  gzip_decode (Some (gzip_encode payload)) = Ok payload.
Proof. unfold gzip_decode. cbn. by rewrite gzip_law. Qed.

(** Plain Snappy: the header test never mistakes a plain stream for a
    framed one, so decoding gives the payload back. *)
Lemma snappy_plain_roundtrip `{CompressionLaws} payload bs :
  snappy_available = true →
  ∃ b, snappy_encode payload false bs = Ok b ∧ snappy_decode (Some b) = Ok payload.
Proof.
  intros Ha. unfold snappy_encode, snappy_decode, has_snappy. rewrite Ha. cbn.
  eexists. split; [done|]. rewrite decide_False.
  - by rewrite snappy_law.
  - intros Hp. pose proof (snappy_reject_law _ (or_intror Hp)) as Hr.
    by rewrite snappy_law in Hr.
Qed.

(** C33. With the library available, [snappy_decode] inverts [snappy_encode] in
    both modes: plain, and split into length-prefixed xerial blocks of any
    positive size whose compressed form fits the 32-bit length prefix (the
    default 32 KiB does). The decoder's loop finishes within its bound. *)
Theorem snappy_roundtrip `{CompressionLaws} (payload : bytes) (xerial : bool) (blocksize : Z)
    (Ha : snappy_available = true) (Hb : 0 < blocksize)
    (Hmax : 32 + blocksize + blocksize / 6 < 2 ^ 31) :
  ∃ b, snappy_encode payload xerial blocksize = Ok b ∧ snappy_decode (Some b) = Ok payload.
Proof.
  destruct xerial; [|by apply snappy_plain_roundtrip].
  unfold snappy_encode, snappy_decode, has_snappy. rewrite Ha. cbn [negb].
  destruct (chunker_concat payload blocksize Hb) as (cs & Hcs & Hcat & Hle).
  rewrite Hcs. cbn [mbind result_bind].
  assert (Forall (λ c, len (snappy_compress c) < 2 ^ 31) cs) as Hsz.
  { eapply Forall_impl; [exact Hle|]. intros c Hc. cbn in Hc.
    pose proof (snappy_size_law c). pose proof (Z.div_le_mono (len c) blocksize 6). lia. }
  rewrite encode_frames by done. eexists. split; [done|].
  rewrite decide_True by apply prefix_app_r, reflexivity.
  change 16 with (len _XERIAL_HEADER). rewrite xerial_loop_frames; [|done|].
  - cbn. by rewrite Hcat.
  - rewrite length_app. enough (length cs ≤ length (cs ≫= λ c, frame (snappy_compress c)))%nat
      by lia. clear. induction cs as [|c cs IH]; [done|].
    rewrite bind_cons. unfold frame at 1.
    rewrite !length_app, length_be_encode. cbn [length]. lia.
Qed.

(** The decoder's loop terminates on every input: a block length that moves
    the cursor backwards, or below zero, makes Snappy reject the block. *)
Lemma xerial_loop_terminates `{CompressionLaws} fuel view cursor out :
  _XERIAL_HEADER `prefix_of` view →
  len view - slice_index (len view) cursor < Z.of_nat fuel →
  xerial_loop fuel view cursor out ≠ Err OutOfFuel.
Proof.
  intros Hh. revert cursor out. induction fuel as [|fuel IH]; intros cursor out Hf.
  - exfalso. unfold slice_index in Hf. len_pose. repeat case_match; zbool; lia.
  - cbn [xerial_loop]. destruct (cursor <? len view) eqn:Hlt; [|done].
    unfold unpack_from_i. destruct (_ || _) eqn:Hoff; [done|].
    destruct (unpack [Fi] _) as [[bs []]|e] eqn:Hu; cbn [mbind result_bind].
    2:{ unfold unpack in Hu. case_match; congruence. }
    destruct (snappy_decompress _) as [block|] eqn:Hd; cbn [library mbind result_bind]; [|done].
    apply IH. clear IH Hu out. apply orb_false_iff in Hoff as [Ho1 Ho2].
    assert (cursor ≠ -4) as Hne.
    { intros ->. enough (snappy_decompress (slice view (-4 + 4) (-4 + 4 + bs)) = None) by congruence.
      apply snappy_reject_law. unfold slice.
      assert (slice_index (len view) (-4 + 4) = 0) as ->.
      { change (-4 + 4) with 0. unfold slice_index. cbn [Z.ltb Z.compare]. len_pose. lia. }
      rewrite drop_0. destruct Hh as [k ->].
      apply (prefix_weak_total _ _ (_XERIAL_HEADER ++ k)).
      - apply prefix_take.
      - by apply prefix_app_r. }
    assert (0 < len (slice view (cursor + 4) (cursor + 4 + bs))) as Hpos.
    { destruct (slice view _ _) as [|x l] eqn:Hs; [|rewrite len_cons; len_pose; lia].
      rewrite snappy_reject_law in Hd; [done|left; apply prefix_nil]. }
    rewrite len_slice in Hpos. len_pose. clear Hd Hh.
    unfold slice_index in *. repeat case_match; zbool; lia.
Qed.

Lemma snappy_decode_terminates `{CompressionLaws} payload :
  snappy_decode payload ≠ Err OutOfFuel.
Proof.
  unfold snappy_decode. destruct (negb has_snappy); [done|]. destruct payload as [p|]; [|done].
  case_decide as Hp.
  - pose proof (xerial_loop_terminates (S (length p)) p 16 [] Hp) as Ht.
    destruct (xerial_loop _ _ _ _) as [|e] eqn:Heq; [done|]. cbn. intros [= ->].
    apply Ht; [|done]. unfold slice_index, len. case_match; zbool; lia.
  - by destruct (snappy_decompress p).
Qed.

(** A stand-in for the libraries that satisfies their laws: a one-byte tag
    before the data. *)
Definition tagged_lib : CompressionLib := {|
  gzip_compress x := Byte.x1f :: x;
  gzip_decompress x := match x with _ :: x => Some x | [] => Some [] end;
  snappy_available := true;
  snappy_compress x := Byte.x00 :: x;
  snappy_decompress x := match x with Byte.x00 :: x => Some x | _ => None end;
|}.

#[export] Instance tagged_lib_laws : CompressionLaws tagged_lib.
Proof.
  split; cbn; [done|done| |].
  - intros x. rewrite len_cons. pose proof (len_nonneg x).
    pose proof (Z.div_pos (len x) 6). lia.
  - intros x [[k Hk]|[k ->]]; [|done]. by destruct x as [|b x]; [|injection Hk as <-].
Qed.

Example snappy_roundtrip_witness :
  ∃ b, @snappy_encode tagged_lib (byte_of_Z <$> txt "hello snappy") true 5 = Ok b ∧
       @snappy_decode tagged_lib (Some b) = Ok (byte_of_Z <$> txt "hello snappy").
Proof. apply (@snappy_roundtrip tagged_lib tagged_lib_laws); reflexivity. Defined.
