(* ===== verification/Wire.v ===== *)
(** The wire grammar of the Kafka protocol, as a specification: fixed-width
    big-endian integers, nullable strings with a 16-bit or a 32-bit length,
    arrays with a 32-bit count, and sequences of these. A schema has a
    serialiser and a parser, and parsing inverts serialising, so the bytes an
    encoder emits determine the fields a broker reads from them. The schemas of
    the individual requests and responses are in KafkaCodec.v. *)
From S2P Require Import Prelude Common PyBytes Util.
Local Open Scope Z_scope.

Inductive schema : Type :=
| SNums (fs : list fmt)
| SShort
| SLong
| SArr (s : schema)
| SSeq (s1 s2 : schema).

Declare Scope schema_scope.
Delimit Scope schema_scope with schema.
Infix "+>" := SSeq (at level 60, right associativity) : schema_scope.

(** The values of a schema. *)
Fixpoint sem (s : schema) : Type :=
  match s with
  | SNums fs => ztuple fs
  | SShort | SLong => option bytes
  | SArr s => list (sem s)
  | SSeq s1 s2 => sem s1 * sem s2
  end.

(** The values the wire can represent. *)
Fixpoint ok (s : schema) : sem s → bool :=
  match s with
  | SNums fs => tuple_ok fs
  | SShort => short_string_ok
  | SLong => int_string_ok
  | SArr s => λ vs, (len vs <? 2 ^ 31) && forallb (ok s) vs
  | SSeq s1 s2 => λ v, ok s1 v.1 && ok s2 v.2
  end.

Fixpoint ser (s : schema) : sem s → bytes :=
  match s with
  | SNums fs => tuple_bytes fs
  | SShort => short_string_bytes
  | SLong => int_string_bytes
  | SArr s => λ vs, be_encode 4 (len vs) ++ (vs ≫= ser s)
  | SSeq s1 s2 => λ v, ser s1 v.1 ++ ser s2 v.2
  end.

(** ** The parser: consumes a prefix of the input *)

Definition split_at (n : Z) (b : bytes) : option (bytes * bytes) :=
  if (0 <=? n) && (n <=? len b) then Some (take (Z.to_nat n) b, drop (Z.to_nat n) b) else None.

Definition parse_nums (fs : list fmt) (b : bytes) : option (ztuple fs * bytes) :=
  '(h, t) ← split_at (calcsize fs) b; Some (unpack_all fs h, t).

Definition parse_string (f : fmt) (b : bytes) : option (option bytes * bytes) :=
  '((n, _), t) ← parse_nums [f] b;
  if n =? -1 then Some (None, t)
  else '(s, t) ← split_at n t; Some (Some s, t).

Fixpoint parse_many {A} (p : bytes → option (A * bytes)) (n : nat) (b : bytes)
    : option (list A * bytes) :=
  match n with
  | O => Some ([], b)
  | S n => '(x, b) ← p b; '(xs, b) ← parse_many p n b; Some (x :: xs, b)
  end.

Fixpoint parse (s : schema) : bytes → option (sem s * bytes) :=
  match s with
  | SNums fs => parse_nums fs
  | SShort => parse_string Fh
  | SLong => parse_string Fi
  | SArr s => λ b,
      '((n, _), b) ← parse_nums [Fi] b; parse_many (parse s) (Z.to_nat n) b
  | SSeq s1 s2 => λ b,
      '(x, b) ← parse s1 b; '(y, b) ← parse s2 b; Some ((x, y), b)
  end.

(** ** Parsing inverts serialising *)

Lemma split_at_app b t : split_at (len b) (b ++ t) = Some (b, t).
Proof.
  unfold split_at. rewrite len_app.
  replace ((0 <=? len b) && (len b <=? len b + len t)) with true by (len_pose; lia).
  unfold len. rewrite Nat2Z.id, take_app_length, drop_app_length. done.
Qed.

Lemma parse_nums_ser fs zs t :
  tuple_ok fs zs = true → parse_nums fs (tuple_bytes fs zs ++ t) = Some (zs, t).
Proof.
  intros Hok. unfold parse_nums. rewrite <-(len_tuple_bytes fs zs), split_at_app.
  cbn. by rewrite unpack_all_tuple.
Qed.

Lemma parse_one_ser f z t :
  frange f z = true → parse_nums [f] (be_encode (fsize f) z ++ t) = Some ((z, tt), t).
Proof.
  intros Hz. pose proof (parse_nums_ser [f] (z, tt) t) as H. cbn -[parse_nums] in H.
  rewrite app_nil_r in H. apply H. by rewrite Hz.
Qed.

Lemma frange_count f n : fsigned f = true → 0 ≤ n < 2 ^ (fbits f - 1) → frange f n = true.
Proof.
  intros Hs Hn. unfold frange. rewrite Hs.
  assert (0 < 2 ^ (fbits f - 1)) by (destruct f; reflexivity).
  apply andb_true_iff. split; [apply Z.leb_le|apply Z.ltb_lt]; lia.
Qed.

Lemma parse_string_ser f s t :
  match s with None => fsigned f = true | Some s => frange f (len s) = true end →
  parse_string f (string_bytes f s ++ t) = Some (s, t).
Proof.
  unfold parse_string. destruct s as [s|]; cbn [string_bytes]; intros Hs.
  - rewrite <-app_assoc, parse_one_ser by done. cbn.
    rewrite (proj2 (Z.eqb_neq _ _)) by len_solve. by rewrite split_at_app.
  - rewrite parse_one_ser; [done|]. unfold frange. rewrite Hs. by destruct f.
Qed.

Lemma parse_many_ser {A} (p : bytes → option (A * bytes)) (f : A → bytes) xs t :
  (∀ x t, x ∈ xs → p (f x ++ t) = Some (x, t)) →
  parse_many p (length xs) ((xs ≫= f) ++ t) = Some (xs, t).
Proof.
  intros Hp. induction xs as [|x xs IH]; [done|].
  rewrite bind_cons. cbn [length parse_many]. rewrite <-app_assoc, Hp by set_solver.
  cbn. rewrite IH by set_solver. done.
Qed.

(** A broker that follows the grammar reads back exactly the value that was
    serialised, and leaves what follows untouched. *)
Theorem parse_ser s v t : ok s v = true → parse s (ser s v ++ t) = Some (v, t).
Proof.
  revert v t. induction s as [fs| | |s IH|s1 IH1 s2 IH2]; intros v t Hok.
  - by apply parse_nums_ser.
  - apply (parse_string_ser Fh v t). destruct v; [|done].
    apply frange_count; [done|]. cbn -[Z.pow] in Hok |- *. len_pose.
    change (fbits Fh - 1) with 15. lia.
  - apply (parse_string_ser Fi v t). destruct v; [|done].
    apply frange_count; [done|]. cbn -[Z.pow] in Hok |- *. len_pose.
    change (fbits Fi - 1) with 31. lia.
  - cbn [ok ser parse] in *. apply andb_true_iff in Hok as [Hn Hv].
    rewrite <-app_assoc, (parse_one_ser Fi).
    2:{ apply frange_count; [done|]. change (fbits Fi - 1) with 31. len_pose. lia. }
    cbn [mbind option_bind]. unfold len. rewrite Nat2Z.id.
    apply parse_many_ser. intros x t' Hx. apply IH.
    rewrite forallb_forall in Hv. by apply Hv, list_elem_of_In.
  - cbn [ok ser parse] in *. apply andb_true_iff in Hok as [H1 H2].
    destruct v as [v1 v2]. rewrite <-app_assoc, IH1 by done. cbn. by rewrite IH2.
Qed.

(** The grammar is unambiguous: equal bytes, equal values. *)
Corollary ser_inj s v w : ok s v = true → ok s w = true → ser s v = ser s w → v = w.
Proof.
  intros Hv Hw Heq. pose proof (parse_ser s v [] Hv) as H1.
  rewrite Heq, (parse_ser s w [] Hw) in H1. congruence.
Qed.

(** ** Encoders as serialisers

    [encodes r s v]: the encoder's result [r] is the serialisation of [v] when
    the wire can represent [v], and an exception otherwise. *)
Definition encodes (r : res bytes) (good : bool) (b : bytes) : Prop :=
  if good then r = Ok b else ∃ e, r = Err e.

(** [message += r] *)
Definition iadd (message : bytes) (r : res bytes) : res bytes :=
  b ← r; Ok (message ++ b).

(** [f] appends [b] to what was written before it, or raises. *)
Definition appends (f : bytes → res bytes) (good : bool) (b : bytes) : Prop :=
  ∀ m, encodes (f m) good (m ++ b).

Lemma appends_iadd r good b : encodes r good b → appends (λ m, iadd m r) good b.
Proof.
  intros H m. unfold encodes, iadd in *. destruct good; [by rewrite H|].
  destruct H as [e ->]. by exists e.
Qed.

Lemma appends_bind f g good1 good2 b1 b2 :
  appends f good1 b1 → appends g good2 b2 →
  appends (λ m, m' ← f m; g m') (good1 && good2) (b1 ++ b2).
Proof.
  intros H1 H2 m. specialize (H1 m). unfold encodes in *. destruct good1; cbn.
  - rewrite H1. cbn. specialize (H2 (m ++ b1)). unfold encodes in H2.
    by rewrite app_assoc.
  - destruct H1 as [e ->]. by exists e.
Qed.

Lemma appends_eq f good good' b b' :
  appends f good b → good = good' → b = b' → appends f good' b'.
Proof. by intros ? <- <-. Qed.

Lemma appends_id : appends (λ m, Ok m) true [].
Proof. intros m. cbn. by rewrite app_nil_r. Qed.

Lemma appends_for {X} (xs : list X) (f : bytes → X → res bytes) good b :
  (∀ x, x ∈ xs → appends (λ m, f m x) (good x) (b x)) →
  appends (λ m, for_each xs f m) (forallb good xs) (xs ≫= b).
Proof.
  intros H. induction xs as [|x xs IH]; [apply appends_id|].
  rewrite bind_cons. cbn [for_each forallb].
  apply appends_bind; [apply H; set_solver|apply IH; set_solver].
Qed.

(** An encoder that starts from a header and appends a body. *)
Lemma encodes_bind r f good1 good2 b1 b2 :
  encodes r good1 b1 → appends f good2 b2 →
  encodes (m ← r; f m) (good1 && good2) (b1 ++ b2).
Proof.
  intros H1 H2. unfold encodes in *. destruct good1; cbn.
  - rewrite H1. apply H2.
  - destruct H1 as [e ->]. by exists e.
Qed.

Lemma encodes_pack fs zs : encodes (pack fs zs) (tuple_ok fs zs) (tuple_bytes fs zs).
Proof. unfold encodes. rewrite pack_tuple. destruct (tuple_ok fs zs); eauto. Qed.

Lemma encodes_int_string s :
  encodes (write_int_string s) (int_string_ok s) (int_string_bytes s).
Proof. unfold encodes. rewrite write_int_string_eq. destruct (int_string_ok s); eauto. Qed.

Lemma encodes_short_bytes s :
  encodes (write_short_bytes s) (short_string_ok s) (short_string_bytes s).
Proof. unfold encodes. rewrite write_short_bytes_eq. destruct (short_string_ok s); eauto. Qed.

(** Text on the wire: ASCII or UTF-8, [None] where it cannot be encoded. *)
Definition ascii_wire (s : text) : option bytes :=
  match ascii_encode s with Ok b => Some b | Err _ => None end.
Definition utf8_wire (s : text) : option bytes :=
  match utf8_encode s with Ok b => Some b | Err _ => None end.

(** The string fits a short string in that encoding. *)
Definition wire_text_ok (w : option bytes) : bool :=
  match w with Some b => len b <=? 32767 | None => false end.

Lemma encodes_short_ascii s :
  encodes (write_short_ascii (Some s)) (wire_text_ok (ascii_wire s))
          (short_string_bytes (ascii_wire s)).
Proof.
  unfold write_short_ascii, ascii_wire. destruct (ascii_encode s) as [b|e]; [|by exists e].
  apply (encodes_short_bytes (Some b)).
Qed.

Lemma encodes_short_text s :
  encodes (write_short_text (Some s)) (wire_text_ok (utf8_wire s))
          (short_string_bytes (utf8_wire s)).
Proof.
  unfold write_short_text, utf8_wire. destruct (utf8_encode s) as [b|e]; [|by exists e].
  apply (encodes_short_bytes (Some b)).
Qed.

(** The readers find the text that was put on the wire. *)
Lemma reads_ascii_wire s :
  wire_text_ok (ascii_wire s) = true →
  reads read_short_ascii (short_string_bytes (ascii_wire s)) s.
Proof.
  intros Hok. pose proof (encodes_short_ascii s) as H. rewrite Hok in H.
  by apply reads_short_ascii.
Qed.

Lemma reads_utf8_wire s :
  wire_text_ok (utf8_wire s) = true →
  reads read_short_text (short_string_bytes (utf8_wire s)) s.
Proof.
  intros Hok. pose proof (encodes_short_text s) as H. rewrite Hok in H.
  by apply reads_short_text.
Qed.
