(* ===== verification/KafkaCodec.v ===== *)
(** [afkak/kafkacodec.py], the definitions: request encoders, response
    decoders, message sets and the message constructors. An encoder returns the
    bytes or raises; a decoder that is a Python generator is a run: the items
    it yields and how it ends (the value it ends with is the last cursor).
    [depth] bounds the nesting of compressed message sets: the interpreter
    raises [RecursionError] when its stack is exhausted. *)
From S2P Require Import Prelude Common PyBytes Util Codec Wire.
Local Open Scope Z_scope.

Definition _SUPPORTED_CODECS : list Z := [CODEC_GZIP; CODEC_NONE; CODEC_SNAPPY].
Definition ATTRIBUTE_CODEC_MASK : Z := 0x03.
Definition MAX_BROKERS : Z := 1024.
Definition DEFAULT_REPLICAS_ACK_TIMEOUT_MSECS : Z := 1000.

(** ** API keys *)

Definition PRODUCE_KEY : Z := 0.
Definition FETCH_KEY : Z := 1.
Definition OFFSET_KEY : Z := 2.
Definition METADATA_KEY : Z := 3.
Definition OFFSET_COMMIT_KEY : Z := 8.
Definition OFFSET_FETCH_KEY : Z := 9.
Definition CONSUMER_METADATA_KEY : Z := 10.
Definition FIND_COORDINATOR_KEY : Z := 10.
Definition JOIN_GROUP_KEY : Z := 11.
Definition HEARTBEAT_KEY : Z := 12.
Definition LEAVE_GROUP_KEY : Z := 13.
Definition SYNC_GROUP_KEY : Z := 14.
Definition DESCRIBE_GROUP_KEY : Z := 15.
Definition LIST_GROUPS_KEY : Z := 16.
Definition SASL_HANDSHAKE_KEY : Z := 17.
Definition API_VERSIONS_KEY : Z := 18.
Definition CREATE_TOPICS_KEY : Z := 19.
Definition DELETE_TOPICS_KEY : Z := 20.

Definition _key_to_name : list (Z * string) := [
  (PRODUCE_KEY, "Produce");
  (FETCH_KEY, "Fetch");
  (OFFSET_KEY, "ListOffsets");
  (METADATA_KEY, "Metadata");
  (OFFSET_COMMIT_KEY, "OffsetCommit");
  (OFFSET_FETCH_KEY, "OffsetFetch");
  (FIND_COORDINATOR_KEY, "FindCoordinator");
  (JOIN_GROUP_KEY, "JoinGroup");
  (HEARTBEAT_KEY, "Heartbeat");
  (LEAVE_GROUP_KEY, "LeaveGroup");
  (SYNC_GROUP_KEY, "SyncGroup");
  (DESCRIBE_GROUP_KEY, "DescribeGroup");
  (LIST_GROUPS_KEY, "ListGroups");
  (SASL_HANDSHAKE_KEY, "SaslHandshake");
  (API_VERSIONS_KEY, "ApiVersions");
  (CREATE_TOPICS_KEY, "CreateTopics");
  (DELETE_TOPICS_KEY, "DeleteTopics")
]%string.

Definition key_name (key : Z) : res string :=
  match Dict.get key _key_to_name with Some n => Ok n | None => Err PyKeyError end.

(** ** Envelope and messages *)

Definition _encode_message_header (client_id : bytes) (correlation_id request_key : Z)
    (api_version : Z) : res bytes :=
  h ← pack [Fh; Fh; Fi; Fh]
    (request_key, (api_version, (correlation_id, (len client_id, tt))));
  Ok (h ++ client_id).

Definition _encode_message (message : Message) : res bytes :=
  if magic message =? 0 then
    msg ← pack [FB; FB] (magic message, (attributes message, tt));
    msg ← iadd msg (write_int_string (key message));
    msg ← iadd msg (write_int_string (value message));
    let crc := Z.land (crc32 msg) 0xffffffff in
    h ← pack [FI] (crc, tt);
    Ok (h ++ msg)
  else Err ProtocolError.

(** The loop of [_encode_message_set]: [offset] and [message_set] threaded. *)
Definition encode_message_set_step (incr : Z) (st : Z * bytes) (message : Message)
    : res (Z * bytes) :=
  let '(offset, message_set) := st in
  encoded_message ← _encode_message message;
  h ← pack [Fq; Fi] (offset, (len encoded_message, tt));
  Ok (offset + incr, message_set ++ h ++ encoded_message).

Definition _encode_message_set (messages : list Message) (offset : option Z) : res bytes :=
  let '(incr, offset) := match offset with None => (0, 0) | Some o => (1, o) end in
  '(_, message_set) ← for_each messages (encode_message_set_step incr) (offset, []);
  Ok message_set.

Section decode_messages.
Context {L : CompressionLib}.

(** [_decode_message]; [decode_set] is the message-set decoder it recurses
    into for a compressed value. [data] is [None] when the message set held a
    null string, and [len(None)] is a [TypeError]. *)
Definition _decode_message (decode_set : option bytes → pygen OffsetAndMessage unit)
    (data : option bytes) (offset : Z) : pygen OffsetAndMessage unit :=
  match data with
  | None => graise PyTypeError
  | Some data =>
    '((crc, (magic, (att, _))), cur) ← glift (relative_unpack [FI; FB; FB] data 0);
    if negb (crc =? Z.land (crc32 (drop 4 data)) 0xffffffff) then graise ChecksumError
    else
      '(key, cur) ← glift (read_int_string data cur);
      '(value, cur) ← glift (read_int_string data cur);
      let codec := Z.land att ATTRIBUTE_CODEC_MASK in
      if codec =? CODEC_NONE then
        gyield (mkOffsetAndMessage offset (mkMessage magic att key value))
      else if codec =? CODEC_GZIP then
        gz ← glift (gzip_decode value); decode_set (Some gz)
      else if codec =? CODEC_SNAPPY then
        snp ← glift (snappy_decode value); decode_set (Some snp)
      else graise ProtocolError
  end.

(** The body of the [try] in [_decode_message_set_iter]: one entry of the
    set, returning the new cursor. *)
Definition decode_entry (decode_set : option bytes → pygen OffsetAndMessage unit)
    (data : bytes) (cur : Z) : pygen OffsetAndMessage Z :=
  '((offset, _), cur) ← glift (relative_unpack [Fq] data cur);
  '(msg, cur) ← glift (read_int_string data cur);
  _ ← _decode_message decode_set msg offset;
  mret cur.

(** The [while cur < len(data)] loop with its handler. [read_message] is
    whether anything was yielded so far. *)
Fixpoint decode_set_loop (decode_set : option bytes → pygen OffsetAndMessage unit)
    (fuel : nat) (data : bytes) (cur : Z) (read_message : bool)
    : pygen OffsetAndMessage unit :=
  match fuel with
  | O => graise OutOfFuel
  | S fuel =>
    if cur <? len data then
      let '(ys, r) := decode_entry decode_set data cur in
      let read_message := read_message || negb (bool_decide (ys = [])) in
      match r with
      | Ok cur =>
        let '(zs, r) := decode_set_loop decode_set fuel data cur read_message in
        (ys ++ zs, r)
      | Err BufferUnderflowError =>
        if read_message then (ys, Ok tt) else (ys, Err ConsumerFetchSizeTooSmall)
      | Err e => (ys, Err e)
      end
    else mret tt
  end.

Fixpoint _decode_message_set_iter (depth : nat) (data : option bytes)
    : pygen OffsetAndMessage unit :=
  match depth with
  | O => graise PyRecursionError
  | S depth =>
    match data with
    | None => graise PyTypeError
    | Some data =>
      decode_set_loop (_decode_message_set_iter depth) (S (length data)) data 0 false
    end
  end.

(** ** Produce *)

(** [for topic, topic_payloads in grouped_payloads.items()], the part every
    payload encoder shares; [entry] writes one partition. *)
Definition encode_grouped {P} (entry : Z → P → bytes → res bytes)
    (grouped : list (text * list (Z * P))) (message : bytes) : res bytes :=
  for_each grouped (λ message tg,
    message ← iadd message (write_short_ascii (Some tg.1));
    message ← iadd message (pack [Fi] (len tg.2, tt));
    for_each tg.2 (λ message pp, entry pp.1 pp.2 message) message) message.

Definition encode_produce_request (client_id : bytes) (correlation_id : Z)
    (payloads : option (list ProduceRequest)) (acks timeout : Z) : res bytes :=
  let payloads := default [] payloads in
  let grouped_payloads := group_by_topic_and_partition pr_topic pr_partition payloads in
  message ← _encode_message_header client_id correlation_id PRODUCE_KEY 0;
  message ← iadd message (pack [Fh; Fi; Fi] (acks, (timeout, (len grouped_payloads, tt))));
  encode_grouped (λ partition payload message,
    msg_set ← _encode_message_set (pr_messages payload) None;
    message ← iadd message (pack [Fi; Fi] (partition, (len msg_set, tt)));
    Ok (message ++ msg_set)) grouped_payloads message.

Definition decode_produce_response (data : bytes) : pygen ProduceResponse Z :=
  '((correlation_id, (num_topics, _)), cur) ← glift (relative_unpack [Fi; Fi] data 0);
  gfor_range num_topics (λ cur,
    '(topic, cur) ← glift (read_short_ascii data cur);
    '((num_partitions, _), cur) ← glift (relative_unpack [Fi] data cur);
    gfor_range num_partitions (λ cur,
      '((partition, (error, (offset, _))), cur) ←
        glift (relative_unpack [Fi; Fh; Fq] data cur);
      _ ← gyield (mkProduceResponse topic partition error offset);
      mret cur) cur) cur.

(** ** Fetch *)

Definition encode_fetch_request (client_id : bytes) (correlation_id : Z)
    (payloads : option (list FetchRequest)) (max_wait_time min_bytes : Z) : res bytes :=
  let payloads := default [] payloads in
  let grouped_payloads := group_by_topic_and_partition fr_topic fr_partition payloads in
  message ← _encode_message_header client_id correlation_id FETCH_KEY 0;
  message ← iadd message (pack [Fi; Fi; Fi; Fi]
    (-1, (max_wait_time, (min_bytes, (len grouped_payloads, tt)))));
  encode_grouped (λ partition payload message,
    iadd message (pack [Fi; Fq; Fi]
      (partition, (fr_offset payload, (fr_max_bytes payload, tt))))) grouped_payloads message.

Definition decode_fetch_response (depth : nat) (data : bytes)
    : pygen (FetchResponse (pygen OffsetAndMessage unit)) Z :=
  '((correlation_id, (num_topics, _)), cur) ← glift (relative_unpack [Fi; Fi] data 0);
  gfor_range num_topics (λ cur,
    '(topic, cur) ← glift (read_short_ascii data cur);
    '((num_partitions, _), cur) ← glift (relative_unpack [Fi] data cur);
    gfor_range num_partitions (λ cur,
      '((partition, (error, (highwater_mark_offset, _))), cur) ←
        glift (relative_unpack [Fi; Fh; Fq] data cur);
      '(message_set, cur) ← glift (read_int_string data cur);
      _ ← gyield (mkFetchResponse topic partition error highwater_mark_offset
                    (_decode_message_set_iter depth message_set));
      mret cur) cur) cur.

End decode_messages.

Definition get_response_correlation_id (data : bytes) : res Z :=
  '((correlation_id, _), cur) ← relative_unpack [Fi] data 0;
  Ok correlation_id.

(** ** Offsets *)

Definition encode_offset_request (client_id : bytes) (correlation_id : Z)
    (payloads : option (list OffsetRequest)) : res bytes :=
  let payloads := default [] payloads in
  let grouped_payloads := group_by_topic_and_partition or_topic or_partition payloads in
  message ← _encode_message_header client_id correlation_id OFFSET_KEY 0;
  message ← iadd message (pack [Fi; Fi] (-1, (len grouped_payloads, tt)));
  encode_grouped (λ partition payload message,
    iadd message (pack [Fi; Fq; Fi]
      (partition, (or_time payload, (or_max_offsets payload, tt))))) grouped_payloads message.

Definition decode_offset_response (data : bytes) : pygen OffsetResponse Z :=
  '((correlation_id, (num_topics, _)), cur) ← glift (relative_unpack [Fi; Fi] data 0);
  gfor_range num_topics (λ cur,
    '(topic, cur) ← glift (read_short_ascii data cur);
    '((num_partitions, _), cur) ← glift (relative_unpack [Fi] data cur);
    gfor_range num_partitions (λ cur,
      '((partition, (error, (num_offsets, _))), cur) ←
        glift (relative_unpack [Fi; Fh; Fi] data cur);
      '(offsets, cur) ← glift (for_range num_offsets (λ st : list Z * Z,
        '((offset, _), cur) ← relative_unpack [Fq] data st.2;
        Ok (st.1 ++ [offset], cur)) ([], cur));
      _ ← gyield (mkOffsetResponse topic partition error offsets);
      mret cur) cur) cur.

Definition encode_offset_commit_request (client_id : bytes) (correlation_id : Z)
    (group : text) (group_generation_id : Z) (consumer_id : option text)
    (payloads : list OffsetCommitRequest) : res bytes :=
  match consumer_id with
  | None => Err PyAssertionError
  | Some consumer_id =>
    let grouped_payloads := group_by_topic_and_partition ocr_topic ocr_partition payloads in
    message ← _encode_message_header client_id correlation_id OFFSET_COMMIT_KEY 1;
    message ← iadd message (write_short_ascii (Some group));
    message ← iadd message (pack [Fi] (group_generation_id, tt));
    message ← iadd message (write_short_ascii (Some consumer_id));
    message ← iadd message (pack [Fi] (len grouped_payloads, tt));
    encode_grouped (λ partition payload message,
      message ← iadd message (pack [Fi; Fq; Fq]
        (partition, (ocr_offset payload, (ocr_timestamp payload, tt))));
      iadd message (write_short_bytes (ocr_metadata payload))) grouped_payloads message
  end.

Definition decode_offset_commit_response (data : bytes) : pygen OffsetCommitResponse Z :=
  '((correlation_id, _), cur) ← glift (relative_unpack [Fi] data 0);
  '((num_topics, _), cur) ← glift (relative_unpack [Fi] data cur);
  gfor_range num_topics (λ cur,
    '(topic, cur) ← glift (read_short_ascii data cur);
    '((num_partitions, _), cur) ← glift (relative_unpack [Fi] data cur);
    gfor_range num_partitions (λ cur,
      '((partition, (error, _)), cur) ← glift (relative_unpack [Fi; Fh] data cur);
      _ ← gyield (mkOffsetCommitResponse topic partition error);
      mret cur) cur) cur.

Definition encode_offset_fetch_request (client_id : bytes) (correlation_id : Z)
    (group : text) (payloads : list OffsetFetchRequest) : res bytes :=
  let grouped_payloads := group_by_topic_and_partition ofr_topic ofr_partition payloads in
  message ← _encode_message_header client_id correlation_id OFFSET_FETCH_KEY 1;
  message ← iadd message (write_short_ascii (Some group));
  message ← iadd message (pack [Fi] (len grouped_payloads, tt));
  encode_grouped (λ partition _ message,
    iadd message (pack [Fi] (partition, tt))) grouped_payloads message.

Definition decode_offset_fetch_response (data : bytes) : pygen OffsetFetchResponse Z :=
  '((correlation_id, _), cur) ← glift (relative_unpack [Fi] data 0);
  '((num_topics, _), cur) ← glift (relative_unpack [Fi] data cur);
  gfor_range num_topics (λ cur,
    '(topic, cur) ← glift (read_short_ascii data cur);
    '((num_partitions, _), cur) ← glift (relative_unpack [Fi] data cur);
    gfor_range num_partitions (λ cur,
      '((partition, (offset, _)), cur) ← glift (relative_unpack [Fi; Fq] data cur);
      '(metadata, cur) ← glift (read_short_bytes data cur);
      '((error, _), cur) ← glift (relative_unpack [Fh] data cur);
      _ ← gyield (mkOffsetFetchResponse topic partition offset metadata error);
      mret cur) cur) cur.

(** ** Metadata *)

Definition encode_metadata_request (client_id : bytes) (correlation_id : Z)
    (topics : option (list text)) : res bytes :=
  let topics := default [] topics in
  message ← _encode_message_header client_id correlation_id METADATA_KEY 0;
  message ← iadd message (pack [Fi] (len topics, tt));
  for_each topics (λ message topic, iadd message (write_short_ascii (Some topic))) message.

(** One broker: [brokers[nodeId] = BrokerMetadata(nodeId, host, port)]. *)
Definition decode_broker (data : bytes) (st : list (Z * BrokerMetadata) * Z)
    : res (list (Z * BrokerMetadata) * Z) :=
  '((nodeId, _), cur) ← relative_unpack [Fi] data st.2;
  '(host, cur) ← read_short_ascii data cur;
  '((port, _), cur) ← relative_unpack [Fi] data cur;
  Ok (Dict.set nodeId (mkBrokerMetadata nodeId host port) st.1, cur).

Definition decode_partition_metadata (topic_name : text) (data : bytes)
    (st : list (Z * PartitionMetadata) * Z) : res (list (Z * PartitionMetadata) * Z) :=
  '((partition_error_code, (partition, (leader, (numReplicas, _)))), cur) ←
    relative_unpack [Fh; Fi; Fi; Fi] data st.2;
  '(replicas, cur) ← relative_unpack_ints numReplicas data cur;
  '((num_isr, _), cur) ← relative_unpack [Fi] data cur;
  '(isr, cur) ← relative_unpack_ints num_isr data cur;
  Ok (Dict.set partition
        (mkPartitionMetadata topic_name partition partition_error_code leader replicas isr)
        st.1, cur).

Definition decode_topic_metadata (data : bytes) (st : list (text * TopicMetadata) * Z)
    : res (list (text * TopicMetadata) * Z) :=
  '((topic_error, _), cur) ← relative_unpack [Fh] data st.2;
  '(topic_name, cur) ← read_short_ascii data cur;
  '((num_partitions, _), cur) ← relative_unpack [Fi] data cur;
  '(partition_metadata, cur) ←
    for_range num_partitions (decode_partition_metadata topic_name data) ([], cur);
  Ok (Dict.set topic_name (mkTopicMetadata topic_name topic_error partition_metadata) st.1, cur).

Definition decode_metadata_response (data : bytes)
    : res (list (Z * BrokerMetadata) * list (text * TopicMetadata)) :=
  '((correlation_id, (numbrokers, _)), cur) ← relative_unpack [Fi; Fi] data 0;
  if MAX_BROKERS <? numbrokers then Err (BrokerError CorruptMessage)
  else
    '(brokers, cur) ← for_range numbrokers (decode_broker data) ([], cur);
    '((num_topics, _), cur) ← relative_unpack [Fi] data cur;
    '(topic_metadata, cur) ← for_range num_topics (decode_topic_metadata data) ([], cur);
    Ok (brokers, topic_metadata).

Definition encode_consumermetadata_request (client_id : bytes) (correlation_id : Z)
    (consumer_group : text) : res bytes :=
  message ← _encode_message_header client_id correlation_id CONSUMER_METADATA_KEY 0;
  iadd message (write_short_ascii (Some consumer_group)).

Definition decode_consumermetadata_response (data : bytes) : res ConsumerMetadataResponse :=
  '((correlation_id, (error_code, (node_id, _))), cur) ← relative_unpack [Fi; Fh; Fi] data 0;
  '(host, cur) ← read_short_ascii data cur;
  '((port, _), cur) ← relative_unpack [Fi] data cur;
  Ok (mkConsumerMetadataResponse error_code node_id host port).

(** ** Group membership *)

Definition encode_join_group_request (client_id : bytes) (correlation_id : Z)
    (payload : _JoinGroupRequest) : res bytes :=
  message ← _encode_message_header client_id correlation_id JOIN_GROUP_KEY 0;
  message ← iadd message (write_short_text (Some (jgr_group payload)));
  message ← iadd message (pack [Fi] (jgr_session_timeout payload, tt));
  message ← iadd message (write_short_text (Some (jgr_member_id payload)));
  message ← iadd message (write_short_text (Some (jgr_protocol_type payload)));
  message ← iadd message (pack [Fi] (len (jgr_group_protocols payload), tt));
  for_each (jgr_group_protocols payload) (λ message group_protocol,
    message ← iadd message (write_short_ascii (Some (jgp_protocol_name group_protocol)));
    iadd message (write_int_string (jgp_protocol_metadata group_protocol))) message.

Definition encode_join_group_protocol_metadata (version : Z) (subscriptions : list text)
    (user_data : option bytes) : res bytes :=
  message ← pack [Fh; Fi] (version, (len subscriptions, tt));
  message ← for_each subscriptions (λ message subscription,
    iadd message (write_short_text (Some subscription))) message;
  iadd message (write_int_string user_data).

Definition decode_join_group_protocol_metadata (data : bytes)
    : res _JoinGroupProtocolMetadata :=
  '((version, (num_subscriptions, _)), cur) ← relative_unpack [Fh; Fi] data 0;
  '(subscriptions, cur) ← for_range num_subscriptions (λ st : list text * Z,
    '(subscription, cur) ← read_short_text data st.2;
    Ok (st.1 ++ [subscription], cur)) ([], cur);
  '(user_data, cur) ← read_int_string data cur;
  Ok (mkJoinGroupProtocolMetadata version subscriptions user_data).

Definition decode_join_group_response (data : bytes) : res _JoinGroupResponse :=
  '((correlation_id, (error, (generation_id, _))), cur) ← relative_unpack [Fi; Fh; Fi] data 0;
  '(group_protocol, cur) ← read_short_text data cur;
  '(leader_id, cur) ← read_short_text data cur;
  '(member_id, cur) ← read_short_text data cur;
  '((num_members, _), cur) ← relative_unpack [Fi] data cur;
  '(members, cur) ← for_range num_members (λ st : list _JoinGroupResponseMember * Z,
    '(response_member_id, cur) ← read_short_text data st.2;
    '(response_member_data, cur) ← read_int_string data cur;
    Ok (st.1 ++ [mkJoinGroupResponseMember response_member_id response_member_data], cur))
    ([], cur);
  Ok (mkJoinGroupResponse error generation_id group_protocol leader_id member_id members).

Definition encode_leave_group_request (client_id : bytes) (correlation_id : Z)
    (payload : _LeaveGroupRequest) : res bytes :=
  message ← _encode_message_header client_id correlation_id LEAVE_GROUP_KEY 0;
  message ← iadd message (write_short_text (Some (lgr_group payload)));
  iadd message (write_short_text (Some (lgr_member_id payload))).

Definition decode_leave_group_response (data : bytes) : res _LeaveGroupResponse :=
  '((correlation_id, (error, _)), cur) ← relative_unpack [Fi; Fh] data 0;
  Ok (mkLeaveGroupResponse error).

Definition encode_heartbeat_request (client_id : bytes) (correlation_id : Z)
    (payload : _HeartbeatRequest) : res bytes :=
  message ← _encode_message_header client_id correlation_id HEARTBEAT_KEY 0;
  message ← iadd message (write_short_text (Some (hbr_group payload)));
  message ← iadd message (pack [Fi] (hbr_generation_id payload, tt));
  iadd message (write_short_text (Some (hbr_member_id payload))).

Definition decode_heartbeat_response (data : bytes) : res _HeartbeatResponse :=
  '((correlation_id, (error, _)), cur) ← relative_unpack [Fi; Fh] data 0;
  Ok (mkHeartbeatResponse error).

Definition encode_sync_group_request (client_id : bytes) (correlation_id : Z)
    (payload : _SyncGroupRequest) : res bytes :=
  message ← _encode_message_header client_id correlation_id SYNC_GROUP_KEY 0;
  message ← iadd message (write_short_text (Some (sgr_group payload)));
  message ← iadd message (pack [Fi] (sgr_generation_id payload, tt));
  message ← iadd message (write_short_text (Some (sgr_member_id payload)));
  message ← iadd message (pack [Fi] (len (sgr_group_assignment payload), tt));
  for_each (sgr_group_assignment payload) (λ message assignment,
    message ← iadd message (write_short_text (Some (sgm_member_id assignment)));
    iadd message (write_int_string (sgm_member_metadata assignment))) message.

Definition decode_sync_group_response (data : bytes) : res _SyncGroupResponse :=
  '((correlation_id, (error, _)), cur) ← relative_unpack [Fi; Fh] data 0;
  '(member_assignment, cur) ← read_int_string data cur;
  Ok (mkSyncGroupResponse error member_assignment).

(** [struct.pack('>i%si' % len(ps), len(ps), *ps)] *)
Definition pack_counted (ps : list Z) : res bytes :=
  h ← pack [Fi] (len ps, tt); iadd h (pack_ints ps).

Definition encode_sync_group_member_assignment (version : Z)
    (assignments : list (text * list Z)) (user_data : option bytes) : res bytes :=
  message ← pack [Fh] (version, tt);
  message ← iadd message (pack [Fi] (len assignments, tt));
  message ← for_each assignments (λ message tp,
    message ← iadd message (write_short_ascii (Some tp.1));
    iadd message (pack_counted tp.2)) message;
  iadd message (write_int_string user_data).

Definition decode_sync_group_member_assignment (data : bytes)
    : res _SyncGroupMemberAssignment :=
  '((version, (num_assignments, _)), cur) ← relative_unpack [Fh; Fi] data 0;
  if negb (version =? 0) then Err ProtocolError
  else
    '(assignments, cur) ← for_range num_assignments (λ st : list (text * list Z) * Z,
      '(topic, cur) ← read_short_ascii data st.2;
      '((num_partitions, _), cur) ← relative_unpack [Fi] data cur;
      '(partitions, cur) ← relative_unpack_ints num_partitions data cur;
      Ok (Dict.set topic partitions st.1, cur)) ([], cur);
    '(user_data, cur) ← read_int_string data cur;
    Ok (mkSyncGroupMemberAssignment version assignments user_data).

(** ** Constructing messages *)

Definition create_message (payload key : option bytes) : Message :=
  mkMessage 0 0 key payload.

Section create.
Context {L : CompressionLib}.

Definition create_gzip_message (message_set : list Message) : res Message :=
  encoded_message_set ← _encode_message_set message_set None;
  Ok (mkMessage 0 CODEC_GZIP None (Some (gzip_encode encoded_message_set))).

Definition create_snappy_message (message_set : list Message) : res Message :=
  encoded_message_set ← _encode_message_set message_set None;
  snapped ← snappy_encode encoded_message_set false (32 * 1024);
  Ok (mkMessage 0 CODEC_SNAPPY None (Some snapped)).

Definition create_message_set (requests : list SendRequest) (codec : Z)
    : res (list Message) :=
  let msglist := requests ≫= λ req,
    (λ m, create_message m (sr_key req)) <$> sr_messages req in
  if codec =? CODEC_NONE then Ok msglist
  else if codec =? CODEC_GZIP then m ← create_gzip_message msglist; Ok [m]
  else if codec =? CODEC_SNAPPY then m ← create_snappy_message msglist; Ok [m]
  else Err UnsupportedCodecError.
End create.
