(* ===== verification/MessageSet.v ===== *)
(** Message sets: the theorems about [_encode_message],
    [_encode_message_set], [_decode_message], [_decode_message_set_iter] and
    the message constructors of [afkak/kafkacodec.py]. *)
From S2P Require Import Prelude Common PyBytes Util Codec Wire KafkaCodec.
Local Open Scope Z_scope.

(** ** The bytes of a message and of a message set *)

Definition message_ok (m : Message) : bool :=
  (magic m =? 0) && frange FB (attributes m) && int_string_ok (key m) && int_string_ok (value m).

Definition message_body (m : Message) : bytes :=
  tuple_bytes [FB; FB] (magic m, (attributes m, tt)) ++
  int_string_bytes (key m) ++ int_string_bytes (value m).

Definition message_bytes (m : Message) : bytes :=
  be_encode 4 (crc32 (message_body m)) ++ message_body m.

(** One entry of a set: offset, size, message. *)
Definition entry_bytes (offset : Z) (msg : bytes) : bytes :=
  tuple_bytes [Fq] (offset, tt) ++ int_string_bytes (Some msg).

(** The messages of a set with the offsets [_encode_message_set] gives them. *)
Fixpoint with_offsets (incr offset : Z) (ms : list Message) : list OffsetAndMessage :=
  match ms with
  | [] => []
  | m :: ms => mkOffsetAndMessage offset m :: with_offsets incr (offset + incr) ms
  end.

Definition set_entry (om : OffsetAndMessage) : bytes :=
  entry_bytes (om_offset om) (message_bytes (om_message om)).

Definition set_entry_ok (om : OffsetAndMessage) : bool :=
  message_ok (om_message om) && frange Fq (om_offset om) &&
  int_string_ok (Some (message_bytes (om_message om))).

Definition set_bytes (oms : list OffsetAndMessage) : bytes := oms ≫= set_entry.

(** What [_encode_message_set(messages, offset)] numbers the messages with. *)
Definition numbered (ms : list Message) (offset : option Z) : list OffsetAndMessage :=
  match offset with None => with_offsets 0 0 ms | Some o => with_offsets 1 o ms end.

(** ** Encoding *)

Lemma crc32_land data : Z.land (crc32 data) 0xffffffff = crc32 data.
Proof. apply u32_land, crc32_u32. Qed.

Lemma frange_FI z : u32 z → frange FI z = true.
Proof. intros [??]. unfold frange. cbn -[Z.pow]. change (fbits FI) with 32. lia. Qed.

Lemma encodes_message m : encodes (_encode_message m) (message_ok m) (message_bytes m).
Proof.
  unfold _encode_message, message_ok. destruct (magic m =? 0) eqn:Hm; cbn [andb]; [|by eexists].
  assert (tuple_ok [FB; FB] (magic m, (attributes m, tt)) = frange FB (attributes m)) as Hok.
  { apply Z.eqb_eq in Hm. cbn [tuple_ok fst snd]. by rewrite Hm, andb_true_r. }
  pose proof (encodes_bind _ _ _ _ _ _ (encodes_pack [FB; FB] (magic m, (attributes m, tt)))
    (appends_bind _ _ _ _ _ _ (appends_iadd _ _ _ (encodes_int_string (key m)))
      (appends_iadd _ _ _ (encodes_int_string (value m))))) as H.
  rewrite Hok, <-andb_assoc in *. unfold encodes in *.
  destruct (_ && _).
  - destruct (pack [FB; FB] _) as [p|]; [|done]. cbn [mbind result_bind] in *.
    destruct (iadd p _) as [p'|]; [|done]. cbn [mbind result_bind] in *.
    rewrite H. cbn [mbind result_bind]. rewrite crc32_land, pack_tuple.
    cbn [tuple_ok]. rewrite frange_FI by apply crc32_u32. cbn -[be_encode].
    by rewrite app_nil_r.
  - destruct H as [e H]. exists e. destruct (pack [FB; FB] _) as [p|]; [|done].
    cbn [mbind result_bind] in *. destruct (iadd p _) as [p'|]; [|done].
    cbn [mbind result_bind] in *. by rewrite H.
Qed.

Lemma frange_Fi_len (b : bytes) : frange Fi (len b) = int_string_ok (Some b).
Proof.
  unfold frange. cbn -[Z.pow]. change (fbits Fi - 1) with 31. len_pose.
  by rewrite (proj2 (Z.leb_le _ _)) by lia.
Qed.

Lemma encode_step_spec incr offset acc m :
  match encode_message_set_step incr (offset, acc) m with
  | Ok st => set_entry_ok (mkOffsetAndMessage offset m) = true ∧
             st = (offset + incr, acc ++ set_entry (mkOffsetAndMessage offset m))
  | Err _ => set_entry_ok (mkOffsetAndMessage offset m) = false
  end.
Proof.
  unfold encode_message_set_step, set_entry_ok. cbn [om_offset om_message].
  pose proof (encodes_message m) as Hm. unfold encodes in Hm.
  destruct (message_ok m); [rewrite Hm|by destruct Hm as [e ->]].
  cbn [mbind result_bind]. rewrite pack_tuple. cbn [tuple_ok fst snd andb].
  rewrite andb_true_r, frange_Fi_len.
  destruct (frange Fq offset && _); [|done]. cbn [mbind result_bind].
  split; reflexivity.
Qed.

Lemma encodes_set_step incr offset ms acc :
  match for_each ms (encode_message_set_step incr) (offset, acc) with
  | Ok st => forallb set_entry_ok (with_offsets incr offset ms) = true ∧
             st.2 = acc ++ set_bytes (with_offsets incr offset ms)
  | Err _ => forallb set_entry_ok (with_offsets incr offset ms) = false
  end.
Proof.
  revert offset acc. induction ms as [|m ms IH]; intros offset acc; cbn [for_each with_offsets].
  - cbn. by rewrite app_nil_r.
  - cbn [forallb]. pose proof (encode_step_spec incr offset acc m) as Hm.
    destruct (encode_message_set_step incr (offset, acc) m) as [st|e];
      cbn [mbind result_bind]; [|by rewrite Hm].
    destruct Hm as [-> ->]. cbn [andb].
    specialize (IH (offset + incr) (acc ++ set_entry (mkOffsetAndMessage offset m))).
    destruct (for_each ms _ _) as [st|e]; [|done]. destruct IH as [-> ->].
    split; [done|]. unfold set_bytes. by rewrite bind_cons, <-app_assoc.
Qed.

Lemma encodes_message_set ms offset :
  encodes (_encode_message_set ms offset) (forallb set_entry_ok (numbered ms offset))
          (set_bytes (numbered ms offset)).
Proof.
  unfold _encode_message_set, numbered.
  set (io := match offset with None => (0, 0) | Some o => (1, o) end).
  replace (match offset with None => _ | Some _ => _ end) with (with_offsets io.1 io.2 ms)
    by (by destruct offset).
  destruct io as [incr o]. cbn [fst snd].
  pose proof (encodes_set_step incr o ms []) as H. unfold encodes.
  destruct (for_each _ _ _) as [[o' b]|e]; cbn [mbind result_bind].
  - destruct H as [-> Hb]. cbn in Hb. by rewrite Hb.
  - rewrite H. by eexists.
Qed.

(** ** Decoding one message *)

Section decode.
Context {L : CompressionLib}.
Variable ds : option bytes → pygen OffsetAndMessage unit.

(** What a message with a valid checksum decodes to. *)
Definition message_outcome (offset : Z) (m : Message) : pygen OffsetAndMessage unit :=
  let codec := Z.land (attributes m) ATTRIBUTE_CODEC_MASK in
  if codec =? CODEC_NONE then gyield (mkOffsetAndMessage offset m)
  else if codec =? CODEC_GZIP then gz ← glift (gzip_decode (value m)); ds (Some gz)
  else if codec =? CODEC_SNAPPY then snp ← glift (snappy_decode (value m)); ds (Some snp)
  else graise ProtocolError.

Lemma decode_message_bytes m offset :
  message_ok m = true →
  _decode_message ds (Some (message_bytes m)) offset = message_outcome offset m.
Proof.
  unfold message_ok. rewrite !andb_true_iff. intros [[[Hm Ha] Hk] Hv]. zbool.
  unfold _decode_message.
  assert (message_bytes m = tuple_bytes [FI; FB; FB]
    (crc32 (message_body m), (magic m, (attributes m, tt))) ++
    int_string_bytes (key m) ++ int_string_bytes (value m)) as Heq.
  { unfold message_bytes, message_body. cbn -[be_encode]. by rewrite <-!app_assoc. }
  set (c := crc32 (message_body m)) in *.
  assert (reads (relative_unpack [FI; FB; FB]) (tuple_bytes [FI; FB; FB]
    (c, (magic m, (attributes m, tt)))) (c, (magic m, (attributes m, tt)))) as H1.
  { apply reads_relative_unpack. cbn [tuple_ok fst snd].
    rewrite Ha, Hm, frange_FI by apply crc32_u32. done. }
  assert (drop 4 (message_bytes m) = message_body m) as Hdrop.
  { unfold message_bytes. by rewrite drop_app_length' by (by rewrite length_be_encode). }
  rewrite Hdrop, crc32_land. rewrite Heq.
  set (h := tuple_bytes _ _) in *. set (k := int_string_bytes (key m)) in *.
  set (v := int_string_bytes (value m)).
  specialize (H1 [] (k ++ v)). rewrite len_nil, Z.add_0_l in H1. cbn [app] in H1.
  rewrite H1, gen_bind_lift. cbv beta iota. rewrite Z.eqb_refl. cbn [negb].
  pose proof (reads_int_string (key m) Hk h v) as H2. fold k in H2.
  rewrite H2, gen_bind_lift. cbv beta iota.
  pose proof (reads_int_string (value m) Hv (h ++ k) []) as H3.
  fold v in H3. rewrite <-app_assoc, app_nil_r, len_app in H3.
  rewrite H3, gen_bind_lift. unfold message_outcome. clear. by destruct m.
Qed.

(** One entry of a set: it yields what its message decodes to, and leaves
    the cursor at the next entry. *)
Lemma greads_entry offset m ys :
  message_ok m = true → frange Fq offset = true →
  int_string_ok (Some (message_bytes m)) = true →
  message_outcome offset m = (ys, Ok tt) →
  greads (decode_entry ds) (entry_bytes offset (message_bytes m)) ys.
Proof.
  intros Hm Ho Hl Hout. unfold decode_entry, entry_bytes.
  eapply greads_bind.
  { apply (reads_relative_unpack [Fq] (offset, tt)). cbn [tuple_ok fst snd]. by rewrite Ho. }
  cbn [fst snd]. rewrite <-(app_nil_r (int_string_bytes _)).
  eapply greads_bind; [by apply reads_int_string|].
  intros pre suf. rewrite decode_message_bytes, Hout by done. cbn.
  by rewrite app_nil_r, len_nil, Z.add_0_r.
Qed.

(** ** The loop over a set *)

(** A run of entries, each given by its bytes and what it yields. *)
Lemma loop_entries (es : list (bytes * list OffsetAndMessage)) fuel pre tail rm :
  Forall (λ e, greads (decode_entry ds) e.1 e.2 ∧ e.1 ≠ []) es →
  decode_set_loop ds (length es + fuel) (pre ++ (es ≫= fst) ++ tail) (len pre) rm =
  let zr := decode_set_loop ds fuel (pre ++ (es ≫= fst) ++ tail) (len (pre ++ (es ≫= fst)))
              (rm || negb (bool_decide (es ≫= snd = []))) in
  ((es ≫= snd) ++ zr.1, zr.2).
Proof.
  intros Hes. revert pre rm. induction Hes as [|[b ys] es [He Hne] _ IH]; intros pre rm.
  - cbn. rewrite app_nil_r, orb_false_r. by destruct (decode_set_loop _ _ _ _ _).
  - rewrite !bind_cons. cbn [length Nat.add fst snd] in *.
    cbn [decode_set_loop]. rewrite <-!app_assoc.
    rewrite (proj2 (Z.ltb_lt _ _)).
    2:{ rewrite !len_app. destruct b; [done|]. rewrite len_cons. len_pose. lia. }
    rewrite He. specialize (IH (pre ++ b) (rm || negb (bool_decide (ys = [])))).
    rewrite <-!app_assoc in IH. rewrite len_app in IH at 1. rewrite IH. cbv zeta.
    replace (rm || negb (bool_decide (ys = [])) || negb (bool_decide (es ≫= snd = [])))
      with (rm || negb (bool_decide (ys ++ (es ≫= snd) = []))).
    2:{ rewrite <-orb_assoc. f_equal. by destruct ys, (es ≫= snd). }
    by rewrite app_assoc.
Qed.

(** The end of the set. *)
Lemma loop_end fuel data rm : decode_set_loop ds (S fuel) data (len data) rm = ([], Ok tt).
Proof. cbn [decode_set_loop]. by rewrite Z.ltb_irrefl. Qed.

(** A last entry cut short by the fetch size. *)
Lemma loop_truncated fuel pre offset msg k rm :
  (0 < k < length (entry_bytes offset msg))%nat →
  frange Fq offset = true → int_string_ok (Some msg) = true →
  decode_set_loop ds (S fuel) (pre ++ take k (entry_bytes offset msg)) (len pre) rm =
    ([], if rm then Ok tt else Err ConsumerFetchSizeTooSmall).
Proof.
  intros Hk Ho Hm. cbn [decode_set_loop].
  rewrite (proj2 (Z.ltb_lt _ _)) by (rewrite len_app, len_take; unfold len; lia).
  assert (decode_entry ds (pre ++ take k (entry_bytes offset msg)) (len pre) =
    ([], Err BufferUnderflowError)) as ->.
  { unfold decode_entry, entry_bytes in *. set (h := tuple_bytes [Fq] (offset, tt)) in *.
    rewrite length_app in Hk.
    destruct (Nat.lt_ge_cases k (length h)).
    - rewrite take_app_le by lia.
      pose proof (truncated_relative_unpack [Fq] (offset, tt) pre k) as Ht. fold h in Ht.
      by rewrite Ht.
    - rewrite take_app_ge by lia.
      pose proof (reads_relative_unpack [Fq] (offset, tt)) as Hr. fold h in Hr.
      rewrite Hr, gen_bind_lift by (cbn [tuple_ok fst snd]; by rewrite Ho).
      cbv beta iota. pose proof (truncated_string Fi msg) as Ht.
      rewrite <-read_int_string_with in Ht. fold h.
      specialize (Ht ltac:(unfold frange; cbn -[Z.pow] in *; change (fbits Fi - 1) with 31;
        len_pose; lia) (pre ++ h) (k - length h)%nat).
      rewrite <-app_assoc, len_app in Ht. change (string_bytes Fi (Some msg)) with
        (int_string_bytes (Some msg)) in Ht. by rewrite Ht by lia. }
  cbn. rewrite orb_false_r. by destruct rm.
Qed.
End decode.

(** ** Sets of uncompressed messages *)

Definition plain (m : Message) : bool := Z.land (attributes m) ATTRIBUTE_CODEC_MASK =? CODEC_NONE.

Lemma set_entry_nonempty om : set_entry om ≠ [].
Proof. unfold set_entry, entry_bytes. by destruct om. Qed.

Section sets.
Context {L : CompressionLib}.

Lemma greads_plain ds om :
  set_entry_ok om = true → plain (om_message om) = true →
  greads (decode_entry ds) (set_entry om) [om].
Proof.
  unfold set_entry_ok. rewrite !andb_true_iff. intros [[Hm Ho] Hl] Hp.
  unfold set_entry. apply greads_entry; [done..|]. unfold message_outcome. unfold plain in Hp. rewrite Hp.
  by destruct om.
Qed.

(** Decoding a set of complete plain entries followed by [tail]. *)
Lemma loop_plain ds oms fuel tail :
  forallb set_entry_ok oms = true → forallb (λ om, plain (om_message om)) oms = true →
  (length oms < fuel)%nat →
  let zr := decode_set_loop ds (fuel - length oms) (set_bytes oms ++ tail)
              (len (set_bytes oms)) (negb (bool_decide (oms = []))) in
  decode_set_loop ds fuel (set_bytes oms ++ tail) 0 false = (oms ++ zr.1, zr.2).
Proof.
  intros Hok Hp Hf. rewrite !forallb_forall in Hok, Hp.
  set (es := (λ om, (set_entry om, [om])) <$> oms).
  assert (es ≫= fst = set_bytes oms) as H1.
  { unfold es, set_bytes. clear. induction oms as [|om oms IH]; [done|].
    rewrite fmap_cons, !bind_cons, IH. done. }
  assert (es ≫= snd = oms) as H2.
  { unfold es. clear. induction oms as [|om oms IH]; [done|].
    rewrite fmap_cons, bind_cons, IH. done. }
  pose proof (loop_entries ds es (fuel - length oms) [] tail false) as H.
  rewrite H1, H2 in H. unfold es in H at 2. rewrite length_fmap in H.
  replace (length oms + (fuel - length oms))%nat with fuel in H by lia.
  apply H. unfold es. apply Forall_fmap, Forall_forall. intros om Hom%list_elem_of_In.
  split; [apply greads_plain; auto|apply set_entry_nonempty].
Qed.

Lemma set_bytes_length oms : (length oms ≤ length (set_bytes oms))%nat.
Proof.
  induction oms as [|om oms IH]; [done|]. unfold set_bytes in *. rewrite bind_cons, length_app.
  pose proof (set_entry_nonempty om). destruct (set_entry om); [done|]. cbn [length]. lia.
Qed.

Lemma decode_plain_set depth oms :
  forallb set_entry_ok oms = true → forallb (λ om, plain (om_message om)) oms = true →
  _decode_message_set_iter (S depth) (Some (set_bytes oms)) = (oms, Ok tt).
Proof.
  intros Hok Hp. cbn [_decode_message_set_iter]. pose proof (set_bytes_length oms) as Hl.
  pose proof (loop_plain (_decode_message_set_iter depth) oms
    (S (length (set_bytes oms))) [] Hok Hp ltac:(lia)) as H.
  rewrite app_nil_r in H. rewrite H.
  replace (S (length (set_bytes oms)) - length oms)%nat
    with (S (length (set_bytes oms) - length oms)) by lia.
  rewrite loop_end. cbn. by rewrite app_nil_r.
Qed.

Lemma numbered_messages ms offset : om_message <$> numbered ms offset = ms.
Proof.
  assert (∀ i o, om_message <$> with_offsets i o ms = ms) as H.
  { induction ms as [|m ms IH]; intros i o; [done|]. cbn. by f_equal. }
  by destruct offset; apply H.
Qed.

Lemma numbered_plain ms offset :
  forallb (λ om, plain (om_message om)) (numbered ms offset) = forallb plain ms.
Proof.
  rewrite <-(numbered_messages ms offset) at 2. generalize (numbered ms offset).
  clear. intros l. induction l as [|x l IH]; [done|]. cbn. by rewrite IH.
Qed.

Lemma encode_message_set_Ok ms offset b :
  _encode_message_set ms offset = Ok b →
  forallb set_entry_ok (numbered ms offset) = true ∧ b = set_bytes (numbered ms offset).
Proof.
  intros Hb. pose proof (encodes_message_set ms offset) as H. unfold encodes in H.
  destruct (forallb _ _); [|destruct H as [e He]; congruence]. split; congruence.
Qed.

(** A compressed message wraps a whole set: decoding it yields the inner
    messages with their own offsets. *)
Lemma decode_wrapped depth offset m inner :
  set_entry_ok (mkOffsetAndMessage offset m) = true →
  (attributes m = CODEC_GZIP ∧ gzip_decode (value m) = Ok (set_bytes inner) ∨
   attributes m = CODEC_SNAPPY ∧ snappy_decode (value m) = Ok (set_bytes inner)) →
  forallb set_entry_ok inner = true → forallb (λ om, plain (om_message om)) inner = true →
  _decode_message_set_iter (S (S depth)) (Some (set_entry (mkOffsetAndMessage offset m))) =
    (inner, Ok tt).
Proof.
  intros Hok Hc Hin Hp. change (_decode_message_set_iter (S (S depth)) (Some ?d)) with
    (decode_set_loop (_decode_message_set_iter (S depth)) (S (length d)) d 0 false).
  set (ds := _decode_message_set_iter (S depth)).
  assert (message_outcome ds offset m = (inner, Ok tt)) as Hout.
  { unfold message_outcome, ds.
    destruct Hc as [[Ha Hd]|[Ha Hd]]; rewrite Ha, Hd; cbn -[_decode_message_set_iter];
      rewrite decode_plain_set by done; done. }
  set (e := set_entry _).
  assert (greads (decode_entry ds) e inner) as He.
  { unfold set_entry_ok in Hok. rewrite !andb_true_iff in Hok. destruct Hok as [[? ?] ?].
    unfold e, set_entry. by apply greads_entry. }
  pose proof (loop_entries ds [(e, inner)] (length e) [] [] false) as H.
  cbn [mbind list_bind fst snd app length Nat.add] in H. rewrite !app_nil_r, len_nil in H.
  rewrite H.
  - assert (∃ n, length e = S n) as [n Hn].
    { unfold e. pose proof (set_entry_nonempty (mkOffsetAndMessage offset m)).
      destruct (set_entry _); [done|]. by eexists. }
    rewrite Hn, loop_end. cbn. by rewrite app_nil_r.
  - constructor; [|constructor]. split; [done|apply set_entry_nonempty].
Qed.

End sets.

(** ** Termination on arbitrary bytes

    Lengths may be corrupt and move the cursor backwards or below zero, where
    slices count from the end; still every completed entry moves the position
    the cursor denotes forward by at least 18 bytes. *)

Section termination.
Context {L : CompressionLib} {HL : CompressionLaws L}.

Lemma unpack_Ok_len fs b zs : unpack fs b = Ok zs → len b = calcsize fs.
Proof. unfold unpack. case_match; [|done]. zbool. done. Qed.

Lemma unpack_not_fuel fs b : unpack fs b ≠ Err OutOfFuel.
Proof. unfold unpack. by case_match. Qed.

Lemma relative_unpack_Ok fs data cur zs cur' :
  relative_unpack fs data cur = Ok (zs, cur') →
  cur' = cur + calcsize fs ∧ len (slice data cur cur') = calcsize fs.
Proof.
  unfold relative_unpack. case_match; [done|].
  destruct (unpack _ _) as [out|] eqn:Hu; [|done]. cbn. intros [= <- <-].
  split; [done|]. by eapply unpack_Ok_len.
Qed.

Lemma read_int_string_Ok data cur s cur' :
  read_int_string data cur = Ok (Some s, cur') →
  len (slice data cur (cur + 4)) = 4 ∧ s = slice data (cur + 4) cur'.
Proof.
  unfold read_int_string. case_match; [done|].
  destruct (unpack [Fi] _) as [[n []]|] eqn:Hu; [|done]. cbn [mbind result_bind].
  case_match; [done|]. case_match; [done|]. intros [= <- <-].
  split; [by apply unpack_Ok_len in Hu|done].
Qed.

Lemma relative_unpack_not_fuel fs data cur : relative_unpack fs data cur ≠ Err OutOfFuel.
Proof.
  unfold relative_unpack. case_match; [done|].
  pose proof (unpack_not_fuel fs (slice data cur (cur + calcsize fs))).
  by destruct (unpack _ _); cbn; [|intros [= ->]].
Qed.

Lemma read_int_string_not_fuel data cur : read_int_string data cur ≠ Err OutOfFuel.
Proof.
  unfold read_int_string. case_match; [done|].
  pose proof (unpack_not_fuel [Fi] (slice data cur (cur + 4))).
  destruct (unpack _ _) as [[n []]|e]; cbn [mbind result_bind]; [|by intros [= ->]].
  by repeat case_match.
Qed.

Lemma gen_bind_not_fuel {Y A B} (m : pygen Y A) (f : A → pygen Y B) :
  m.2 ≠ Err OutOfFuel → (∀ a, m.2 = Ok a → (f a).2 ≠ Err OutOfFuel) →
  (m ≫= f).2 ≠ Err OutOfFuel.
Proof.
  destruct m as [ys [a|e]]; cbn; intros Hm Hf; [|congruence].
  specialize (Hf a eq_refl). by destruct (f a).
Qed.

(** A message that decodes is at least six bytes long. *)
Lemma decode_message_Ok ds data offset ys u :
  _decode_message ds data offset = (ys, Ok u) → ∃ d, data = Some d ∧ 6 ≤ len d.
Proof.
  destruct data as [d|]; [|done]. intros H. exists d. split; [done|]. revert H.
  unfold _decode_message, relative_unpack. cbn [calcsize foldr fsize].
  destruct (len d <? _) eqn:Hl; [done|]. zbool. intros _. cbn in Hl. lia.
Qed.

Lemma decode_message_not_fuel ds data offset :
  (∀ d, (ds d).2 ≠ Err OutOfFuel) → (_decode_message ds data offset).2 ≠ Err OutOfFuel.
Proof.
  intros Hds. destruct data as [d|]; [|done]. unfold _decode_message.
  apply gen_bind_not_fuel; [apply (relative_unpack_not_fuel [FI; FB; FB])|].
  intros [[crc [mg [att []]]] cur] _. case_match; [done|].
  apply gen_bind_not_fuel; [apply read_int_string_not_fuel|cbn [glift snd]]. intros [k c1] _.
  apply gen_bind_not_fuel; [apply read_int_string_not_fuel|cbn [glift snd]]. intros [v c2] _.
  cbv zeta. repeat case_match; [done| | |done].
  - apply gen_bind_not_fuel; [|auto]. cbn. unfold gzip_decode. by destruct (gzip_decompress _).
  - apply gen_bind_not_fuel; [|auto]. apply snappy_decode_terminates.
Qed.

(** An entry that completes moves the position forward. *)
Lemma decode_entry_progress ds data cur ys cur' :
  decode_entry ds data cur = (ys, Ok cur') →
  slice_index (len data) cur + 18 ≤ slice_index (len data) cur'.
Proof.
  unfold decode_entry. destruct (relative_unpack [Fq] data cur) as [[[o []] c1]|] eqn:H1; [|done].
  rewrite gen_bind_lift. apply relative_unpack_Ok in H1 as [-> H1]. cbn in H1 |- *.
  destruct (read_int_string data _) as [[s c2]|] eqn:H2; [|done].
  destruct (_decode_message ds s o) as [zs [[]|]] eqn:H3; [|done].
  cbn. intros [= <- <-]. apply decode_message_Ok in H3 as (d & -> & Hd).
  apply read_int_string_Ok in H2 as [H2 ->].
  rewrite len_slice in H1, H2, Hd. len_pose. unfold slice_index in *.
  repeat case_match; zbool; lia.
Qed.

Lemma decode_set_loop_not_fuel ds fuel data cur rm :
  (∀ d, (ds d).2 ≠ Err OutOfFuel) →
  len data - slice_index (len data) cur < Z.of_nat fuel →
  (decode_set_loop ds fuel data cur rm).2 ≠ Err OutOfFuel.
Proof.
  intros Hds. revert cur rm. induction fuel as [|fuel IH]; intros cur rm Hf.
  - exfalso. unfold slice_index in Hf. len_pose. repeat case_match; zbool; lia.
  - cbn [decode_set_loop]. case_match; [|done].
    destruct (decode_entry ds data cur) as [ys [cur'|e]] eqn:He.
    + pose proof (decode_entry_progress _ _ _ _ _ He).
      specialize (IH cur' (rm || negb (bool_decide (ys = []))) ltac:(lia)).
      by destruct (decode_set_loop ds fuel data cur' _).
    + assert (e ≠ OutOfFuel) as Hne.
      { enough ((decode_entry ds data cur).2 ≠ Err OutOfFuel) as H'
          by (intros ->; by rewrite He in H').
        unfold decode_entry. apply gen_bind_not_fuel; [apply (relative_unpack_not_fuel [Fq])|].
        intros [[o []] c1] _. apply gen_bind_not_fuel; [apply read_int_string_not_fuel|cbn [glift snd]].
        intros [m c2] _. apply gen_bind_not_fuel; [by apply decode_message_not_fuel|done]. }
      destruct e; try (cbn; congruence). by case_match.
Qed.

End termination.

(** ** Theorems *)

(** Round trip: whatever [_encode_message_set] produces from uncompressed
    messages, [_decode_message_set_iter] yields exactly those messages, in
    order, with the offsets they were written with, and ends normally. *)
Theorem message_set_roundtrip {L : CompressionLib} (ms : list Message) (offset : option Z)
    (b : bytes) (depth : nat)
    (Henc : _encode_message_set ms offset = Ok b) (Hplain : forallb plain ms = true) :
  _decode_message_set_iter (S depth) (Some b) = (numbered ms offset, Ok tt).
Proof.
  apply encode_message_set_Ok in Henc as [Hok ->].
  apply decode_plain_set; [done|]. by rewrite numbered_plain.
Qed.

Definition sample_messages : list Message :=
  [create_message (Some (byte_of_Z <$> txt "v1")) (Some (byte_of_Z <$> txt "k"));
   create_message None None; create_message (Some []) None].

Example message_set_roundtrip_witness :
  ∃ b, _encode_message_set sample_messages (Some 41) = Ok b ∧
       _decode_message_set_iter (L := tagged_lib) 1 (Some b) =
         (numbered sample_messages (Some 41), Ok tt).
Proof.
  eexists. split; [vm_compute; reflexivity|].
  apply message_set_roundtrip; vm_compute; reflexivity.
Defined.

(** A message set can be encoded exactly when its messages have magic 0, a
    one-byte attribute field, strings shorter than 2^31 and offsets in the
    64-bit range; otherwise the encoder raises and emits nothing. *)
Theorem message_set_encodable (ms : list Message) (offset : option Z) :
  is_ok (_encode_message_set ms offset) = forallb set_entry_ok (numbered ms offset).
Proof.
  pose proof (encodes_message_set ms offset) as H. unfold encodes in H.
  destruct (forallb _ _); [by rewrite H|by destruct H as [e ->]].
Qed.

(** A fetch that ends in the middle of an entry: the complete entries are
    yielded; the decoder then stops quietly, or raises
    [ConsumerFetchSizeTooSmall] when there was no complete entry at all. *)
Theorem message_set_truncated {L : CompressionLib} (oms : list OffsetAndMessage)
    (last : OffsetAndMessage) (k depth : nat)
    (Hok : forallb set_entry_ok (oms ++ [last]) = true)
    (Hplain : forallb (λ om, plain (om_message om)) oms = true)
    (Hk : (0 < k < length (set_entry last))%nat) :
  _decode_message_set_iter (S depth) (Some (set_bytes oms ++ take k (set_entry last))) =
    (oms, match oms with [] => Err ConsumerFetchSizeTooSmall | _ => Ok tt end).
Proof.
  rewrite forallb_app in Hok. cbn [forallb] in Hok.
  apply andb_true_iff in Hok as [Hok [Hl _]%andb_true_iff].
  change (_decode_message_set_iter (S depth) (Some ?d)) with
    (decode_set_loop (_decode_message_set_iter depth) (S (length d)) d 0 false).
  pose proof (set_bytes_length oms).
  rewrite loop_plain by (done || (rewrite length_app; lia)). cbv zeta.
  unfold set_entry_ok in Hl. rewrite !andb_true_iff in Hl. destruct Hl as [[_ Ho] Hm].
  rewrite Nat.sub_succ_l by (rewrite length_app; lia).
  unfold set_entry in *. rewrite loop_truncated by done. cbn. rewrite app_nil_r.
  by destruct oms.
Qed.

Example message_set_truncated_witness :
  _decode_message_set_iter (L := tagged_lib) 1
    (Some (set_bytes (numbered [create_message (Some []) None] None) ++
           take 20 (set_entry (mkOffsetAndMessage 7 (create_message (Some []) None))))) =
  (numbered [create_message (Some []) None] None, Ok tt).
Proof. apply message_set_truncated; [reflexivity|reflexivity|]. vm_compute. lia. Defined.

(** A message whose stored CRC is not the CRC of its bytes is rejected with
    [ChecksumError], after the entries before it were yielded and whatever
    follows it. *)
Theorem message_set_corrupt {L : CompressionLib} (oms : list OffsetAndMessage)
    (offset crc mg att : Z) (rest tail : bytes) (depth : nat)
    (Hok : forallb set_entry_ok oms = true)
    (Hplain : forallb (λ om, plain (om_message om)) oms = true)
    (Ho : frange Fq offset = true)
    (Hhead : tuple_ok [FI; FB; FB] (crc, (mg, (att, tt))) = true)
    (Hlen : len rest < 2 ^ 31 - 6)
    (Hcrc : crc ≠ crc32 (tuple_bytes [FB; FB] (mg, (att, tt)) ++ rest)) :
  let msg := tuple_bytes [FI; FB; FB] (crc, (mg, (att, tt))) ++ rest in
  _decode_message_set_iter (S depth) (Some (set_bytes oms ++ entry_bytes offset msg ++ tail)) =
    (oms, Err ChecksumError).
Proof.
  intros msg.
  change (_decode_message_set_iter (S depth) (Some ?d)) with
    (decode_set_loop (_decode_message_set_iter depth) (S (length d)) d 0 false).
  pose proof (set_bytes_length oms).
  rewrite loop_plain by (done || (rewrite length_app; lia)). cbv zeta.
  rewrite Nat.sub_succ_l by (rewrite length_app; lia). cbn [decode_set_loop].
  set (ds := _decode_message_set_iter depth).
  assert (0 < len (entry_bytes offset msg)) by (by vm_compute).
  rewrite (proj2 (Z.ltb_lt _ _)) by (rewrite !len_app; len_pose; lia).
  assert (decode_entry ds (set_bytes oms ++ entry_bytes offset msg ++ tail) (len (set_bytes oms))
    = ([], Err ChecksumError)) as ->; [|cbn; by rewrite app_nil_r].
  unfold decode_entry, entry_bytes. rewrite <-app_assoc.
  rewrite (reads_relative_unpack [Fq] (offset, tt)), gen_bind_lift
    by (cbn [tuple_ok fst snd]; by rewrite Ho).
  cbv beta iota. rewrite <-len_app, (app_assoc (set_bytes oms)).
  rewrite (reads_int_string (Some msg)), gen_bind_lift.
  2:{ apply Z.ltb_lt. unfold msg. rewrite len_app, len_tuple_bytes. cbn -[Z.pow]. lia. }
  cbv beta iota. unfold _decode_message.
  pose proof (reads_relative_unpack [FI; FB; FB] (crc, (mg, (att, tt))) Hhead [] rest) as Hr.
  rewrite len_nil, Z.add_0_l in Hr. cbn [app] in Hr. unfold msg. rewrite Hr, gen_bind_lift.
  cbv beta iota.
  assert (drop 4 (tuple_bytes [FI; FB; FB] (crc, (mg, (att, tt))) ++ rest) =
    tuple_bytes [FB; FB] (mg, (att, tt)) ++ rest) as ->.
  { cbn [tuple_bytes fst snd fsize]. rewrite <-app_assoc.
    by rewrite drop_app_length' by (by rewrite length_be_encode). }
  rewrite crc32_land, (proj2 (Z.eqb_neq _ _)) by done. done.
Qed.

Example message_set_corrupt_witness :
  _decode_message_set_iter (L := tagged_lib) 1
    (Some (set_bytes (numbered sample_messages (Some 5)) ++
           entry_bytes 8 (tuple_bytes [FI; FB; FB] (12345, (0, (0, tt))) ++ be_encode 8 (-1)) ++ [])) =
  (numbered sample_messages (Some 5), Err ChecksumError).
Proof.
  apply message_set_corrupt; [vm_compute; reflexivity..|]. vm_compute. congruence.
Defined.

(** [_decode_message_set_iter] terminates on every input, however corrupt:
    the decoding loop never needs more than one round per byte, at any nesting
    of compressed sets. *)
Lemma message_set_decode_terminates `{HL : CompressionLaws} (depth : nat)
    (data : option bytes) :
  (_decode_message_set_iter depth data).2 ≠ Err OutOfFuel.
Proof.
  revert data. induction depth as [|depth IH]; intros data; [done|].
  destruct data as [d|]; [|done]. cbn [_decode_message_set_iter].
  apply decode_set_loop_not_fuel; [apply IH|].
  unfold slice_index, len. cbn [Z.ltb Z.compare]. lia.
Qed.

(** C30. Reading a message set, whatever its bytes. The decoder ends on every
    input: its loop never needs more than one round per byte, at any nesting of
    compressed sets. A set that is cut in the middle of an entry yields the
    complete entries and stops quietly, or raises [ConsumerFetchSizeTooSmall]
    when there was no complete entry at all. A message whose stored CRC is not
    the CRC of its bytes is rejected with [ChecksumError], after the entries
    before it were yielded and whatever follows it. *)
Theorem message_set_decoded `{HL : CompressionLaws} (oms : list OffsetAndMessage) (depth : nat)
    (Hok : forallb set_entry_ok oms = true)
    (Hplain : forallb (λ om, plain (om_message om)) oms = true) :
  (∀ data, (_decode_message_set_iter depth data).2 ≠ Err OutOfFuel) ∧
  (∀ last k, set_entry_ok last = true → (0 < k < length (set_entry last))%nat →
    _decode_message_set_iter (S depth) (Some (set_bytes oms ++ take k (set_entry last))) =
      (oms, match oms with [] => Err ConsumerFetchSizeTooSmall | _ => Ok tt end)) ∧
  (∀ offset crc mg att rest tail, frange Fq offset = true →
    tuple_ok [FI; FB; FB] (crc, (mg, (att, tt))) = true → len rest < 2 ^ 31 - 6 →
    crc ≠ crc32 (tuple_bytes [FB; FB] (mg, (att, tt)) ++ rest) →
    let msg := tuple_bytes [FI; FB; FB] (crc, (mg, (att, tt))) ++ rest in
    _decode_message_set_iter (S depth) (Some (set_bytes oms ++ entry_bytes offset msg ++ tail)) =
      (oms, Err ChecksumError)).
Proof.
  split_and!.
  - apply message_set_decode_terminates.
  - intros last k Hlast Hk. apply message_set_truncated; [|done|done].
    rewrite forallb_app, Hok. cbn. by rewrite Hlast.
  - intros offset crc mg att rest tail. by apply message_set_corrupt.
Qed.

Example message_set_decoded_witness :
  (_decode_message_set_iter (L := tagged_lib) 0
     (Some (be_encode 8 0 ++ be_encode 4 (-20) ++ be_encode 8 77))).2 ≠ Err OutOfFuel ∧
  _decode_message_set_iter (L := tagged_lib) 1
    (Some (set_bytes (numbered sample_messages (Some 5)) ++
           take 20 (set_entry (mkOffsetAndMessage 7 (create_message (Some []) None))))) =
  (numbered sample_messages (Some 5), Ok tt) ∧
  _decode_message_set_iter (L := tagged_lib) 1
    (Some (set_bytes (numbered sample_messages (Some 5)) ++
           entry_bytes 8 (tuple_bytes [FI; FB; FB] (12345, (0, (0, tt))) ++ be_encode 8 (-1)) ++ [])) =
  (numbered sample_messages (Some 5), Err ChecksumError).
Proof.
  destruct (@message_set_decoded tagged_lib tagged_lib_laws (numbered sample_messages (Some 5)) 0) as (He & Ht & Hc);
    [vm_compute; reflexivity..|]. split_and!.
  - apply He.
  - apply Ht; [vm_compute; reflexivity|]. vm_compute. lia.
  - apply Hc; [vm_compute; reflexivity..|]. vm_compute. congruence.
Defined.

(** The messages [create_message_set] makes from a list of requests, before
    any compression: one per payload, in order, with the request's key. *)
Definition raw_messages (requests : list SendRequest) : list Message :=
  requests ≫= λ req, (λ m, create_message m (sr_key req)) <$> sr_messages req.

Lemma raw_messages_plain requests : forallb plain (raw_messages requests) = true.
Proof.
  apply forallb_forall. intros m Hm%list_elem_of_In.
  apply list_elem_of_bind in Hm as (r & Hm & _).
  apply list_elem_of_fmap in Hm as (p & -> & _). done.
Qed.

(** A compressed set holds one entry with offset 0. *)
Lemma single_set m b :
  _encode_message_set [m] None = Ok b →
  set_entry_ok (mkOffsetAndMessage 0 m) = true ∧ b = set_entry (mkOffsetAndMessage 0 m).
Proof.
  intros [Hok ->]%encode_message_set_Ok. cbn [numbered with_offsets forallb] in *.
  rewrite andb_true_r in Hok. split; [done|]. unfold set_bytes. rewrite bind_cons.
  apply app_nil_r.
Qed.

(** The entry that wraps a set, compressed. *)
Definition wraps `{CompressionLib} (m : Message) (inner : list OffsetAndMessage) : Prop :=
  attributes m = CODEC_GZIP ∧ gzip_decode (value m) = Ok (set_bytes inner) ∨
  attributes m = CODEC_SNAPPY ∧ snappy_decode (value m) = Ok (set_bytes inner).

(** What [create_message_set] makes: the messages, or one that wraps them. *)
Lemma created `{HL : CompressionLaws} (requests : list SendRequest) (codec : Z) (ms : list Message) :
  create_message_set requests codec = Ok ms →
  ms = raw_messages requests ∨
  ∃ m, ms = [m] ∧ wraps m (numbered (raw_messages requests) None) ∧
       forallb set_entry_ok (numbered (raw_messages requests) None) = true.
Proof.
  unfold create_message_set. fold (raw_messages requests). set (raw := raw_messages requests).
  destruct (codec =? CODEC_NONE); [|destruct (codec =? CODEC_GZIP);
    [|destruct (codec =? CODEC_SNAPPY); [|done]]]; intros Hcreate.
  - injection Hcreate as <-. by left.
  - right. unfold create_gzip_message in Hcreate.
    destruct (_encode_message_set raw None) as [e|] eqn:He; [|done].
    cbn in Hcreate. injection Hcreate as <-. apply encode_message_set_Ok in He as [Hraw ->].
    eexists. split; [done|]. split; [|done]. left. split; [done|]. apply gzip_roundtrip.
  - right. unfold create_snappy_message in Hcreate.
    destruct (_encode_message_set raw None) as [e|] eqn:He; [|done].
    cbn [mbind result_bind] in Hcreate.
    assert (snappy_available = true) as Ha.
    { unfold snappy_encode, has_snappy in Hcreate. by destruct snappy_available. }
    destruct (snappy_plain_roundtrip e (32 * 1024) Ha) as (s & Hs & Hd).
    rewrite Hs in Hcreate. cbn in Hcreate. injection Hcreate as <-.
    apply encode_message_set_Ok in He as [Hraw ->]. eexists. split; [done|]. split; [|done]. right. by split.
Qed.


Definition sample_requests : list SendRequest :=
  [mkSendRequest (txt "t") (Some (byte_of_Z <$> txt "k1")) [Some (byte_of_Z <$> txt "a"); None] 0;
   mkSendRequest (txt "t") None [Some (byte_of_Z <$> txt "b")] 1].

Definition sample_set : list Message :=
  match create_message_set (L := tagged_lib) sample_requests CODEC_SNAPPY with
  | Ok ms => ms | Err _ => []
  end.

Definition sample_bytes : bytes :=
  match _encode_message_set sample_set None with Ok b => b | Err _ => [] end.

