(* ===== verification/Requests.v ===== *)
(** The request encoders of [afkak/kafkacodec.py] against the wire grammar:
    each request has a schema (the Kafka protocol's), and the bytes an encoder
    emits parse, in full, to the fields it was given; when a field cannot be
    represented the encoder raises. *)
From S2P Require Import Prelude Common PyBytes Util Codec Wire KafkaCodec MessageSet.
Local Open Scope Z_scope.
Local Open Scope schema_scope.

(** Every field that has an encoding of its own (text, message sets) has one:
    [None] stands for one that cannot be encoded. *)
Definition encodable (fields : list (option bytes)) : bool :=
  forallb (λ t, bool_decide (is_Some t)) fields.

(** [conforms r fields s v]: the encoder's bytes parse as [s] to [v] and
    nothing is left over; it raises exactly when a field cannot be encoded or
    does not fit the wire. *)
Definition conforms (r : res bytes) (fields : list (option bytes)) (s : schema) (v : sem s)
    : Prop :=
  match r with
  | Ok b => encodable fields && ok s v = true ∧ parse s b = Some (v, [])
  | Err _ => encodable fields && ok s v = false
  end.

Lemma conforms_intro r fields s v good :
  encodes r good (ser s v) → good = encodable fields && ok s v → conforms r fields s v.
Proof.
  unfold encodes, conforms. intros H ->. destruct (encodable fields); cbn in *.
  - destruct (ok s v) eqn:Hok; [rewrite H|by destruct H as [e ->]].
    split; [done|]. pose proof (parse_ser s v [] Hok) as Hp. by rewrite app_nil_r in Hp.
  - by destruct H as [e ->].
Qed.

Lemma wire_text_ok_eq w : wire_text_ok w = bool_decide (is_Some w) && short_string_ok w.
Proof. destruct w; [|done]. by rewrite bool_decide_true by eauto. Qed.

Lemma frange_Fi_count {A} (l : list A) : frange Fi (len l) = (len l <? 2 ^ 31).
Proof.
  unfold frange. cbn -[Z.pow]. change (fbits Fi - 1) with 31. len_pose.
  by rewrite (proj2 (Z.leb_le _ _)) by lia.
Qed.

(** ** The pieces all requests share *)

(** ApiKey, ApiVersion, CorrelationId, ClientId. *)
Definition header_schema : schema := SNums [Fh; Fh; Fi] +> SShort.

Definition header_value (key version correlation_id : Z) (client_id : bytes)
    : sem header_schema :=
  ((key, (version, (correlation_id, tt))), Some client_id).

Lemma encodes_header client_id correlation_id key version :
  encodes (_encode_message_header client_id correlation_id key version)
    (ok header_schema (header_value key version correlation_id client_id))
    (ser header_schema (header_value key version correlation_id client_id)).
Proof.
  unfold _encode_message_header, encodes.
  assert (tuple_ok [Fh; Fh; Fi; Fh] (key, (version, (correlation_id, (len client_id, tt)))) =
    ok header_schema (header_value key version correlation_id client_id)) as Hok.
  { assert (frange Fh (len client_id) = (len client_id <=? 32767)) as Hf.
    { unfold frange. cbn -[Z.pow]. change (fbits Fh - 1) with 15. len_pose.
      rewrite (proj2 (Z.leb_le _ _)) by lia. cbn [andb].
      destruct (len client_id <? 2 ^ 15) eqn:E1, (len client_id <=? 32767) eqn:E2; lia. }
    cbn [tuple_ok ok header_schema header_value fst snd short_string_ok]. rewrite Hf.
    by rewrite !andb_true_r, <-!andb_assoc. }
  rewrite pack_tuple, Hok. destruct (ok _ _); [|by eexists].
  cbn -[be_encode]. by rewrite !app_nil_r, <-!app_assoc.
Qed.

(** Topics, each with its partitions' entries. *)
Definition topics_schema (entry : schema) : schema := SArr (SShort +> SArr entry).

Definition topics_value {P} (entry : schema) (val : Z → P → sem entry)
    (g : list (text * list (Z * P))) : list (option bytes * list (sem entry)) :=
  (λ tg : text * list (Z * P), (ascii_wire tg.1, (λ pp, val pp.1 pp.2) <$> tg.2)) <$> g.

Lemma ser_array s (vs : list (sem s)) : ser (SArr s) vs = be_encode 4 (len vs) ++ (vs ≫= ser s).
Proof. done. Qed.

Lemma bind_fmap_ser {A} s (f : A → sem s) l : (f <$> l) ≫= ser s = l ≫= λ x, ser s (f x).
Proof. induction l as [|x l IH]; [done|]. rewrite fmap_cons, !bind_cons, IH. done. Qed.

Lemma forallb_fmap {A B} (f : A → B) (p : B → bool) l :
  forallb p (f <$> l) = forallb (λ x, p (f x)) l.
Proof. induction l as [|x l IH]; [done|]. rewrite fmap_cons. cbn. by rewrite IH. Qed.

Lemma forallb_andb {A} (p q : A → bool) l :
  forallb (λ x, p x && q x) l = forallb p l && forallb q l.
Proof.
  induction l as [|x l IH]; [done|]. cbn. rewrite IH.
  by destruct (p x), (q x), (forallb p l), (forallb q l).
Qed.

Lemma forallb_ext' {A} (p q : A → bool) l : (∀ x, p x = q x) → forallb p l = forallb q l.
Proof. intros H. induction l as [|x l IH]; [done|]. cbn. by rewrite H, IH. Qed.

Definition topic_fields {P} (fields : P → list (option bytes))
    (g : list (text * list (Z * P))) : list (option bytes) :=
  g ≫= λ tg, ascii_wire tg.1 :: (tg.2 ≫= λ pp, fields pp.2).

Lemma encodable_app l k : encodable (l ++ k) = encodable l && encodable k.
Proof. apply forallb_app. Qed.

Lemma encodable_bind {A} (f : A → list (option bytes)) l :
  encodable (l ≫= f) = forallb (λ x, encodable (f x)) l.
Proof.
  induction l as [|x l IH]; [done|]. rewrite bind_cons, encodable_app, IH. done.
Qed.

(** The shared loop writes the array's elements (its count is written with
    the fields before it). *)
Lemma appends_grouped {P} entry (val : Z → P → sem entry) (fields : P → list (option bytes))
    (write : Z → P → bytes → res bytes) g :
  (∀ p x, appends (write p x) (encodable (fields x) && ok entry (val p x))
            (ser entry (val p x))) →
  appends (encode_grouped write g)
    (encodable (topic_fields fields g) &&
     forallb (ok (SShort +> SArr entry)) (topics_value entry val g))
    (topics_value entry val g ≫= ser (SShort +> SArr entry)).
Proof.
  intros Hw. unfold topics_value, topic_fields.
  rewrite bind_fmap_ser, encodable_bind, !forallb_fmap, <-forallb_andb.
  apply appends_for. intros [t inner] _. cbn [fst snd].
  eapply appends_eq.
  - eapply appends_bind; [apply appends_iadd, encodes_short_ascii|].
    eapply appends_bind; [apply appends_iadd, (encodes_pack [Fi] (len inner, tt))|].
    apply (appends_for _ _ (λ pp, encodable (fields pp.2) && ok entry (val pp.1 pp.2))
             (λ pp, ser entry (val pp.1 pp.2))). intros pp _. apply Hw.
  - rewrite wire_text_ok_eq, forallb_andb. cbn [ok fst snd tuple_ok encodable forallb].
    fold (encodable (inner ≫= λ pp, fields pp.2)).
    rewrite frange_Fi_count, encodable_bind, forallb_fmap, len_fmap, andb_true_r.
    destruct (bool_decide _), (short_string_ok _), (len inner <? 2 ^ 31),
      (forallb (λ pp, encodable (fields pp.2)) inner); done.
  - cbn [ser fst snd]. rewrite bind_fmap_ser, len_fmap.
    cbn [tuple_bytes fst snd]. by rewrite app_nil_r.
Qed.

(** ** Produce, Fetch, ListOffsets *)

Definition produce_schema : schema :=
  header_schema +> SNums [Fh; Fi] +> topics_schema (SNums [Fi] +> SLong).

(** A partition's message set, when it can be encoded. *)
Definition message_set_wire (ms : list Message) : option bytes :=
  if forallb set_entry_ok (numbered ms None) then Some (set_bytes (numbered ms None)) else None.

Definition produce_value (client_id : bytes) (correlation_id acks timeout : Z)
    (g : list (text * list (Z * ProduceRequest))) : sem produce_schema :=
  (header_value PRODUCE_KEY 0 correlation_id client_id,
   ((acks, (timeout, tt)),
    topics_value (SNums [Fi] +> SLong)
      (λ p r, ((p, tt), message_set_wire (pr_messages r))) g)).

Definition fetch_schema : schema :=
  header_schema +> SNums [Fi; Fi; Fi] +> topics_schema (SNums [Fi; Fq; Fi]).

Definition fetch_value (client_id : bytes) (correlation_id max_wait_time min_bytes : Z)
    (g : list (text * list (Z * FetchRequest))) : sem fetch_schema :=
  (header_value FETCH_KEY 0 correlation_id client_id,
   ((-1, (max_wait_time, (min_bytes, tt))),
    topics_value (SNums [Fi; Fq; Fi])
      (λ p r, (p, (fr_offset r, (fr_max_bytes r, tt)))) g)).

Definition offset_schema : schema :=
  header_schema +> SNums [Fi] +> topics_schema (SNums [Fi; Fq; Fi]).

Definition offset_value (client_id : bytes) (correlation_id : Z)
    (g : list (text * list (Z * OffsetRequest))) : sem offset_schema :=
  (header_value OFFSET_KEY 0 correlation_id client_id,
   ((-1, tt),
    topics_value (SNums [Fi; Fq; Fi])
      (λ p r, (p, (or_time r, (or_max_offsets r, tt)))) g)).

(** A body of fixed fields whose last one is the count of the topics. *)
Lemma appends_counted_topics {P} fs (zs : ztuple fs) (fs' : list fmt) (zs' : ztuple fs')
    entry (val : Z → P → sem entry) (fields : P → list (option bytes)) write g :
  tuple_ok fs' zs' = tuple_ok fs zs && frange Fi (len g) →
  tuple_bytes fs' zs' = tuple_bytes fs zs ++ be_encode 4 (len g) →
  (∀ p x, appends (write p x) (encodable (fields x) && ok entry (val p x))
            (ser entry (val p x))) →
  appends (λ m, m' ← iadd m (pack fs' zs'); encode_grouped write g m')
    (encodable (topic_fields fields g) &&
     ok (SNums fs +> topics_schema entry) (zs, topics_value entry val g))
    (ser (SNums fs +> topics_schema entry) (zs, topics_value entry val g)).
Proof.
  intros Hok Hb Hw. set (tv := topics_value entry val g).
  pose proof (appends_bind _ _ _ _ _ _ (appends_iadd _ _ _ (encodes_pack fs' zs'))
    (appends_grouped entry val fields write g Hw)) as H.
  assert (len tv = len g) as Hlen by (unfold tv, topics_value; by rewrite len_fmap).
  rewrite Hok, Hb, <-app_assoc, frange_Fi_count, <-Hlen in H. fold tv in H.
  eapply appends_eq; [exact H| |done].
  change (ok (SNums fs +> topics_schema entry) (zs, tv)) with
    (tuple_ok fs zs && ((len tv <? 2 ^ 31) && forallb (ok (SShort +> SArr entry)) tv)).
  by destruct (tuple_ok fs zs), (len tv <? 2 ^ 31), (encodable _).
Qed.

(** A request: the header, then the body. *)
Lemma request_conforms r f fields s (v : sem s) hv :
  encodes r (ok header_schema hv) (ser header_schema hv) →
  appends f (encodable fields && ok s v) (ser s v) →
  conforms (m ← r; f m) fields (header_schema +> s) (hv, v).
Proof.
  intros Hr Hf. eapply conforms_intro; [exact (encodes_bind _ _ _ _ _ _ Hr Hf)|].
  cbn [ok fst snd]. by destruct (ok header_schema hv), (encodable fields).
Qed.

Lemma appends_nums fs zs : appends (λ m, iadd m (pack fs zs)) (ok (SNums fs) zs) (ser (SNums fs) zs).
Proof. apply appends_iadd, encodes_pack. Qed.

Lemma appends_message_set p ms :
  appends (λ message,
      msg_set ← _encode_message_set ms None;
      message ← iadd message (pack [Fi; Fi] (p, (len msg_set, tt)));
      Ok (message ++ msg_set))
    (encodable [message_set_wire ms] && ok (SNums [Fi] +> SLong) ((p, tt), message_set_wire ms))
    (ser (SNums [Fi] +> SLong) ((p, tt), message_set_wire ms)).
Proof.
  intros m. pose proof (encodes_message_set ms None) as H. unfold encodes in H |- *.
  unfold message_set_wire. destruct (forallb _ _); [rewrite H|by destruct H as [e ->]; exists e].
  cbn [mbind result_bind]. set (b := set_bytes _). unfold iadd. rewrite pack_tuple.
  cbn [encodable forallb ok ser fst snd tuple_ok].
  rewrite <-frange_Fi_len. cbn [andb]. rewrite !andb_true_r.
  destruct (frange Fi p && frange Fi (len b)); [|by eexists].
  cbn -[be_encode]. by rewrite !app_nil_r, <-!app_assoc.
Qed.

(** ** Writing one schema after another *)

(** [f] appends the value [v] of [s], or raises when it cannot. *)
Definition writes (f : bytes → res bytes) (fields : list (option bytes)) (s : schema) (v : sem s)
    : Prop := appends f (encodable fields && ok s v) (ser s v).

Lemma writes_seq f g F1 F2 s1 s2 v1 v2 :
  writes f F1 s1 v1 → writes g F2 s2 v2 →
  writes (λ m, m' ← f m; g m') (F1 ++ F2) (s1 +> s2) (v1, v2).
Proof.
  intros H1 H2. eapply appends_eq; [exact (appends_bind _ _ _ _ _ _ H1 H2)| |done].
  cbn [ok fst snd]. rewrite encodable_app.
  by destruct (encodable F1), (encodable F2), (ok s1 v1).
Qed.

Lemma writes_nums fs zs : writes (λ m, iadd m (pack fs zs)) [] (SNums fs) zs.
Proof. apply appends_nums. Qed.

Lemma writes_ascii t :
  writes (λ m, iadd m (write_short_ascii (Some t))) [ascii_wire t] SShort (ascii_wire t).
Proof.
  eapply appends_eq; [apply appends_iadd, encodes_short_ascii| |done].
  rewrite wire_text_ok_eq. cbn. by rewrite andb_true_r.
Qed.

Lemma writes_text t :
  writes (λ m, iadd m (write_short_text (Some t))) [utf8_wire t] SShort (utf8_wire t).
Proof.
  eapply appends_eq; [apply appends_iadd, encodes_short_text| |done].
  rewrite wire_text_ok_eq. cbn. by rewrite andb_true_r.
Qed.

Lemma writes_short b : writes (λ m, iadd m (write_short_bytes b)) [] SShort b.
Proof. apply appends_iadd, encodes_short_bytes. Qed.

Lemma writes_long b : writes (λ m, iadd m (write_int_string b)) [] SLong b.
Proof. apply appends_iadd, encodes_int_string. Qed.

Lemma writes_array {X} (xs : list X) (f : bytes → X → res bytes) (fields : X → list (option bytes))
    s (val : X → sem s) :
  (∀ x, writes (λ m, f m x) (fields x) s (val x)) →
  writes (λ m, m' ← iadd m (pack [Fi] (len xs, tt)); for_each xs f m')
    (xs ≫= fields) (SArr s) (val <$> xs).
Proof.
  intros Hf. eapply appends_eq.
  - eapply appends_bind; [apply appends_iadd, (encodes_pack [Fi] (len xs, tt))|].
    apply (appends_for xs f (λ x, encodable (fields x) && ok s (val x)) (λ x, ser s (val x))).
    intros x _. apply Hf.
  - cbn [ok tuple_ok fst snd].
    rewrite encodable_bind, forallb_andb, forallb_fmap, len_fmap, frange_Fi_count, andb_true_r.
    by destruct (len xs <? 2 ^ 31), (forallb _ xs).
  - rewrite ser_array, bind_fmap_ser, len_fmap. cbn [tuple_bytes fst snd].
    by rewrite app_nil_r.
Qed.

Lemma writes_topics {P} entry (val : Z → P → sem entry) (fields : P → list (option bytes)) write g :
  (∀ p x, writes (write p x) (fields x) entry (val p x)) →
  writes (λ m, m' ← iadd m (pack [Fi] (len g, tt)); encode_grouped write g m')
    (topic_fields fields g) (topics_schema entry) (topics_value entry val g).
Proof.
  intros Hw. eapply appends_eq;
    [apply (appends_counted_topics [] tt [Fi] (len g, tt) entry val fields write g)|..].
  - cbn [tuple_ok fst snd]. by rewrite andb_true_r.
  - cbn [tuple_bytes fst snd]. by rewrite app_nil_r.
  - exact Hw.
  - done.
  - done.
Qed.

Lemma conforms_request client_id correlation_id key version f fields s (v : sem s) :
  writes f fields s v →
  conforms (m ← _encode_message_header client_id correlation_id key version; f m) fields
    (header_schema +> s) (header_value key version correlation_id client_id, v).
Proof. apply request_conforms, encodes_header. Qed.

(** ** Theorems *)

(** Produce: the message sets are encoded, grouped by topic and partition,
    and the request parses to exactly those fields. *)
Theorem produce_request_conforms (client_id : bytes) (correlation_id acks timeout : Z)
    (payloads : option (list ProduceRequest)) :
  let g := group_by_topic_and_partition pr_topic pr_partition (default [] payloads) in
  conforms (encode_produce_request client_id correlation_id payloads acks timeout)
    (topic_fields (λ r, [message_set_wire (pr_messages r)]) g)
    produce_schema (produce_value client_id correlation_id acks timeout g).
Proof.
  intros g. apply request_conforms; [apply encodes_header|].
  apply appends_counted_topics.
  - cbn [tuple_ok fst snd]. by rewrite !andb_true_r, andb_assoc.
  - cbn [tuple_bytes fst snd fsize]. by rewrite !app_nil_r, <-app_assoc.
  - intros p r. apply appends_message_set.
Qed.

(** Fetch and ListOffsets: the requests parse to the replica id -1, the
    request's parameters, and each topic with its partitions in the order they
    were first given. *)
Theorem fetch_and_offset_requests_conform (client_id : bytes) (correlation_id : Z)
    (max_wait_time min_bytes : Z) (fetches : option (list FetchRequest))
    (offsets : option (list OffsetRequest)) :
  let gf := group_by_topic_and_partition fr_topic fr_partition (default [] fetches) in
  let go := group_by_topic_and_partition or_topic or_partition (default [] offsets) in
  conforms (encode_fetch_request client_id correlation_id fetches max_wait_time min_bytes)
    (topic_fields (λ _, []) gf) fetch_schema
    (fetch_value client_id correlation_id max_wait_time min_bytes gf) ∧
  conforms (encode_offset_request client_id correlation_id offsets)
    (topic_fields (λ _, []) go) offset_schema (offset_value client_id correlation_id go).
Proof.
  intros gf go. split; (apply request_conforms; [apply encodes_header|]).
  - apply appends_counted_topics; [..|intros p r; apply (appends_nums [Fi; Fq; Fi])].
    + cbn [tuple_ok fst snd]. by rewrite !andb_true_r, <-!andb_assoc.
    + cbn [tuple_bytes fst snd fsize]. by rewrite !app_nil_r, <-!app_assoc.
  - apply appends_counted_topics; [..|intros p r; apply (appends_nums [Fi; Fq; Fi])].
    + cbn [tuple_ok fst snd]. by rewrite !andb_true_r.
    + cbn [tuple_bytes fst snd fsize]. by rewrite !app_nil_r.
Qed.

(** ** Offsets of consumer groups *)

Definition offset_commit_schema : schema :=
  header_schema +> SShort +> SNums [Fi] +> SShort +>
  topics_schema (SNums [Fi; Fq; Fq] +> SShort).

Definition offset_commit_value (client_id : bytes) (correlation_id : Z) (group : text)
    (generation : Z) (consumer_id : text)
    (g : list (text * list (Z * OffsetCommitRequest))) : sem offset_commit_schema :=
  (header_value OFFSET_COMMIT_KEY 1 correlation_id client_id,
   (ascii_wire group, ((generation, tt), (ascii_wire consumer_id,
     topics_value (SNums [Fi; Fq; Fq] +> SShort)
       (λ p r, ((p, (ocr_offset r, (ocr_timestamp r, tt))), ocr_metadata r)) g)))).

Definition offset_fetch_schema : schema :=
  header_schema +> SShort +> topics_schema (SNums [Fi]).

Definition offset_fetch_value (client_id : bytes) (correlation_id : Z) (group : text)
    (g : list (text * list (Z * OffsetFetchRequest))) : sem offset_fetch_schema :=
  (header_value OFFSET_FETCH_KEY 1 correlation_id client_id,
   (ascii_wire group, topics_value (SNums [Fi]) (λ p _, (p, tt)) g)).

(** OffsetCommit v1 and OffsetFetch v1 conform to their schemas. *)
Theorem offset_group_requests_conform (client_id : bytes) (correlation_id : Z) (group : text)
    (generation : Z) (consumer_id : text) (commits : list OffsetCommitRequest)
    (fetches : list OffsetFetchRequest) :
  let gc := group_by_topic_and_partition ocr_topic ocr_partition commits in
  let gf := group_by_topic_and_partition ofr_topic ofr_partition fetches in
  conforms (encode_offset_commit_request client_id correlation_id group generation
              (Some consumer_id) commits)
    ([ascii_wire group; ascii_wire consumer_id] ++ topic_fields (λ _, []) gc)
    offset_commit_schema
    (offset_commit_value client_id correlation_id group generation consumer_id gc) ∧
  conforms (encode_offset_fetch_request client_id correlation_id group fetches)
    (ascii_wire group :: topic_fields (λ _, []) gf)
    offset_fetch_schema (offset_fetch_value client_id correlation_id group gf) ∧
  encode_offset_commit_request client_id correlation_id group generation None commits =
    Err PyAssertionError.
Proof.
  intros gc gf. split_and!; [| |done].
  - apply conforms_request.
    apply (writes_seq _ _ [_]); [apply writes_ascii|].
    apply (writes_seq _ _ []); [apply (writes_nums [Fi])|].
    apply (writes_seq _ _ [_]); [apply writes_ascii|].
    apply writes_topics. intros p r.
    apply (writes_seq _ _ []); [apply (writes_nums [Fi; Fq; Fq])|apply writes_short].
  - apply conforms_request. apply (writes_seq _ _ [_]); [apply writes_ascii|].
    apply writes_topics. intros p r. apply (writes_nums [Fi]).
Qed.

(** ** Metadata and coordinator lookup *)

Definition metadata_schema : schema := header_schema +> SArr SShort.
Definition consumermetadata_schema : schema := header_schema +> SShort.

(** Metadata and FindCoordinator requests conform to their schemas; no
    topics means the empty list, which asks for all of them. *)
Theorem metadata_requests_conform (client_id : bytes) (correlation_id : Z)
    (topics : option (list text)) (group : text) :
  conforms (encode_metadata_request client_id correlation_id topics)
    (default [] topics ≫= λ t, [ascii_wire t]) metadata_schema
    (header_value METADATA_KEY 0 correlation_id client_id, ascii_wire <$> default [] topics) ∧
  conforms (encode_consumermetadata_request client_id correlation_id group)
    [ascii_wire group] consumermetadata_schema
    (header_value CONSUMER_METADATA_KEY 0 correlation_id client_id, ascii_wire group).
Proof.
  split; apply conforms_request.
  - apply (writes_array _ _ (λ t, [ascii_wire t]) SShort ascii_wire). apply writes_ascii.
  - apply writes_ascii.
Qed.

(** ** Group membership *)

Definition join_group_schema : schema :=
  header_schema +> SShort +> SNums [Fi] +> SShort +> SShort +> SArr (SShort +> SLong).

Definition join_group_value (client_id : bytes) (correlation_id : Z) (r : _JoinGroupRequest)
    : sem join_group_schema :=
  (header_value JOIN_GROUP_KEY 0 correlation_id client_id,
   (utf8_wire (jgr_group r), ((jgr_session_timeout r, tt), (utf8_wire (jgr_member_id r),
    (utf8_wire (jgr_protocol_type r),
     (λ p, (ascii_wire (jgp_protocol_name p), jgp_protocol_metadata p))
       <$> jgr_group_protocols r))))).

Definition sync_group_schema : schema :=
  header_schema +> SShort +> SNums [Fi] +> SShort +> SArr (SShort +> SLong).

Definition sync_group_value (client_id : bytes) (correlation_id : Z) (r : _SyncGroupRequest)
    : sem sync_group_schema :=
  (header_value SYNC_GROUP_KEY 0 correlation_id client_id,
   (utf8_wire (sgr_group r), ((sgr_generation_id r, tt), (utf8_wire (sgr_member_id r),
    (λ a, (utf8_wire (sgm_member_id a), sgm_member_metadata a))
      <$> sgr_group_assignment r)))).

Definition heartbeat_schema : schema := header_schema +> SShort +> SNums [Fi] +> SShort.
Definition leave_group_schema : schema := header_schema +> SShort +> SShort.

(** JoinGroup, SyncGroup, Heartbeat and LeaveGroup requests conform to their
    schemas. *)
Theorem group_requests_conform (client_id : bytes) (correlation_id : Z)
    (join : _JoinGroupRequest) (sync : _SyncGroupRequest) (beat : _HeartbeatRequest)
    (leave : _LeaveGroupRequest) :
  conforms (encode_join_group_request client_id correlation_id join)
    ([utf8_wire (jgr_group join); utf8_wire (jgr_member_id join);
      utf8_wire (jgr_protocol_type join)] ++
     (jgr_group_protocols join ≫= λ p, [ascii_wire (jgp_protocol_name p)]))
    join_group_schema (join_group_value client_id correlation_id join) ∧
  conforms (encode_sync_group_request client_id correlation_id sync)
    ([utf8_wire (sgr_group sync); utf8_wire (sgr_member_id sync)] ++
     (sgr_group_assignment sync ≫= λ a, [utf8_wire (sgm_member_id a)]))
    sync_group_schema (sync_group_value client_id correlation_id sync) ∧
  conforms (encode_heartbeat_request client_id correlation_id beat)
    [utf8_wire (hbr_group beat); utf8_wire (hbr_member_id beat)] heartbeat_schema
    (header_value HEARTBEAT_KEY 0 correlation_id client_id,
     (utf8_wire (hbr_group beat), ((hbr_generation_id beat, tt),
      utf8_wire (hbr_member_id beat)))) ∧
  conforms (encode_leave_group_request client_id correlation_id leave)
    [utf8_wire (lgr_group leave); utf8_wire (lgr_member_id leave)] leave_group_schema
    (header_value LEAVE_GROUP_KEY 0 correlation_id client_id,
     (utf8_wire (lgr_group leave), utf8_wire (lgr_member_id leave))).
Proof.
  split_and!; apply conforms_request.
  - apply (writes_seq _ _ [_]); [apply writes_text|].
    apply (writes_seq _ _ []); [apply (writes_nums [Fi])|].
    apply (writes_seq _ _ [_]); [apply writes_text|].
    apply (writes_seq _ _ [_]); [apply writes_text|].
    apply (writes_array _ _ (λ p, [ascii_wire (jgp_protocol_name p)])
      (SShort +> SLong) (λ p, (ascii_wire (jgp_protocol_name p), jgp_protocol_metadata p))).
    intros p. apply (writes_seq _ _ [_] []); [apply writes_ascii|apply writes_long].
  - apply (writes_seq _ _ [_]); [apply writes_text|].
    apply (writes_seq _ _ []); [apply (writes_nums [Fi])|].
    apply (writes_seq _ _ [_]); [apply writes_text|].
    apply (writes_array _ _ (λ a, [utf8_wire (sgm_member_id a)])
      (SShort +> SLong) (λ a, (utf8_wire (sgm_member_id a), sgm_member_metadata a))).
    intros a. apply (writes_seq _ _ [_] []); [apply writes_text|apply writes_long].
  - apply (writes_seq _ _ [_]); [apply writes_text|].
    apply (writes_seq _ _ []); [apply (writes_nums [Fi])|apply writes_text].
  - apply (writes_seq _ _ [_]); [apply writes_text|apply writes_text].
Qed.
