(* ===== verification/Responses.v ===== *)
(** The response decoders of [afkak/kafkacodec.py] against the wire grammar:
    decoding the serialisation of a response yields its fields. *)
From S2P Require Import Prelude Common PyBytes Util Codec Wire KafkaCodec MessageSet Requests.
Local Open Scope Z_scope.
Local Open Scope schema_scope.

(** ** Responses made of topics and partitions *)

Definition response_topics {X} (entry : schema) (val : X → sem entry)
    (topics : list (text * list X)) : list (option bytes * list (sem entry)) :=
  (λ tx : text * list X, (ascii_wire tx.1, val <$> tx.2)) <$> topics.

(** The topics' names are ASCII. *)
Definition response_fields {X} (topics : list (text * list X)) : list (option bytes) :=
  topics ≫= λ tx, [ascii_wire tx.1].

(** The nested loops the generator decoders share. *)
Definition decode_topics {Y} (body : text → bytes → Z → pygen Y Z) (data : bytes)
    (num_topics cur : Z) : pygen Y Z :=
  gfor_range num_topics (λ cur,
    '(topic, cur) ← glift (read_short_ascii data cur);
    '((num_partitions, _), cur) ← glift (relative_unpack [Fi] data cur);
    gfor_range num_partitions (λ cur, body topic data cur) cur) cur.

Lemma greads_nums {Y} fs (zs : ztuple fs) (k : ztuple fs → bytes → Z → pygen Y Z) e ys :
  tuple_ok fs zs = true → greads (k zs) e ys →
  greads (λ d c, '(x, c') ← glift (relative_unpack fs d c); k x d c') (tuple_bytes fs zs ++ e) ys.
Proof. intros Hz. apply greads_bind. by apply reads_relative_unpack. Qed.

Lemma reads_nums {B} fs (zs : ztuple fs) (k : ztuple fs → bytes → Z → res (B * Z)) e b :
  tuple_ok fs zs = true → reads (k zs) e b →
  reads (λ d c, '(x, c') ← relative_unpack fs d c; k x d c') (tuple_bytes fs zs ++ e) b.
Proof. intros Hz. apply reads_bind. by apply reads_relative_unpack. Qed.

Lemma encodable_text_ok (w : option bytes) :
  encodable [w] = true → short_string_ok w = true → wire_text_ok w = true.
Proof. intros He Hs. rewrite wire_text_ok_eq, Hs. cbn in He. by rewrite andb_true_r in *. Qed.

Section topics.
Context {X Y : Type} (entry : schema) (val : X → sem entry) (out : text → X → list Y)
  (body : text → bytes → Z → pygen Y Z).
Hypothesis body_reads : ∀ t x, ok entry (val x) = true →
  greads (body t) (ser entry (val x)) (out t x).

Lemma greads_topics topics n :
  n = len topics → encodable (response_fields topics) = true →
  forallb (ok (SShort +> SArr entry)) (response_topics entry val topics) = true →
  greads (λ d c, decode_topics body d n c)
    (response_topics entry val topics ≫= ser (SShort +> SArr entry))
    (topics ≫= λ tx, tx.2 ≫= out tx.1).
Proof.
  intros Hn Hf Hok. unfold response_topics. rewrite bind_fmap_ser.
  apply (greads_for topics _ _ (λ data cur, _)); [done|]. intros [t xs] Hin. cbn [fst snd].
  assert (encodable [ascii_wire t] = true ∧
    ok (SShort +> SArr entry) (ascii_wire t, val <$> xs) = true) as [Ht Hx].
  { unfold response_fields in Hf. rewrite encodable_bind in Hf.
    unfold response_topics in Hok. rewrite forallb_fmap in Hok.
    rewrite !forallb_forall in Hf, Hok. apply list_elem_of_In in Hin.
    split; [apply (Hf _ Hin)|apply (Hok _ Hin)]. }
  cbn [ok ser fst snd] in Hx |- *. rewrite !andb_true_iff in Hx. destruct Hx as (Hs & Hl & Hv).
  rewrite forallb_fmap in Hv. rewrite len_fmap in Hl |- *.
  apply greads_bind with (a := t); [by apply reads_ascii_wire, encodable_text_ok|].
  assert (be_encode 4 (len xs) = tuple_bytes [Fi] (len xs, tt)) as ->
    by (cbn [tuple_bytes fst snd]; by rewrite app_nil_r).
  apply (greads_nums [Fi] (len xs, tt)).
  { cbn [tuple_ok fst snd]. by rewrite frange_Fi_count, Hl. }
  cbn [fst snd]. rewrite bind_fmap_ser.
  apply (greads_for xs _ _ (body t)); [done|]. intros x Hx'. apply body_reads.
  rewrite forallb_forall in Hv. by apply Hv, list_elem_of_In.
Qed.

Definition response_schema : schema := SNums [Fi] +> topics_schema entry.

Lemma greads_response correlation_id topics :
  encodable (response_fields topics) = true →
  ok response_schema ((correlation_id, tt), response_topics entry val topics) = true →
  let e := ser response_schema ((correlation_id, tt), response_topics entry val topics) in
  let ys := topics ≫= λ tx, tx.2 ≫= out tx.1 in
  greads (λ d c, '(x, c) ← glift (relative_unpack [Fi; Fi] d c);
    let '(_, (n, _)) := x in decode_topics body d n c) e ys ∧
  greads (λ d c, '((_, _), c) ← glift (relative_unpack [Fi] d c);
    '(x, c) ← glift (relative_unpack [Fi] d c);
    let '(n, _) := x in decode_topics body d n c) e ys.
Proof.
  intros Hf Hok e ys. set (tv := response_topics entry val topics) in *.
  assert (len tv = len topics) as Hlen by (unfold tv, response_topics; by rewrite len_fmap).
  change (ok response_schema ((correlation_id, tt), tv)) with
    (tuple_ok [Fi] (correlation_id, tt) &&
      ((len tv <? 2 ^ 31) && forallb (ok (SShort +> SArr entry)) tv)) in Hok.
  rewrite Hlen, <-frange_Fi_count, !andb_true_iff in Hok. destruct Hok as (Hc & Hn & Hv).
  set (rest := tv ≫= ser (SShort +> SArr entry)).
  pose proof (greads_topics topics (len topics) eq_refl Hf Hv) as Hg.
  assert (e = tuple_bytes [Fi] (correlation_id, tt) ++
    tuple_bytes [Fi] (len topics, tt) ++ rest) as He.
  { change e with (tuple_bytes [Fi] (correlation_id, tt) ++ be_encode 4 (len tv) ++ rest).
    rewrite Hlen. cbn [tuple_bytes fst snd]. by rewrite !app_nil_r, <-?app_assoc. }
  split.
  - assert (e = tuple_bytes [Fi; Fi] (correlation_id, (len topics, tt)) ++ rest) as ->.
    { rewrite He. cbn [tuple_bytes fst snd]. by rewrite !app_nil_r, <-?app_assoc. }
    apply (greads_nums [Fi; Fi] (correlation_id, (len topics, tt))
      (λ x d c, let '(_, (n, _)) := x in decode_topics body d n c)); [|exact Hg].
    cbn [tuple_ok fst snd] in *. by rewrite Hn, andb_true_r in *.
  - rewrite He. apply (greads_nums [Fi] (correlation_id, tt)); [done|].
    apply (greads_nums [Fi] (len topics, tt)
      (λ x d c, let '(n, _) := x in decode_topics body d n c)); [|exact Hg].
    cbn [tuple_ok fst snd]. by rewrite Hn.
Qed.
End topics.

Lemma greads_whole {Y} (g : bytes → Z → pygen Y Z) e ys suf :
  greads g e ys → g (e ++ suf) 0 = (ys, Ok (len e)).
Proof. intros H. exact (H [] suf). Qed.

Lemma reads_whole {A} (rd : bytes → Z → res (A * Z)) e a suf :
  reads rd e a → rd (e ++ suf) 0 = Ok (a, len e).
Proof. intros H. exact (H [] suf). Qed.

(** A last group of integers. *)
Lemma greads_last {Y} fs (zs : ztuple fs) (k : ztuple fs → bytes → Z → pygen Y Z) ys :
  tuple_ok fs zs = true → greads (k zs) [] ys →
  greads (λ d c, '(x, c') ← glift (relative_unpack fs d c); k x d c') (tuple_bytes fs zs) ys.
Proof.
  intros Hz Hk. rewrite <-(app_nil_r (tuple_bytes fs zs)). by apply greads_nums.
Qed.

Lemma reads_last {B} fs (zs : ztuple fs) (k : ztuple fs → bytes → Z → res (B * Z)) b :
  tuple_ok fs zs = true → reads (k zs) [] b →
  reads (λ d c, '(x, c') ← relative_unpack fs d c; k x d c') (tuple_bytes fs zs) b.
Proof.
  intros Hz Hk. rewrite <-(app_nil_r (tuple_bytes fs zs)). by apply reads_nums.
Qed.

Lemma greads_item {Y} (y : Y) : greads (λ _ c, _ ← gyield y; mret c) [] [y].
Proof. apply greads_yield, greads_ret. Qed.

Lemma be_encode_tuple f z : be_encode (fsize f) z = tuple_bytes [f] (z, tt).
Proof. cbn [tuple_bytes fst snd]. by rewrite app_nil_r. Qed.

(** A loop that appends one decoded item per turn to a list. *)
Lemma reads_collect {X Y} (items : list X) (enc : X → bytes) (out : X → Y)
    (body : bytes → list Y * Z → res (list Y * Z)) n ys :
  n = len items → ys = out <$> items →
  (∀ x acc, x ∈ items → reads (λ d c, body d (acc, c)) (enc x) (acc ++ [out x])) →
  reads (λ d c, for_range n (body d) ([], c)) (items ≫= enc) ys.
Proof.
  intros Hn -> Hb. assert (out <$> items = foldl (λ acc x, acc ++ [out x]) [] items) as ->.
  { clear. induction items as [|x items IH] using rev_ind; [done|].
    rewrite foldl_app, fmap_app, IH. done. }
  apply (reads_for items enc (λ acc x, acc ++ [out x]) body n []); [done|].
  intros acc x. apply Hb.
Qed.

(** ** The responses that list topics and partitions *)

Definition produce_response_schema : schema := response_schema (SNums [Fi; Fh; Fq]).
Definition offset_commit_response_schema : schema := response_schema (SNums [Fi; Fh]).
Definition fetch_response_schema : schema := response_schema (SNums [Fi; Fh; Fq] +> SLong).
Definition offset_response_schema : schema :=
  response_schema (SNums [Fi; Fh] +> SArr (SNums [Fq])).
Definition offset_fetch_response_schema : schema :=
  response_schema (SNums [Fi; Fq] +> SShort +> SNums [Fh]).

(** The items of a response, in the order the broker listed them. *)
Definition response_items {X Y} (item : text → X → Y) (topics : list (text * list X)) : list Y :=
  topics ≫= λ tx, item tx.1 <$> tx.2.

Lemma response_items_bind {X Y} (item : text → X → Y) topics :
  response_items item topics = topics ≫= λ tx, tx.2 ≫= λ x, [item tx.1 x].
Proof.
  unfold response_items. induction topics as [|[t xs] topics IH]; [done|].
  by rewrite !bind_cons, IH.
Qed.

(** A response whose fields the wire can represent. *)
Definition response_ok {X} (entry : schema) (val : X → sem entry) (correlation_id : Z)
    (topics : list (text * list X)) : bool :=
  encodable (response_fields topics) &&
  ok (response_schema entry) ((correlation_id, tt), response_topics entry val topics).

Definition response_bytes {X} (entry : schema) (val : X → sem entry) (correlation_id : Z)
    (topics : list (text * list X)) : bytes :=
  ser (response_schema entry) ((correlation_id, tt), response_topics entry val topics).

(** [decodes dec entry val item]: on the bytes of every representable
    response, whatever follows them, [dec] yields the response's items and
    stops after its last byte. *)
Definition decodes {X Y} (dec : bytes → pygen Y Z) (entry : schema) (val : X → sem entry)
    (item : text → X → Y) : Prop :=
  ∀ correlation_id topics suf, response_ok entry val correlation_id topics = true →
    dec (response_bytes entry val correlation_id topics ++ suf) =
      (response_items item topics, Ok (len (response_bytes entry val correlation_id topics))).

Section decodes.
Context {X Y : Type} (dec : bytes → pygen Y Z) (entry : schema) (val : X → sem entry)
  (item : text → X → Y) (body : text → bytes → Z → pygen Y Z).
Hypothesis body_item : ∀ t x, ok entry (val x) = true →
  greads (body t) (ser entry (val x)) [item t x].

Lemma decodes_joint :
  (∀ d, dec d = '(x, c) ← glift (relative_unpack [Fi; Fi] d 0);
                let '(_, (n, _)) := x in decode_topics body d n c) →
  decodes dec entry val item.
Proof.
  intros Hdec c topics suf [Hf Hok]%andb_true_iff. rewrite Hdec, response_items_bind.
  pose proof (greads_response entry val (λ t x, [item t x]) body body_item c topics Hf Hok)
    as [H _]. apply (greads_whole _ _ _ suf H).
Qed.

Lemma decodes_split :
  (∀ d, dec d = '((_, _), c) ← glift (relative_unpack [Fi] d 0);
                '(x, c) ← glift (relative_unpack [Fi] d c);
                let '(n, _) := x in decode_topics body d n c) →
  decodes dec entry val item.
Proof.
  intros Hdec c topics suf [Hf Hok]%andb_true_iff. rewrite Hdec, response_items_bind.
  pose proof (greads_response entry val (λ t x, [item t x]) body body_item c topics Hf Hok)
    as [_ H]. apply (greads_whole _ _ _ suf H).
Qed.
End decodes.

(** ** Theorems *)

(** A produce response and an offset-commit response decode to one item per
    partition, with the broker's error code (and base offset) of that very
    partition, in the broker's order. *)
Theorem produce_and_commit_responses_decode :
  decodes decode_produce_response (SNums [Fi; Fh; Fq])
    (λ x : Z * Z * Z, let '(p, e, o) := x in (p, (e, (o, tt))))
    (λ t x, let '(p, e, o) := x in mkProduceResponse t p e o) ∧
  decodes decode_offset_commit_response (SNums [Fi; Fh])
    (λ x : Z * Z, (x.1, (x.2, tt)))
    (λ t x, mkOffsetCommitResponse t x.1 x.2).
Proof.
  split.
  - eapply decodes_joint; [|done]. intros t [[p e] o] Hok.
    apply (greads_last [Fi; Fh; Fq]); [exact Hok|apply greads_item].
  - eapply decodes_split; [|done]. intros t [p e] Hok.
    apply (greads_last [Fi; Fh]); [exact Hok|apply greads_item].
Qed.

(** An offset response decodes to the offsets of each partition, in order,
    and an offset-fetch response to each partition's committed offset and
    metadata. *)
Theorem offset_responses_decode :
  decodes decode_offset_response (SNums [Fi; Fh] +> SArr (SNums [Fq]))
    (λ x : Z * Z * list Z, ((x.1.1, (x.1.2, tt)), (λ o, (o, tt)) <$> x.2))
    (λ t x, mkOffsetResponse t x.1.1 x.1.2 x.2) ∧
  decodes decode_offset_fetch_response (SNums [Fi; Fq] +> SShort +> SNums [Fh])
    (λ x : Z * Z * option bytes * Z, let '(p, o, m, e) := x in ((p, (o, tt)), (m, (e, tt))))
    (λ t x, let '(p, o, m, e) := x in mkOffsetFetchResponse t p o m e).
Proof.
  split.
  - eapply decodes_joint; [|done]. intros t [[p e] os] Hok.
    cbn [ok fst snd] in Hok. rewrite !andb_true_iff in Hok. destruct Hok as (Hp & Hl & Ho).
    rewrite forallb_fmap in Ho. rewrite len_fmap in Hl. cbn [fst snd].
    assert (ser (SNums [Fi; Fh] +> SArr (SNums [Fq])) ((p, (e, tt)), (λ o, (o, tt)) <$> os) =
      tuple_bytes [Fi; Fh; Fi] (p, (e, (len os, tt))) ++ (os ≫= be_encode 8)) as ->.
    { cbn [ser fst snd]. rewrite len_fmap. cbn [tuple_bytes fst snd].
      rewrite !app_nil_r, <-!app_assoc. do 3 f_equal.
      by rewrite (bind_fmap_ser (SNums [Fq])). }
    apply (greads_nums [Fi; Fh; Fi]).
    { cbn [tuple_ok fst snd] in *. rewrite frange_Fi_count, Hl. by rewrite andb_true_r in *. }
    rewrite <-(app_nil_r (os ≫= _)). apply greads_bind with (a := os); [|apply greads_item].
    apply (reads_collect os _ id (λ d st, _)); [done|by rewrite list_fmap_id|].
    intros o acc Hin. rewrite (be_encode_tuple Fq). cbn [fst snd].
    apply (reads_last [Fq]); [|apply reads_ret].
    rewrite forallb_forall in Ho. by apply Ho, list_elem_of_In.
  - eapply decodes_split; [|done]. intros t [[[p o] m] e] Hok.
    cbn [ok fst snd] in Hok. rewrite !andb_true_iff in Hok. destruct Hok as (Hp & Hm & He).
    apply (greads_nums [Fi; Fq]); [exact Hp|].
    apply greads_bind with (a := m); [by apply reads_short_bytes|].
    apply (greads_last [Fh]); [exact He|apply greads_item].
Qed.

Section fetch.
Context {L : CompressionLib}.

(** A fetch response decodes to each partition's error code, high-water mark
    and message set; the message set is the run of its own decoder. *)
Theorem fetch_response_decodes (depth : nat) :
  decodes (decode_fetch_response depth) (SNums [Fi; Fh; Fq] +> SLong)
    (λ x : Z * Z * Z * option bytes, let '(p, e, h, ms) := x in ((p, (e, (h, tt))), ms))
    (λ t x, let '(p, e, h, ms) := x in
       mkFetchResponse t p e h (_decode_message_set_iter depth ms)).
Proof.
  eapply decodes_joint; [|done]. intros t [[[p e] h] ms] Hok.
  cbn [ok fst snd] in Hok. apply andb_true_iff in Hok as [Hp Hm].
  apply (greads_nums [Fi; Fh; Fq]); [exact Hp|]. cbn [ser fst snd].
  rewrite <-(app_nil_r (int_string_bytes ms)).
  apply greads_bind with (a := ms); [by apply reads_int_string|apply greads_item].
Qed.

End fetch.

(** ** Responses read in one go

    [finishes rd e f]: wherever [e] stands in a buffer, [rd] started at its
    first byte returns [f] of the cursor just past it. [reads] is the case
    where the cursor is part of the result. *)
Definition finishes {B} (rd : bytes → Z → res B) (e : bytes) (f : Z → B) : Prop :=
  ∀ pre suf, rd (pre ++ e ++ suf) (len pre) = Ok (f (len pre + len e)).

Lemma finishes_bind {A B} (rd : bytes → Z → res (A * Z)) (k : A → bytes → Z → res B) e1 a e2 f :
  reads rd e1 a → finishes (k a) e2 f →
  finishes (λ d c, '(x, c') ← rd d c; k x d c') (e1 ++ e2) f.
Proof.
  intros H1 H2 pre suf. rewrite <-app_assoc, (H1 pre (e2 ++ suf)). cbn.
  specialize (H2 (pre ++ e1) suf). rewrite <-app_assoc, len_app in H2. rewrite H2.
  do 2 f_equal. rewrite len_app. lia.
Qed.

Lemma finishes_ret {B} (f : Z → B) : finishes (λ _ c, Ok (f c)) [] f.
Proof. intros pre suf. by rewrite len_nil, Z.add_0_r. Qed.

Lemma finishes_whole {B} (rd : bytes → Z → res B) e b suf :
  finishes rd e (λ _, b) → rd (e ++ suf) 0 = Ok b.
Proof. intros H. exact (H [] suf). Qed.

(** The same at the level of schemas. *)
Definition accepts {B} (rd : bytes → Z → res B) (fields : list (option bytes)) (s : schema)
    (v : sem s) (f : Z → B) : Prop :=
  encodable fields && ok s v = true → finishes rd (ser s v) f.

Section accepts.
Context {A B : Type}.

Lemma accepts_seq (rd : bytes → Z → res (A * Z)) (k : A → bytes → Z → res B) f1 f2 s1 v1 s2 v2 a f :
  accepts rd f1 s1 v1 (λ c, (a, c)) → accepts (k a) f2 s2 v2 f →
  accepts (λ d c, '(x, c') ← rd d c; k x d c') (f1 ++ f2) (s1 +> s2) (v1, v2) f.
Proof.
  intros H1 H2 Hok. rewrite encodable_app in Hok. cbn [ok fst snd] in Hok.
  rewrite !andb_true_iff in Hok. destruct Hok as [[??][??]].
  apply finishes_bind with (a := a); [apply H1|apply H2]; by apply andb_true_iff.
Qed.

Lemma accepts_last (rd : bytes → Z → res (A * Z)) (k : A → bytes → Z → res B) f1 s1 v1 a f :
  accepts rd f1 s1 v1 (λ c, (a, c)) → finishes (k a) [] f →
  accepts (λ d c, '(x, c') ← rd d c; k x d c') f1 s1 v1 f.
Proof.
  intros H1 H2 Hok. rewrite <-(app_nil_r (ser s1 v1)).
  apply finishes_bind with (a := a); [by apply H1|exact H2].
Qed.
End accepts.

Lemma accepts_nums fs zs : accepts (relative_unpack fs) [] (SNums fs) zs (λ c, (zs, c)).
Proof. intros Hok. by apply reads_relative_unpack. Qed.

Lemma accepts_long v : accepts read_int_string [] SLong v (λ c, (v, c)).
Proof. intros Hok. by apply reads_int_string. Qed.

Lemma accepts_ascii t :
  accepts read_short_ascii [ascii_wire t] SShort (ascii_wire t) (λ c, (t, c)).
Proof. intros [He Hs]%andb_true_iff. by apply reads_ascii_wire, encodable_text_ok. Qed.

Lemma accepts_text t :
  accepts read_short_text [utf8_wire t] SShort (utf8_wire t) (λ c, (t, c)).
Proof. intros [He Hs]%andb_true_iff. by apply reads_utf8_wire, encodable_text_ok. Qed.

(** A counted loop over the elements of an array, then the rest. *)
Lemma finishes_array {X S B} (items : list X) s (val : X → sem s)
    (fields : X → list (option bytes)) (step : S → X → S)
    (body : bytes → S * Z → res (S * Z)) s0 (k : S → bytes → Z → res B) n e2 f :
  n = len items →
  encodable (items ≫= fields) = true → forallb (ok s) (val <$> items) = true →
  (∀ st x, x ∈ items →
    accepts (λ d c, body d (st, c)) (fields x) s (val x) (λ c, (step st x, c))) →
  finishes (k (foldl step s0 items)) e2 f →
  finishes (λ d c, '(st, c') ← for_range n (body d) (s0, c); k st d c')
    (((val <$> items) ≫= ser s) ++ e2) f.
Proof.
  intros Hn Hf Hok Hbody Hk. rewrite encodable_bind, forallb_forall in Hf.
  rewrite forallb_fmap, forallb_forall in Hok. rewrite bind_fmap_ser.
  eapply finishes_bind; [|exact Hk].
  apply (reads_for items (λ x, ser s (val x)) step body n s0 Hn).
  intros st x Hx. apply Hbody; [done|]. apply list_elem_of_In in Hx.
  apply andb_true_iff. auto.
Qed.

(** The fields before an array, read together with its count. *)
Lemma accepts_counted {B} fs' (zs' : ztuple fs') fs zs s (vs : list (sem s)) s2 v2
    (k : ztuple fs' → bytes → Z → res B) fields f :
  tuple_ok fs' zs' = tuple_ok fs zs && frange Fi (len vs) →
  tuple_bytes fs' zs' = tuple_bytes fs zs ++ be_encode 4 (len vs) →
  (encodable fields = true → forallb (ok s) vs = true → ok s2 v2 = true →
    finishes (k zs') ((vs ≫= ser s) ++ ser s2 v2) f) →
  accepts (λ d c, '(x, c') ← relative_unpack fs' d c; k x d c') fields
    (SNums fs +> SArr s +> s2) (zs, (vs, v2)) f.
Proof.
  intros Ht Hb Hk Hok. cbn [ok fst snd] in Hok.
  change (ser _ _) with
    (tuple_bytes fs zs ++ (be_encode 4 (len vs) ++ (vs ≫= ser s)) ++ ser s2 v2).
  rewrite <-frange_Fi_count, !andb_true_iff in Hok. destruct Hok as (Hf & Hz & (Hl & Hv) & H2).
  rewrite <-!app_assoc, (app_assoc (tuple_bytes fs zs)), <-Hb.
  apply finishes_bind with (a := zs'); [apply reads_relative_unpack|by apply Hk].
  rewrite Ht, Hz. exact Hl.
Qed.

Lemma unpack_counted fs' (zs' : ztuple fs') fs zs s (vs : list (sem s)) s2 v2 suf :
  tuple_ok fs' zs' = tuple_ok fs zs && frange Fi (len vs) →
  tuple_bytes fs' zs' = tuple_bytes fs zs ++ be_encode 4 (len vs) →
  ok (SNums fs +> SArr s +> s2) (zs, (vs, v2)) = true →
  relative_unpack fs' (ser (SNums fs +> SArr s +> s2) (zs, (vs, v2)) ++ suf) 0 =
    Ok (zs', calcsize fs').
Proof.
  intros Ht Hb Hok.
  assert (accepts (λ d c, '(x, c') ← relative_unpack fs' d c; Ok (x, calcsize fs')) []
    (SNums fs +> SArr s +> s2) (zs, (vs, v2)) (λ _, (zs', calcsize fs'))) as H.
  { apply (accepts_counted fs' zs' fs zs s vs s2 v2 (λ x _ _, Ok (x, calcsize fs'))); auto.
    intros _ _ _ pre suf'. done. }
  specialize (H Hok [] suf). cbn [app] in H. change (len []) with 0 in H.
  unfold relative_unpack in *. destruct (_ <? _); [done|].
  destruct (unpack fs' _); [|done]. cbn [mbind result_bind] in H |- *.
  rewrite Z.add_0_l. congruence.
Qed.

(** An array of integers, read as one group. *)
Lemma finishes_ints {B} zs (k : list Z → bytes → Z → res B) e2 f n :
  n = len zs → forallb (ok (SNums [Fi])) ((λ z, (z, tt)) <$> zs) = true →
  finishes (k zs) e2 f →
  finishes (λ d c, '(x, c') ← relative_unpack_ints n d c; k x d c')
    ((((λ z, (z, tt)) <$> zs) ≫= ser (SNums [Fi])) ++ e2) f.
Proof.
  intros -> Hok Hk. rewrite forallb_fmap in Hok. rewrite (bind_fmap_ser (SNums [Fi])).
  assert (zs ≫= (λ z, ser (SNums [Fi]) (z, tt)) = ints_bytes zs) as ->.
  { unfold ints_bytes. apply list_bind_ext; [|done]. intros z. exact (eq_sym (be_encode_tuple Fi z)). }
  apply finishes_bind with (a := zs); [|done]. apply reads_relative_unpack_ints.
  rewrite <-Hok. apply forallb_ext'. intros z. cbn [ok tuple_ok fst snd]. by rewrite andb_true_r.
Qed.

(** [for x in xs: out[key(x)] = val(x)] with distinct keys. *)
Lemma dict_of_list {X K V} `{EqDecision K} (key : X → K) (val : X → V) (xs : list X) :
  NoDup (key <$> xs) →
  foldl (λ d x, Dict.set (key x) (val x) d) [] xs = (λ x, (key x, val x)) <$> xs.
Proof.
  induction xs as [|x xs IH] using rev_ind; [done|].
  rewrite fmap_app. cbn. intros (Hxs & Hx & _)%NoDup_app.
  rewrite foldl_app, IH, fmap_app by done. cbn. apply Dict.set_fresh.
  unfold Dict.keys. rewrite <-list_fmap_compose. intros Hin. apply (Hx (key x)); [|set_solver].
  done.
Qed.

(** ** Cluster metadata *)

Definition broker_schema : schema := SNums [Fi] +> SShort +> SNums [Fi].

Definition broker_value (b : BrokerMetadata) : sem broker_schema :=
  ((bm_node_id b, tt), (ascii_wire (bm_host b), (bm_port b, tt))).

Definition partition_schema : schema :=
  SNums [Fh; Fi; Fi] +> SArr (SNums [Fi]) +> SArr (SNums [Fi]).

Definition partition_value (p : PartitionMetadata) : sem partition_schema :=
  ((pm_partition_error_code p, (pm_partition p, (pm_leader p, tt))),
   ((λ z, (z, tt)) <$> pm_replicas p, (λ z, (z, tt)) <$> pm_isr p)).

Definition topic_schema : schema := SNums [Fh] +> SShort +> SArr partition_schema.

Definition topic_value (t : TopicMetadata) : sem topic_schema :=
  ((tm_topic_error_code t, tt),
   (ascii_wire (tm_topic t), partition_value <$> (tm_partition_metadata t).*2)).

Definition metadata_response_schema : schema :=
  SNums [Fi] +> SArr broker_schema +> SArr topic_schema.

Definition metadata_response_value (correlation_id : Z) (brokers : list BrokerMetadata)
    (topics : list TopicMetadata) : sem metadata_response_schema :=
  ((correlation_id, tt), (broker_value <$> brokers, topic_value <$> topics)).

(** A topic's partitions are filed under their own numbers and name it. *)
Definition topic_wf (t : TopicMetadata) : Prop :=
  NoDup (Dict.keys (tm_partition_metadata t)) ∧
  Forall (λ kp, pm_partition kp.2 = kp.1 ∧ pm_topic kp.2 = tm_topic t) (tm_partition_metadata t).

Lemma accepts_broker d0 b :
  accepts (λ d c, decode_broker d (d0, c)) [ascii_wire (bm_host b)] broker_schema
    (broker_value b) (λ c, (Dict.set (bm_node_id b) b d0, c)).
Proof.
  destruct b as [n h p]. unfold decode_broker. cbn [fst snd]. eapply (accepts_seq _ _ [] [_]); [apply (accepts_nums [Fi])|].
  eapply (accepts_seq _ _ [_] []); [apply accepts_ascii|].
  eapply accepts_last; [apply (accepts_nums [Fi])|apply finishes_ret].
Qed.

Lemma accepts_partition d0 p :
  accepts (λ d c, decode_partition_metadata (pm_topic p) d (d0, c)) [] partition_schema
    (partition_value p) (λ c, (Dict.set (pm_partition p) p d0, c)).
Proof.
  destruct p as [t p e l rs isr]. unfold decode_partition_metadata.
  cbn [fst snd pm_topic pm_partition].
  apply (accepts_counted [Fh; Fi; Fi; Fi] (e, (p, (l, (len rs, tt))))).
  - rewrite len_fmap. cbn [tuple_ok fst snd]. by rewrite !andb_true_r, !andb_assoc.
  - rewrite len_fmap. cbn [tuple_bytes fst snd]. by rewrite !app_nil_r, <-!app_assoc.
  - intros _ Hr [Hl Hi]%andb_true_iff. apply finishes_ints; [done|done|].
    cbn [pm_isr] in *. rewrite <-frange_Fi_count, len_fmap in Hl.
    cbn [ser]. rewrite len_fmap, (be_encode_tuple Fi).
    apply finishes_bind with (a := (len isr, tt));
      [apply (reads_relative_unpack [Fi] (len isr, tt)); cbn [tuple_ok fst snd]; by rewrite Hl|].
    rewrite <-(app_nil_r (_ ≫= _)).
    apply finishes_ints; [done|done|]. apply finishes_ret.
Qed.

Lemma topic_partitions t :
  topic_wf t →
  foldl (λ d p, Dict.set (pm_partition p) p d) [] (tm_partition_metadata t).*2 =
    tm_partition_metadata t.
Proof.
  intros [Hnd Hall]. set (ps := tm_partition_metadata t) in *.
  assert ((λ p, (pm_partition p, p)) <$> ps.*2 = ps) as Hps.
  { rewrite <-list_fmap_compose. clear Hnd. induction Hall as [|[k p] l [Hk _] _ IH]; [done|].
    rewrite fmap_cons, IH. cbn in *. by rewrite Hk. }
  rewrite (dict_of_list pm_partition (λ p, p)); [done|].
  rewrite <-Hps in Hnd. unfold Dict.keys in Hnd. by rewrite <-list_fmap_compose in Hnd.
Qed.

Lemma finishes_count_array {X S B} (items : list X) s (val : X → sem s)
    (fields : X → list (option bytes)) (step : S → X → S)
    (body : bytes → S * Z → res (S * Z)) s0 (k : S → bytes → Z → res B) f :
  encodable (items ≫= fields) = true → ok (SArr s) (val <$> items) = true →
  (∀ st x, x ∈ items →
    accepts (λ d c, body d (st, c)) (fields x) s (val x) (λ c, (step st x, c))) →
  finishes (k (foldl step s0 items)) [] f →
  finishes (λ d c, '((n, _), c) ← relative_unpack [Fi] d c;
    '(st, c') ← for_range n (body d) (s0, c); k st d c') (ser (SArr s) (val <$> items)) f.
Proof.
  intros Hf [Hl Hv]%andb_true_iff Hb Hk. rewrite <-frange_Fi_count, len_fmap in Hl.
  rewrite ser_array, len_fmap, (be_encode_tuple Fi).
  apply finishes_bind with (a := (len items, tt)).
  - apply (reads_relative_unpack [Fi] (len items, tt)). cbn [tuple_ok fst snd]. by rewrite Hl.
  - rewrite <-(app_nil_r (_ ≫= _)).
    by apply (finishes_array items s val fields step body).
Qed.

Lemma accepts_topic d0 t :
  topic_wf t →
  accepts (λ d c, decode_topic_metadata d (d0, c)) [ascii_wire (tm_topic t)] topic_schema
    (topic_value t) (λ c, (Dict.set (tm_topic t) t d0, c)).
Proof.
  intros Hwf. pose proof (topic_partitions t Hwf) as Hps. destruct Hwf as [_ Hall].
  destruct t as [t e ps]. cbn [tm_topic tm_partition_metadata] in *.
  unfold decode_topic_metadata. cbn [fst snd].
  eapply (accepts_seq _ _ [] [_]); [apply (accepts_nums [Fh])|].
  eapply (accepts_seq _ _ [_] []); [apply accepts_ascii|]. intros Hok.
  apply (finishes_count_array ps.*2 partition_schema partition_value (λ _, [])
    (λ d p, Dict.set (pm_partition p) p d)).
  - rewrite encodable_bind. by apply forallb_forall.
  - exact Hok.
  - intros st p Hp. apply list_elem_of_fmap in Hp as ([k p'] & -> & Hp). cbn [snd].
    rewrite Forall_forall in Hall. destruct (Hall _ Hp) as [_ <-]. apply accepts_partition.
  - cbn [tm_partition_metadata] in Hps. rewrite Hps. apply finishes_ret.
Qed.

Lemma encodable_fmap {X} (f : X → option bytes) xs :
  encodable (xs ≫= λ x, [f x]) = encodable (f <$> xs).
Proof.
  rewrite encodable_bind. unfold encodable. rewrite forallb_fmap. apply forallb_ext'.
  intros x. cbn. by rewrite andb_true_r.
Qed.

(** The part after the count of brokers. *)
Lemma finishes_metadata brokers topics :
  encodable ((λ b, ascii_wire (bm_host b)) <$> brokers) = true →
  encodable ((λ t, ascii_wire (tm_topic t)) <$> topics) = true →
  forallb (ok broker_schema) (broker_value <$> brokers) = true →
  ok (SArr topic_schema) (topic_value <$> topics) = true →
  NoDup (bm_node_id <$> brokers) → NoDup (tm_topic <$> topics) → Forall topic_wf topics →
  finishes (λ d c,
    '(bs, c) ← for_range (len brokers) (decode_broker d) ([], c);
    '((n, _), c) ← relative_unpack [Fi] d c;
    '(ts, c) ← for_range n (decode_topic_metadata d) ([], c);
    Ok (bs, ts))
    (((broker_value <$> brokers) ≫= ser broker_schema) ++
     ser (SArr topic_schema) (topic_value <$> topics))
    (λ _, ((λ b, (bm_node_id b, b)) <$> brokers, (λ t, (tm_topic t, t)) <$> topics)).
Proof.
  intros Hb Ht Hbok Htok Hbn Htn Hwf. rewrite Forall_forall in Hwf.
  apply (finishes_array brokers broker_schema broker_value (λ b, [ascii_wire (bm_host b)])
    (λ d b, Dict.set (bm_node_id b) b d)); [done|by rewrite encodable_fmap|done| |].
  { intros st b _. apply accepts_broker. }
  apply (finishes_count_array topics topic_schema topic_value (λ t, [ascii_wire (tm_topic t)])
    (λ d t, Dict.set (tm_topic t) t d)); [by rewrite encodable_fmap|done| |].
  { intros st t Hin. by apply accepts_topic, Hwf. }
  rewrite (dict_of_list bm_node_id (λ b, b)), (dict_of_list tm_topic (λ t, t)) by done.
  exact (finishes_ret (λ _, _)).
Qed.

(** Metadata: a response the wire can represent decodes to its brokers, keyed
    by node id, and its topics with their partitions, leaders, replicas and
    in-sync replicas, keyed by name and partition; with more than 1024
    brokers it is refused as corrupt. *)
Lemma metadata_response_decodes (correlation_id : Z) (brokers : list BrokerMetadata)
    (topics : list TopicMetadata) (suf : bytes) :
  encodable ((λ b, ascii_wire (bm_host b)) <$> brokers) = true →
  encodable ((λ t, ascii_wire (tm_topic t)) <$> topics) = true →
  ok metadata_response_schema (metadata_response_value correlation_id brokers topics) = true →
  NoDup (bm_node_id <$> brokers) → NoDup (tm_topic <$> topics) → Forall topic_wf topics →
  decode_metadata_response
    (ser metadata_response_schema (metadata_response_value correlation_id brokers topics) ++ suf)
  = if MAX_BROKERS <? len brokers then Err (BrokerError CorruptMessage)
    else Ok ((λ b, (bm_node_id b, b)) <$> brokers, (λ t, (tm_topic t, t)) <$> topics).
Proof.
  intros Hb Ht Hok Hbn Htn Hwf.
  change (ok _ _) with (tuple_ok [Fi] (correlation_id, tt) &&
    ((len (broker_value <$> brokers) <? 2 ^ 31) &&
       forallb (ok broker_schema) (broker_value <$> brokers) &&
     ok (SArr topic_schema) (topic_value <$> topics))) in Hok.
  rewrite len_fmap, <-frange_Fi_count, !andb_true_iff in Hok.
  destruct Hok as (Hc & (Hl & Hbok) & Htok).
  pose proof (finishes_metadata _ _ Hb Ht Hbok Htok Hbn Htn Hwf) as Hfin.
  set (h := tuple_bytes [Fi; Fi] (correlation_id, (len brokers, tt))).
  change (ser metadata_response_schema _) with
    (tuple_bytes [Fi] (correlation_id, tt) ++
      (be_encode 4 (len (broker_value <$> brokers)) ++
        ((broker_value <$> brokers) ≫= ser broker_schema)) ++
      ser (SArr topic_schema) (topic_value <$> topics)).
  set (rest := ((broker_value <$> brokers) ≫= ser broker_schema) ++ _) in Hfin.
  rewrite len_fmap. replace (tuple_bytes _ _ ++ _) with (h ++ rest).
  2:{ unfold h, rest. cbn [tuple_bytes fst snd]. by rewrite !app_nil_r, <-!app_assoc. }
  pose proof (reads_relative_unpack [Fi; Fi] (correlation_id, (len brokers, tt))
    ltac:(cbn [tuple_ok fst snd] in *; by rewrite Hl, andb_true_r in *) [] (rest ++ suf)) as Hr.
  cbn [app] in Hr. change (len []) with 0 in Hr. fold h in Hr.
  unfold decode_metadata_response. rewrite <-app_assoc, Hr.
  cbn [mbind result_bind]. destruct (MAX_BROKERS <? len brokers); [done|].
  exact (Hfin h suf).
Qed.

(** C34. Responses decode to what was sent. One with an item per partition decodes
    to those items, in the broker's order, each with the topic, the partition and
    the error code it was sent with: produce responses with the base offset,
    commit responses, offset responses with the offsets, offset-fetch responses
    with the committed offset and its metadata, and fetch responses with the
    high-water mark and the run of the message-set decoder on its message set. A
    metadata response decodes to its brokers, keyed by node id, and its topics
    with their partitions, leaders, replicas and in-sync replicas, keyed by name
    and partition; with more than 1024 brokers it is refused as corrupt. *)
Theorem responses_decode {L : CompressionLib} (depth : nat) :
  decodes decode_produce_response (SNums [Fi; Fh; Fq])
    (λ x : Z * Z * Z, let '(p, e, o) := x in (p, (e, (o, tt))))
    (λ t x, let '(p, e, o) := x in mkProduceResponse t p e o) ∧
  decodes decode_offset_commit_response (SNums [Fi; Fh])
    (λ x : Z * Z, (x.1, (x.2, tt)))
    (λ t x, mkOffsetCommitResponse t x.1 x.2) ∧
  decodes decode_offset_response (SNums [Fi; Fh] +> SArr (SNums [Fq]))
    (λ x : Z * Z * list Z, ((x.1.1, (x.1.2, tt)), (λ o, (o, tt)) <$> x.2))
    (λ t x, mkOffsetResponse t x.1.1 x.1.2 x.2) ∧
  decodes decode_offset_fetch_response (SNums [Fi; Fq] +> SShort +> SNums [Fh])
    (λ x : Z * Z * option bytes * Z, let '(p, o, m, e) := x in ((p, (o, tt)), (m, (e, tt))))
    (λ t x, let '(p, o, m, e) := x in mkOffsetFetchResponse t p o m e) ∧
  decodes (decode_fetch_response depth) (SNums [Fi; Fh; Fq] +> SLong)
    (λ x : Z * Z * Z * option bytes, let '(p, e, h, ms) := x in ((p, (e, (h, tt))), ms))
    (λ t x, let '(p, e, h, ms) := x in
       mkFetchResponse t p e h (_decode_message_set_iter depth ms)) ∧
  (∀ (correlation_id : Z) (brokers : list BrokerMetadata)
    (topics : list TopicMetadata) (suf : bytes),
     encodable ((λ b, ascii_wire (bm_host b)) <$> brokers) = true →
     encodable ((λ t, ascii_wire (tm_topic t)) <$> topics) = true →
     ok metadata_response_schema (metadata_response_value correlation_id brokers topics) = true →
     NoDup (bm_node_id <$> brokers) → NoDup (tm_topic <$> topics) → Forall topic_wf topics →
     decode_metadata_response
       (ser metadata_response_schema (metadata_response_value correlation_id brokers topics) ++ suf)
     = if MAX_BROKERS <? len brokers then Err (BrokerError CorruptMessage)
       else Ok ((λ b, (bm_node_id b, b)) <$> brokers, (λ t, (tm_topic t, t)) <$> topics)).
Proof.
  destruct produce_and_commit_responses_decode, offset_responses_decode. split_and!; try done.
  - apply fetch_response_decodes.
  - apply metadata_response_decodes.
Qed.

(** ** Group membership *)

Definition member_schema : schema := SShort +> SLong.

Definition member_value (m : _JoinGroupResponseMember) : sem member_schema :=
  (utf8_wire (jgm_member_id m), jgm_member_metadata m).

Definition join_group_response_schema : schema :=
  SNums [Fi; Fh; Fi] +> SShort +> SShort +> SShort +> SArr member_schema.

Definition join_group_response_value (correlation_id : Z) (r : _JoinGroupResponse)
    : sem join_group_response_schema :=
  ((correlation_id, (jgrr_error r, (jgrr_generation_id r, tt))),
   (utf8_wire (jgrr_group_protocol r), (utf8_wire (jgrr_leader_id r),
    (utf8_wire (jgrr_member_id r), member_value <$> jgrr_members r)))).

Definition join_group_response_fields (r : _JoinGroupResponse) : list (option bytes) :=
  [utf8_wire (jgrr_group_protocol r); utf8_wire (jgrr_leader_id r); utf8_wire (jgrr_member_id r)]
  ++ (jgrr_members r ≫= λ m, [utf8_wire (jgm_member_id m)]).

Lemma foldl_snoc {X Y} (f : X → Y) xs : foldl (λ acc x, acc ++ [f x]) [] xs = f <$> xs.
Proof.
  induction xs as [|x xs IH] using rev_ind; [done|]. rewrite foldl_app, fmap_app, IH. done.
Qed.

(** The bytes of a value decode to [b], whatever follows them. *)
Definition decodes_to {B} (dec : bytes → res B) (fields : list (option bytes)) (s : schema)
    (v : sem s) (b : B) : Prop :=
  encodable fields && ok s v = true → ∀ suf, dec (ser s v ++ suf) = Ok b.

Lemma decodes_to_intro {B} (rd : bytes → Z → res B) fields s v b :
  accepts rd fields s v (λ _, b) → decodes_to (λ d, rd d 0) fields s v b.
Proof. intros H Hok suf. by apply finishes_whole, H. Qed.

Lemma accepts_join_group_response correlation_id r :
  accepts (λ d c,
    '((_, (error, (generation_id, _))), cur) ← relative_unpack [Fi; Fh; Fi] d c;
    '(group_protocol, cur) ← read_short_text d cur;
    '(leader_id, cur) ← read_short_text d cur;
    '(member_id, cur) ← read_short_text d cur;
    '((num_members, _), cur) ← relative_unpack [Fi] d cur;
    '(members, cur) ← for_range num_members (λ st : list _JoinGroupResponseMember * Z,
      '(response_member_id, cur) ← read_short_text d st.2;
      '(response_member_data, cur) ← read_int_string d cur;
      Ok (st.1 ++ [mkJoinGroupResponseMember response_member_id response_member_data], cur))
      ([], cur);
    Ok (mkJoinGroupResponse error generation_id group_protocol leader_id member_id members))
    (join_group_response_fields r) join_group_response_schema
    (join_group_response_value correlation_id r) (λ _, r).
Proof.
  destruct r as [e g gp l m ms].
  eapply (accepts_seq _ _ []); [apply (accepts_nums [Fi; Fh; Fi])|].
  eapply (accepts_seq _ _ [_]); [apply accepts_text|].
  eapply (accepts_seq _ _ [_]); [apply accepts_text|].
  eapply (accepts_seq _ _ [_]); [apply accepts_text|]. intros [Hf Hok]%andb_true_iff.
  apply (finishes_count_array ms member_schema member_value (λ m, [utf8_wire (jgm_member_id m)])
    (λ acc m, acc ++ [m]) (λ d st, _)); [done|done| |].
  - intros st [i d] _. cbn [fst snd]. eapply (accepts_seq _ _ [_] []); [apply accepts_text|].
    eapply accepts_last; [apply accepts_long|apply finishes_ret].
  - rewrite (foldl_snoc (λ m, m)), list_fmap_id. exact (finishes_ret (λ _, _)).
Qed.

(** The coordinator lookup and every group response decode to the fields the
    coordinator sent: error codes, generation, leader, members with their
    metadata, assignment. *)
Theorem group_responses_decode (correlation_id : Z) (found : ConsumerMetadataResponse)
    (join : _JoinGroupResponse) (sync : _SyncGroupResponse) (beat : _HeartbeatResponse)
    (leave : _LeaveGroupResponse) :
  decodes_to decode_consumermetadata_response [ascii_wire (cmr_host found)]
    (SNums [Fi; Fh; Fi] +> SShort +> SNums [Fi])
    ((correlation_id, (cmr_error found, (cmr_node_id found, tt))),
     (ascii_wire (cmr_host found), (cmr_port found, tt))) found ∧
  decodes_to decode_join_group_response (join_group_response_fields join)
    join_group_response_schema (join_group_response_value correlation_id join) join ∧
  decodes_to decode_sync_group_response [] (SNums [Fi; Fh] +> SLong)
    ((correlation_id, (sgrr_error sync, tt)), sgrr_member_assignment sync) sync ∧
  decodes_to decode_heartbeat_response [] (SNums [Fi; Fh])
    (correlation_id, (hbrr_error beat, tt)) beat ∧
  decodes_to decode_leave_group_response [] (SNums [Fi; Fh])
    (correlation_id, (lgrr_error leave, tt)) leave.
Proof.
  split_and!.
  - destruct found as [e n h p]. refine (decodes_to_intro (λ d c, _) _ _ _ _ _).
    eapply (accepts_seq _ _ [] [_]); [apply (accepts_nums [Fi; Fh; Fi])|].
    eapply (accepts_seq _ _ [_] []); [apply accepts_ascii|].
    eapply accepts_last; [apply (accepts_nums [Fi])|exact (finishes_ret (λ _, _))].
  - exact (decodes_to_intro _ _ _ _ _ (accepts_join_group_response correlation_id join)).
  - destruct sync as [e a]. refine (decodes_to_intro (λ d c, _) _ _ _ _ _).
    eapply (accepts_seq _ _ [] []); [apply (accepts_nums [Fi; Fh])|].
    eapply accepts_last; [apply accepts_long|exact (finishes_ret (λ _, _))].
  - destruct beat as [e]. refine (decodes_to_intro (λ d c, _) _ _ _ _ _).
    eapply accepts_last; [apply (accepts_nums [Fi; Fh])|exact (finishes_ret (λ _, _))].
  - destruct leave as [e]. refine (decodes_to_intro (λ d c, _) _ _ _ _ _).
    eapply accepts_last; [apply (accepts_nums [Fi; Fh])|exact (finishes_ret (λ _, _))].
Qed.

(** ** What the members of a group exchange *)

Definition subscription_schema : schema := SNums [Fh] +> SArr SShort +> SLong.

Definition subscription_value (m : _JoinGroupProtocolMetadata) : sem subscription_schema :=
  ((jgpm_version m, tt), (utf8_wire <$> jgpm_subscriptions m, jgpm_user_data m)).

Definition assignment_schema : schema :=
  SNums [Fh] +> SArr (SShort +> SArr (SNums [Fi])) +> SLong.

Definition assignment_value (a : _SyncGroupMemberAssignment) : sem assignment_schema :=
  ((sga_version a, tt),
   ((λ tp : text * list Z, (ascii_wire tp.1, (λ z, (z, tt)) <$> tp.2)) <$> sga_assignments a,
    sga_user_data a)).

Lemma encodes_subscription m :
  encodes (encode_join_group_protocol_metadata (jgpm_version m) (jgpm_subscriptions m)
             (jgpm_user_data m))
    (encodable (utf8_wire <$> jgpm_subscriptions m) &&
     ok subscription_schema (subscription_value m))
    (ser subscription_schema (subscription_value m)).
Proof.
  destruct m as [v ss u]. set (g := encodable _ && _). set (b := ser _ _).
  pose proof (encodes_bind _ _ _ _ _ _ (encodes_pack [Fh; Fi] (v, (len ss, tt)))
    (appends_bind _ _ _ _ _ _
      (appends_for ss (λ m s, iadd m (write_short_text (Some s))) _ _
        (λ s _, appends_iadd _ _ _ (encodes_short_text s)))
      (appends_iadd _ _ _ (encodes_int_string u)))) as H.
  replace b with (tuple_bytes [Fh; Fi] (v, (len ss, tt)) ++
    (ss ≫= λ s, short_string_bytes (utf8_wire s)) ++ int_string_bytes u).
  - replace g with (tuple_ok [Fh; Fi] (v, (len ss, tt)) &&
      (forallb (λ s, wire_text_ok (utf8_wire s)) ss && int_string_ok u)); [exact H|].
    subst g. unfold encodable. cbn [ok fst snd tuple_ok subscription_value subscription_schema jgpm_version
      jgpm_subscriptions jgpm_user_data].
    rewrite frange_Fi_count, (forallb_ext' _ _ ss (λ s, wire_text_ok_eq (utf8_wire s))).
    rewrite forallb_andb, !forallb_fmap, len_fmap.
    by destruct (frange Fh v), (len ss <? 2 ^ 31), (forallb _ _), (forallb _ _).
  - subst b. change (ser _ _) with (tuple_bytes [Fh] (v, tt) ++
      (be_encode 4 (len (utf8_wire <$> ss)) ++ ((utf8_wire <$> ss) ≫= ser SShort)) ++
      int_string_bytes u).
    rewrite len_fmap, (bind_fmap_ser SShort). cbn [tuple_bytes fst snd].
    by rewrite !app_nil_r, <-!app_assoc.
Qed.

Lemma decodes_subscription m :
  decodes_to decode_join_group_protocol_metadata (utf8_wire <$> jgpm_subscriptions m)
    subscription_schema (subscription_value m) m.
Proof.
  destruct m as [v ss u]. refine (decodes_to_intro (λ d c, _) _ _ _ _ _).
  apply (accepts_counted [Fh; Fi] (v, (len ss, tt))).
  - rewrite len_fmap. cbn [tuple_ok fst snd]. by rewrite !andb_true_r.
  - rewrite len_fmap. cbn [tuple_bytes fst snd]. by rewrite !app_nil_r.
  - intros Hf Hs Hu. cbn [jgpm_subscriptions jgpm_user_data] in *.
    apply (finishes_array ss SShort utf8_wire (λ s, [utf8_wire s])
      (λ acc s, acc ++ [s]) (λ d st, _)); [done|by rewrite encodable_fmap|done| |].
    + intros st s _. cbn [fst snd]. eapply accepts_last; [apply accepts_text|apply finishes_ret].
    + rewrite (foldl_snoc (λ s, s)), list_fmap_id, <-(app_nil_r (ser SLong u)).
      apply finishes_bind with (a := u); [by apply reads_int_string|].
      exact (finishes_ret (λ _, _)).
Qed.

(** A member's subscription survives the trip through the coordinator: what
    [encode_join_group_protocol_metadata] writes,
    [decode_join_group_protocol_metadata] reads back. *)
Theorem subscription_roundtrip (m : _JoinGroupProtocolMetadata) (b suf : bytes) :
  encode_join_group_protocol_metadata (jgpm_version m) (jgpm_subscriptions m)
    (jgpm_user_data m) = Ok b →
  decode_join_group_protocol_metadata (b ++ suf) = Ok m.
Proof.
  intros Hb. pose proof (encodes_subscription m) as He. unfold encodes in He.
  destruct (encodable _ && _) eqn:Hok; [|destruct He as [e He]; congruence].
  rewrite Hb in He. assert (b = ser subscription_schema (subscription_value m)) as -> by congruence.
  by apply decodes_subscription.
Qed.

Definition sample_subscription : _JoinGroupProtocolMetadata :=
  mkJoinGroupProtocolMetadata 0 [txt "logs"; [0x20AC; 0x6D]] None.

Definition sample_subscription_bytes : bytes :=
  match encode_join_group_protocol_metadata 0 (jgpm_subscriptions sample_subscription) None with
  | Ok b => b
  | Err _ => []
  end.

Example subscription_roundtrip_witness :
  decode_join_group_protocol_metadata (sample_subscription_bytes ++ []) = Ok sample_subscription.
Proof.
  apply (subscription_roundtrip sample_subscription sample_subscription_bytes []).
  vm_compute. reflexivity.
Defined.

Lemma encodes_counted ps :
  encodes (pack_counted ps) (ok (SArr (SNums [Fi])) ((λ z, (z, tt)) <$> ps))
    (ser (SArr (SNums [Fi])) ((λ z, (z, tt)) <$> ps)).
Proof.
  unfold pack_counted. rewrite ser_array, len_fmap, (bind_fmap_ser (SNums [Fi])).
  change (ok (SArr (SNums [Fi])) ((λ z, (z, tt)) <$> ps)) with
    ((len ((λ z, (z, tt)) <$> ps) <? 2 ^ 31) &&
      forallb (ok (SNums [Fi])) ((λ z, (z, tt)) <$> ps)).
  rewrite len_fmap, (forallb_fmap _ (ok (SNums [Fi]))), <-frange_Fi_count.
  rewrite (be_encode_tuple Fi).
  assert (forallb (λ x, ok (SNums [Fi]) (x, tt)) ps = forallb (frange Fi) ps) as ->.
  { apply forallb_ext'. intros z. cbn [ok tuple_ok fst snd]. by rewrite andb_true_r. }
  assert (ps ≫= (λ z, ser (SNums [Fi]) (z, tt)) = ints_bytes ps) as ->.
  { unfold ints_bytes. apply list_bind_ext; [|done]. intros z.
    exact (eq_sym (be_encode_tuple Fi z)). }
  assert (frange Fi (len ps) = tuple_ok [Fi] (len ps, tt)) as ->
    by (cbn [tuple_ok fst snd]; by rewrite andb_true_r).
  apply encodes_bind; [apply (encodes_pack [Fi] (len ps, tt))|]. apply appends_iadd.
  unfold encodes. rewrite pack_ints_bytes. destruct (forallb _ ps); eauto.
Qed.

Definition assignment_fields (a : _SyncGroupMemberAssignment) : list (option bytes) :=
  (λ tp, ascii_wire tp.1) <$> sga_assignments a.

Lemma encodes_assignment a :
  encodes (encode_sync_group_member_assignment (sga_version a) (sga_assignments a)
             (sga_user_data a))
    (encodable (assignment_fields a) && ok assignment_schema (assignment_value a))
    (ser assignment_schema (assignment_value a)).
Proof.
  destruct a as [v ts u]. unfold assignment_fields, encode_sync_group_member_assignment.
  cbn [sga_version sga_assignments sga_user_data].
  set (entry := SShort +> SArr (SNums [Fi])).
  set (val := λ tp : text * list Z, (ascii_wire tp.1, (λ z, (z, tt)) <$> tp.2) : sem entry).
  assert (∀ tp : text * list Z, writes (λ m, m' ← iadd m (write_short_ascii (Some tp.1));
    iadd m' (pack_counted tp.2)) [ascii_wire tp.1] entry (val tp)) as Hentry.
  { intros [t ps]. apply (writes_seq _ _ [_] []); [apply writes_ascii|].
    apply appends_iadd, encodes_counted. }
  pose proof (encodes_bind _ _ _ _ _ _ (encodes_pack [Fh] (v, tt))
    (writes_seq _ (λ m, iadd m (write_int_string u)) _ [] (SArr entry) SLong _ u
      (writes_array ts _ (λ tp, [ascii_wire tp.1]) entry val Hentry) (writes_long u))) as H.
  rewrite app_nil_r, encodable_fmap in H.
  set (g := encodable _ && _). set (b := ser _ _).
  replace g with (tuple_ok [Fh] (v, tt) && (encodable ((λ tp, ascii_wire tp.1) <$> ts) &&
    ok (SArr entry +> SLong) (val <$> ts, u))).
  2:{ subst g. change (ok assignment_schema _) with
        (tuple_ok [Fh] (v, tt) && ok (SArr entry +> SLong) (val <$> ts, u)).
      by destruct (tuple_ok _ _), (encodable _). }
  destruct (pack [Fh] (v, tt)) as [h|]; [|exact H].
  cbn [mbind result_bind] in H |- *.
  destruct (iadd h (pack [Fi] (len ts, tt))); exact H.
Qed.

Lemma accepts_assignment d0 tp :
  accepts (λ d c,
      '(topic, cur) ← read_short_ascii d c;
      '((num_partitions, _), cur) ← relative_unpack [Fi] d cur;
      '(partitions, cur) ← relative_unpack_ints num_partitions d cur;
      Ok (Dict.set topic partitions d0, cur))
    [ascii_wire tp.1] (SShort +> SArr (SNums [Fi]))
    (ascii_wire tp.1, (λ z, (z, tt)) <$> tp.2) (λ c, (Dict.set tp.1 tp.2 d0, c)).
Proof.
  destruct tp as [t ps]. cbn [fst snd].
  eapply (accepts_seq _ _ [_] []); [apply accepts_ascii|]. intros [_ [Hl Hv]%andb_true_iff]%andb_true_iff.
  rewrite <-frange_Fi_count, len_fmap in Hl. rewrite ser_array, len_fmap, (be_encode_tuple Fi).
  apply finishes_bind with (a := (len ps, tt)).
  - apply (reads_relative_unpack [Fi] (len ps, tt)). cbn [tuple_ok fst snd]. by rewrite Hl.
  - rewrite <-(app_nil_r (_ ≫= _)). apply finishes_ints; [done|done|]. apply finishes_ret.
Qed.

(** A [dict] of assignments, rebuilt from its items. *)
Lemma dict_of_items {K V} `{EqDecision K} (d : list (K * V)) :
  NoDup (Dict.keys d) → foldl (λ d x, Dict.set x.1 x.2 d) [] d = d.
Proof.
  intros Hd. rewrite (dict_of_list fst snd); [|done].
  rewrite <-(list_fmap_id d) at 2. apply list_fmap_ext. by intros ? [? ?].
Qed.

Lemma decodes_assignment a :
  NoDup (Dict.keys (sga_assignments a)) → sga_version a = 0 →
  decodes_to decode_sync_group_member_assignment (assignment_fields a)
    assignment_schema (assignment_value a) a.
Proof.
  destruct a as [v ts u]. cbn [sga_assignments sga_version]. intros Hnd ->.
  apply (decodes_to_intro (λ d c,
    '((version, (num_assignments, _)), cur) ← relative_unpack [Fh; Fi] d c;
    if negb (version =? 0) then Err ProtocolError
    else
      '(assignments, cur) ← for_range num_assignments (λ st : list (text * list Z) * Z,
        '(topic, cur) ← read_short_ascii d st.2;
        '((num_partitions, _), cur) ← relative_unpack [Fi] d cur;
        '(partitions, cur) ← relative_unpack_ints num_partitions d cur;
        Ok (Dict.set topic partitions st.1, cur)) ([], cur);
      '(user_data, cur) ← read_int_string d cur;
      Ok (mkSyncGroupMemberAssignment version assignments user_data))).
  apply (accepts_counted [Fh; Fi] (0, (len ts, tt))).
  - rewrite len_fmap. cbn [tuple_ok fst snd]. by rewrite !andb_true_r.
  - rewrite len_fmap. cbn [tuple_bytes fst snd]. by rewrite !app_nil_r.
  - intros Hf Hs Hu. cbn [sga_assignments sga_user_data] in *.
    apply (finishes_array ts (SShort +> SArr (SNums [Fi])) _ (λ tp, [ascii_wire tp.1])
      (λ d tp, Dict.set tp.1 tp.2 d) (λ d st, _)); [done|by rewrite encodable_fmap|done| |].
    + intros st tp _. exact (accepts_assignment st tp).
    + rewrite dict_of_items, <-(app_nil_r (ser SLong u)) by done.
      apply finishes_bind with (a := u); [by apply reads_int_string|].
      exact (finishes_ret (λ _, _)).
Qed.

(** The leader's assignment reaches the member: what
    [encode_sync_group_member_assignment] writes for version 0,
    [decode_sync_group_member_assignment] reads back, topic by topic; any
    other version is refused. *)
Theorem assignment_roundtrip (a : _SyncGroupMemberAssignment) (b suf : bytes) :
  NoDup (Dict.keys (sga_assignments a)) →
  encode_sync_group_member_assignment (sga_version a) (sga_assignments a) (sga_user_data a)
    = Ok b →
  decode_sync_group_member_assignment (b ++ suf) =
    if sga_version a =? 0 then Ok a else Err ProtocolError.
Proof.
  intros Hnd Hb. pose proof (encodes_assignment a) as He. unfold encodes in He.
  destruct (encodable _ && _) eqn:Hok; [|destruct He as [e He]; congruence].
  rewrite Hb in He. assert (b = ser assignment_schema (assignment_value a)) as -> by congruence.
  destruct (sga_version a =? 0) eqn:Hv.
  - apply Z.eqb_eq in Hv. by apply decodes_assignment.
  - apply andb_true_iff in Hok as [_ Hok]. destruct a as [v ts u]. cbn [sga_version] in *.
    set (vs := (λ tp : text * list Z, (ascii_wire tp.1, (λ z, (z, tt)) <$> tp.2)) <$> ts
           : list (sem (SShort +> SArr (SNums [Fi])))).
    assert (relative_unpack [Fh; Fi] (ser assignment_schema
      (assignment_value (mkSyncGroupMemberAssignment v ts u)) ++ suf) 0 =
      Ok ((v, (len vs, tt)), calcsize [Fh; Fi])) as Hr.
    { apply (unpack_counted [Fh; Fi] (v, (len vs, tt)) [Fh] (v, tt) _ vs SLong u suf); [..|done];
        cbn [tuple_ok tuple_bytes fst snd]; by rewrite ?andb_true_r, ?app_nil_r. }
    unfold decode_sync_group_member_assignment. rewrite Hr. cbn. by rewrite Hv.
Qed.

Definition sample_assignment : _SyncGroupMemberAssignment :=
  mkSyncGroupMemberAssignment 0 [(txt "logs", [0; 2]); (txt "events", [])] (Some []).

Definition sample_assignment_bytes : bytes :=
  match encode_sync_group_member_assignment 0 (sga_assignments sample_assignment)
          (sga_user_data sample_assignment) with
  | Ok b => b
  | Err _ => []
  end.

Example assignment_roundtrip_witness :
  decode_sync_group_member_assignment (sample_assignment_bytes ++ []) = Ok sample_assignment.
Proof.
  apply (assignment_roundtrip sample_assignment sample_assignment_bytes []).
  - apply (bool_decide_unpack _). vm_compute. exact I.
  - vm_compute. reflexivity.
Defined.

Definition sample_brokers : list BrokerMetadata :=
  [mkBrokerMetadata 1 (txt "kafka1") 9092; mkBrokerMetadata 7 (txt "kafka7") 9093].

Definition sample_topics : list TopicMetadata :=
  [mkTopicMetadata (txt "logs") 0
     [(0, mkPartitionMetadata (txt "logs") 0 0 1 [1; 7] [1]);
      (1, mkPartitionMetadata (txt "logs") 1 9 7 [7] [])];
   mkTopicMetadata (txt "gone") 3 []].

Example responses_decode_witness :
  decode_metadata_response
    (ser metadata_response_schema (metadata_response_value 5 sample_brokers sample_topics) ++ [])
  = Ok ((λ b, (bm_node_id b, b)) <$> sample_brokers, (λ t, (tm_topic t, t)) <$> sample_topics).
Proof.
  destruct (responses_decode (L := tagged_lib) 1) as (_ & _ & _ & _ & _ & H).
  apply (H 5 sample_brokers sample_topics []).
  - vm_compute. reflexivity.
  - vm_compute. reflexivity.
  - vm_compute. reflexivity.
  - apply (bool_decide_unpack _). vm_compute. exact I.
  - apply (bool_decide_unpack _). vm_compute. exact I.
  - repeat constructor; cbn; set_solver.
Defined.

(** ** Correlation ids *)

(** The correlation id of a reply is the 32-bit big-endian integer it starts
    with, whatever follows: the id a request header carries is recovered from a
    reply that echoes it. A reply shorter than that is a buffer underflow. *)
Theorem response_correlation_id (correlation_id : Z) (rest short : bytes) :
  (frange Fi correlation_id = true →
     get_response_correlation_id (be_encode 4 correlation_id ++ rest) = Ok correlation_id) ∧
  (len short < 4 → get_response_correlation_id short = Err BufferUnderflowError).
Proof.
  unfold get_response_correlation_id. split.
  - intros Hr. rewrite (be_encode_tuple Fi).
    pose proof (reads_relative_unpack [Fi] (correlation_id, tt)
      ltac:(cbn [tuple_ok fst snd]; by rewrite Hr) [] rest) as H.
    cbn [app] in H. change (len []) with 0 in H. by rewrite H.
  - intros Hs. unfold relative_unpack. change (0 + calcsize [Fi]) with 4.
    by rewrite (proj2 (Z.ltb_lt _ _) Hs).
Qed.
