(* ===== verification/Partitioner.v ===== *)
(** [afkak/partitioner.py]: the Murmur2 hash, the round-robin partitioner and
    the hashed partitioner. The compiled hash of the optional [pyhash] package
    is a parameter; the random start of the round-robin cycle is the number
    [random.randint] returned. *)
From S2P Require Import Prelude Common PyBytes Util.
Local Open Scope Z_scope.

(** The values a partition key may have: the code tells these apart. *)
Inductive pykey :=
| KStr (s : text)
| KBytes (b : bytes)
| KByteArray (b : bytes)
| KOther.

(** [byte_array[i]], for a non-negative index. *)
Definition getitem (b : bytes) (i : Z) : res Z :=
  match b !! Z.to_nat i with Some x => Ok (Z_of_byte x) | None => Err PyIndexError end.

Definition SEED : Z := 0x9747b28c.
Definition mod32bits : Z := 0xffffffff.
Definition murmur_m : Z := 0x5bd1e995.
Definition murmur_r : Z := 24.

(** One turn of the four-byte loop: [i] is the block number. *)
Definition murmur2_block (byte_array : bytes) (i h : Z) : res Z :=
  let i4 := i * 4 in
  b0 ← getitem byte_array (i4 + 0);
  b1 ← getitem byte_array (i4 + 1);
  b2 ← getitem byte_array (i4 + 2);
  b3 ← getitem byte_array (i4 + 3);
  let k := Z.land b0 0xff + Z.shiftl (Z.land b1 0xff) 8 +
           Z.shiftl (Z.land b2 0xff) 16 + Z.shiftl (Z.land b3 0xff) 24 in
  let k := Z.land k mod32bits in
  let k := k * murmur_m in
  let k := Z.land k mod32bits in
  let k := Z.lxor k (Z.shiftr (k mod 0x100000000) murmur_r) in
  let k := Z.land k mod32bits in
  let k := k * murmur_m in
  let k := Z.land k mod32bits in
  let h := h * murmur_m in
  let h := Z.land h mod32bits in
  let h := Z.lxor h k in
  let h := Z.land h mod32bits in
  Ok h.

(** The last [length % 4] bytes, last one first. *)
Definition murmur2_tail (byte_array : bytes) (h : Z) : res Z :=
  let length := len byte_array in
  let extra_bytes := length mod 4 in
  let base := Z.land length (Z.lnot 3) in
  h ← (if extra_bytes =? 3 then
         b ← getitem byte_array (base + 2);
         Ok (Z.land (Z.lxor h (Z.shiftl (Z.land b 0xff) 16)) mod32bits)
       else Ok h);
  h ← (if 2 <=? extra_bytes then
         b ← getitem byte_array (base + 1);
         Ok (Z.land (Z.lxor h (Z.shiftl (Z.land b 0xff) 8)) mod32bits)
       else Ok h);
  if 1 <=? extra_bytes then
    b ← getitem byte_array base;
    let h := Z.land (Z.lxor h (Z.land b 0xff)) mod32bits in
    let h := h * murmur_m in
    Ok (Z.land h mod32bits)
  else Ok h.

Definition murmur2_final (h : Z) : Z :=
  let h := Z.lxor h (Z.shiftr (h mod 0x100000000) 13) in
  let h := Z.land h mod32bits in
  let h := h * murmur_m in
  let h := Z.land h mod32bits in
  let h := Z.lxor h (Z.shiftr (h mod 0x100000000) 15) in
  Z.land h mod32bits.

Definition pure_murmur2 (byte_array : pykey) (seed : Z) : res Z :=
  match byte_array with
  | KByteArray byte_array =>
    let length := len byte_array in
    let h := Z.lxor seed length in
    let length4 := length / 4 in
    '(_, h) ← for_range length4 (λ st : Z * Z,
      h ← murmur2_block byte_array st.1 st.2; Ok (st.1 + 1, h)) (0, h);
    h ← murmur2_tail byte_array h;
    Ok (murmur2_final h)
  | _ => Err PyTypeError
  end.

(** ** Round robin *)

(** [itertools.cycle]: the sequence and the position of the next item. *)
Record cycle (A : Type) := mkCycle { cycle_items : list A; cycle_pos : nat }.
Arguments mkCycle {_} _ _.
Arguments cycle_items {_} _.
Arguments cycle_pos {_} _.

Definition cycle_next {A} (c : cycle A) : res (A * cycle A) :=
  match cycle_items c !! cycle_pos c with
  | Some x => Ok (x, mkCycle (cycle_items c) ((cycle_pos c + 1) mod length (cycle_items c)))
  | None => Err PyStopIteration
  end.

(** [sorted()] of integers. *)
Definition py_sorted (l : list Z) : list Z := merge_sort Z.le l.

Record RoundRobinPartitioner := mkRoundRobinPartitioner {
  rr_topic : text;
  rr_partitions : list Z;
  rr_iterpart : cycle Z;
}.

(** [_set_partitions]; [draw] is what [randint(0, len(partitions) - 1)] would
    return; with no partitions the range is empty and it raises. *)
Definition _set_partitions (randomStart : bool) (draw : Z) (topic : text) (partitions : list Z)
    : res RoundRobinPartitioner :=
  let iterpart := mkCycle partitions 0 in
  iterpart ← (if randomStart then
      if len partitions - 1 <? 0 then Err PyValueError
      else for_range draw (λ c, '(_, c) ← cycle_next c; Ok c) iterpart
    else Ok iterpart);
  Ok (mkRoundRobinPartitioner topic (py_sorted partitions) iterpart).

(** [RoundRobinPartitioner.partition]: the key is not used. *)
Definition rr_partition (randomStart : bool) (draw : Z) (self : RoundRobinPartitioner)
    (partitions : list Z) : res (Z * RoundRobinPartitioner) :=
  self ← (if bool_decide (rr_partitions self = partitions) then Ok self
          else _set_partitions randomStart draw (rr_topic self) partitions);
  '(x, c) ← cycle_next (rr_iterpart self);
  Ok (x, mkRoundRobinPartitioner (rr_topic self) (rr_partitions self) c).

(** ** Hashed *)

(** [_hash] when the compiled Murmur2 is available ([Some]) and when it is
    not. *)
Definition _hash (_c_murmur2 : option (bytes → Z)) (key : pykey) : res Z :=
  match _c_murmur2 with
  | Some _c_murmur2 =>
    match key with
    | KStr s => b ← utf8_encode s; Ok (_c_murmur2 b)
    | KByteArray b => Ok (_c_murmur2 b)
    | KBytes b => Ok (_c_murmur2 b)
    | KOther => Err PyTypeError
    end
  | None =>
    match key with
    | KStr s => b ← utf8_encode s; pure_murmur2 (KByteArray b) SEED
    | KBytes b => pure_murmur2 (KByteArray b) SEED
    | KByteArray b => pure_murmur2 (KByteArray b) SEED
    | KOther => Err PyTypeError
    end
  end.

(** [HashedPartitioner.partition] *)
Definition hashed_partition (_c_murmur2 : option (bytes → Z)) (key : pykey)
    (partitions : list Z) : res Z :=
  h ← _hash _c_murmur2 key;
  if len partitions =? 0 then Err PyZeroDivisionError
  else
    match partitions !! Z.to_nat (Z.land h 0x7FFFFFFF mod len partitions) with
    | Some p => Ok p
    | None => Err PyIndexError
    end.

(** The hashes the test suite of the source lists, and those of its keys. *)
Example murmur2_vectors :
  let h s := pure_murmur2 (KByteArray (byte_of_Z <$> txt s)) SEED in
  h "" = Ok 275646681 ∧ h "testing" = Ok 2291530147 ∧ h "PEACH!" = Ok 2546348827 ∧
  h "Gorz!" = Ok 1742407956 ∧ h "987654321" = Ok 577579727 ∧ h "_!!_" = Ok 2335345241 ∧
  h "CRINOID" = Ok 3603193626 ∧
  h "The rain in Spain falls mainly on the plain." = Ok 2823782121 ∧
  h "lasquinceletras" = Ok 4030895744.
Proof. vm_compute. split_and!; reflexivity. Qed.

(** ** A reference Murmur2

    Over 32-bit words, by recursion on the bytes; no indexing and no masks
    other than the reduction of products modulo 2^32. *)

Definition w32 (z : Z) : Z := z mod 2 ^ 32.

Definition le_decode (b : bytes) : Z := foldr (λ x acc, Z_of_byte x + 256 * acc) 0 b.

Definition mix (k : Z) : Z :=
  let k := w32 (k * murmur_m) in w32 (Z.lxor k (Z.shiftr k 24) * murmur_m).

Fixpoint murmur2_words (h : Z) (b : bytes) : Z :=
  match b with
  | [] => h
  | b0 :: b1 :: b2 :: b3 :: rest =>
    murmur2_words (Z.lxor (w32 (h * murmur_m)) (mix (le_decode [b0; b1; b2; b3]))) rest
  | tail => w32 (Z.lxor h (le_decode tail) * murmur_m)
  end.

Definition avalanche (h : Z) : Z :=
  let h := w32 (Z.lxor h (Z.shiftr h 13) * murmur_m) in Z.lxor h (Z.shiftr h 15).

Definition murmur2 (seed : Z) (b : bytes) : Z :=
  avalanche (murmur2_words (w32 (Z.lxor seed (len b))) b).

Lemma land_mod32 z : Z.land z mod32bits = w32 z.
Proof. unfold mod32bits, w32. change 0xffffffff with (Z.ones 32). by rewrite Z.land_ones. Qed.

Lemma w32_u32 z : u32 (w32 z).
Proof. apply Z.mod_pos_bound. lia. Qed.

Lemma w32_id z : u32 z → w32 z = z.
Proof. apply Z.mod_small. Qed.

Lemma w32_lxor a b : w32 (Z.lxor a b) = Z.lxor (w32 a) (w32 b).
Proof.
  rewrite <-!land_mod32. apply Z.bits_inj'. intros n Hn.
  rewrite !Z.lxor_spec, !Z.land_spec, Z.lxor_spec.
  by destruct (Z.testbit a n), (Z.testbit b n), (Z.testbit mod32bits n).
Qed.

Lemma w32_mul a b : w32 (w32 a * b) = w32 (a * b).
Proof. apply Z.mul_mod_idemp_l. lia. Qed.

Lemma land_byte x : Z.land (Z_of_byte x) 0xff = Z_of_byte x.
Proof.
  change 0xff with (Z.ones 8). rewrite Z.land_ones by lia.
  apply Z.mod_small, Z_of_byte_range.
Qed.

#[export] Hint Resolve w32_u32 : word.

(** A byte and a number shifted past it share no bits. *)
Lemma add_byte_lxor x z : 0 ≤ z → Z_of_byte x + 256 * z = Z.lxor (Z_of_byte x) (256 * z).
Proof.
  intros Hz. apply Z.add_nocarry_lxor. apply Z.bits_inj'. intros n Hn.
  rewrite Z.land_spec, Z.bits_0. change 256 with (2 ^ 8). rewrite (Z.mul_comm (2 ^ 8)).
  destruct (Z.lt_ge_cases n 8).
  - rewrite Z.mul_pow2_bits_low by done. apply andb_false_r.
  - replace (Z_of_byte x) with (Z_of_byte x mod 2 ^ 8)
      by apply Z.mod_small, Z_of_byte_range.
    by rewrite Z.mod_pow2_bits_high by lia.
Qed.

Lemma le_decode_range b : 0 ≤ le_decode b < 256 ^ len b.
Proof.
  induction b as [|x b IH]; [change (256 ^ len []) with 1; cbn; lia|].
  rewrite len_cons, Z.pow_add_r by len_solve. change (256 ^ 1) with 256.
  change (le_decode (x :: b)) with (Z_of_byte x + 256 * le_decode b).
  pose proof (Z_of_byte_range x). lia.
Qed.

Lemma le_decode_cons_lxor x b :
  le_decode (x :: b) = Z.lxor (Z_of_byte x) (256 * le_decode b).
Proof. apply add_byte_lxor, le_decode_range. Qed.

Lemma le_decode_u32 b : (length b ≤ 4)%nat → u32 (le_decode b).
Proof.
  intros Hl. pose proof (le_decode_range b). unfold u32.
  assert (256 ^ len b ≤ 256 ^ 4) by (apply Z.pow_le_mono_r; unfold len; lia).
  change (2 ^ 32) with (256 ^ 4). lia.
Qed.

Lemma getitem_at pre l n j x :
  n = len pre + Z.of_nat j → l !! j = Some x → getitem (pre ++ l) n = Ok (Z_of_byte x).
Proof.
  intros -> Hx. unfold getitem, len. rewrite <-Nat2Z.inj_add, Nat2Z.id.
  rewrite lookup_app_r by lia. replace (length pre + j - length pre)%nat with j by lia.
  by rewrite Hx.
Qed.

(** One block of the code is one block of the reference. *)
Lemma murmur2_block_eq pre b0 b1 b2 b3 rest i h :
  len pre = 4 * i →
  murmur2_block (pre ++ b0 :: b1 :: b2 :: b3 :: rest) i h =
    Ok (Z.lxor (w32 (w32 h * murmur_m)) (mix (le_decode [b0; b1; b2; b3]))).
Proof.
  intros Hp. unfold murmur2_block.
  rewrite (getitem_at pre _ (i * 4 + 0) 0 b0), (getitem_at pre _ (i * 4 + 1) 1 b1),
    (getitem_at pre _ (i * 4 + 2) 2 b2), (getitem_at pre _ (i * 4 + 3) 3 b3) by (lia || done).
  cbn [mbind result_bind]. f_equal. rewrite !land_byte, !land_mod32, !Z.shiftl_mul_pow2 by lia.
  assert (Z_of_byte b0 + Z_of_byte b1 * 2 ^ 8 + Z_of_byte b2 * 2 ^ 16 + Z_of_byte b3 * 2 ^ 24 =
    le_decode [b0; b1; b2; b3]) as -> by (cbn [le_decode foldr]; lia).
  rewrite (w32_id (le_decode _)) by (apply le_decode_u32; cbn; lia).
  unfold mix, murmur_r. set (k := w32 (le_decode _ * _)).
  assert (u32 k) as Hk by apply w32_u32. change 0x100000000 with (2 ^ 32). fold (w32 k).
  rewrite (w32_id k) by done. rewrite (w32_id (Z.lxor k _)) by auto with word.
  rewrite w32_mul. apply w32_id. auto with word.
Qed.

Lemma mix_u32 k : u32 (mix k).
Proof. apply w32_u32. Qed.
#[export] Hint Resolve mix_u32 : word.

(** [length & ~3] is the length rounded down to a multiple of four. *)
Lemma land_not3 x : Z.land x (Z.lnot 3) = 4 * (x / 4).
Proof.
  rewrite <-Z.ldiff_land. change 3 with (Z.ones 2). rewrite Z.ldiff_ones_r by lia.
  rewrite Z.shiftl_mul_pow2, Z.shiftr_div_pow2 by lia. change (2 ^ 2) with 4. lia.
Qed.

Lemma len_split (pre tail : bytes) i :
  len pre = 4 * i → (length tail < 4)%nat →
  Z.land (len (pre ++ tail)) (Z.lnot 3) = len pre ∧ len (pre ++ tail) mod 4 = len tail.
Proof.
  intros Hp Ht. rewrite land_not3, len_app, Hp. unfold len.
  split; Z.div_mod_to_equations; lia.
Qed.

Lemma mul256_shiftl z : 256 * z = Z.shiftl z 8.
Proof. rewrite Z.shiftl_mul_pow2 by lia. lia. Qed.

Lemma le_decode_2 b0 b1 :
  le_decode [b0; b1] = Z.lxor (Z.shiftl (Z_of_byte b1) 8) (Z_of_byte b0).
Proof.
  rewrite le_decode_cons_lxor, mul256_shiftl, Z.lxor_comm. cbn [le_decode foldr].
  by rewrite Z.add_0_r.
Qed.

Lemma le_decode_3 b0 b1 b2 :
  le_decode [b0; b1; b2] =
    Z.lxor (Z.lxor (Z.shiftl (Z_of_byte b2) 16) (Z.shiftl (Z_of_byte b1) 8)) (Z_of_byte b0).
Proof.
  rewrite le_decode_cons_lxor, mul256_shiftl, Z.lxor_comm, le_decode_2, Z.shiftl_lxor.
  by rewrite Z.shiftl_shiftl by lia.
Qed.

Lemma u32_shiftl_byte b n : 0 ≤ n ≤ 24 → u32 (Z.shiftl (Z_of_byte b) n).
Proof.
  intros Hn. rewrite Z.shiftl_mul_pow2 by lia. pose proof (Z_of_byte_range b). unfold u32.
  assert (0 < 2 ^ n) by (apply Z.pow_pos_nonneg; lia).
  assert (2 ^ n ≤ 2 ^ 24) by (apply Z.pow_le_mono_r; lia).
  change (2 ^ 32) with (256 * 2 ^ 24). nia.
Qed.

#[export] Hint Resolve u32_shiftl_byte : word.
#[export] Hint Extern 2 (0 ≤ _ ≤ _) => lia : word.

Lemma le_decode_1 b0 : le_decode [b0] = Z_of_byte b0.
Proof. cbn. lia. Qed.

Ltac murmur_tail_solve :=
  cbn [mbind result_bind]; rewrite !land_byte, !land_mod32; f_equal;
  rewrite ?w32_mul, ?le_decode_1, ?le_decode_2, ?le_decode_3;
  rewrite <-(w32_mul (Z.lxor _ _)), <-(w32_mul (Z.lxor (w32 _) _)), !w32_lxor,
    !(w32_id (w32 _)) by auto with word;
  by rewrite ?Z.lxor_assoc.

Lemma murmur2_tail_eq pre tail i h :
  len pre = 4 * i → (length tail < 4)%nat →
  murmur2_tail (pre ++ tail) h =
    Ok (match tail with
        | [] => h
        | _ => w32 (Z.lxor (w32 h) (le_decode tail) * murmur_m)
        end).
Proof.
  intros Hp Ht. unfold murmur2_tail. destruct (len_split pre tail i Hp Ht) as [-> ->].
  destruct tail as [|b0 [|b1 [|b2 [|]]]]; [done|..|cbn in Ht; lia];
    rewrite ?(getitem_at pre _ (len pre) 0 b0), ?(getitem_at pre _ (len pre + 1) 1 b1),
      ?(getitem_at pre _ (len pre + 2) 2 b2) by (lia || done).
  - change (len [b0] =? 3) with false. change (2 <=? len [b0]) with false.
    change (1 <=? len [b0]) with true. murmur_tail_solve.
  - change (len [b0; b1] =? 3) with false. change (2 <=? len [b0; b1]) with true.
    change (1 <=? len [b0; b1]) with true. murmur_tail_solve.
  - change (len [b0; b1; b2] =? 3) with true. change (2 <=? len [b0; b1; b2]) with true.
    change (1 <=? len [b0; b1; b2]) with true. murmur_tail_solve.
Qed.

Lemma murmur2_final_eq h : murmur2_final h = avalanche (w32 h).
Proof.
  unfold murmur2_final, avalanche. change 0x100000000 with (2 ^ 32). fold (w32 h).
  rewrite !land_mod32, (w32_lxor h), (w32_id (Z.shiftr (w32 h) _)) by auto with word.
  set (k := w32 (_ * _)). assert (u32 k) by apply w32_u32. fold (w32 k).
  rewrite (w32_id k) by done. apply w32_id. auto with word.
Qed.

Lemma four_bytes (l : bytes) : (4 ≤ length l)%nat → ∃ a b c d r, l = a :: b :: c :: d :: r.
Proof. destruct l as [|a [|b [|c [|d r]]]]; cbn; intros; try lia. by exists a, b, c, d, r. Qed.

(** The block loop from block [i] on, then the tail, is the reference on the
    bytes that remain. *)
Lemma murmur2_loop n pre rest i h :
  len pre = 4 * i → (4 * n ≤ length rest < 4 * n + 4)%nat →
  ∃ h', ('(_, h) ← for_nat n (λ st : Z * Z,
           h ← murmur2_block (pre ++ rest) st.1 st.2; Ok (st.1 + 1, h)) (i, h);
         murmur2_tail (pre ++ rest) h) = Ok h' ∧ w32 h' = murmur2_words (w32 h) rest.
Proof.
  revert pre rest i h. induction n as [|n IH]; intros pre rest i h Hp Hr.
  - cbn [for_nat mbind result_bind]. eexists. split; [apply (murmur2_tail_eq _ _ i); [done|lia]|].
    destruct rest as [|b0 [|b1 [|b2 [|]]]]; [done|..|cbn in Hr; lia]; apply w32_id, w32_u32.
  - destruct (four_bytes rest ltac:(lia)) as (b0 & b1 & b2 & b3 & r & ->).
    cbn [for_nat fst snd]. rewrite (murmur2_block_eq pre b0 b1 b2 b3 r i h Hp).
    cbn [mbind result_bind murmur2_words]. set (h1 := Z.lxor _ _).
    destruct (IH (pre ++ [b0; b1; b2; b3]) r (i + 1) h1) as (h' & Hl & Hw).
    + rewrite len_app. change (len [b0; b1; b2; b3]) with 4. lia.
    + cbn in Hr. lia.
    + exists h'. rewrite <-app_assoc in Hl. split; [exact Hl|].
      rewrite Hw, (w32_id h1) by (unfold h1; auto with word). done.
Qed.

Lemma pure_murmur2_eq b seed : pure_murmur2 (KByteArray b) seed = Ok (murmur2 seed b).
Proof.
  destruct (murmur2_loop (Z.to_nat (len b / 4)) [] b 0 (Z.lxor seed (len b)))
    as (h' & Hl & Hw); [done|unfold len; Z.div_mod_to_equations; lia|].
  unfold pure_murmur2, for_range. cbn [app] in Hl.
  destruct (for_nat _ _ _) as [[j h]|]; [|done]. cbn [mbind result_bind] in Hl |- *.
  rewrite Hl. cbn [mbind result_bind]. by rewrite murmur2_final_eq, Hw.
Qed.

Lemma murmur2_u32 seed b : u32 (murmur2 seed b).
Proof.
  unfold murmur2, avalanche. set (h := w32 (_ * _)). assert (u32 h) by apply w32_u32.
  auto with word.
Qed.

(** [pure_murmur2] computes the reference Murmur2, a 32-bit word, on every
    [bytearray] and seed: none of its indices is out of range and none of its
    masks loses a bit that matters. Any other argument is a [TypeError]. *)
Theorem pure_murmur2_correct (seed : Z) (b : bytes) (s : text) :
  pure_murmur2 (KByteArray b) seed = Ok (murmur2 seed b) ∧ u32 (murmur2 seed b) ∧
  pure_murmur2 (KStr s) seed = Err PyTypeError ∧
  pure_murmur2 (KBytes b) seed = Err PyTypeError ∧
  pure_murmur2 KOther seed = Err PyTypeError.
Proof. split_and!; [apply pure_murmur2_eq|apply murmur2_u32|done..]. Qed.

(** ** The hashed partitioner *)

(** The bytes of a key. *)
Definition key_bytes (key : pykey) : res bytes :=
  match key with
  | KStr s => utf8_encode s
  | KBytes b | KByteArray b => Ok b
  | KOther => Err PyTypeError
  end.

(** What the optional compiled hash promises: Murmur2 with the same seed. *)
Definition compiled_murmur2_ok (c : option (bytes → Z)) : Prop :=
  match c with Some f => ∀ b, f b = murmur2 SEED b | None => True end.

Lemma _hash_eq c key :
  compiled_murmur2_ok c → _hash c key = b ← key_bytes key; Ok (murmur2 SEED b).
Proof.
  destruct c as [f|]; cbn [compiled_murmur2_ok]; intros Hc; destruct key as [s|b|b|]; cbn [_hash key_bytes];
    try destruct (utf8_encode s); cbn [mbind result_bind]; by rewrite ?Hc, ?pure_murmur2_eq.
Qed.

(** The partition is a function of the key's bytes and the list alone, the
    same for the compiled and the pure hash, for text and for the bytes of its
    UTF-8 form: the one the Java client selects, with the sign bit of the hash
    cleared. It is always one of the given partitions; without partitions there
    is an error, and so there is for a key that is not a string. *)
Lemma hashed_partition_correct (c : option (bytes → Z)) (key : pykey) (partitions : list Z) :
  compiled_murmur2_ok c →
  match key_bytes key with
  | Err e => hashed_partition c key partitions = Err e
  | Ok b =>
    if decide (partitions = []) then hashed_partition c key partitions = Err PyZeroDivisionError
    else ∃ p, hashed_partition c key partitions = Ok p ∧ p ∈ partitions ∧
      partitions !! Z.to_nat (murmur2 SEED b mod 2 ^ 31 mod len partitions) = Some p
  end.
Proof.
  intros Hc. unfold hashed_partition. rewrite _hash_eq by done.
  destruct (key_bytes key) as [b|e]; [|done]. cbn [mbind result_bind].
  case_decide as Hp; [by subst|].
  destruct (len partitions =? 0) eqn:Hl; zbool; [by apply len_zero in Hl|].
  change 0x7FFFFFFF with (Z.ones 31). rewrite Z.land_ones by lia.
  set (i := _ mod len partitions).
  assert (0 ≤ i < len partitions) as Hi by (apply Z.mod_pos_bound; len_pose; lia).
  destruct (lookup_lt_is_Some_2 partitions (Z.to_nat i)) as [p Hpi]; [unfold len in Hi; lia|].
  exists p. rewrite Hpi. eauto using list_elem_of_lookup_2.
Qed.

(** ** The round-robin partitioner *)

(** The invariant: the cycle goes through a permutation of the (sorted)
    partitions and stands at one of them. *)
Definition rr_wf (st : RoundRobinPartitioner) : Prop :=
  cycle_items (rr_iterpart st) ≡ₚ rr_partitions st ∧
  (cycle_pos (rr_iterpart st) < length (cycle_items (rr_iterpart st)))%nat.

(** [n] messages sent one after the other with the same partition list. *)
Fixpoint rr_run (randomStart : bool) (draw : Z) (n : nat) (st : RoundRobinPartitioner)
    (partitions : list Z) : res (list Z * RoundRobinPartitioner) :=
  match n with
  | O => Ok ([], st)
  | S n =>
    '(x, st) ← rr_partition randomStart draw st partitions;
    '(xs, st) ← rr_run randomStart draw n st partitions;
    Ok (x :: xs, st)
  end.

Lemma cycle_next_eq {A} (items : list A) k :
  (k < length items)%nat →
  ∃ x, items !! k = Some x ∧
    cycle_next (mkCycle items k) = Ok (x, mkCycle items ((k + 1) mod length items)).
Proof.
  intros Hk. destruct (lookup_lt_is_Some_2 items k Hk) as [x Hx].
  exists x. unfold cycle_next. cbn. by rewrite Hx.
Qed.

Lemma cycle_skip {A} (items : list A) n k :
  (k < length items)%nat →
  for_nat n (λ c, '(_, c) ← cycle_next c; Ok c : res (cycle A)) (mkCycle items k) =
    Ok (mkCycle items ((k + n) mod length items)).
Proof.
  revert k. induction n as [|n IH]; intros k Hk.
  - by rewrite Nat.add_0_r, Nat.mod_small.
  - destruct (cycle_next_eq items k Hk) as (x & _ & Hc).
    cbn [for_nat]. rewrite Hc. cbn [mbind result_bind].
    rewrite IH by (apply Nat.mod_upper_bound; lia).
    rewrite Nat.Div0.add_mod_idemp_l. do 3 f_equal. lia.
Qed.

(** Picking [n] items from position [k] on. *)
Lemma rr_run_eq rs draw n t ps items k :
  (k < length items)%nat →
  ∃ l, rr_run rs draw n (mkRoundRobinPartitioner t ps (mkCycle items k)) ps =
      Ok (l, mkRoundRobinPartitioner t ps (mkCycle items ((k + n) mod length items))) ∧
    length l = n ∧ ∀ i, (i < n)%nat → l !! i = items !! ((k + i) mod length items)%nat.
Proof.
  revert k. induction n as [|n IH]; intros k Hk.
  - exists []. rewrite Nat.add_0_r, Nat.mod_small by done. repeat split. intros i Hi; lia.
  - destruct (cycle_next_eq items k Hk) as (x & Hx & Hc).
    destruct (IH ((k + 1) mod length items)%nat) as (l & Hl & Hlen & Hi);
      [apply Nat.mod_upper_bound; lia|].
    rewrite Nat.Div0.add_mod_idemp_l in Hl. exists (x :: l). split_and!.
    + cbn [rr_run]. unfold rr_partition. cbn [rr_partitions rr_iterpart].
      rewrite bool_decide_true by done. cbn [mbind result_bind rr_iterpart]. rewrite Hc.
      cbn [mbind result_bind rr_topic rr_partitions]. rewrite Hl. cbn [mbind result_bind].
      do 5 f_equal. lia.
    + cbn. by rewrite Hlen.
    + intros [|i] Hlt; cbn.
      * by rewrite Nat.add_0_r, Nat.mod_small.
      * rewrite Hi, Nat.Div0.add_mod_idemp_l by lia. do 2 f_equal. lia.
Qed.

(** A full turn of the cycle is a rotation of the items. *)
Lemma window_rotate {A} (l items : list A) k :
  length l = length items →
  (∀ i, (i < length items)%nat → l !! i = items !! ((k + i) mod length items)%nat) →
  l ≡ₚ items.
Proof.
  intros Hlen Hi. assert (l = rotate k items) as ->.
  { apply list_eq. intros i. destruct (Nat.lt_ge_cases i (length items)) as [Hlt|Hge].
    - rewrite Hi, lookup_rotate_r by done. f_equal. unfold rotate_nat_add.
      by rewrite <-Nat2Z.inj_add, <-Nat2Z.inj_mod, Nat2Z.id.
    - rewrite !lookup_ge_None_2; rewrite ?length_rotate; (done || lia). }
  unfold rotate. rewrite Permutation_app_comm. by rewrite take_drop.
Qed.

(** Where the cycle stands when a call for the list [ps] takes its item. *)
Lemma rr_refresh rs draw st ps :
  rr_wf st → Sorted Z.le ps → 0 ≤ draw < len ps →
  ∃ items k, (if bool_decide (rr_partitions st = ps) then Ok st
              else _set_partitions rs draw (rr_topic st) ps) =
      Ok (mkRoundRobinPartitioner (rr_topic st) ps (mkCycle items k)) ∧
    items ≡ₚ ps ∧ (k < length items)%nat.
Proof.
  intros [Hp Hk] Hs Hd. destruct st as [t ps0 [items k]]. cbn in *. case_bool_decide.
  - subst ps0. by exists items, k.
  - assert (py_sorted ps = ps) as Hps.
    { apply (Sorted_unique Z.le); [apply Sorted_merge_sort, _|done|apply merge_sort_Permutation]. }
    assert (length ps ≠ 0)%nat as Hne by (unfold len in Hd; lia).
    unfold _set_partitions. rewrite Hps. destruct rs.
    + rewrite (proj2 (Z.ltb_ge _ _)) by lia. unfold for_range. rewrite cycle_skip by lia.
      exists ps, ((0 + Z.to_nat draw) mod length ps)%nat. split_and!; [done..|].
      by apply Nat.mod_upper_bound.
    + exists ps, 0%nat. split_and!; [done..|lia].
Qed.

(** Round robin is fair: whatever the state it is in (the cycle may stand
    anywhere, the list may have just changed, the start may be random), for a
    sorted list of [n] partitions every window of [n] consecutive messages
    visits each partition exactly once, and the state stays well formed. *)
Lemma round_robin_fair (randomStart : bool) (draw : Z) (st : RoundRobinPartitioner)
    (ps : list Z) (n : nat) :
  rr_wf st → Sorted Z.le ps → 0 ≤ draw < len ps →
  ∃ l st', rr_run randomStart draw n st ps = Ok (l, st') ∧ length l = n ∧ rr_wf st' ∧
    ∀ i, (i + length ps ≤ n)%nat → take (length ps) (drop i l) ≡ₚ ps.
Proof.
  intros Hwf Hs Hd. destruct (rr_refresh randomStart draw st ps Hwf Hs Hd)
    as (items & k & Hset & Hp & Hk).
  destruct (rr_run_eq randomStart draw n (rr_topic st) ps items k Hk) as (l & Hl & Hlen & Hi).
  destruct n as [|n].
  - exists [], st. split_and!; [done..|]. intros i Hle.
    assert (ps = []) as -> by (apply nil_length_inv; lia). by destruct i.
  - exists l. eexists. split_and!.
    + cbn [rr_run] in Hl |- *. unfold rr_partition in Hl |- *. rewrite Hset.
      cbn [rr_partitions rr_topic] in Hl. rewrite bool_decide_true in Hl by done. exact Hl.
    + done.
    + split; [done|]. cbn. apply Nat.mod_upper_bound. lia.
    + intros i Hle. pose proof (Permutation_length Hp) as Hlp. rewrite <-Hlp in Hle |- *.
      transitivity items; [|done]. apply (window_rotate _ items (k + i)).
      * rewrite length_take, length_drop, Hlen. lia.
      * intros j Hj. by rewrite lookup_take_lt, lookup_drop, Hi, Nat.add_assoc by lia.
Qed.

Definition sample_rr : RoundRobinPartitioner :=
  mkRoundRobinPartitioner (txt "t") [0; 1] (mkCycle [0; 1] 1).

(** C32. Partitions are chosen as the Java client does, and fairly. For a key the
    choice depends on its bytes and the list alone, the same for the compiled
    and the pure hash, for text and for the bytes of its UTF-8 form: it is the
    partition the Java client selects, with the sign bit of the hash cleared,
    always one of those given; without partitions there is an error, and so
    there is for a key that is not a string. Round robin, whatever the state it
    is in (the cycle may stand anywhere, the list may have just changed, the
    start may be random), for a sorted list of [n] partitions visits each of
    them exactly once in every window of [n] consecutive messages. *)
Theorem partitioners_correct (c : option (bytes → Z)) (partitions : list Z) :
  compiled_murmur2_ok c → Sorted Z.le partitions →
  (∀ key, match key_bytes key with
   | Err e => hashed_partition c key partitions = Err e
   | Ok b =>
     if decide (partitions = []) then hashed_partition c key partitions = Err PyZeroDivisionError
     else ∃ p, hashed_partition c key partitions = Ok p ∧ p ∈ partitions ∧
       partitions !! Z.to_nat (murmur2 SEED b mod 2 ^ 31 mod len partitions) = Some p
   end) ∧
  (∀ randomStart draw st n, rr_wf st → 0 ≤ draw < len partitions →
     ∃ l st', rr_run randomStart draw n st partitions = Ok (l, st') ∧ length l = n ∧ rr_wf st' ∧
       ∀ i, (i + length partitions ≤ n)%nat →
         take (length partitions) (drop i l) ≡ₚ partitions).
Proof.
  intros Hc Hs. split.
  - intros key. by apply hashed_partition_correct.
  - intros randomStart draw st n Hst Hd. by apply round_robin_fair.
Qed.

Example partitioners_correct_witness :
  (∃ p, hashed_partition (Some (murmur2 SEED)) (KStr (txt "key")) [4; 5; 9] = Ok p ∧
     p ∈ [4; 5; 9] ∧
     [4; 5; 9] !! Z.to_nat (murmur2 SEED (byte_of_Z <$> txt "key") mod 2 ^ 31 mod 3) = Some p) ∧
  ∃ l st', rr_run true 2 5 sample_rr [4; 5; 9] = Ok (l, st') ∧ length l = 5%nat ∧ rr_wf st' ∧
    ∀ i, (i + 3 ≤ 5)%nat → take 3 (drop i l) ≡ₚ [4; 5; 9].
Proof.
  destruct (partitioners_correct (Some (murmur2 SEED)) [4; 5; 9] (λ b, eq_refl)) as [Hh Hr].
  - apply (bool_decide_unpack _). vm_compute. exact I.
  - split; [exact (Hh (KStr (txt "key")))|]. apply (Hr true 2 sample_rr 5%nat).
    + split; [reflexivity|cbn; lia].
    + split; [lia|reflexivity].
Defined.

(** The stored list is sorted but the one it is compared with is the
    caller's: with a list that is not sorted the cycle is restarted on every
    call, and every message goes to the first partition of the list. (Lists
    from the client's metadata are sorted.) *)
Theorem round_robin_unsorted_sticks (draw : Z) (t : text) (p : Z) (ps : list Z) (n : nat) :
  py_sorted (p :: ps) ≠ p :: ps →
  ∃ st st', _set_partitions false draw t (p :: ps) = Ok st ∧
    rr_run false draw n st (p :: ps) = Ok (replicate n p, st').
Proof.
  intros Hs. eexists. cbn [_set_partitions mbind result_bind].
  set (srt := py_sorted (p :: ps)) in *.
  assert (∀ c, ∃ st', rr_run false draw n (mkRoundRobinPartitioner t srt c) (p :: ps) =
    Ok (replicate n p, st')) as H.
  { induction n as [|n IH]; intros c; [by eexists|]. cbn [rr_run]. unfold rr_partition.
    cbn [rr_partitions]. rewrite bool_decide_false by done.
    cbn [_set_partitions mbind result_bind]. unfold cycle_next. cbn [cycle_items cycle_pos lookup
      list_lookup rr_iterpart rr_topic rr_partitions mbind result_bind].
    fold srt. edestruct IH as [st' Hst']. rewrite Hst'. by eexists. }
  edestruct H as [st' Hst']. exists st'. split; [done|exact Hst'].
Qed.

Example round_robin_unsorted_sticks_witness :
  ∃ st st', _set_partitions false 0 (txt "t") [2; 0; 1] = Ok st ∧
    rr_run false 0 4 st [2; 0; 1] = Ok ([2; 2; 2; 2], st').
Proof. apply (round_robin_unsorted_sticks 0 (txt "t") 2 [0; 1] 4). vm_compute. discriminate. Defined.
