(* ===== verification/Deferred.v ===== *)
(** Twisted's [Deferred], as far as the protocol classes depend on it: a
    deferred is issued pending, it fires at most once, with a value or a
    failure, and firing it again raises [AlreadyCalledError], except that a
    deferred without a canceller swallows the first firing that follows its
    cancellation. The deferreds one object issues are numbered; their firings
    are recorded in order. The callbacks attached by other objects are not part
    of the model: what they do on the object is a later operation on it. *)
From S2P Require Import Prelude Common.
Local Open Scope nat_scope.

(** A [LoopingCall] that is kept in an attribute: it runs, and the deferred of
    its [start] has the callbacks that report its end or has none, or it has
    stopped. *)
Inductive looping := LoopRunning (reports : bool) | LoopStopped.

Section deferred.
Context {A : Type}.

Inductive outcome :=
| Success (a : A)
| Failure (e : exn).

Record deferreds := mkDeferreds {
  issued : nat;
  firings : list (nat * outcome);
  suppressed : list nat;
}.

Definition no_deferreds : deferreds := mkDeferreds 0 [] [].

(** [Deferred()] *)
Definition new_deferred (ds : deferreds) : nat * deferreds :=
  (issued ds, mkDeferreds (S (issued ds)) (firings ds) (suppressed ds)).

Definition called (d : nat) (ds : deferreds) : bool := bool_decide (d ∈ (firings ds).*1).

(** [d.callback(a)] and [d.errback(e)] *)
Definition fire (d : nat) (o : outcome) (ds : deferreds) : res deferreds :=
  if called d ds then
    if decide (d ∈ suppressed ds) then
      Ok (mkDeferreds (issued ds) (firings ds) (filter (λ d', d' ≠ d) (suppressed ds)))
    else Err AlreadyCalledError
  else Ok (mkDeferreds (issued ds) (firings ds ++ [(d, o)]) (suppressed ds)).

(** [d.cancel()] of a deferred without a canceller. *)
Definition cancel_plain (d : nat) (ds : deferreds) : res deferreds :=
  if called d ds then Ok ds
  else fire d (Failure TwistedCancelledError)
         (mkDeferreds (issued ds) (firings ds) (suppressed ds ++ [d])).

(** A deferred that was issued and has not fired. *)
Definition outstanding (d : nat) (ds : deferreds) : Prop :=
  d < issued ds ∧ d ∉ (firings ds).*1.

(** Every deferred fires at most once, and only after it was issued. *)
Definition deferreds_wf (ds : deferreds) : Prop :=
  NoDup (firings ds).*1 ∧ (∀ d, d ∈ (firings ds).*1 → d < issued ds) ∧
  (∀ d, d ∈ suppressed ds → d ∈ (firings ds).*1).

#[export] Instance outstanding_dec d ds : Decision (outstanding d ds).
Proof. unfold outstanding. apply _. Defined.

Lemma called_spec d ds : called d ds = true ↔ d ∈ (firings ds).*1.
Proof. unfold called. apply bool_decide_eq_true. Qed.

Lemma no_deferreds_wf : deferreds_wf no_deferreds.
Proof. split_and!; [constructor|set_solver..]. Qed.

Lemma new_deferred_wf ds : deferreds_wf ds → deferreds_wf (new_deferred ds).2.
Proof.
  intros (H1 & H2 & H3). split_and!; [done| |done]. cbn. intros d Hd. specialize (H2 d Hd). lia.
Qed.

Lemma new_deferred_outstanding ds d :
  deferreds_wf ds →
  outstanding d (new_deferred ds).2 ↔ outstanding d ds ∨ d = issued ds.
Proof.
  intros (_ & H2 & _). unfold outstanding. cbn. split.
  - intros [? ?]. destruct (decide (d = issued ds)); [by right|left]. split; [lia|done].
  - intros [[? ?]| ->]; split; [lia|done|lia|]. intros Hd%H2. lia.
Qed.

(** Firing a pending deferred succeeds and is recorded. *)
Lemma fire_outstanding d o ds :
  outstanding d ds →
  fire d o ds = Ok (mkDeferreds (issued ds) (firings ds ++ [(d, o)]) (suppressed ds)).
Proof. intros [_ Hd]. unfold fire, called. by rewrite bool_decide_false. Qed.

Lemma firings_app ds d o : (firings ds ++ [(d, o)]).*1 = (firings ds).*1 ++ [d].
Proof. by rewrite fmap_app. Qed.

Lemma fire_wf d o ds ds' :
  deferreds_wf ds → d < issued ds → fire d o ds = Ok ds' → deferreds_wf ds'.
Proof.
  intros (H1 & H2 & H3) Hd. unfold fire. destruct (called d ds) eqn:Hc.
  - case_decide; [|done]. intros [= <-]. unfold deferreds_wf. cbn. split_and!; [done..|].
    intros d' [_ Hd']%list_elem_of_filter. by apply H3.
  - apply bool_decide_eq_false in Hc. intros [= <-]. unfold deferreds_wf. cbn.
    rewrite fmap_app. split_and!.
    + apply NoDup_app. split; [done|]. split; [set_solver|]. apply NoDup_singleton.
    + set_solver.
    + set_solver.
Qed.

Lemma fire_effect d o ds ds' d' :
  fire d o ds = Ok ds' → outstanding d' ds' ↔ outstanding d' ds ∧ d' ≠ d.
Proof.
  unfold fire. destruct (called d ds) eqn:Hc.
  - apply bool_decide_eq_true in Hc. case_decide; [|done]. intros [= <-].
    unfold outstanding. cbn. set_solver.
  - intros [= <-]. unfold outstanding. cbn. rewrite fmap_app. cbn. set_solver.
Qed.

Lemma cancel_plain_wf d ds ds' :
  deferreds_wf ds → d < issued ds → cancel_plain d ds = Ok ds' → deferreds_wf ds'.
Proof.
  intros (H1 & H2 & H3) Hd. unfold cancel_plain. destruct (called d ds) eqn:Hc.
  { intros [= <-]. by split_and!. }
  unfold fire, called. cbn. unfold called in Hc. rewrite Hc. intros [= <-].
  apply bool_decide_eq_false in Hc. unfold deferreds_wf. cbn. rewrite fmap_app.
  split_and!; [|set_solver..].
  apply NoDup_app. split; [done|]. split; [set_solver|]. apply NoDup_singleton.
Qed.
(** Firing it does not raise: it is pending, or it was cancelled and nothing
    came since. *)
Definition firable (d : nat) (ds : deferreds) : Prop :=
  outstanding d ds ∨ d ∈ suppressed ds.

Lemma fire_firable d o ds :
  deferreds_wf ds → firable d ds →
  ∃ ds', fire d o ds = Ok ds' ∧ deferreds_wf ds' ∧ issued ds' = issued ds ∧
    (∀ d', outstanding d' ds' ↔ outstanding d' ds ∧ d' ≠ d) ∧
    (∀ d', d' ≠ d → firable d' ds → firable d' ds').
Proof.
  intros Hwf Hd.
  assert (d < issued ds) as Hlt.
  { destruct Hd as [[? _]|Hs]; [done|]. destruct Hwf as (_ & H2 & H3). auto. }
  destruct (fire d o ds) as [ds'|] eqn:Hf.
  - exists ds'. split_and!; [done|by eapply fire_wf| |intros; by eapply fire_effect|].
    + unfold fire in Hf. destruct (called d ds); [case_decide|]; by simplify_eq.
    + intros d' Hne [Ho|Hs]; [left; by eapply fire_effect|right].
      unfold fire in Hf. destruct (called d ds); [case_decide|]; simplify_eq; cbn; [|done].
      by apply list_elem_of_filter.
  - exfalso. unfold fire in Hf. destruct (called d ds) eqn:Hc; [|done].
    case_decide as Hs; [done|]. apply called_spec in Hc. by destruct Hd as [[_ ?]|?].
Qed.

Lemma cancel_plain_spec d ds :
  deferreds_wf ds → d < issued ds →
  ∃ ds', cancel_plain d ds = Ok ds' ∧ deferreds_wf ds' ∧ issued ds' = issued ds ∧
    (∀ d', outstanding d' ds' ↔ outstanding d' ds ∧ d' ≠ d) ∧
    (∀ d', firable d' ds → firable d' ds').
Proof.
  intros Hwf Hlt. destruct (cancel_plain d ds) as [ds'|] eqn:Hc.
  - exists ds'. split_and!; [done|by eapply cancel_plain_wf|..].
    all: unfold cancel_plain in Hc; destruct (called d ds) eqn:Hcd;
      [simplify_eq|unfold fire, called in Hc; cbn in Hc; unfold called in Hcd; rewrite Hcd in Hc;
        simplify_eq; cbn].
    1, 2: done.
    + intros d'. apply called_spec in Hcd. unfold outstanding. set_solver.
    + intros d'. apply bool_decide_eq_false in Hcd. unfold outstanding. cbn.
      rewrite fmap_app. cbn. set_solver.
    + done.
    + intros d' [[H1 H2]|Hs]; [|right; set_solver].
      destruct (decide (d' = d)) as [->|]; [right; set_solver|].
      left. split; [done|]. cbn. rewrite fmap_app. set_solver.
  - exfalso. unfold cancel_plain in Hc. destruct (called d ds) eqn:Hcd; [done|].
    unfold fire, called in Hc. cbn in Hc. unfold called in Hcd. by rewrite Hcd in Hc.
Qed.
End deferred.
Arguments outcome : clear implicits.
Arguments deferreds : clear implicits.

(** Fires a list of deferreds one after the other. *)
Definition fire_all {A} (ods : list nat) (o : outcome A) (ds : deferreds A) : res (deferreds A) :=
  for_each ods (λ ds d, fire d o ds) ds.

Lemma fire_all_firable {A} ods (o : outcome A) ds :
  deferreds_wf ds → NoDup ods → (∀ d, d ∈ ods → firable d ds) →
  ∃ ds', fire_all ods o ds = Ok ds' ∧ deferreds_wf ds' ∧ issued ds' = issued ds ∧
    (∀ d', outstanding d' ds' ↔ outstanding d' ds ∧ d' ∉ ods).
Proof.
  revert ds. induction ods as [|d ods IH]; intros ds Hwf Hnd Hf.
  - exists ds. split_and!; [done..|]. intros d'. set_solver.
  - apply NoDup_cons in Hnd as [Hd Hnd].
    destruct (fire_firable d o ds) as (ds1 & Hfd & Hwf1 & Hi1 & Ho1 & Hf1); [done|set_solver|].
    destruct (IH ds1) as (ds2 & Hfa & Hwf2 & Hi2 & Ho2); [done|done| |].
    + intros d' Hd'. apply Hf1; set_solver.
    + exists ds2. unfold fire_all in *. cbn. rewrite Hfd. cbn. split_and!; [done..|congruence|].
      intros d'. rewrite Ho2, Ho1. set_solver.
Qed.

(** Firings are recorded, and never forgotten. *)
Lemma fire_records {A} d (o : outcome A) ds ds' :
  fire d o ds = Ok ds' →
  firings ds `prefix_of` firings ds' ∧ (outstanding d ds → (d, o) ∈ firings ds').
Proof.
  intros Hf. destruct (decide (outstanding d ds)) as [Ho|Ho].
  - rewrite fire_outstanding in Hf by done. simplify_eq. cbn.
    split; [by apply prefix_app_r|set_solver].
  - unfold fire in Hf. destruct (called d ds); [case_decide|]; simplify_eq; cbn;
      (split; [|done]); [done|by apply prefix_app_r].
Qed.

Lemma fire_all_records {A} ods (o : outcome A) ds ds' :
  fire_all ods o ds = Ok ds' →
  firings ds `prefix_of` firings ds' ∧
  (∀ d, d ∈ ods → outstanding d ds → (d, o) ∈ firings ds').
Proof.
  revert ds. induction ods as [|d ods IH]; intros ds Hf; unfold fire_all in *; cbn in Hf.
  - simplify_eq. split; [done|set_solver].
  - destruct (fire d o ds) as [ds1|] eqn:Hd; [|done]. cbn in Hf.
    destruct (fire_records _ _ _ _ Hd) as [Hp Hr]. destruct (IH _ Hf) as [Hp' Hr'].
    split; [by etrans|]. intros d' Hin Ho.
    destruct (decide (d' = d)) as [->|].
    + destruct Hp' as [k ->]. set_solver.
    + apply Hr'; [set_solver|]. by apply (fire_effect _ _ _ _ d' Hd).
Qed.

(** The deferreds that are not in the list stay as they were. *)
Lemma fire_all_keeps {A} ods (o : outcome A) ds ds' d' :
  fire_all ods o ds = Ok ds' → d' ∉ ods → firable d' ds → firable d' ds'.
Proof.
  revert ds. induction ods as [|d ods IH]; intros ds Hf Hd Hfir; unfold fire_all in *; cbn in Hf.
  - by simplify_eq.
  - destruct (fire d o ds) as [ds1|] eqn:H1; [|done]. cbn in Hf.
    apply (IH _ Hf); [set_solver|]. destruct Hfir as [Ho|Hs].
    + left. apply (fire_effect _ _ _ _ d' H1). split; [done|set_solver].
    + right. unfold fire in H1. destruct (called d ds); [case_decide|]; simplify_eq; cbn; [|done].
      apply list_elem_of_filter. split; [set_solver|done].
Qed.
