(* ===== verification/Protocol.v ===== *)
(** [afkak/_protocol.py]: [KafkaBootstrapProtocol], which correlates responses
    with requests by the correlation id bytes. Twisted's
    [Int32StringReceiver] (the framing) and the transport are not part of the
    source: what the protocol asks of them is recorded as effects, and whether
    [sendString] raises is a parameter. *)
From S2P Require Import Prelude Common PyBytes Util Wire KafkaCodec Deferred.
Local Open Scope Z_scope.

Definition MAX_LENGTH : Z := 2 ^ 31 - 1.

Inductive effect :=
| ESend (request : bytes)
| ELoseConnection.

(** [_pending] is [None] once the connection is lost. *)
Record KafkaBootstrapProtocol := mkBootstrap {
  _pending : option (list (bytes * nat));
  _failed : option exn;
  kp_deferreds : deferreds bytes;
  kp_effects : list effect;
}.

Definition connectionMade : KafkaBootstrapProtocol :=
  mkBootstrap (Some []) None no_deferreds [].

Definition kp_effect (e : effect) (p : KafkaBootstrapProtocol) : KafkaBootstrapProtocol :=
  mkBootstrap (_pending p) (_failed p) (kp_deferreds p) (kp_effects p ++ [e]).

(** [None.pop] is an [AttributeError]. *)
Definition stringReceived (response : bytes) (p : KafkaBootstrapProtocol)
    : res KafkaBootstrapProtocol :=
  let correlation_id := slice response 0 4 in
  match _pending p with
  | None => Err PyAttributeError
  | Some pending =>
    match Dict.get correlation_id pending with
    | None => Ok (kp_effect ELoseConnection p)
    | Some d =>
      ds ← fire d (Success response) (kp_deferreds p);
      Ok (mkBootstrap (Some (Dict.del correlation_id pending)) (_failed p) ds (kp_effects p))
    end
  end.

Definition connectionLost (reason : exn) (p : KafkaBootstrapProtocol)
    : res KafkaBootstrapProtocol :=
  match _pending p with
  | None => Err PyAttributeError
  | Some pending =>
    ds ← fire_all (Dict.values pending) (Failure reason) (kp_deferreds p);
    Ok (mkBootstrap None (Some reason) ds (kp_effects p))
  end.

Definition lengthLimitExceeded (p : KafkaBootstrapProtocol) : KafkaBootstrapProtocol :=
  kp_effect ELoseConnection p.

Section request.
(** The exception [sendString] raises for a string, if any. *)
Context (sendString : bytes → option exn).

(** [inl e] is the deferred [fail(e)]; [inr d] the number of a new one. *)
Definition request (request : bytes) (p : KafkaBootstrapProtocol)
    : res ((exn + nat) * KafkaBootstrapProtocol) :=
  match _failed p with
  | Some e => Ok (inl e, p)
  | None =>
    let correlation_id := slice request 4 8 in
    match _pending p with
    | None => Err PyTypeError
    | Some pending =>
      if bool_decide (correlation_id ∈ Dict.keys pending) then Err PyAssertionError
      else
        match sendString request with
        | Some e => Err e
        | None =>
          let '(d, ds) := new_deferred (kp_deferreds p) in
          Ok (inr d, mkBootstrap (Some (Dict.set correlation_id d pending)) (_failed p) ds
                       (kp_effects p ++ [ESend request]))
        end
    end
  end.

(** The holder of a deferred cancels it. *)
Definition cancel (d : nat) (p : KafkaBootstrapProtocol) : res KafkaBootstrapProtocol :=
  ds ← cancel_plain d (kp_deferreds p);
  Ok (mkBootstrap (_pending p) (_failed p) ds (kp_effects p)).

(** ** The protocol as a state machine

    Twisted delivers strings only while connected, and the loss of the
    connection once; holders cancel only deferreds they were given. *)
Inductive event :=
| Request (r : bytes)
| StringReceived (s : bytes)
| LengthLimitExceeded
| ConnectionLost (reason : exn)
| Cancel (d : nat).

Definition enabled (e : event) (p : KafkaBootstrapProtocol) : bool :=
  match e with
  | Request _ => true
  | StringReceived _ | LengthLimitExceeded | ConnectionLost _ => bool_decide (_failed p = None)
  | Cancel d => bool_decide (d < issued (kp_deferreds p))%nat
  end.

Definition handle (e : event) (p : KafkaBootstrapProtocol) : res KafkaBootstrapProtocol :=
  match e with
  | Request r => '(_, p) ← request r p; Ok p
  | StringReceived s => stringReceived s p
  | LengthLimitExceeded => Ok (lengthLimitExceeded p)
  | ConnectionLost reason => connectionLost reason p
  | Cancel d => cancel d p
  end.

(** An exception goes to the caller and leaves the state as it was. *)
Definition step (e : event) (p : KafkaBootstrapProtocol) : KafkaBootstrapProtocol :=
  match handle e p with Ok p => p | Err _ => p end.

Inductive reachable : KafkaBootstrapProtocol → Prop :=
| reach_init : reachable connectionMade
| reach_step e p : reachable p → enabled e p = true → reachable (step e p).

(** The invariant: connected exactly when not failed; the pending deferreds
    are distinct, each is outstanding or was cancelled by its holder, and every
    outstanding deferred is pending. *)
Definition bootstrap_wf (p : KafkaBootstrapProtocol) : Prop :=
  deferreds_wf (kp_deferreds p) ∧
  match _pending p with
  | None => _failed p ≠ None ∧ ∀ d, ¬ outstanding d (kp_deferreds p)
  | Some pending =>
    _failed p = None ∧ NoDup (Dict.keys pending) ∧ NoDup (Dict.values pending) ∧
    (∀ d, d ∈ Dict.values pending →
       (d < issued (kp_deferreds p))%nat ∧ firable d (kp_deferreds p)) ∧
    (∀ d, outstanding d (kp_deferreds p) → d ∈ Dict.values pending)
  end.

Lemma connectionMade_wf : bootstrap_wf connectionMade.
Proof.
  split; [apply no_deferreds_wf|]. cbn. split_and!; [done|constructor|constructor|set_solver|].
  intros d [Hd _]. cbn in Hd. lia.
Qed.

Lemma stringReceived_wf s p :
  bootstrap_wf p → _failed p = None →
  ∃ p', stringReceived s p = Ok p' ∧ bootstrap_wf p' ∧
    (kp_deferreds p' = kp_deferreds p ∨
     ∃ pending d, _pending p = Some pending ∧ Dict.get (slice s 0 4) pending = Some d ∧
       fire d (Success s) (kp_deferreds p) = Ok (kp_deferreds p')).
Proof.
  intros [Hds Hp] Hf. unfold stringReceived. destruct (_pending p) as [pending|] eqn:Hpe;
    [|by destruct Hp]. destruct Hp as (_ & Hk & Hv & Hd & Ho).
  destruct (Dict.get (slice s 0 4) pending) as [d|] eqn:Hg.
  - pose proof (Dict.values_del _ _ _ Hg) as Hpv. pose proof (Dict.keys_del _ _ _ Hg) as Hpk.
    rewrite Hpv in Hv. apply NoDup_cons in Hv as [Hdn Hv].
    destruct (fire_firable d (Success s) (kp_deferreds p) Hds) as (ds & Hfire & Hwf & Hi & Ho' & Hf').
    { apply Hd. rewrite Hpv. set_solver. }
    rewrite Hfire. cbn [mbind result_bind]. eexists. split; [done|]. split; [|right; by eauto].
    split; [done|]. cbn. split_and!; [done|by apply Dict.NoDup_del|done| |].
    + intros d' Hd'. rewrite Hi. destruct (Hd d') as [? ?]; [rewrite Hpv; set_solver|].
      split; [done|]. apply Hf'; [set_solver|done].
    + intros d' [H1 H2]%Ho'. apply Ho in H1. rewrite Hpv in H1. set_solver.
  - eexists. split; [done|]. split; [|by left]. split; [done|]. unfold kp_effect. cbn.
    by rewrite Hpe.
Qed.

Lemma bootstrap_connectionLost_wf reason p :
  bootstrap_wf p → _failed p = None →
  ∃ p', connectionLost reason p = Ok p' ∧ bootstrap_wf p' ∧ _failed p' = Some reason.
Proof.
  intros [Hds Hp] Hf. unfold connectionLost. destruct (_pending p) as [pending|] eqn:Hpe;
    [|by destruct Hp]. destruct Hp as (_ & Hk & Hv & Hd & Ho).
  destruct (fire_all_firable (Dict.values pending) (Failure reason) (kp_deferreds p) Hds Hv)
    as (ds & Hfire & Hwf & Hi & Ho'); [intros d Hin; by apply Hd|].
  rewrite Hfire. eexists. split; [done|]. split; [|done]. split; [done|]. cbn.
  split; [done|]. intros d [H1 H2]%Ho'. by apply Ho in H1.
Qed.

Lemma request_wf r p :
  bootstrap_wf p → _failed p = None →
  match request r p with
  | Ok (inl _, _) => False
  | Ok (inr d, p') =>
    bootstrap_wf p' ∧ outstanding d (kp_deferreds p') ∧
    _pending p' = (λ pending, pending ++ [(slice r 4 8, d)]) <$> _pending p ∧
    kp_effects p' = kp_effects p ++ [ESend r]
  | Err e =>
    (e = PyAssertionError ∧ ∃ pending, _pending p = Some pending ∧
       slice r 4 8 ∈ Dict.keys pending) ∨ sendString r = Some e
  end.
Proof.
  intros [Hds Hp] Hf. unfold request. rewrite Hf.
  destruct (_pending p) as [pending|] eqn:Hpe; [|by destruct Hp].
  destruct Hp as (_ & Hk & Hv & Hd & Ho).
  case_bool_decide as Hin; [left; by eauto|].
  destruct (sendString r) as [e|] eqn:Hs; [by right|].
  pose proof (new_deferred_outstanding (kp_deferreds p)) as Hno.
  pose proof (new_deferred_wf _ Hds) as Hnw. cbn in Hno, Hnw. cbn.
  rewrite Dict.set_fresh by done.
  split_and!; [|by apply Hno; auto|done|done]. split; [exact Hnw|]. cbn.
  rewrite Dict.keys_app, Dict.values_app. cbn.
  split_and!; [done|..].
  - apply NoDup_app. split; [done|]. split; [set_solver|apply NoDup_singleton].
  - apply NoDup_app. split; [done|]. split; [|apply NoDup_singleton].
    intros d Hdv%Hd ?%list_elem_of_singleton. lia.
  - intros d [Hdv| ->%list_elem_of_singleton]%elem_of_app.
    + destruct (Hd _ Hdv) as [? [?|?]]; (split; [lia|]); [left|by right]. apply Hno; auto.
    + split; [lia|]. left. apply Hno; auto.
  - intros d Hod. apply Hno in Hod as [Hod| ->]; [|set_solver|done]. apply Ho in Hod. set_solver.
Qed.

Lemma cancel_wf d p :
  bootstrap_wf p → (d < issued (kp_deferreds p))%nat →
  ∃ p', cancel d p = Ok p' ∧ bootstrap_wf p'.
Proof.
  intros [Hds Hp] Hlt. unfold cancel.
  destruct (cancel_plain_spec d _ Hds Hlt) as (ds & Hc & Hwf & Hi & Ho & Hf).
  rewrite Hc. eexists. split; [done|]. split; [done|]. cbn.
  destruct (_pending p) as [pending|].
  - destruct Hp as (H1 & H2 & H3 & H4 & H5). split_and!; [done..| |].
    + intros d' Hd'. rewrite Hi. destruct (H4 d' Hd'). auto.
    + intros d' [? _]%Ho. auto.
  - destruct Hp as [H1 H2]. split; [done|]. intros d' [? _]%Ho. by apply (H2 d').
Qed.

(** What an enabled event may raise, and that it keeps the invariant. *)
Lemma bootstrap_handle_wf e p :
  bootstrap_wf p → enabled e p = true →
  match handle e p with
  | Ok p' => bootstrap_wf p'
  | Err x => ∃ r, e = Request r ∧
      ((x = PyAssertionError ∧ ∃ pending, _pending p = Some pending ∧
          slice r 4 8 ∈ Dict.keys pending) ∨ sendString r = Some x)
  end.
Proof.
  intros Hwf He. destruct e as [r|s| |reason|d]; cbn [handle enabled] in *.
  - destruct (_failed p) as [e|] eqn:Hf.
    + unfold request. rewrite Hf. done.
    + pose proof (request_wf r p Hwf Hf) as H.
      destruct (request r p) as [[[?|d] p']|x]; cbn; [done|by destruct H|by eauto].
  - apply bool_decide_eq_true in He.
    by destruct (stringReceived_wf s p Hwf He) as (p' & -> & ? & _).
  - destruct Hwf as [H1 H2]. split; [done|]. unfold lengthLimitExceeded, kp_effect. cbn. done.
  - apply bool_decide_eq_true in He.
    by destruct (bootstrap_connectionLost_wf reason p Hwf He) as (p' & -> & ? & _).
  - apply bool_decide_eq_true in He. by destruct (cancel_wf d p Hwf He) as (p' & -> & ?).
Qed.

Lemma bootstrap_reachable_wf p : reachable p → bootstrap_wf p.
Proof.
  induction 1 as [|e p _ IH He]; [apply connectionMade_wf|].
  unfold step. pose proof (bootstrap_handle_wf e p IH He) as H. by destruct (handle e p).
Qed.
End request.

(** ** Theorems *)

Section theorems.
Context (sendString : bytes → option exn).

(** In every state the bootstrap protocol can reach, the deferreds are well
    formed (each fires at most once, after it was issued), an outstanding one
    is always waiting in [_pending], and no handler raises
    [AlreadyCalledError] or any other error of its own: the only exceptions
    are the assertion on a correlation id still in use and what [sendString]
    itself raises. *)
Theorem bootstrap_safe (p : KafkaBootstrapProtocol) (e : event) :
  reachable sendString p → enabled e p = true →
  bootstrap_wf p ∧
  match handle sendString e p with
  | Ok p' => bootstrap_wf p'
  | Err x => ∃ r, e = Request r ∧
      ((x = PyAssertionError ∧ ∃ pending, _pending p = Some pending ∧
          slice r 4 8 ∈ Dict.keys pending) ∨ sendString r = Some x)
  end.
Proof. intros Hr%bootstrap_reachable_wf He. split; [done|]. by apply bootstrap_handle_wf. Qed.

(** A request is answered by the response with its correlation id: from any
    reachable state, after [request] issues a deferred, a response that starts
    with the bytes 4 to 8 of the request fires that deferred, with that
    response, and no other; a response with an unknown id fires nothing and
    drops the connection. *)
Theorem bootstrap_response (p p' : KafkaBootstrapProtocol) (r s : bytes) (d : nat) :
  reachable sendString p → request sendString r p = Ok (inr d, p') →
  if decide (slice s 0 4 = slice r 4 8) then
    ∃ p'', stringReceived s p' = Ok p'' ∧
      firings (kp_deferreds p'') = firings (kp_deferreds p') ++ [(d, Success s)] ∧
      kp_effects p'' = kp_effects p'
  else ∀ pending, _pending p = Some pending → slice s 0 4 ∉ Dict.keys pending →
    ∃ p'', stringReceived s p' = Ok p'' ∧ kp_deferreds p'' = kp_deferreds p' ∧
      kp_effects p'' = kp_effects p' ++ [ELoseConnection].
Proof.
  intros Hwf%bootstrap_reachable_wf Hr.
  assert (_failed p = None) as Hf by (unfold request in Hr; by destruct (_failed p)).
  pose proof (request_wf sendString r p Hwf Hf) as H. rewrite Hr in H.
  destruct H as (Hwf' & Hod & Hpe & _).
  destruct (_pending p) as [pending|] eqn:Hp; [|by destruct Hwf as [_ Hwf]; rewrite Hp in Hwf; destruct Hwf].
  cbn in Hpe. destruct Hwf' as [_ Hwf']. rewrite Hpe in Hwf'. destruct Hwf' as (_ & Hk & _).
  unfold stringReceived. rewrite Hpe. case_decide as Hs.
  - rewrite Hs. rewrite (Dict.get_elem _ (slice r 4 8) d Hk) by set_solver.
    rewrite fire_outstanding by done. by eexists.
  - intros pending' [= <-] Hin.
    rewrite (proj2 (Dict.get_None _ _)); [by eexists|].
    rewrite Dict.keys_app. cbn. set_solver.
Qed.

(** When the connection is lost every outstanding request fails with the
    reason, and from then on a request fails at once without being sent. *)
Theorem bootstrap_connection_lost (p : KafkaBootstrapProtocol) (reason : exn) :
  reachable sendString p → _failed p = None →
  ∃ p', connectionLost reason p = Ok p' ∧
    (∀ d, outstanding d (kp_deferreds p) → (d, Failure reason) ∈ firings (kp_deferreds p')) ∧
    (∀ d, ¬ outstanding d (kp_deferreds p')) ∧
    (∀ r, request sendString r p' = Ok (inl reason, p')).
Proof.
  intros Hwf%bootstrap_reachable_wf Hf.
  destruct (bootstrap_connectionLost_wf reason p Hwf Hf) as (p' & Hp' & Hwf' & Hf').
  exists p'. split; [done|]. destruct Hwf as [Hds Hp]. unfold connectionLost in Hp'.
  destruct (_pending p) as [pending|]; [|done]. destruct Hp as (_ & _ & _ & _ & Ho).
  destruct (fire_all _ _ _) as [ds|] eqn:Hfa; [|done]. cbn in Hp'.
  destruct (fire_all_records _ _ _ _ Hfa) as [_ Hrec]. simplify_eq. cbn in *. split_and!.
  - intros d Hd. by apply Hrec; [apply Ho|].
  - destruct Hwf' as [_ [_ H]]. exact H.
  - done.
Qed.
End theorems.

(** A concrete run: two requests, the second is answered. *)
Definition sample_request (correlation_id : Z) : bytes :=
  match _encode_message_header (byte_of_Z <$> txt "me") correlation_id METADATA_KEY 0 with
  | Ok b => b
  | Err _ => []
  end.

Definition sample_bootstrap : KafkaBootstrapProtocol :=
  step (λ _, None) (Request (sample_request 6))
    (step (λ _, None) (Request (sample_request 5)) connectionMade).

Lemma sample_bootstrap_reachable : reachable (λ _, None) sample_bootstrap.
Proof. repeat (apply reach_step; [|vm_compute; reflexivity]). apply reach_init. Qed.

Example bootstrap_safe_witness :
  bootstrap_wf sample_bootstrap ∧
  match handle (λ _, None) (StringReceived (be_encode 4 6)) sample_bootstrap with
  | Ok p' => bootstrap_wf p'
  | Err x => ∃ r, StringReceived (be_encode 4 6) = Request r ∧
      ((x = PyAssertionError ∧ ∃ pending, _pending sample_bootstrap = Some pending ∧
          slice r 4 8 ∈ Dict.keys pending) ∨ None = Some x)
  end.
Proof.
  exact (bootstrap_safe (λ _, None) sample_bootstrap (StringReceived (be_encode 4 6))
    sample_bootstrap_reachable eq_refl).
Defined.

Example bootstrap_response_witness :
  ∃ p'', stringReceived (be_encode 4 7 ++ [byte_of_Z 1])
      (step (λ _, None) (Request (sample_request 7)) sample_bootstrap) = Ok p'' ∧
    firings (kp_deferreds p'') = [(2%nat, Success (be_encode 4 7 ++ [byte_of_Z 1]))] ∧
    kp_effects p'' = ESend <$> [sample_request 5; sample_request 6; sample_request 7].
Proof.
  exact (bootstrap_response (λ _, None) sample_bootstrap
    (step (λ _, None) (Request (sample_request 7)) sample_bootstrap) (sample_request 7)
    (be_encode 4 7 ++ [byte_of_Z 1]) 2 sample_bootstrap_reachable eq_refl).
Defined.

(** C31. In every state the bootstrap protocol can reach, the deferreds are well
    formed (each fires at most once, after it was issued), an outstanding one
    is always waiting in [_pending], and no handler raises an error of its own:
    the only exceptions are the assertion on a correlation id still in use and
    what [sendString] itself raises. A request is answered by the response with
    its correlation id: after [request] issues a deferred, a response that
    starts with the bytes 4 to 8 of the request fires that deferred, with that
    response, and no other; one with an unknown id fires nothing and drops the
    connection. *)
Theorem bootstrap_correct (sendString : bytes → option exn) (p : KafkaBootstrapProtocol) :
  reachable sendString p →
  bootstrap_wf p ∧
  (∀ e, enabled e p = true →
    match handle sendString e p with
    | Ok p' => bootstrap_wf p'
    | Err x => ∃ r, e = Request r ∧
        ((x = PyAssertionError ∧ ∃ pending, _pending p = Some pending ∧
            slice r 4 8 ∈ Dict.keys pending) ∨ sendString r = Some x)
    end) ∧
  (∀ p' r s d, request sendString r p = Ok (inr d, p') →
    if decide (slice s 0 4 = slice r 4 8) then
      ∃ p'', stringReceived s p' = Ok p'' ∧
        firings (kp_deferreds p'') = firings (kp_deferreds p') ++ [(d, Success s)] ∧
        kp_effects p'' = kp_effects p'
    else ∀ pending, _pending p = Some pending → slice s 0 4 ∉ Dict.keys pending →
      ∃ p'', stringReceived s p' = Ok p'' ∧ kp_deferreds p'' = kp_deferreds p' ∧
        kp_effects p'' = kp_effects p' ++ [ELoseConnection]).
Proof.
  intros Hr. split; [by eapply bootstrap_reachable_wf|]. split.
  - intros e He. by apply (bootstrap_safe sendString p e Hr He).
  - intros p' r s d. by apply (bootstrap_response sendString).
Qed.

Example bootstrap_correct_witness :
  bootstrap_wf sample_bootstrap ∧
  ∃ p'', stringReceived (be_encode 4 7 ++ [byte_of_Z 1])
      (step (λ _, None) (Request (sample_request 7)) sample_bootstrap) = Ok p'' ∧
    firings (kp_deferreds p'') = [(2%nat, Success (be_encode 4 7 ++ [byte_of_Z 1]))] ∧
    kp_effects p'' = ESend <$> [sample_request 5; sample_request 6; sample_request 7].
Proof.
  destruct (bootstrap_correct (λ _, None) sample_bootstrap sample_bootstrap_reachable) as (Hw & _ & Hr).
  split; [exact Hw|].
  exact (Hr (step (λ _, None) (Request (sample_request 7)) sample_bootstrap) (sample_request 7)
    (be_encode 4 7 ++ [byte_of_Z 1]) 2%nat eq_refl).
Defined.

Example bootstrap_connection_lost_witness :
  ∃ p', connectionLost OtherError sample_bootstrap = Ok p' ∧
    (∀ d, outstanding d (kp_deferreds sample_bootstrap) →
       (d, Failure OtherError) ∈ firings (kp_deferreds p')) ∧
    (∀ d, ¬ outstanding d (kp_deferreds p')) ∧
    (∀ r, request (λ _, None) r p' = Ok (inl OtherError, p')).
Proof.
  exact (bootstrap_connection_lost (λ _, None) sample_bootstrap OtherError
    sample_bootstrap_reachable eq_refl).
Defined.

(** The bytes the protocol matches on are the codec's correlation id: bytes 4
    to 8 of every request header are the id's, so the response whose
    [get_response_correlation_id] is that id is the one that matches. *)
Theorem correlation_bytes (client_id header body s : bytes) (correlation_id key version : Z) :
  _encode_message_header client_id correlation_id key version = Ok header → 4 ≤ len s →
  slice (header ++ body) 4 8 = be_encode 4 correlation_id ∧
  (get_response_correlation_id s = Ok correlation_id ↔
     slice s 0 4 = slice (header ++ body) 4 8).
Proof.
  intros Hh Hs.
  assert (slice (header ++ body) 4 8 = be_encode 4 correlation_id ∧
    frange Fi correlation_id = true) as [Hslice Hr].
  { unfold _encode_message_header in Hh. rewrite pack_tuple in Hh.
    destruct (tuple_ok _ _) eqn:Hok; [|done]. cbn [tuple_ok fst snd] in Hok.
    rewrite !andb_true_iff in Hok. destruct Hok as (_ & _ & Hr & _). split; [|done].
    assert (header ++ body = (be_encode 2 key ++ be_encode 2 version) ++
      be_encode 4 correlation_id ++ be_encode 2 (len client_id) ++ client_id ++ body) as ->.
    { cbn [mbind result_bind] in Hh. 
      assert (header = tuple_bytes [Fh; Fh; Fi; Fh]
        (key, (version, (correlation_id, (len client_id, tt)))) ++ client_id) as -> by congruence.
      cbn [tuple_bytes fst snd fsize].
      by rewrite app_nil_r, <-!app_assoc. }
    apply slice_app3; by rewrite ?len_app, ?len_be_encode. }
  split; [done|]. rewrite Hslice.
  assert (length (slice s 0 4) = 4%nat) as Hl.
  { pose proof (len_slice s 0 4) as H. unfold slice_index, len in *. cbn -[Z.min] in H. lia. }
  unfold get_response_correlation_id, relative_unpack. change (calcsize [Fi]) with 4.
  rewrite (proj2 (Z.ltb_ge _ _)) by lia. unfold unpack. change (0 + 4) with 4.
  change (calcsize [Fi]) with 4. unfold len at 1. rewrite Hl.
  change (Z.of_nat 4 =? 4) with true. cbn [mbind result_bind unpack_all].
  rewrite take_ge by (rewrite Hl; cbn; lia). split.
  - intros H. assert (unpack1 Fi (slice s 0 4) = correlation_id) as <- by congruence.
    symmetry. by apply (be_encode_unpack1 Fi).
  - intros ->. by rewrite (unpack1_encode Fi).
Qed.

Example correlation_bytes_witness :
  slice (sample_request 5 ++ []) 4 8 = be_encode 4 5 ∧
  (get_response_correlation_id (be_encode 4 5) = Ok 5 ↔
     slice (be_encode 4 5) 0 4 = slice (sample_request 5 ++ []) 4 8).
Proof.
  apply (correlation_bytes (byte_of_Z <$> txt "me") (sample_request 5) [] (be_encode 4 5) 5
    METADATA_KEY 0); [vm_compute; reflexivity|vm_compute; discriminate].
Defined.
