(* ===== verification/BrokerClient.v ===== *)
(** [afkak/brokerclient.py]: [_KafkaBrokerClient], the connection to one
    broker, as a state machine. The reactor, the endpoint and the transport
    (Twisted) are not part of the source: what the client asks of them is
    recorded as effects, what they answer is an argument of the operation or an
    event. Request deferreds have a canceller, [_cancelRequest]. *)
From S2P Require Import Prelude Common PyBytes Util Wire KafkaCodec Deferred.
Local Open Scope Z_scope.

(** [_RequestState]; times are the reactor's seconds. *)
Record _RequestState := mkRequestState {
  correlationId : Z;
  request : bytes;
  expectResponse : bool;
  d : nat;
  queued : Z;
  sent : option Z;
  cancelled : option Z;
}.

Definition set_sent (t : option Z) (tReq : _RequestState) : _RequestState :=
  mkRequestState (correlationId tReq) (request tReq) (expectResponse tReq) (d tReq)
    (queued tReq) t (cancelled tReq).

Definition set_cancelled (t : option Z) (tReq : _RequestState) : _RequestState :=
  mkRequestState (correlationId tReq) (request tReq) (expectResponse tReq) (d tReq)
    (queued tReq) (sent tReq) t.

(** [self.connector]: [None], the deferred of a connection attempt or of the
    delay before the next one, or such a deferred after [close()] cancelled
    it. *)
Inductive connector_state := CNone | CConnecting | CDelaying | CCancelled.

#[export] Instance connector_state_eq_dec : EqDecision connector_state.
Proof. solve_decision. Defined.

(** What the client asks of the reactor, the endpoint and the transport. *)
Inductive effect :=
| EConnect (host : text) (port : Z)
| EConnected
| ESend (d : nat) (request : bytes)
| ELoseConnection
| EDelay (failures : Z)
| ECancelConnector.

(** [proto] is whether there is a protocol; [requests] is the [OrderedDict];
    [_dDown] is the deferred of [close()], with whether it has fired;
    [cancellers] holds the correlation id bound into each deferred's
    canceller. *)
Record _KafkaBrokerClient := mkBrokerClient {
  node_id : Z;
  host : text;
  port : Z;
  connector : connector_state;
  proto : bool;
  requests : list (Z * _RequestState);
  _dDown : option bool;
  _failures : Z;
  bc_deferreds : deferreds (option bytes);
  cancellers : list Z;
  effects : list effect;
}.

Abbreviation broker := _KafkaBrokerClient.

Definition __init__ (brokerMetadata : BrokerMetadata) : broker :=
  mkBrokerClient (bm_node_id brokerMetadata) (bm_host brokerMetadata) (bm_port brokerMetadata)
    CNone false [] None 0 no_deferreds [] [].

Definition with_connector c (b : broker) : broker :=
  mkBrokerClient (node_id b) (host b) (port b) c (proto b) (requests b) (_dDown b)
    (_failures b) (bc_deferreds b) (cancellers b) (effects b).
Definition with_proto p (b : broker) : broker :=
  mkBrokerClient (node_id b) (host b) (port b) (connector b) p (requests b) (_dDown b)
    (_failures b) (bc_deferreds b) (cancellers b) (effects b).
Definition with_requests r (b : broker) : broker :=
  mkBrokerClient (node_id b) (host b) (port b) (connector b) (proto b) r (_dDown b)
    (_failures b) (bc_deferreds b) (cancellers b) (effects b).
Definition with_dDown x (b : broker) : broker :=
  mkBrokerClient (node_id b) (host b) (port b) (connector b) (proto b) (requests b) x
    (_failures b) (bc_deferreds b) (cancellers b) (effects b).
Definition with_failures n (b : broker) : broker :=
  mkBrokerClient (node_id b) (host b) (port b) (connector b) (proto b) (requests b) (_dDown b)
    n (bc_deferreds b) (cancellers b) (effects b).
Definition with_deferreds ds (b : broker) : broker :=
  mkBrokerClient (node_id b) (host b) (port b) (connector b) (proto b) (requests b) (_dDown b)
    (_failures b) ds (cancellers b) (effects b).
Definition emit e (b : broker) : broker :=
  mkBrokerClient (node_id b) (host b) (port b) (connector b) (proto b) (requests b) (_dDown b)
    (_failures b) (bc_deferreds b) (cancellers b) (effects b ++ [e]).

(** [tReq.d.callback(...)] and [tReq.d.errback(...)] *)
Definition fire_request (tReq : _RequestState) (o : outcome (option bytes)) (b : broker)
    : res broker :=
  ds ← fire (d tReq) o (bc_deferreds b); Ok (with_deferreds ds b).

(** [del self.requests[k]] *)
Definition del_request (k : Z) (b : broker) : res broker :=
  match Dict.get k (requests b) with
  | Some _ => Ok (with_requests (Dict.del k (requests b)) b)
  | None => Err PyKeyError
  end.

(** Assigning to a field of a request object: [requests] sees it if the
    object is there. *)
Definition update_request (tReq : _RequestState) (b : broker) : broker :=
  match Dict.get (correlationId tReq) (requests b) with
  | Some _ => with_requests (Dict.set (correlationId tReq) tReq (requests b)) b
  | None => b
  end.

(** [self._dDown.callback(None)] *)
Definition fire_down (b : broker) : res broker :=
  match _dDown b with
  | None => Err PyAttributeError
  | Some true => Err AlreadyCalledError
  | Some false => Ok (with_dDown (Some true) b)
  end.

Definition updateMetadata (new : BrokerMetadata) (b : broker) : res broker :=
  if negb (node_id b =? bm_node_id new) then Err PyValueError
  else Ok (mkBrokerClient (bm_node_id new) (bm_host new) (bm_port new) (connector b) (proto b)
             (requests b) (_dDown b) (_failures b) (bc_deferreds b) (cancellers b) (effects b)).

Definition disconnect (b : broker) : broker :=
  if proto b then emit ELoseConnection b else b.

Definition connected (b : broker) : bool := proto b.

Section client.
(** The exception [sendString] raises for a request, if any. *)
Context (sendString : bytes → option exn).

Definition _sendRequest (now : Z) (tReq : _RequestState) (b : broker) : res broker :=
  let tReq := set_sent (Some now) tReq in
  let b := update_request tReq b in
  match (if proto b then sendString (request tReq) else Some PyAttributeError) with
  | Some e =>
    b ← del_request (correlationId tReq) b;
    fire_request tReq (Failure e) b
  | None =>
    let b := emit (ESend (d tReq) (request tReq)) b in
    if negb (expectResponse tReq) then
      b ← del_request (correlationId tReq) b;
      fire_request tReq (Success None) b
    else Ok b
  end.

(** The loop runs over a copy of the values. *)
Definition _sendQueued (now : Z) (b : broker) : res broker :=
  for_each (Dict.values (requests b)) (λ b tReq,
    match sent tReq with None => _sendRequest now tReq b | Some _ => Ok b end) b.

(** The answer of [endpoint.connect] when it is called: none yet, a
    protocol, or a failure. *)
Inductive connect_result := ConnectPending | ConnectOk | ConnectFailed.

Definition cbConnect (now : Z) (b : broker) : res broker :=
  let b := emit EConnected (with_proto true (with_connector CNone (with_failures 0 b))) in
  match _dDown b with
  | Some _ => Ok (emit ELoseConnection b)
  | None => _sendQueued now b
  end.

(** The delay is [self._retryPolicy(self._failures)] seconds. *)
Definition ebConnect (b : broker) : broker :=
  match _dDown b with
  | Some _ => b
  | None =>
    let b := with_failures (_failures b + 1) b in
    with_connector CDelaying (emit (EDelay (_failures b)) b)
  end.

Definition tryConnect (answer : connect_result) (now : Z) (b : broker) : res broker :=
  let b := emit (EConnect (host b) (port b)) (with_connector CConnecting b) in
  match answer with
  | ConnectPending => Ok b
  | ConnectOk => cbConnect now b
  | ConnectFailed => Ok (ebConnect b)
  end.

Definition cbDelayed := tryConnect.

Definition _connect (answer : connect_result) (now : Z) (b : broker) : res broker :=
  tryConnect answer now (with_failures 0 b).

(** [inl e] is the deferred [fail(e)]; [inr d] is a new deferred. *)
Definition makeRequest (correlationId : Z) (request : bytes) (expectResponse : bool)
    (answer : connect_result) (now : Z) (b : broker) : res ((exn + nat) * broker) :=
  if bool_decide (correlationId ∈ Dict.keys (requests b)) then Err DuplicateRequestError
  else
    match _dDown b with
    | Some _ => Ok (inl ClientError, b)
    | None =>
      let '(d, ds) := new_deferred (bc_deferreds b) in
      let tReq := mkRequestState correlationId request expectResponse d now None None in
      let b := mkBrokerClient (node_id b) (host b) (port b) (connector b) (proto b)
                 (Dict.set correlationId tReq (requests b)) (_dDown b) (_failures b)
                 ds (cancellers b ++ [correlationId]) (effects b) in
      b ← (if proto b then _sendRequest now tReq b
           else if bool_decide (connector b = CNone) then _connect answer now b
           else Ok b);
      Ok (inr d, b)
    end.

(** [d.cancel()]: nothing if it has fired; else the canceller runs, and the
    deferred fails with [CancelledError]. *)
Definition _cancelRequest (correlationId : Z) (now : Z) (b : broker) : res broker :=
  match Dict.get correlationId (requests b) with
  | None => Err PyKeyError
  | Some tReq =>
    match sent tReq with
    | Some _ => Ok (update_request (set_cancelled (Some now) tReq) b)
    | None => del_request correlationId b
    end
  end.

Definition cancel (d : nat) (now : Z) (b : broker) : res broker :=
  if called d (bc_deferreds b) then Ok b
  else
    match cancellers b !! d with
    | None => Err PyIndexError
    | Some correlationId =>
      b ← _cancelRequest correlationId now b;
      ds ← fire d (Failure TwistedCancelledError) (bc_deferreds b);
      Ok (with_deferreds ds b)
    end.

(** Never called in the source. *)
Definition _abortRequest (correlationId : Z) (reason : exn) (b : broker) : res broker :=
  match Dict.get correlationId (requests b) with
  | None => Err PyKeyError
  | Some tReq =>
    fire_request tReq (Failure reason) (with_requests (Dict.del correlationId (requests b)) b)
  end.

Definition handleResponse (response : bytes) (b : broker) : res broker :=
  correlationId ← get_response_correlation_id response;
  match Dict.get correlationId (requests b) with
  | None => Ok b
  | Some tReq =>
    let b := with_requests (Dict.del correlationId (requests b)) b in
    match cancelled tReq with
    | Some _ => Ok b
    | None => fire_request tReq (Success (Some response)) b
    end
  end.

Definition _connectionLost (answer : connect_result) (now : Z) (b : broker) : res broker :=
  let b := with_proto false b in
  b ← for_each (Dict.values (requests b)) (λ b tReq,
    match cancelled tReq with
    | Some _ => del_request (correlationId tReq) b
    | None => Ok (update_request (set_sent None tReq) b)
    end) b;
  match _dDown b with
  | Some _ => fire_down b
  | None => if bool_decide (requests b = []) then Ok b else _connect answer now b
  end.

(** The [while self.requests] loop of [close], last request first. *)
Fixpoint close_requests (fuel : nat) (b : broker) : res broker :=
  match fuel with
  | O => match requests b with [] => Ok b | _ => Err OutOfFuel end
  | S fuel =>
    match last (requests b) with
    | None => Ok b
    | Some (correlationId, tReq) =>
      let b := with_requests (Dict.del correlationId (requests b)) b in
      b ← (match cancelled tReq with
           | None => fire_request tReq (Failure ClientError) b
           | Some _ => Ok b
           end);
      close_requests fuel b
    end
  end.

(** [cancel_connects]: cancelling a connection attempt makes its deferred
    fail, unless the endpoint's canceller chooses to make it succeed. *)
Definition close (cancel_connects : bool) (now : Z) (b : broker) : res broker :=
  match _dDown b with
  | Some _ => Err PyAssertionError
  | None =>
    let b := with_dDown (Some false) b in
    b ← (if proto b then Ok (emit ELoseConnection b)
         else if negb (bool_decide (connector b = CNone)) then
           let attempt := connector b in
           let b := with_connector CCancelled (emit ECancelConnector b) in
           if cancel_connects && bool_decide (attempt = CConnecting) then cbConnect now b
           else fire_down b
         else fire_down b);
    close_requests (length (requests b)) b
  end.
End client.

(** ** The client as a state machine

    The endpoint answers while a connection attempt is pending, the reactor
    ends the delay, the transport delivers strings and the loss of the
    connection while there is a protocol, holders cancel deferreds they were
    given. *)
Inductive event :=
| MakeRequest (correlationId : Z) (request : bytes) (expectResponse : bool)
    (answer : connect_result) (now : Z)
| Cancel (d : nat) (now : Z)
| Response (response : bytes)
| ConnectionLost (answer : connect_result) (now : Z)
| Connected (now : Z)
| ConnectError
| DelayElapsed (answer : connect_result) (now : Z)
| Close (cancel_connects : bool) (now : Z)
| Disconnect
| UpdateMetadata (new : BrokerMetadata).

Definition enabled (e : event) (b : broker) : bool :=
  match e with
  | MakeRequest _ _ _ _ _ | Close _ _ | Disconnect | UpdateMetadata _ => true
  | Cancel d _ => bool_decide (d < issued (bc_deferreds b))%nat
  | Response _ | ConnectionLost _ _ => proto b
  | Connected _ | ConnectError => bool_decide (connector b = CConnecting)
  | DelayElapsed _ _ => bool_decide (connector b = CDelaying)
  end.

Section machine.
Context (sendString : bytes → option exn).

Definition handle (e : event) (b : broker) : res broker :=
  match e with
  | MakeRequest k r x answer now =>
    '(_, b) ← makeRequest sendString k r x answer now b; Ok b
  | Cancel d now => cancel d now b
  | Response s => handleResponse s b
  | ConnectionLost answer now => _connectionLost sendString answer now b
  | Connected now => cbConnect sendString now b
  | ConnectError => Ok (ebConnect b)
  | DelayElapsed answer now => cbDelayed sendString answer now b
  | Close c now => close sendString c now b
  | Disconnect => Ok (disconnect b)
  | UpdateMetadata new => updateMetadata new b
  end.

(** An exception goes to the caller; the theorems show that it is raised
    before anything has changed. *)
Definition step (e : event) (b : broker) : broker :=
  match handle e b with Ok b => b | Err _ => b end.

Inductive reachable (m : BrokerMetadata) : broker → Prop :=
| reach_init : reachable m (__init__ m)
| reach_step e b : reachable m b → enabled e b = true → reachable m (step e b).
End machine.

(** ** Invariants *)

(** The request table against the deferreds: one entry per correlation id,
    under its own id, with its own deferred; the deferred of an entry is
    outstanding unless the entry is marked cancelled, only a sent entry is, and
    every outstanding deferred has its entry. *)
Record core_wf (R : list (Z * _RequestState)) (D : deferreds (option bytes)) (C : list Z) : Prop := {
  core_deferreds : deferreds_wf D;
  core_plain : suppressed D = [];
  core_cancellers : length C = issued D;
  core_keys : NoDup (Dict.keys R);
  core_ids : NoDup (d <$> Dict.values R);
  core_entry k t : (k, t) ∈ R → correlationId t = k ∧ C !! d t = Some k ∧
    (outstanding (d t) D ↔ cancelled t = None) ∧ (cancelled t ≠ None → sent t ≠ None);
  core_outstanding x : outstanding x D → ∃ k t, (k, t) ∈ R ∧ d t = x;
}.

Definition upd R D E (b : broker) : broker :=
  mkBrokerClient (node_id b) (host b) (port b) (connector b) (proto b) R (_dDown b)
    (_failures b) D (cancellers b) E.

Lemma fire_eq {A} x (o : outcome A) D :
  outstanding x D → suppressed D = [] →
  fire x o D = Ok (mkDeferreds (issued D) (firings D ++ [(x, o)]) []).
Proof. intros Ho Hs. by rewrite fire_outstanding, Hs. Qed.

Section core.
Context (R : list (Z * _RequestState)) (D : deferreds (option bytes)) (C : list Z).
Hypothesis Hwf : core_wf R D C.

Lemma core_distinct k t k' t' : (k, t) ∈ R → (k', t') ∈ R → d t = d t' → (k, t) = (k', t').
Proof.
  intros H1 H2 Hd. pose proof (core_entry _ _ _ Hwf _ _ H1) as (_ & Hc & _).
  pose proof (core_entry _ _ _ Hwf _ _ H2) as (_ & Hc' & _).
  assert (k = k') as <- by congruence.
  apply (Dict.get_elem _ _ _ (core_keys _ _ _ Hwf)) in H1, H2. congruence.
Qed.

(** A new request. *)
Lemma core_new k t :
  k ∉ Dict.keys R → correlationId t = k → d t = issued D → cancelled t = None →
  core_wf (R ++ [(k, t)]) (new_deferred D).2 (C ++ [k]).
Proof.
  intros Hk Ht Hd Hcn. destruct Hwf as [H1 H2 H3 H4 H5 H6 H7].
  pose proof (new_deferred_wf _ H1) as Hnw.
  pose proof (λ x, new_deferred_outstanding D x H1) as Hno. split.
  - exact Hnw.
  - done.
  - rewrite length_app, H3. cbn. lia.
  - rewrite Dict.keys_app. apply NoDup_app. split; [done|]. split; [set_solver|apply NoDup_singleton].
  - rewrite Dict.values_app, fmap_app. apply NoDup_app. split; [done|]. split; [|apply NoDup_singleton].
    intros x Hx ->%list_elem_of_singleton. cbn in Hx. rewrite Hd in Hx.
    apply list_elem_of_fmap in Hx as (t' & Hx & ([k' t''] & -> & Hin)%list_elem_of_fmap).
    apply H6 in Hin as (_ & Hc & _). cbn in Hx. apply lookup_lt_Some in Hc. lia.
  - intros k' t' [Hin|Hin]%elem_of_app.
    + destruct (H6 _ _ Hin) as (? & Hc & Ho & ?). split_and!; [done| |rewrite Hno, <-Ho|done].
      * by apply lookup_app_l_Some.
      * apply lookup_lt_Some in Hc. split; [intros [?|?]; [done|lia]|by left].
    + apply list_elem_of_singleton in Hin as [= -> ->]. split_and!; [done| |rewrite Hno|done].
      * rewrite Hd, lookup_app_r by lia. by rewrite H3, Nat.sub_diag.
      * rewrite Hcn, Hd. tauto.
  - intros x [Hx| ->]%Hno.
    + destruct (H7 _ Hx) as (k' & t' & ? & ?). exists k', t'. set_solver.
    + exists k, t. set_solver.
Qed.

(** Removing the entry at [k], whose position splits the table. *)
Lemma core_remove_fire R1 R2 k t o :
  R = R1 ++ (k, t) :: R2 → cancelled t = None →
  ∃ D', fire (d t) o D = Ok D' ∧ core_wf (R1 ++ R2) D' C ∧ issued D' = issued D ∧
    firings D' = firings D ++ [(d t, o)].
Proof.
  pose proof core_distinct as Hdist. intros -> Hcn. destruct Hwf as [H1 H2 H3 H4 H5 H6 H7].
  assert ((k, t) ∈ R1 ++ (k, t) :: R2) as Hin by set_solver.
  destruct (H6 _ _ Hin) as (Hk & Hc & Ho & _). apply Ho in Hcn.
  eexists. split; [by apply fire_eq|]. split; [|done].
  assert (∀ k' t', (k', t') ∈ R1 ++ R2 → (k', t') ∈ R1 ++ (k, t) :: R2 ∧ k' ≠ k) as Hsub.
  { intros k' t' Hin'. split; [set_solver|]. intros ->.
    rewrite Dict.keys_app in H4. cbn in H4.
    apply NoDup_app in H4 as (_ & Hn1 & [Hn2 _]%NoDup_cons).
    apply elem_of_app in Hin' as [Hi|Hi]; apply (list_elem_of_fmap_2 fst) in Hi; cbn in Hi.
    - by apply (Hn1 k Hi); left.
    - done. }
  assert (∀ x, outstanding x (mkDeferreds (issued D) (firings D ++ [(d t, o)]) []) ↔
    outstanding x D ∧ x ≠ d t) as Hno.
  { intros x. eapply fire_effect. by apply fire_eq. }
  split.
  - eapply fire_wf; [done| |by apply fire_eq]. apply Hcn.
  - done.
  - done.
  - rewrite !Dict.keys_app in *. cbn in H4. by apply NoDup_app_middle in H4.
  - rewrite !Dict.values_app, !fmap_app in *. cbn in H5. by apply NoDup_app_middle in H5.
  - intros k' t' Hin'. apply Hsub in Hin' as [Hin' Hne].
    destruct (H6 _ _ Hin') as (? & ? & Ho' & ?). split_and!; [done|done| |done].
    rewrite Hno, Ho'. split; [by intros [? _]|]. intros ?. split; [done|].
    intros Heq. apply Hne. pose proof (Hdist _ _ _ _ Hin' Hin Heq). congruence.
  - intros x [Hx Hne]%Hno. destruct (H7 _ Hx) as (k' & t' & Hi & <-).
    exists k', t'. split; [|done]. apply elem_of_app in Hi as [?|[?|?]%elem_of_cons]; [set_solver| |set_solver].
    simplify_eq.
Qed.

Lemma core_remove_cancelled R1 R2 k t :
  R = R1 ++ (k, t) :: R2 → cancelled t ≠ None → core_wf (R1 ++ R2) D C.
Proof.
  intros -> Hcn. destruct Hwf as [H1 H2 H3 H4 H5 H6 H7].
  assert ((k, t) ∈ R1 ++ (k, t) :: R2) as Hin by set_solver.
  destruct (H6 _ _ Hin) as (Hk & Hc & Ho & _). split; [done..| | | |].
  - rewrite !Dict.keys_app in *. cbn in H4. by apply NoDup_app_middle in H4.
  - rewrite !Dict.values_app, !fmap_app in *. cbn in H5. by apply NoDup_app_middle in H5.
  - intros k' t' Hin'. apply H6. set_solver.
  - intros x Hx. destruct (H7 _ Hx) as (k' & t' & Hi & <-). exists k', t'. split; [|done].
    apply elem_of_app in Hi as [?|[?|?]%elem_of_cons]; [set_solver| |set_solver].
    simplify_eq. by apply Ho in Hx.
Qed.

(** Changing the flags of an entry, and firing its deferred when the change
    marks it cancelled. *)
Lemma core_update R1 R2 k t t' :
  R = R1 ++ (k, t) :: R2 → correlationId t' = k → d t' = d t → cancelled t' = cancelled t →
  (cancelled t' ≠ None → sent t' ≠ None) → core_wf (R1 ++ (k, t') :: R2) D C.
Proof.
  intros -> Hk Hd Hcn Hs. destruct Hwf as [H1 H2 H3 H4 H5 H6 H7].
  assert ((k, t) ∈ R1 ++ (k, t) :: R2) as Hin by set_solver. split; [done..| | | |].
  - rewrite !Dict.keys_app in *. done.
  - rewrite !Dict.values_app, !fmap_app in *. cbn in *. by rewrite Hd.
  - intros k' t'' [?|[[= -> ->]|?]%elem_of_cons]%elem_of_app;
      [apply H6; set_solver| |apply H6; set_solver].
    destruct (H6 _ _ Hin) as (? & ? & ? & ?). by rewrite Hd, Hcn in *.
  - intros x Hx. destruct (H7 _ Hx) as (k' & t'' & Hi & Hdx).
    apply elem_of_app in Hi as [?|[[= -> ->]|?]%elem_of_cons].
    + exists k', t''. set_solver.
    + exists k, t'. set_solver.
    + exists k', t''. set_solver.
Qed.

Lemma core_cancel_sent R1 R2 k t now o :
  R = R1 ++ (k, t) :: R2 → cancelled t = None → sent t ≠ None →
  ∃ D', fire (d t) o D = Ok D' ∧
    core_wf (R1 ++ (k, set_cancelled (Some now) t) :: R2) D' C ∧ issued D' = issued D ∧
    firings D' = firings D ++ [(d t, o)].
Proof.
  pose proof core_distinct as Hdist. intros -> Hcn Hs. destruct Hwf as [H1 H2 H3 H4 H5 H6 H7].
  assert ((k, t) ∈ R1 ++ (k, t) :: R2) as Hin by set_solver.
  destruct (H6 _ _ Hin) as (Hk & Hc & Ho & _). apply Ho in Hcn.
  eexists. split; [by apply fire_eq|]. split; [|done].
  assert (∀ x, outstanding x (mkDeferreds (issued D) (firings D ++ [(d t, o)]) []) ↔
    outstanding x D ∧ x ≠ d t) as Hno.
  { intros x. eapply fire_effect. by apply fire_eq. }
  split.
  - eapply fire_wf; [done| |by apply fire_eq]. apply Hcn.
  - done.
  - done.
  - rewrite !Dict.keys_app in *. done.
  - rewrite !Dict.values_app, !fmap_app in *. done.
  - intros k' t' Hi. destruct (decide (k' = k)) as [->|Hne].
    + assert ((k, t') = (k, set_cancelled (Some now) t)) as [= ->].
      { assert (NoDup (Dict.keys (R1 ++ (k, set_cancelled (Some now) t) :: R2))) as Hnd
          by (rewrite !Dict.keys_app in *; done).
        apply (Dict.get_elem _ _ _ Hnd) in Hi.
        rewrite (Dict.get_elem _ k (set_cancelled (Some now) t) Hnd) in Hi by set_solver. congruence. }
      cbn. split_and!; [done|done| |done]. rewrite Hno. split; [by intros [_ ?]|done].
    + assert ((k', t') ∈ R1 ++ (k, t) :: R2) as Hi' by set_solver.
      destruct (H6 _ _ Hi') as (? & ? & Ho' & ?). split_and!; [done|done| |done].
      rewrite Hno, Ho'. split; [by intros [? _]|]. intros ?. split; [done|].
      intros Heq. apply Hne. pose proof (Hdist _ _ _ _ Hi' Hin Heq). congruence.
  - intros x [Hx Hne]%Hno. destruct (H7 _ Hx) as (k' & t' & Hi & <-).
    exists k', t'. split; [|done]. apply elem_of_app in Hi as [?|[?|?]%elem_of_cons]; [set_solver| |set_solver].
    simplify_eq.
Qed.
End core.

(** ** What the operations do to a well-formed client *)

Abbreviation bc_wf b := (core_wf (requests b) (bc_deferreds b) (cancellers b)).

(** A request as an array index: its position in the table. *)
Lemma table_split b k t :
  bc_wf b → Dict.get k (requests b) = Some t →
  ∃ R1 R2, requests b = R1 ++ ((k, t) :: R2) ∧ (k ∉ Dict.keys R1) ∧ correlationId t = k.
Proof.
  intros Hwf Hg. destruct (dict_split _ _ _ (core_keys _ _ _ Hwf) Hg) as (R1 & R2 & HR & Hk & _).
  exists R1, R2. split; [done|]. split; [done|].
  apply Dict.get_Some_elem in Hg. by destruct (core_entry _ _ _ Hwf _ _ Hg).
Qed.

Lemma table_fresh (R1 R2 : list (Z * _RequestState)) k t :
  NoDup (Dict.keys (R1 ++ (k, t) :: R2)) → k ∉ Dict.keys R1.
Proof.
  rewrite Dict.keys_app. cbn. intros (_ & H1 & _)%NoDup_app Hin. by apply (H1 k Hin); left.
Qed.

Lemma del_request_middle b R1 R2 k t :
  requests b = R1 ++ (k, t) :: R2 → k ∉ Dict.keys R1 →
  del_request k b = Ok (with_requests (R1 ++ R2) b).
Proof. intros HR Hk. unfold del_request. by rewrite HR, dict_get_middle, dict_del_middle. Qed.

Lemma update_request_middle b R1 R2 k t t' :
  requests b = R1 ++ (k, t) :: R2 → k ∉ Dict.keys R1 → correlationId t' = k →
  update_request t' b = with_requests (R1 ++ (k, t') :: R2) b.
Proof.
  intros HR Hk <-. unfold update_request. by rewrite HR, dict_get_middle, dict_set_middle.
Qed.

Section operations.
Context (sendString : bytes → option exn).

(** What is left of a request once it has been written to the connection:
    nothing if that failed or if no response is expected. *)
Definition after_send (now : Z) (kt : Z * _RequestState) : option (Z * _RequestState) :=
  match sendString (request kt.2) with
  | Some _ => None
  | None => if expectResponse kt.2 then Some (kt.1, set_sent (Some now) kt.2) else None
  end.

(** The write itself, and the firing of the request's deferred, if any. *)
Definition send_effect (kt : Z * _RequestState) : option effect :=
  match sendString (request kt.2) with
  | Some _ => None
  | None => Some (ESend (d kt.2) (request kt.2))
  end.

Definition send_firing (kt : Z * _RequestState) : option (nat * outcome (option bytes)) :=
  match sendString (request kt.2) with
  | Some e => Some (d kt.2, Failure e)
  | None => if expectResponse kt.2 then None else Some (d kt.2, Success None)
  end.

Lemma sendRequest_eq now b R1 R2 k t :
  bc_wf b → proto b = true → requests b = R1 ++ (k, t) :: R2 → cancelled t = None →
  ∃ D', _sendRequest sendString now t b =
      Ok (upd (R1 ++ option_list (after_send now (k, t)) ++ R2) D'
            (effects b ++ option_list (send_effect (k, t))) b) ∧
    core_wf (R1 ++ option_list (after_send now (k, t)) ++ R2) D' (cancellers b) ∧
    firings D' = firings (bc_deferreds b) ++ option_list (send_firing (k, t)).
Proof.
  intros Hwf Hp HR Hcn. pose proof (core_keys _ _ _ Hwf) as Hk.
  rewrite HR in Hwf, Hk. apply table_fresh in Hk.
  assert (correlationId t = k) as Ht by (apply (core_entry _ _ _ Hwf k t); set_solver).
  unfold _sendRequest, after_send, send_effect, send_firing. cbn [request set_sent fst snd].
  unfold update_request. cbn [correlationId set_sent]. rewrite Ht, HR, dict_get_middle by done.
  rewrite dict_set_middle by done. cbn [proto with_requests]. rewrite Hp.
  pose proof (λ o, core_remove_fire _ _ _ Hwf R1 R2 k t o eq_refl Hcn) as Hrm.
  destruct (sendString (request t)) as [e|] eqn:Hs.
  - destruct (Hrm (Failure e)) as (D' & Hf & Hwf' & Hi & Hfs). unfold del_request. cbn [requests with_requests]. rewrite dict_get_middle, dict_del_middle by done.
    cbn [mbind result_bind]. unfold fire_request. cbn [d set_sent bc_deferreds with_requests].
    rewrite Hf. exists D'. split_and!; [|done|done]. unfold upd. cbn. by rewrite app_nil_r.
  - cbn [expectResponse set_sent]. destruct (expectResponse t); cbn [negb].
    + exists (bc_deferreds b). split_and!; [done| |cbn; by rewrite app_nil_r]. cbn.
      eapply core_update; [exact Hwf|done|done|done|done|done].
    + destruct (Hrm (Success None)) as (D' & Hf & Hwf' & Hi & Hfs).
      unfold del_request. cbn [requests with_requests emit].
      rewrite dict_get_middle, dict_del_middle by done.
      cbn [mbind result_bind]. unfold fire_request. cbn [d set_sent bc_deferreds with_requests emit].
      rewrite Hf. exists D'. split_and!; [done|done|done].
Qed.

(** A run of unsent requests is written in order. *)
Lemma send_loop now R2 : ∀ b R1,
  bc_wf b → proto b = true → requests b = R1 ++ R2 →
  Forall (λ kt, sent kt.2 = None ∧ cancelled kt.2 = None) R2 →
  ∃ D', for_each (Dict.values R2) (λ b tReq,
      match sent tReq with None => _sendRequest sendString now tReq b | Some _ => Ok b end) b =
      Ok (upd (R1 ++ omap (after_send now) R2) D' (effects b ++ omap send_effect R2) b) ∧
    core_wf (R1 ++ omap (after_send now) R2) D' (cancellers b) ∧
    firings D' = firings (bc_deferreds b) ++ omap send_firing R2.
Proof.
  induction R2 as [|[k t] R2 IH]; intros b R1 Hwf Hp HR Hall.
  - exists (bc_deferreds b). cbn. rewrite !app_nil_r in *. rewrite <-HR.
    split_and!; [|done|done]. by destruct b.
  - apply Forall_cons in Hall as [[Hs Hcn] Hall]. cbn [fst snd] in Hs, Hcn.
    cbn [Dict.values fmap list_fmap for_each snd]. rewrite Hs.
    destruct (sendRequest_eq now b R1 R2 k t Hwf Hp HR Hcn) as (D1 & -> & Hwf1 & Hf1).
    cbn [mbind result_bind].
    destruct (IH (upd (R1 ++ option_list (after_send now (k, t)) ++ R2) D1
      (effects b ++ option_list (send_effect (k, t))) b)
      (R1 ++ option_list (after_send now (k, t)))) as (D2 & Hl & Hwf2 & Hf2).
    + exact Hwf1.
    + done.
    + cbn. by rewrite app_assoc.
    + done.
    + exists D2. unfold Dict.values in Hl. rewrite Hl. cbn in Hf2.
      rewrite !omap_cons_app, Hf2, Hf1, <-!app_assoc. cbn in Hwf2. rewrite <-app_assoc in Hwf2.
      split_and!; [|done|done]. unfold upd. cbn. by rewrite <-!app_assoc.
Qed.
End operations.

(** What the loss of the connection leaves of a request: it is unsent again,
    unless it was cancelled. *)
Definition after_loss (kt : Z * _RequestState) : option (Z * _RequestState) :=
  match cancelled kt.2 with Some _ => None | None => Some (kt.1, set_sent None kt.2) end.

Lemma loss_loop R2 : ∀ b R1,
  bc_wf b → requests b = R1 ++ R2 →
  for_each (Dict.values R2) (λ b tReq,
    match cancelled tReq with
    | Some _ => del_request (correlationId tReq) b
    | None => Ok (update_request (set_sent None tReq) b)
    end) b = Ok (upd (R1 ++ omap after_loss R2) (bc_deferreds b) (effects b) b) ∧
  core_wf (R1 ++ omap after_loss R2) (bc_deferreds b) (cancellers b).
Proof.
  induction R2 as [|[k t] R2 IH]; intros b R1 Hwf HR.
  - cbn. rewrite app_nil_r in *. rewrite <-HR. split; [by destruct b|done].
  - pose proof Hwf as Hwf0. rewrite HR in Hwf0.
    pose proof (table_fresh _ _ _ _ (core_keys _ _ _ Hwf0)) as Hk.
    assert (correlationId t = k) as Ht by (apply (core_entry _ _ _ Hwf0 k t); set_solver).
    change (Dict.values ((k, t) :: R2)) with (t :: Dict.values R2). cbn [for_each].
    rewrite omap_cons_app.
    unfold after_loss at 1 3. cbn [fst snd].
    destruct (cancelled t) as [c|] eqn:Hc; cbn [option_list app].
    + rewrite Ht, (del_request_middle _ _ _ _ _ HR Hk). cbn [mbind result_bind].
      destruct (IH (with_requests (R1 ++ R2) b) R1) as [Hl Hw];
        [eapply core_remove_cancelled; [exact Hwf0|done|by rewrite Hc]|done|].
      rewrite Hl. by split.
    + rewrite (update_request_middle _ _ _ _ _ _ HR Hk) by done. cbn [mbind result_bind].
      destruct (IH (with_requests (R1 ++ (k, set_sent None t) :: R2) b) (R1 ++ [(k, set_sent None t)]))
        as [Hl Hw].
      * eapply core_update; [exact Hwf0|done|done|done|done|]. cbn. by rewrite Hc.
      * cbn. by rewrite <-app_assoc.
      * rewrite Hl. cbn in Hw |- *. rewrite <-!app_assoc in *. by split.
Qed.

(** The firings of [close], last request first. *)
Definition close_firing (kt : Z * _RequestState) : option (nat * outcome (option bytes)) :=
  match cancelled kt.2 with Some _ => None | None => Some (d kt.2, Failure ClientError) end.

Lemma close_loop R : ∀ n b,
  bc_wf b → requests b = R → length R = n →
  ∃ D', close_requests n b = Ok (upd [] D' (effects b) b) ∧ core_wf [] D' (cancellers b) ∧
    firings D' = firings (bc_deferreds b) ++ omap close_firing (reverse R).
Proof.
  induction R as [|[k t] R IH] using rev_ind; intros n b Hwf HR Hn.
  - subst n. exists (bc_deferreds b). cbn. rewrite HR. rewrite HR in Hwf. rewrite app_nil_r.
    split_and!; [|done|done]. f_equal. destruct b. cbn in *. by subst.
  - rewrite length_app in Hn. cbn in Hn. destruct n as [|n]; [lia|].
    pose proof Hwf as Hwf0. rewrite HR in Hwf0.
    pose proof (table_fresh _ _ _ _ (core_keys _ _ _ Hwf0)) as Hk.
    cbn [close_requests]. rewrite HR, last_snoc, dict_del_middle, app_nil_r by done.
    rewrite reverse_app. cbn [reverse rev_append app omap list_omap].
    unfold close_firing at 1. cbn [snd].
    destruct (cancelled t) as [c|] eqn:Hc.
    + cbn [mbind result_bind]. destruct (IH n (with_requests R b)) as (D' & -> & ? & ?).
      * rewrite <-(app_nil_r R). eapply core_remove_cancelled; [exact Hwf0|done|by rewrite Hc].
      * done.
      * lia.
      * by exists D'.
    + destruct (core_remove_fire _ _ _ Hwf0 R [] k t (Failure ClientError) eq_refl Hc)
        as (D1 & Hf & Hwf1 & Hi & Hfs). rewrite app_nil_r in Hwf1.
      unfold fire_request. cbn [bc_deferreds with_requests]. rewrite Hf.
      cbn [mbind result_bind].
      destruct (IH n (with_deferreds D1 (with_requests R b))) as (D' & -> & ? & Hfs');
        [done|done|lia|].
      exists D'. split_and!; [done|done|]. rewrite Hfs'. cbn. rewrite Hfs, <-app_assoc. done.
Qed.

(** ** The invariant of the client *)

(** The requests written to the current (or last) connection. *)
Definition sends_since (acc : list nat) (es : list effect) : list nat :=
  foldl (λ acc e, match e with
                  | EConnected => []
                  | ESend d _ => acc ++ [d]
                  | _ => acc
                  end) acc es.

Definition conn_wf (b : broker) : Prop :=
  match _dDown b with
  | None =>
    connector b ≠ CCancelled ∧
    if proto b then
      connector b = CNone ∧
      Forall (λ kt, sent kt.2 ≠ None ∧ expectResponse kt.2 = true) (requests b)
    else
      Forall (λ kt, sent kt.2 = None) (requests b) ∧ (requests b ≠ [] → connector b ≠ CNone)
  | Some fired =>
    requests b = [] ∧ fired = negb (proto b) ∧ (connector b = CNone ∨ connector b = CCancelled)
  end.

Definition sends_wf (b : broker) : Prop :=
  NoDup (sends_since [] (effects b)) ∧
  Forall (λ x, x < issued (bc_deferreds b))%nat (sends_since [] (effects b)).

(** The table agrees with the deferreds; while open, requests wait only if a
    connection is being made, and on a connection everything in the table has
    been sent and awaits a response; once closed nothing waits and the deferred
    of [close] has fired unless the connection is still going down; nothing is
    sent twice on one connection. *)
Definition broker_wf (b : broker) : Prop := bc_wf b ∧ conn_wf b ∧ sends_wf b.

Lemma sends_since_app acc es1 es2 :
  sends_since acc (es1 ++ es2) = sends_since (sends_since acc es1) es2.
Proof. apply foldl_app. Qed.

Section invariant.
Context (sendString : bytes → option exn).

Lemma sends_since_sent acc (R : list (Z * _RequestState)) :
  ∃ l, sends_since acc (omap (send_effect sendString) R) = acc ++ l ∧
    sublist l (d <$> Dict.values R).
Proof.
  revert acc. induction R as [|[k t] R IH]; intros acc.
  - exists []. by rewrite app_nil_r.
  - rewrite omap_cons_app. unfold send_effect at 1. cbn [fst snd].
    destruct (sendString (request t)).
    + destruct (IH acc) as (l & Hs & Hl). exists l. split; [exact Hs|]. by apply sublist_cons.
    + destruct (IH (acc ++ [d t])) as (l & Hs & Hl). exists (d t :: l).
      rewrite <-app_assoc in Hs. split; [exact Hs|]. by apply sublist_skip.
Qed.

Lemma unsent_uncancelled b :
  bc_wf b → Forall (λ kt, sent kt.2 = None) (requests b) →
  Forall (λ kt, sent kt.2 = None ∧ cancelled kt.2 = None) (requests b).
Proof.
  intros Hwf. rewrite !Forall_forall. intros H [k t] Hin.
  pose proof (H _ Hin) as Hs. split; [done|]. cbn in *.
  destruct (core_entry _ _ _ Hwf _ _ Hin) as (_ & _ & _ & Hc).
  destruct (cancelled t); [|done]. by destruct Hc.
Qed.

Lemma after_send_props now R :
  Forall (λ kt, sent kt.2 ≠ None ∧ expectResponse kt.2 = true) (omap (after_send sendString now) R).
Proof.
  apply Forall_forall. intros kt (kt' & _ & Hkt)%list_elem_of_omap.
  unfold after_send in Hkt. destruct (sendString _); [done|].
  destruct (expectResponse kt'.2) eqn:He; [|done]. by simplify_eq.
Qed.

(** The connection comes up: all requests are written, in order. *)
Lemma cbConnect_eq now b :
  bc_wf b → _dDown b = None → Forall (λ kt, sent kt.2 = None) (requests b) →
  ∃ D', cbConnect sendString now b =
      Ok (upd (omap (after_send sendString now) (requests b)) D'
            (effects b ++ [EConnected] ++ omap (send_effect sendString) (requests b))
            (with_proto true (with_connector CNone (with_failures 0 b)))) ∧
    core_wf (omap (after_send sendString now) (requests b)) D' (cancellers b) ∧
    firings D' = firings (bc_deferreds b) ++ omap (send_firing sendString) (requests b).
Proof.
  intros Hwf Hdn Hs. unfold cbConnect. cbn [_dDown emit with_proto with_connector with_failures].
  rewrite Hdn.
  destruct (send_loop sendString now (requests b)
    (emit EConnected (with_proto true (with_connector CNone (with_failures 0 b)))) [])
    as (D' & Hl & Hw & Hf); [done|done|done|by apply unsent_uncancelled|].
  exists D'. unfold _sendQueued. cbn [requests emit with_proto with_connector with_failures] in *.
  rewrite Hl. split_and!; [|done|done]. unfold upd. cbn. by rewrite <-app_assoc.
Qed.

Lemma cbConnect_wf now b :
  bc_wf b → sends_wf b → _dDown b = None → Forall (λ kt, sent kt.2 = None) (requests b) →
  ∃ b', cbConnect sendString now b = Ok b' ∧ broker_wf b'.
Proof.
  intros Hwf [Hn Hlt] Hdn Hs. destruct (cbConnect_eq now b Hwf Hdn Hs) as (D' & Hc & Hw & _).
  eexists. split; [exact Hc|]. split; [exact Hw|]. split.
  - unfold conn_wf. cbn. rewrite Hdn. split; [done|]. split; [done|apply after_send_props].
  - unfold sends_wf. cbn [effects upd bc_deferreds]. rewrite !sends_since_app.
    change (sends_since (sends_since [] (effects b)) [EConnected]) with (@nil nat).
    destruct (sends_since_sent [] (requests b)) as (l & -> & Hsub). cbn [app].
    pose proof (core_ids _ _ _ Hwf) as Hids. split; [by eapply sublist_NoDup|].
    apply Forall_forall. intros x Hx. apply (elem_of_sublist _ _ _ Hx) in Hsub.
    apply list_elem_of_fmap in Hsub as (t & -> & ([k t'] & -> & Hin)%list_elem_of_fmap).
    apply (core_entry _ _ _ Hwf) in Hin as (_ & Hcn & _). apply lookup_lt_Some in Hcn. cbn.
    pose proof (core_cancellers _ _ _ Hwf). pose proof (core_cancellers _ _ _ Hw). cbn in *. lia.
Qed.

Lemma tryConnect_wf answer now b :
  bc_wf b → sends_wf b → _dDown b = None → proto b = false →
  Forall (λ kt, sent kt.2 = None) (requests b) →
  ∃ b', tryConnect sendString answer now b = Ok b' ∧ broker_wf b'.
Proof.
  intros Hwf Hsw Hdn Hp Hs. unfold tryConnect.
  set (b1 := emit _ _).
  assert (sends_wf b1) as Hsw1.
  { unfold sends_wf, b1 in *. cbn. rewrite sends_since_app. exact Hsw. }
  destruct answer.
  - exists b1. split; [done|]. split; [done|]. split; [|done].
    unfold conn_wf. cbn. by rewrite Hdn, Hp.
  - by apply cbConnect_wf.
  - eexists. split; [done|]. unfold ebConnect. cbn. rewrite Hdn. split; [done|]. split.
    + unfold conn_wf. cbn. by rewrite Hdn, Hp.
    + unfold sends_wf in *. cbn. rewrite !sends_since_app. exact Hsw.
Qed.

Lemma sends_wf_same es (ds : deferreds (option bytes)) b' :
  sends_wf b' → (issued (bc_deferreds b') ≤ issued ds)%nat →
  sends_since [] es = sends_since [] (effects b') →
  NoDup (sends_since [] es) ∧ Forall (λ x, x < issued ds)%nat (sends_since [] es).
Proof.
  intros [H1 H2] Hle ->. split; [done|]. eapply Forall_impl; [exact H2|]. cbn. lia.
Qed.

Lemma sends_wf_emit e b :
  sends_wf b → match e with ESend _ _ => False | _ => True end → sends_wf (emit e b).
Proof.
  intros [H1 H2] He. unfold sends_wf. cbn [effects emit bc_deferreds]. rewrite sends_since_app.
  destruct e; try done. by split; constructor.
Qed.

Lemma makeRequest_wf k r x answer now b :
  broker_wf b →
  match makeRequest sendString k r x answer now b with
  | Ok (inl e, b') => b' = b ∧ e = ClientError ∧ _dDown b ≠ None
  | Ok (inr n, b') => broker_wf b' ∧ n = issued (bc_deferreds b)
  | Err e => e = DuplicateRequestError ∧ k ∈ Dict.keys (requests b)
  end.
Proof.
  intros (Hwf & Hcw & Hsw). unfold makeRequest. case_bool_decide as Hk; [done|].
  unfold conn_wf in Hcw. destruct (_dDown b) as [fired|] eqn:Hdn; [done|].
  destruct Hcw as [Hcc Hcw]. cbn [new_deferred].
  rewrite Dict.set_fresh by done.
  set (t := mkRequestState _ _ _ _ _ _ _).
  set (b1 := mkBrokerClient _ _ _ _ _ _ _ _ _ _ _).
  assert (bc_wf b1) as Hwf1 by (apply (core_new _ _ _ Hwf k t); done).
  assert (sends_wf b1) as Hsw1 by (eapply sends_wf_same; [exact Hsw|cbn; lia|done]).
  destruct (proto b) eqn:Hp.
  - destruct Hcw as [Hcn Hall].
    destruct (sendRequest_eq sendString now b1 (requests b) [] k t Hwf1 eq_refl eq_refl eq_refl)
      as (D' & -> & Hw & Hf).
    cbn [mbind result_bind]. split; [|done]. split; [exact Hw|]. split.
    + unfold conn_wf. cbn [_dDown upd connector proto requests b1].
      split; [done|]. split; [done|]. apply Forall_app. split; [done|]. rewrite app_nil_r.
      pose proof (after_send_props now [(k, t)]) as Ha. rewrite omap_cons_app in Ha.
      cbn [omap list_omap] in Ha. by rewrite app_nil_r in Ha.
    + assert (issued D' = S (issued (bc_deferreds b))) as Hi.
      { pose proof (core_cancellers _ _ _ Hw) as H1. pose proof (core_cancellers _ _ _ Hwf1) as H2.
        cbn in H1, H2. lia. }
      unfold sends_wf. cbn [effects upd bc_deferreds]. rewrite Hi, sends_since_app.
      cbn [effects b1]. destruct Hsw as [Hn Hl]. unfold send_effect. cbn [snd request t].
      destruct (sendString r); cbn [option_list sends_since foldl].
      * split; [done|]. eapply Forall_impl; [exact Hl|]. cbn. lia.
      * rewrite Forall_forall in Hl. split.
        -- apply NoDup_app. split; [done|]. split; [|apply NoDup_singleton].
           intros y Hy%Hl ?%list_elem_of_singleton. cbn in *. lia.
        -- apply Forall_app. split; [|by constructor; [cbn; lia|]].
           apply Forall_forall. intros y Hy%Hl. lia.
  - destruct Hcw as [Hall Hc].
    assert (Forall (λ kt : Z * _RequestState, sent kt.2 = None) (requests b1)) as Hall1
      by (apply Forall_app; split; [done|by constructor]).
    case_bool_decide as Hcn.
    + destruct (tryConnect_wf answer now (with_failures 0 b1)) as (b' & Hb' & Hw); try done.
      unfold _connect. rewrite Hb'. done.
    + cbn [mbind result_bind]. by split.
Qed.

(** Removing an entry, or replacing it by a sent one, keeps the connection
    part of the invariant. *)
Lemma conn_wf_shrink b R R' D E :
  conn_wf b → requests b = R → (∀ kt, kt ∈ R' → ∃ kt0, kt0 ∈ R ∧ sent kt.2 = sent kt0.2 ∧
    expectResponse kt.2 = expectResponse kt0.2) →
  conn_wf (upd R' D E b).
Proof.
  unfold conn_wf. cbn [_dDown upd connector proto requests]. intros H HR Hsub.
  destruct (_dDown b) as [fired|].
  - destruct H as (HR0 & ? & ?). split_and!; [|done|done]. destruct R' as [|kt R']; [done|].
    destruct (Hsub kt) as (kt0 & Hin & _); [set_solver|]. rewrite <-HR, HR0 in Hin. set_solver.
  - destruct H as [Hc H]. split; [done|]. rewrite HR in H. destruct (proto b).
    + destruct H as [? H]. split; [done|]. rewrite Forall_forall in H |- *.
      intros kt Hkt. destruct (Hsub kt Hkt) as (kt0 & Hin & -> & ->). auto.
    + destruct H as [H Hne]. split.
      * rewrite Forall_forall in H |- *.
        intros kt Hkt. destruct (Hsub kt Hkt) as (kt0 & Hin & -> & _). auto.
      * intros Hne'. apply Hne. destruct R' as [|kt R']; [done|].
        destruct (Hsub kt) as (kt0 & Hin & _); [set_solver|]. 
        intros ->. set_solver.
Qed.

Lemma core_get b x :
  bc_wf b → outstanding x (bc_deferreds b) →
  ∃ R1 R2 k t, requests b = R1 ++ (k, t) :: R2 ∧ (k ∉ Dict.keys R1) ∧ d t = x ∧
    cancellers b !! x = Some k ∧ cancelled t = None ∧ correlationId t = k.
Proof.
  intros Hwf Hx. destruct (core_outstanding _ _ _ Hwf _ Hx) as (k & t & Hin & <-).
  destruct (core_entry _ _ _ Hwf _ _ Hin) as (Hk & Hc & Ho & _).
  destruct (table_split b k t Hwf) as (R1 & R2 & HR & Hk1 & _).
  { by apply Dict.get_elem; [apply (core_keys _ _ _ Hwf)|]. }
  exists R1, R2, k, t. split_and!; try done. by apply Ho.
Qed.

Lemma cancel_spec x now b :
  broker_wf b → (x < issued (bc_deferreds b))%nat →
  ∃ b', cancel x now b = Ok b' ∧ broker_wf b' ∧ effects b' = effects b ∧
    firings (bc_deferreds b') = firings (bc_deferreds b) ++
      (if decide (outstanding x (bc_deferreds b)) then [(x, Failure TwistedCancelledError)] else []).
Proof.
  intros (Hwf & Hcw & Hsw) Hlt. unfold cancel. destruct (called x (bc_deferreds b)) eqn:Hc.
  - apply called_spec in Hc. exists b. rewrite decide_False by (by intros [_ ?]).
    rewrite app_nil_r. split; [done|]. split; [by split|]. done.
  - assert (outstanding x (bc_deferreds b)) as Ho.
    { split; [done|]. intros Hin. apply called_spec in Hin. congruence. }
    rewrite decide_True by done.
    destruct (core_get b x Hwf Ho) as (R1 & R2 & k & t & HR & Hk & <- & -> & Hcn & Ht).
    unfold _cancelRequest. rewrite HR, dict_get_middle by done.
    rewrite HR in Hwf. destruct (sent t) as [s|] eqn:Hs.
    + destruct (core_cancel_sent _ _ _ Hwf R1 R2 k t now (Failure TwistedCancelledError)
        eq_refl Hcn) as (D' & Hf & Hw & Hi & Hfs); [by rewrite Hs|].
      rewrite (update_request_middle b _ _ _ _ _ HR Hk) by done. cbn [mbind result_bind].
      cbn [bc_deferreds with_requests]. rewrite Hf.
      exists (upd (R1 ++ (k, set_cancelled (Some now) t) :: R2) D' (effects b) b).
      split_and!; [done| |done|done]. split; [done|]. split.
      * eapply conn_wf_shrink; [done|exact HR|].
        intros kt [?|[->|?]%elem_of_cons]%elem_of_app.
        -- exists kt. set_solver.
        -- exists (k, t). set_solver.
        -- exists kt. set_solver.
      * eapply sends_wf_same; [exact Hsw|cbn; lia|done].
    + rewrite (del_request_middle b _ _ _ _ HR Hk). cbn [mbind result_bind bc_deferreds with_requests].
      destruct (core_remove_fire _ _ _ Hwf R1 R2 k t (Failure TwistedCancelledError) eq_refl Hcn)
        as (D' & -> & Hw & Hi & Hfs).
      exists (upd (R1 ++ R2) D' (effects b) b). split_and!; [done| |done|done]. split; [done|]. split.
      * eapply conn_wf_shrink; [done|exact HR|]. intros kt ?. exists kt. set_solver.
      * eapply sends_wf_same; [exact Hsw|cbn; lia|done].
Qed.

(** A response: what fires, if anything. *)
Definition response_firing (response : bytes) (k : Z) (b : broker)
    : option (nat * outcome (option bytes)) :=
  match Dict.get k (requests b) with
  | Some t => match cancelled t with None => Some (d t, Success (Some response)) | Some _ => None end
  | None => None
  end.

Lemma handleResponse_spec s b :
  broker_wf b →
  match get_response_correlation_id s with
  | Err e => handleResponse s b = Err e
  | Ok k => ∃ b', handleResponse s b = Ok b' ∧ broker_wf b' ∧ effects b' = effects b ∧
      requests b' = Dict.del k (requests b) ∧
      firings (bc_deferreds b') =
        firings (bc_deferreds b) ++ option_list (response_firing s k b)
  end.
Proof.
  intros (Hwf & Hcw & Hsw). unfold handleResponse, response_firing.
  destruct (get_response_correlation_id s) as [k|]; [|done]. cbn [mbind result_bind].
  destruct (Dict.get k (requests b)) as [t|] eqn:Hg.
  2:{ exists b. rewrite Dict.del_fresh, app_nil_r by (by apply Dict.get_None). by split_and!. }
  destruct (table_split b k t Hwf Hg) as (R1 & R2 & HR & Hk & Ht).
  assert (∀ D, conn_wf (upd (R1 ++ R2) D (effects b) b)) as Hcw'.
  { intros D. eapply conn_wf_shrink; [done|exact HR|]. intros kt ?. exists kt. set_solver. }
  rewrite HR in Hwf |- *. rewrite dict_del_middle by done. destruct (cancelled t) as [c|] eqn:Hc.
  - exists (with_requests (R1 ++ R2) b). rewrite app_nil_r. split_and!; [done| |done..].
    split; [|split; [apply (Hcw' (bc_deferreds b))|exact Hsw]].
    eapply core_remove_cancelled; [exact Hwf|done|by rewrite Hc].
  - destruct (core_remove_fire _ _ _ Hwf R1 R2 k t (Success (Some s)) eq_refl Hc)
      as (D' & Hf & Hw & Hi & Hfs). unfold fire_request. cbn [bc_deferreds with_requests].
    rewrite Hf. exists (upd (R1 ++ R2) D' (effects b) b). split_and!; [done| |done..].
    split; [done|]. split; [apply Hcw'|]. eapply sends_wf_same; [exact Hsw|cbn; lia|done].
Qed.

Lemma after_loss_unsent R : Forall (λ kt, sent kt.2 = None) (omap after_loss R).
Proof.
  apply Forall_forall. intros kt (kt' & _ & Hkt)%list_elem_of_omap.
  unfold after_loss in Hkt. destruct (cancelled kt'.2); [done|]. by simplify_eq.
Qed.

(** The table after the loss of the connection, before reconnecting. *)
Definition lost (b : broker) : broker :=
  with_requests (omap after_loss (requests b)) (with_proto false b).

Lemma connectionLost_eq answer now b :
  bc_wf b →
  _connectionLost sendString answer now b =
    (match _dDown b with
     | Some _ => fire_down (lost b)
     | None => if bool_decide (omap after_loss (requests b) = []) then Ok (lost b)
               else _connect sendString answer now (lost b)
     end) ∧ bc_wf (lost b).
Proof.
  intros Hwf. unfold _connectionLost.
  destruct (loss_loop (requests b) (with_proto false b) [] Hwf eq_refl) as [Hl Hw].
  cbn [requests with_proto]. cbn [requests with_proto] in Hl. rewrite Hl. split; [done|exact Hw].
Qed.

Lemma connectionLost_wf answer now b :
  broker_wf b → proto b = true →
  ∃ b', _connectionLost sendString answer now b = Ok b' ∧ broker_wf b'.
Proof.
  intros (Hwf & Hcw & Hsw) Hp. destruct (connectionLost_eq answer now b Hwf) as [-> Hw].
  unfold conn_wf in Hcw. rewrite Hp in Hcw. destruct (_dDown b) as [fired|] eqn:Hdn.
  - destruct Hcw as (HR & -> & Hcn). unfold fire_down. cbn [_dDown lost with_requests with_proto].
    rewrite Hdn. eexists. split; [done|]. split; [exact Hw|]. split; [|exact Hsw].
    unfold conn_wf. cbn. by rewrite HR.
  - destruct Hcw as (Hcc & Hcn & _). case_bool_decide as HR.
    + eexists. split; [done|]. split; [exact Hw|]. split; [|exact Hsw].
      unfold conn_wf. cbn. rewrite Hdn, HR. by split.
    + apply (tryConnect_wf answer now (with_failures 0 (lost b))); [exact Hw|exact Hsw|done|done|].
      apply after_loss_unsent.
Qed.

Lemma close_wf c now b :
  broker_wf b →
  match _dDown b with
  | Some _ => close sendString c now b = Err PyAssertionError
  | None => ∃ b', close sendString c now b = Ok b' ∧ broker_wf b' ∧ requests b' = [] ∧
      _dDown b' ≠ None ∧
      firings (bc_deferreds b') = firings (bc_deferreds b) ++ omap close_firing (reverse (requests b))
  end.
Proof.
  intros (Hwf & Hcw & Hsw). unfold close. destruct (_dDown b) as [f|] eqn:Hdn; [done|].
  unfold conn_wf in Hcw. rewrite Hdn in Hcw. destruct Hcw as [Hcc Hcw].
  match goal with |- ∃ _, (b1 ← ?m; _) = _ ∧ _ => set (m1 := m) end.
  assert (∃ b1, m1 = Ok b1 ∧ requests b1 = requests b ∧ bc_deferreds b1 = bc_deferreds b ∧
    cancellers b1 = cancellers b ∧ _dDown b1 = Some (negb (proto b1)) ∧
    (connector b1 = CNone ∨ connector b1 = CCancelled) ∧ sends_wf b1)
    as (b1 & -> & HR & HD & HC & Hdn1 & Hcn & Hsw1).
  { unfold m1. cbn [proto with_dDown connector]. destruct (proto b) eqn:Hp.
    - destruct Hcw as [Hcn _]. eexists. split; [done|]. cbn -[sends_since]. rewrite Hp.
      split_and!; [done..|by left|by apply sends_wf_emit].
    - case_bool_decide as Hcn; cbn [negb].
      + unfold fire_down. cbn. eexists. split; [done|]. cbn. rewrite Hp.
        by split_and!; [..|left|].
      + destruct (c && _) eqn:Hcb; unfold cbConnect, fire_down; cbn; (eexists; split; [done|]);
          cbn; rewrite ?Hp; split_and!; try done; auto;
          repeat apply sends_wf_emit; try done; apply (sends_wf_emit ECancelConnector b Hsw I). }
  cbn [mbind result_bind].
  destruct (close_loop (requests b1) (length (requests b1)) b1) as (D' & -> & Hw & Hfs);
    [by rewrite HR, HD, HC|done|done|].
  eexists. split; [done|]. rewrite HR, HD in Hfs.
  split; [|split; [done|split; [cbn; by rewrite Hdn1|done]]].
  split; [exact Hw|]. split.
  - unfold conn_wf. cbn. rewrite Hdn1. by split_and!.
  - eapply sends_wf_same; [exact Hsw1| |done]. cbn.
    pose proof (core_cancellers _ _ _ Hw) as H1. pose proof (core_cancellers _ _ _ Hwf).
    rewrite HC in H1. rewrite HD. lia.
Qed.

(** The exceptions an operation may raise, all before it changes anything. *)
Definition expected_error (e : event) (x : exn) (b : broker) : Prop :=
  match e with
  | MakeRequest k _ _ _ _ => x = DuplicateRequestError ∧ k ∈ Dict.keys (requests b)
  | Response s => get_response_correlation_id s = Err x
  | Close _ _ => x = PyAssertionError ∧ _dDown b ≠ None
  | UpdateMetadata new => x = PyValueError ∧ node_id b ≠ bm_node_id new
  | _ => False
  end.

Lemma connecting_facts b :
  broker_wf b → connector b = CConnecting ∨ connector b = CDelaying →
  _dDown b = None ∧ proto b = false ∧ Forall (λ kt, sent kt.2 = None) (requests b).
Proof.
  intros (_ & Hcw & _) Hcn. unfold conn_wf in Hcw. destruct (_dDown b) as [f|].
  - destruct Hcw as (_ & _ & [H|H]); rewrite H in Hcn; by destruct Hcn.
  - destruct Hcw as [_ Hcw]. destruct (proto b).
    + destruct Hcw as [H _]. rewrite H in Hcn. by destruct Hcn.
    + by destruct Hcw.
Qed.

Lemma handle_wf e b :
  broker_wf b → enabled e b = true →
  match handle sendString e b with Ok b' => broker_wf b' | Err x => expected_error e x b end.
Proof.
  intros Hwf He. pose proof Hwf as (Hw & Hcw & Hsw). destruct e; cbn [handle enabled] in *.
  - pose proof (makeRequest_wf correlationId0 request0 expectResponse0 answer now b Hwf) as H.
    destruct (makeRequest _ _ _ _ _ _ _) as [[[?|?] ?]|]; cbn.
    + by destruct H as (-> & _).
    + by destruct H.
    + done.
  - apply bool_decide_eq_true in He. by destruct (cancel_spec d0 now b Hwf He) as (b' & -> & ? & _).
  - pose proof (handleResponse_spec response b Hwf) as H.
    destruct (get_response_correlation_id response) eqn:Hg; cbn.
    + by destruct H as (b' & -> & ? & _).
    + by rewrite H.
  - by destruct (connectionLost_wf answer now b Hwf He) as (b' & -> & ?).
  - apply bool_decide_eq_true in He. destruct (connecting_facts b Hwf) as (Hdn & _ & Hs); [by left|].
    by destruct (cbConnect_wf now b Hw Hsw Hdn Hs) as (b' & -> & ?).
  - apply bool_decide_eq_true in He. destruct (connecting_facts b Hwf) as (Hdn & Hp & Hs); [by left|].
    unfold ebConnect. rewrite Hdn. split; [done|]. split; [|by apply (sends_wf_emit (EDelay _))].
    unfold conn_wf. cbn. by rewrite Hdn, Hp.
  - apply bool_decide_eq_true in He. destruct (connecting_facts b Hwf) as (Hdn & Hp & Hs); [by right|].
    unfold cbDelayed. by destruct (tryConnect_wf answer now b Hw Hsw Hdn Hp Hs) as (b' & -> & ?).
  - pose proof (close_wf cancel_connects now b Hwf) as H. destruct (_dDown b) eqn:Hdn.
    + rewrite H. cbn. by rewrite Hdn.
    + by destruct H as (b' & -> & ? & _).
  - unfold disconnect. destruct (proto b); [|done]. split; [done|].
    split; [done|by apply sends_wf_emit].
  - unfold updateMetadata. destruct (node_id b =? bm_node_id new) eqn:Hn; cbn; [done|].
    split; [done|]. by apply Z.eqb_neq.
Qed.

Lemma init_wf m : broker_wf (__init__ m).
Proof.
  split; [|split].
  - split; cbn; [apply no_deferreds_wf|done|done|constructor|constructor| |].
    + intros k t Hin. by apply not_elem_of_nil in Hin.
    + intros x [Hx _]. cbn in Hx. lia.
  - unfold conn_wf. cbn. split; [done|]. split; [constructor|done].
  - split; constructor.
Qed.

Lemma reachable_wf m b : reachable sendString m b → broker_wf b.
Proof.
  induction 1 as [|e b _ IH He]; [apply init_wf|]. unfold step.
  pose proof (handle_wf e b IH He) as H. by destruct (handle sendString e b).
Qed.
End invariant.

(** ** Theorems *)

Section theorems.
Context (sendString : bytes → option exn) (m : BrokerMetadata).

(** C26. Every state the client can reach, by any order of requests,
    cancellations, responses, connection events and [close], is well formed,
    and no operation raises an error of its own making: each deferred fires at
    most once, the table has no missing or duplicate entry, and the only
    exceptions are those of the interface (a correlation id in use, [close]
    twice, metadata of another node, a response too short to have an id). *)
Theorem broker_client_safe (b : broker) (e : event) :
  reachable sendString m b → enabled e b = true →
  broker_wf b ∧
  match handle sendString e b with
  | Ok b' => broker_wf b'
  | Err x => expected_error e x b
  end.
Proof. intros Hr%reachable_wf He. split; [done|]. by apply handle_wf. Qed.

(** A response fires the deferred of the request with its correlation id,
    with the bytes of the response, once, and takes the request off the table;
    when the request was cancelled or is unknown nothing fires; when the
    response has no correlation id the error leaves the state alone. *)
Theorem broker_response (b : broker) (s : bytes) :
  reachable sendString m b →
  match get_response_correlation_id s with
  | Err e => handleResponse s b = Err e
  | Ok k => ∃ b', handleResponse s b = Ok b' ∧ broker_wf b' ∧ effects b' = effects b ∧
      requests b' = Dict.del k (requests b) ∧
      firings (bc_deferreds b') =
        firings (bc_deferreds b) ++ option_list (response_firing s k b)
  end.
Proof. intros Hr%reachable_wf. by apply handleResponse_spec. Qed.


(** No request is forgotten: while its deferred is outstanding a request is
    on the table, and either it has been written to the live connection and
    awaits its response, or a connection is being made. On one connection no
    request is written twice. *)
Theorem broker_request_progress (b : broker) (x : nat) :
  reachable sendString m b → outstanding x (bc_deferreds b) →
  NoDup (sends_since [] (effects b)) ∧ _dDown b = None ∧
  ∃ k t, (k, t) ∈ requests b ∧ d t = x ∧ cancelled t = None ∧
    if proto b then sent t ≠ None ∧ expectResponse t = true
    else sent t = None ∧ (connector b = CConnecting ∨ connector b = CDelaying).
Proof.
  intros (Hwf & Hcw & [Hnd _])%reachable_wf Hx. split; [done|].
  destruct (core_outstanding _ _ _ Hwf _ Hx) as (k & t & Hin & <-).
  destruct (core_entry _ _ _ Hwf _ _ Hin) as (_ & _ & Ho & _). unfold conn_wf in Hcw.
  destruct (_dDown b) as [f|].
  { destruct Hcw as [HR _]. rewrite HR in Hin. by apply not_elem_of_nil in Hin. }
  split; [done|]. exists k, t. split; [done|]. split; [done|]. split; [by apply Ho|].
  destruct Hcw as [Hcc Hcw]. destruct (proto b).
  - destruct Hcw as [_ Hall]. rewrite Forall_forall in Hall. by apply (Hall _ Hin).
  - destruct Hcw as [Hall Hcn]. rewrite Forall_forall in Hall. split; [by apply (Hall _ Hin)|].
    assert (requests b ≠ []) as HR by (intros HR; rewrite HR in Hin; by apply not_elem_of_nil in Hin).
    specialize (Hcn HR). destruct (connector b); [done|by left|by right|done].
Qed.

(** [close] fails every outstanding request with [ClientError], last one
    first, and leaves none; a second [close] is an assertion error, and from
    then on [makeRequest] returns a failed deferred without doing anything. *)
Theorem broker_close (b : broker) (cancel_connects : bool) (now : Z) :
  reachable sendString m b → _dDown b = None →
  ∃ b', close sendString cancel_connects now b = Ok b' ∧ requests b' = [] ∧
    firings (bc_deferreds b') =
      firings (bc_deferreds b) ++ omap close_firing (reverse (requests b)) ∧
    (∀ x, ¬ outstanding x (bc_deferreds b')) ∧
    (∀ c' now', close sendString c' now' b' = Err PyAssertionError) ∧
    (∀ k r w answer now', makeRequest sendString k r w answer now' b' = Ok (inl ClientError, b')).
Proof.
  intros Hwf%reachable_wf Hdn. pose proof (close_wf sendString cancel_connects now b Hwf) as H.
  rewrite Hdn in H. destruct H as (b' & Hc & (Hw' & _) & HR & Hd' & Hfs). exists b'.
  destruct (_dDown b') as [f|] eqn:Hf; [|done].
  split; [done|]. split; [done|]. split; [done|]. split_and!.
  - intros x (k & t & Hin & _)%(core_outstanding _ _ _ Hw'). rewrite HR in Hin.
    by apply not_elem_of_nil in Hin.
  - intros c' now'. unfold close. by rewrite Hf.
  - intros k r w answer now'. unfold makeRequest. rewrite HR, Hf. done.
Qed.

(** Cancelling a pending deferred fails it with [CancelledError] and nothing
    else fires; a request that has not been written is dropped and will never
    be, one that has been stays on the table, marked, so that its late response
    is recognised. Cancelling a deferred that has fired does nothing. *)
Theorem broker_cancel (b : broker) (x : nat) (now : Z) :
  reachable sendString m b → (x < issued (bc_deferreds b))%nat →
  ∃ b', cancel x now b = Ok b' ∧ effects b' = effects b ∧
    firings (bc_deferreds b') = firings (bc_deferreds b) ++
      (if decide (outstanding x (bc_deferreds b)) then [(x, Failure TwistedCancelledError)] else []) ∧
    ∀ k t, (k, t) ∈ requests b → d t = x → cancelled t = None →
      Dict.get k (requests b') =
        match sent t with Some _ => Some (set_cancelled (Some now) t) | None => None end.
Proof.
  intros Hwf%reachable_wf Hlt. destruct (cancel_spec x now b Hwf Hlt) as (b' & Hc & Hwf' & He & Hf).
  exists b'. split; [done|]. split; [done|]. split; [done|].
  destruct Hwf as (Hw & _). intros k t Hin <- Hcn.
  destruct (core_entry _ _ _ Hw _ _ Hin) as (Hk & Hcc & Ho & _).
  pose proof (proj2 Ho Hcn) as [_ Hnf]. unfold cancel, called in Hc.
  rewrite bool_decide_false, Hcc in Hc by done. unfold _cancelRequest in Hc.
  pose proof (core_keys _ _ _ Hw) as Hkeys.
  rewrite (Dict.get_elem _ _ _ Hkeys Hin) in Hc.
  destruct (sent t) as [s|] eqn:Hs.
  - unfold update_request in Hc. cbn [correlationId set_cancelled] in Hc.
    rewrite Hk, (Dict.get_elem _ _ _ Hkeys Hin) in Hc. cbn [mbind result_bind] in Hc.
    destruct (fire _ _ _); [|done]. cbn in Hc. simplify_eq. cbn. apply Dict.get_set_eq.
  - unfold del_request in Hc. rewrite (Dict.get_elem _ _ _ Hkeys Hin) in Hc.
    cbn [mbind result_bind] in Hc.
    destruct (fire _ _ _); [|done]. cbn in Hc. simplify_eq. cbn.
    rewrite Dict.get_del by done. by rewrite decide_True.
Qed.

(** [makeRequest]: a correlation id still in use is refused; a closed client
    returns a failed deferred; otherwise a new deferred is returned, and the
    request is written at once if there is a connection, or else the first
    connection attempt is started if none is under way. *)
Theorem broker_make_request (b : broker) (k : Z) (r : bytes) (w : bool) (now : Z) :
  reachable sendString m b →
  let res := makeRequest sendString k r w ConnectPending now b in
  let kt := (k, mkRequestState k r w (issued (bc_deferreds b)) now None None) in
  if decide (k ∈ Dict.keys (requests b)) then res = Err DuplicateRequestError
  else if decide (_dDown b = None) then
    ∃ b', res = Ok (inr (issued (bc_deferreds b)), b') ∧
      effects b' = effects b ++
        (if proto b then option_list (send_effect sendString kt)
         else if decide (connector b = CNone) then [EConnect (host b) (port b)] else []) ∧
      firings (bc_deferreds b') = firings (bc_deferreds b) ++
        (if proto b then option_list (send_firing sendString kt) else [])
  else res = Ok (inl ClientError, b).
Proof.
  intros (Hwf & Hcw & _)%reachable_wf res kt. unfold res, makeRequest.
  destruct (decide (k ∈ _)) as [Hk|Hk]; [by rewrite bool_decide_true|].
  rewrite bool_decide_false by done. destruct (_dDown b) as [f|] eqn:Hdn; [done|].
  rewrite decide_True by done. cbn [new_deferred]. rewrite Dict.set_fresh by done.
  match goal with |- context [mkRequestState k r w ?i now None None] =>
    pose proof (core_new _ _ _ Hwf k (mkRequestState k r w i now None None) Hk
      eq_refl eq_refl eq_refl) as Hwf1 end.
  match type of Hwf1 with core_wf ?R ?D ?C =>
    set (b1 := mkBrokerClient (node_id b) (host b) (port b) (connector b) (proto b) R None
      (_failures b) D C (effects b)) end.
  destruct (proto b) eqn:Hp.
  - destruct (sendRequest_eq sendString now b1 (requests b) [] k kt.2 Hwf1 eq_refl eq_refl eq_refl)
      as (D' & Hs & _ & Hf).
    change (mkBrokerClient _ _ _ _ _ _ _ _ _ _ _) with b1.
    cbn [kt snd] in Hs. rewrite Hs. cbn [mbind result_bind]. eexists. by split.
  - destruct (decide (connector b = CNone)) as [Hcn|Hcn].
    + rewrite bool_decide_true by done. eexists. split; [done|]. cbn. by rewrite app_nil_r.
    + rewrite bool_decide_false by done. eexists. split; [done|]. cbn. by rewrite !app_nil_r.
Qed.

Lemma bind_seq_S {B} (g : nat → list B) j n : seq (S j) n ≫= g = seq j n ≫= λ i, g (S i).
Proof. revert j. induction n as [|n IH]; intros j; [done|]. cbn [seq]. by rewrite !bind_cons, IH. Qed.

(** [n] more failed attempts, each after its delay. *)
Fixpoint retries (n : nat) (now : Z) (b : broker) : res broker :=
  match n with
  | O => Ok b
  | S n => b ← cbDelayed sendString ConnectFailed now b; retries n now b
  end.

(** Connection failures are retried without end: each delay is the retry
    policy's for one more failure, and the count starts again at zero when a
    connection comes up and when the client has to reconnect. *)
Theorem broker_backoff (b : broker) (n : nat) (now : Z) :
  _dDown b = None →
  (∃ b', retries n now b = Ok b' ∧ _failures b' = _failures b + Z.of_nat n ∧
     requests b' = requests b ∧
     effects b' = effects b ++
       (seq 1 n ≫= λ i, [EConnect (host b) (port b); EDelay (_failures b + Z.of_nat i)])) ∧
  (∀ b', cbConnect sendString now b = Ok b' → reachable sendString m b →
     connector b = CConnecting → _failures b' = 0) ∧
  (∀ b', _connect sendString ConnectFailed now b = Ok b' → _failures b' = 1).
Proof.
  intros Hdn. split_and!.
  - revert b Hdn. induction n as [|n IH]; intros b Hdn.
    + exists b. cbn. rewrite app_nil_r. split_and!; [done|lia|done|done].
    + cbn [retries]. unfold cbDelayed, tryConnect, ebConnect. cbn. rewrite Hdn.
      set (b1 := with_connector CDelaying _). destruct (IH b1) as (b' & Hr & Hf & HR & He); [done|].
      exists b'. rewrite Hr. split_and!; [done|rewrite Hf; cbn; lia|done|].
      rewrite He, (bind_seq_S _ 1).
      change (effects b1) with
        ((effects b ++ [EConnect (host b) (port b)]) ++ [EDelay (_failures b + 1)]).
      rewrite <-!app_assoc. cbn [app]. do 3 f_equal. apply list_bind_ext; [|done].
      intros i. cbn. do 3 f_equal. lia.
  - intros b' Hc Hwf%reachable_wf Hcn.
    destruct (connecting_facts b Hwf) as (_ & _ & Hs); [by left|].
    destruct Hwf as (Hw & _). destruct (cbConnect_eq sendString now b Hw Hdn Hs) as (D' & Hc' & _).
    rewrite Hc in Hc'. by simplify_eq.
  - intros b'. unfold _connect, tryConnect, ebConnect. cbn. rewrite Hdn. intros. by simplify_eq.
Qed.
End theorems.

(** A concrete run: three requests, the second of which expects no response;
    a connection comes up, and the first is answered. *)
Definition sample_node : BrokerMetadata := mkBrokerMetadata 1 (txt "kafka1") 9092.

Definition no_send_error : bytes → option exn := λ _, None.

Definition sample_run (es : list event) : broker :=
  foldl (λ b e, step no_send_error e b) (__init__ sample_node) es.

Definition sample_events : list event :=
  [MakeRequest 1 [] true ConnectPending 0; MakeRequest 2 [] false ConnectPending 1;
   MakeRequest 3 [] true ConnectPending 2; Connected 3; MakeRequest 4 [] true ConnectPending 4;
   Cancel 2 5; Response (be_encode 4 1)].

Lemma sample_reachable (es : list event) :
  (fix ok b es := match es with
                  | [] => true
                  | e :: es => enabled e b && ok (step no_send_error e b) es
                  end) (__init__ sample_node) es = true →
  reachable no_send_error sample_node (sample_run es).
Proof.
  unfold sample_run. generalize (reach_init no_send_error sample_node).
  generalize (__init__ sample_node).
  induction es as [|e es IH]; intros b Hb Hok; [done|].
  apply andb_true_iff in Hok as [He Hok]. apply IH; [|done]. by apply reach_step.
Qed.

Definition sample_client : broker := sample_run sample_events.

Lemma sample_client_reachable : reachable no_send_error sample_node sample_client.
Proof. apply sample_reachable. vm_compute. reflexivity. Qed.

Example broker_client_safe_witness :
  broker_wf sample_client ∧
  match handle no_send_error (Close false 9) sample_client with
  | Ok b' => broker_wf b'
  | Err x => expected_error (Close false 9) x sample_client
  end.
Proof.
  exact (broker_client_safe no_send_error sample_node sample_client (Close false 9)
    sample_client_reachable eq_refl).
Defined.

Example broker_response_witness :
  ∃ b', handleResponse (be_encode 4 4) sample_client = Ok b' ∧ broker_wf b' ∧
    effects b' = effects sample_client ∧ requests b' = Dict.del 4 (requests sample_client) ∧
    firings (bc_deferreds b') =
      firings (bc_deferreds sample_client) ++ [(3%nat, Success (Some (be_encode 4 4)))].
Proof.
  exact (broker_response no_send_error sample_node sample_client (be_encode 4 4)
    sample_client_reachable).
Defined.


Example broker_close_witness :
  ∃ b', close no_send_error false 9 sample_client = Ok b' ∧ requests b' = [] ∧
    firings (bc_deferreds b') =
      firings (bc_deferreds sample_client) ++ [(3%nat, Failure ClientError)] ∧
    (∀ x, ¬ outstanding x (bc_deferreds b')) ∧
    (∀ c' now', close no_send_error c' now' b' = Err PyAssertionError) ∧
    (∀ k r w answer now', makeRequest no_send_error k r w answer now' b' =
       Ok (inl ClientError, b')).
Proof.
  exact (broker_close no_send_error sample_node sample_client false 9
    sample_client_reachable eq_refl).
Defined.



Example broker_cancel_witness :
  ∃ b', cancel 3 9 sample_client = Ok b' ∧ effects b' = effects sample_client ∧
    firings (bc_deferreds b') = firings (bc_deferreds sample_client) ++
      (if decide (outstanding 3 (bc_deferreds sample_client))
       then [(3%nat, Failure TwistedCancelledError)] else []) ∧
    ∀ k t, (k, t) ∈ requests sample_client → d t = 3%nat → cancelled t = None →
      Dict.get k (requests b') =
        match sent t with Some _ => Some (set_cancelled (Some 9) t) | None => None end.
Proof.
  apply (broker_cancel no_send_error sample_node sample_client 3 9 sample_client_reachable).
  apply (bool_decide_unpack _). vm_compute. exact I.
Defined.

Example broker_make_request_witness :
  ∃ b', makeRequest no_send_error 7 [] false ConnectPending 9 sample_client =
      Ok (inr 4%nat, b') ∧
    effects b' = effects sample_client ++ [ESend 4 []] ∧
    firings (bc_deferreds b') = firings (bc_deferreds sample_client) ++ [(4%nat, Success None)].
Proof.
  exact (broker_make_request no_send_error sample_node sample_client 7 [] false 9
    sample_client_reachable).
Defined.

Example broker_backoff_witness :
  ∃ b', retries no_send_error 2 9 (__init__ sample_node) = Ok b' ∧ _failures b' = 2 ∧
    requests b' = [] ∧
    effects b' = [EConnect (txt "kafka1") 9092; EDelay 1; EConnect (txt "kafka1") 9092; EDelay 2].
Proof.
  exact (proj1 (broker_backoff no_send_error sample_node (__init__ sample_node) 2 9 eq_refl)).
Defined.
