(* ===== verification/BrokerProtocol.v ===== *)
(** [KafkaProtocol] of [afkak/_protocol.py]: the protocol object of a broker's
    connection, which hands what the connection receives to the broker client
    that made it, its factory. *)
From S2P Require Import Prelude Common PyBytes Util KafkaCodec Deferred BrokerClient.
Local Open Scope Z_scope.

(** The client, and whether the attribute [factory] still refers to it. *)
Record KafkaProtocol := mkKafkaProtocol { factory : bool; client : broker }.

(** A call of a method of [self.factory]. *)
Definition on_factory (m : broker → res broker) (p : KafkaProtocol) : res KafkaProtocol :=
  if factory p then b ← m (client p); Ok (mkKafkaProtocol (factory p) b) else Err PyAttributeError.

Definition stringReceived (string : bytes) : KafkaProtocol → res KafkaProtocol := on_factory (handleResponse string).

Section protocol.
Context (sendString : bytes → option exn).

Definition connectionLost (answer : connect_result) (now : Z) (p : KafkaProtocol) : res KafkaProtocol :=
  p ← on_factory (_connectionLost sendString answer now) p;
  Ok (mkKafkaProtocol false (client p)).

(** [self.transport.loseConnection()] *)
Definition lengthLimitExceeded (length : Z) (p : KafkaProtocol) : KafkaProtocol :=
  mkKafkaProtocol (factory p) (emit ELoseConnection (client p)).

(** What a connection receives: strings, an error for each that has no
    correlation id. *)
Fixpoint receive (strings : list bytes) (p : KafkaProtocol) : KafkaProtocol * list exn :=
  match strings with
  | [] => (p, [])
  | s :: strings =>
    match stringReceived s p with
    | Ok p => receive strings p
    | Err e => let '(p, es) := receive strings p in (p, e :: es)
    end
  end.

Lemma handle_response_proto s b b' : handleResponse s b = Ok b' → proto b' = proto b.
Proof.
  unfold handleResponse, mbind, result_bind. destruct (get_response_correlation_id s); [|done].
  destruct (Dict.get _ _) as [t|]; [|by intros [= <-]]. destruct (cancelled t); [by intros [= <-]|].
  unfold fire_request. destruct (fire _ _ _); cbn; [by intros [= <-]|done].
Qed.

(** The life of a connection as the client sees it: the strings that have a
    correlation id are its responses, in order, the others raise and change
    nothing; the loss of the connection is its own, and from then on nothing
    reaches it. *)
Theorem connection_forwards m (b : broker) strings answer now : reachable sendString m b → proto b = true →
  let '(p, es) := receive strings (mkKafkaProtocol true b) in
  reachable sendString m (client p) ∧ client p = foldl (λ b s, step sendString (Response s) b) b strings ∧
  Forall (λ e, ∃ s, s ∈ strings ∧ get_response_correlation_id s = Err e) es ∧
  ∃ p', connectionLost answer now p = Ok p' ∧ client p' = step sendString (ConnectionLost answer now) (client p) ∧
        reachable sendString m (client p') ∧
        (∀ s, stringReceived s p' = Err PyAttributeError) ∧ (∀ a n, connectionLost a n p' = Err PyAttributeError).
Proof.
  assert (∀ b, reachable sendString m b → proto b = true → ∀ p es, (p, es) = receive strings (mkKafkaProtocol true b) →
    factory p = true ∧ proto (client p) = true ∧ reachable sendString m (client p) ∧
    client p = foldl (λ b s, step sendString (Response s) b) b strings ∧
    Forall (λ e, ∃ s, s ∈ strings ∧ get_response_correlation_id s = Err e) es) as Hr.
  { clear b. induction strings as [|s strings IH]; intros b Hr Hp p es; cbn [receive foldl]; [by intros [= -> ->]|].
    pose proof (broker_response sendString m b s Hr) as Hs. unfold stringReceived, on_factory, mbind, result_bind. cbn [factory client].
    pose proof (reach_step sendString m (Response s) b Hr Hp) as Hr'. unfold step, handle in Hr' |- *.
    destruct (handleResponse s b) as [b'|e] eqn:Hb.
    - intros He. destruct (IH b' Hr' ltac:(by rewrite (handle_response_proto s b b')) p es He) as (H1 & H2 & H3 & H4 & H5).
      split_and!; try done. eapply Forall_impl; [exact H5|]. intros x (s' & ? & ?). exists s'. by split; [right|].
    - destruct (receive strings (mkKafkaProtocol true b)) as [p0 es0] eqn:He. intros [= -> ->].
      destruct (IH b Hr Hp p0 es0 (eq_sym He)) as (H1 & H2 & H3 & H4 & H5). split_and!; try done. constructor.
      + exists s. split; [left|]. destruct (get_response_correlation_id s); [by destruct Hs as (? & ? & _)|congruence].
      + eapply Forall_impl; [exact H5|]. intros x (s' & ? & ?). exists s'. by split; [right|]. }
  intros Hreach Hp. destruct (receive strings _) as [p es] eqn:He.
  destruct (Hr b Hreach Hp p es (eq_sym He)) as (H1 & H2 & H3 & H4 & H5). split_and!; [done..|].
  pose proof (handle_wf sendString (ConnectionLost answer now) (client p) (reachable_wf sendString m _ H3) H2) as Hok. cbn [handle] in Hok.
  unfold connectionLost, on_factory, mbind, result_bind. rewrite H1. unfold step. cbn [handle].
  destruct (_connectionLost sendString answer now (client p)) as [b'|e] eqn:Hb; [|done].
  exists (mkKafkaProtocol false b'). split_and!; try done.
  pose proof (reach_step sendString m (ConnectionLost answer now) (client p) H3 H2) as Hr'. unfold step in Hr'. cbn [handle] in Hr'. by rewrite Hb in Hr'.
Qed.
End protocol.
