(* ===== verification/Group.v ===== *)
(** [afkak/_group.py], [_ConsumerProtocol]: how the leader of a consumer
    group shares the topics' partitions among the members. Python iterates a
    [set] in no particular order: the order is a parameter, and the results do
    not depend on it. *)
From S2P Require Import Prelude Ordering Common PyBytes Util Wire KafkaCodec Requests Responses Partitioner.
Local Open Scope Z_scope.

(** ** [_ConsumerProtocol] *)

(** [_NeedTopicPartitions] carries the topics; the others are plain. *)
Inductive group_exn :=
| GExn (e : exn)
| _NeedTopicPartitions (topics : list text).

Definition gres := result group_exn.

Definition lift {A} (r : res A) : gres A :=
  match r with Ok a => Ok a | Err e => Err (GExn e) end.

Definition protocol_type : text := txt "consumer".

Definition join_group_protocols (topics : list text) : res (list _JoinGroupRequestProtocol) :=
  metadata ← encode_join_group_protocol_metadata 0 topics (Some []);
  Ok [mkJoinGroupRequestProtocol protocol_type (Some metadata)].

(** [assignment[member_id][topic].append(partition)] on the nested
    [defaultdict]. *)
Definition assignment_append (member_id topic : text) (partition : Z)
    (assignment : list (text * list (text * list Z))) : list (text * list (text * list Z)) :=
  let inner := default [] (Dict.get member_id assignment) in
  Dict.set member_id (Dict.set topic (default [] (Dict.get topic inner) ++ [partition]) inner)
    assignment.

Section protocol.
(** The order in which the interpreter iterates a set with these elements. *)
Context (set_iter : list text → list text).

(** [topic not in member_metadata[member_id].subscriptions] *)
Definition unsubscribed (member_metadata : list (text * _JoinGroupProtocolMetadata))
    (topic member_id : text) : res bool :=
  match Dict.get member_id member_metadata with
  | None => Err PyKeyError
  | Some metadata => Ok (bool_decide (topic ∉ jgpm_subscriptions metadata))
  end.

(** The [while] loop. *)
Fixpoint next_subscriber (fuel : nat) (member_metadata : list (text * _JoinGroupProtocolMetadata))
    (topic member_id : text) (member_iter : cycle text) : res (text * cycle text) :=
  match fuel with
  | O => Err OutOfFuel
  | S fuel =>
    skip ← unsubscribed member_metadata topic member_id;
    if skip : bool then
      '(member_id, member_iter) ← cycle_next member_iter;
      next_subscriber fuel member_metadata topic member_id member_iter
    else Ok (member_id, member_iter)
  end.

(** The [for] loop over the sorted partitions. *)
Definition assign_partition (member_metadata : list (text * _JoinGroupProtocolMetadata))
    (st : cycle text * list (text * list (text * list Z))) (tp : text * Z)
    : res (cycle text * list (text * list (text * list Z))) :=
  '(member_id, member_iter) ← cycle_next st.1;
  '(member_id, member_iter) ←
    next_subscriber (S (length member_metadata)) member_metadata tp.1 member_id member_iter;
  Ok (member_iter, assignment_append member_id tp.1 tp.2 st.2).

(** [all_topics], as a list without duplicates. *)
Definition subscribed_topics (member_metadata : list (text * _JoinGroupProtocolMetadata))
    : list text :=
  remove_dups (Dict.values member_metadata ≫= jgpm_subscriptions).

(** [[(topic, partition) for topic in all_topics for ...]]; [None] is the
    [KeyError]. *)
Fixpoint topic_partition_pairs (topics : list text) (topic_partitions : list (text * list Z))
    : option (list (text * Z)) :=
  match topics with
  | [] => Some []
  | topic :: topics =>
    partitions ← Dict.get topic topic_partitions;
    rest ← topic_partition_pairs topics topic_partitions;
    Some ((pair topic <$> partitions) ++ rest)
  end.

Definition _round_robin_assignment (member_metadata : list (text * _JoinGroupProtocolMetadata))
    (topic_partitions : list (text * list Z)) : gres (list (text * list (text * list Z))) :=
  let all_topics := set_iter (subscribed_topics member_metadata) in
  if bool_decide (all_topics = []) then Err (GExn PyAssertionError)
  else
    match topic_partition_pairs all_topics topic_partitions with
    | None => Err (_NeedTopicPartitions all_topics)
    | Some all_topic_partitions =>
      let all_topic_partitions := merge_sort pair_le all_topic_partitions in
      let members := merge_sort text_le (Dict.keys member_metadata) in
      '(_, assignment) ← lift (for_each all_topic_partitions (assign_partition member_metadata)
                                 (mkCycle members 0, []));
      Ok assignment
    end.

(** [member_metadata] of a join response may be null, and [len(None)] is a
    [TypeError]. *)
Definition decode_member (member : _JoinGroupResponseMember) : res _JoinGroupProtocolMetadata :=
  match jgm_member_metadata member with
  | None => Err PyTypeError
  | Some data => decode_join_group_protocol_metadata data
  end.

Definition decode_members (members : list _JoinGroupResponseMember)
    : res (list (text * _JoinGroupProtocolMetadata)) :=
  for_each members (λ member_metadata member,
    metadata ← decode_member member;
    Ok (Dict.set (jgm_member_id member) metadata member_metadata)) [].

Definition encode_assignments (members : list _JoinGroupResponseMember)
    (assignments : list (text * list (text * list Z))) : res (list _SyncGroupRequestMember) :=
  for_each members (λ encoded_assignments member,
    encoded ← encode_sync_group_member_assignment 0
      (default [] (Dict.get (jgm_member_id member) assignments)) (Some []);
    Ok (encoded_assignments ++
          [mkSyncGroupRequestMember (jgm_member_id member) (Some encoded)])) [].

Definition generate_assignments (members : list _JoinGroupResponseMember)
    (topic_partitions : list (text * list Z)) : gres (list _SyncGroupRequestMember) :=
  member_metadata ← lift (decode_members members);
  assignments ← _round_robin_assignment member_metadata topic_partitions;
  lift (encode_assignments members assignments).

Definition decode_assignment (assignment : option bytes) : res (list (text * list Z)) :=
  match assignment with
  | None => Err PyTypeError
  | Some data => a ← decode_sync_group_member_assignment data; Ok (sga_assignments a)
  end.
End protocol.

(** Three members, two of which subscribe to both topics. *)
Example round_robin_example :
  let a := txt "a" in let b := txt "b" in
  let meta ts := mkJoinGroupProtocolMetadata 0 ts (Some []) in
  _round_robin_assignment reverse
    [(txt "m2", meta [b]); (txt "m1", meta [a; b]); (txt "m3", meta [b; a])]
    [(b, [1; 0]); (a, [0; 1; 2])] =
  Ok [(txt "m1", [(a, [0; 2])]); (txt "m3", [(a, [1]); (b, [1])]); (txt "m2", [(b, [0])])].
Proof. vm_compute. reflexivity. Qed.

(** ** What an assignment gives a member *)

Definition assigned (member_id topic : text) (a : list (text * list (text * list Z))) : list Z :=
  default [] (Dict.get member_id a ≫= Dict.get topic).

Lemma assigned_append m t m' t' p a :
  assigned m t (assignment_append m' t' p a) =
    if decide (m' = m ∧ t' = t) then assigned m t a ++ [p] else assigned m t a.
Proof.
  unfold assigned, assignment_append. rewrite Dict.get_set.
  destruct (decide (m = m')) as [->|]; cbn.
  - rewrite Dict.get_set. destruct (decide (t = t')) as [->|]; cbn.
    + rewrite decide_True by done. by destruct (Dict.get m' a).
    + rewrite decide_False by naive_solver. by destruct (Dict.get m' a).
  - by rewrite decide_False by naive_solver.
Qed.

(** The picks of the loop: which member each partition goes to. *)
Abbreviation pick := (text * (text * Z))%type.

Definition apply_picks (picks : list pick) (a : list (text * list (text * list Z))) :=
  foldl (λ a (x : pick), assignment_append x.1 x.2.1 x.2.2 a) a picks.

Lemma assigned_picks m t picks :
  assigned m t (apply_picks picks []) =
    (λ x : pick, x.2.2) <$> filter (λ x : pick, x.1 = m ∧ x.2.1 = t) picks.
Proof.
  induction picks as [|x picks IH] using rev_ind; [done|].
  unfold apply_picks in *. rewrite foldl_app. cbn [foldl].
  rewrite assigned_append, filter_app, fmap_app, IH.
  destruct (decide (x.1 = m ∧ x.2.1 = t)) as [Hx|Hx].
  - by rewrite filter_cons_True, filter_nil by done.
  - by rewrite filter_cons_False, filter_nil, app_nil_r by done.
Qed.

(** All of a member's partitions. *)
Definition share (member_id : text) (a : list (text * list (text * list Z))) : nat :=
  length (default [] (Dict.get member_id a) ≫= snd).

Lemma length_bind_set t (p : Z) inner :
  length (Dict.set t (default [] (Dict.get t inner) ++ [p]) inner ≫= snd) =
    S (length (inner ≫= (snd : text * list Z → list Z))).
Proof.
  induction inner as [|[t0 ps] inner IH]; cbn; [done|].
  destruct (decide (t = t0)) as [->|]; cbn; rewrite !length_app; [cbn; lia|].
  rewrite IH. lia.
Qed.

Lemma share_picks m picks :
  share m (apply_picks picks []) = length (filter (λ x : pick, x.1 = m) picks).
Proof.
  induction picks as [|x picks IH] using rev_ind; [done|].
  unfold apply_picks in *. rewrite foldl_app. cbn [foldl]. set (a := foldl _ _ _) in *.
  rewrite filter_app, length_app, <-IH. unfold share, assignment_append. rewrite Dict.get_set.
  destruct (decide (m = x.1)) as [->|Hne].
  - rewrite filter_cons_True, filter_nil by done.
    pose proof (length_bind_set x.2.1 x.2.2 (default [] (Dict.get x.1 a))) as H.
    cbn [from_option length id] in *. unfold id in *. lia.
  - rewrite filter_cons_False, filter_nil by done. cbn. lia.
Qed.

(** ** The loops *)

Section loops.
Context (mm : list (text * _JoinGroupProtocolMetadata)).

Definition subscribed (m t : text) : Prop :=
  ∃ metadata, Dict.get m mm = Some metadata ∧ t ∈ jgpm_subscriptions metadata.

(** The members in the order of the cycle. *)
Abbreviation members := (merge_sort text_le (Dict.keys mm)).

Lemma members_keys m : m ∈ members ↔ m ∈ Dict.keys mm.
Proof. by rewrite merge_sort_Permutation. Qed.

Lemma length_members : length members = length mm.
Proof. rewrite merge_sort_Permutation. unfold Dict.keys. by rewrite length_fmap. Qed.

Lemma unsubscribed_spec t m :
  m ∈ Dict.keys mm →
  ∃ b, unsubscribed mm t m = Ok b ∧ if b : bool then ¬ subscribed m t else subscribed m t.
Proof.
  intros Hm. unfold unsubscribed, subscribed.
  destruct (Dict.get m mm) as [md|] eqn:Hg; [|by apply Dict.get_None in Hg].
  eexists. split; [done|]. case_bool_decide as Hin; [naive_solver|].
  eexists. split; [done|]. done.
Qed.

(** The search ends at the first subscriber from the position on. *)
Lemma next_subscriber_ok t fuel k j m :
  members !! k = Some m → (j < fuel)%nat →
  (∃ m', members !! ((k + j) mod length members)%nat = Some m' ∧ subscribed m' t) →
  ∃ m' k', next_subscriber fuel mm t m (mkCycle members ((k + 1) mod length members)) =
      Ok (m', mkCycle members k') ∧ subscribed m' t ∧ (k' < length members)%nat ∧
      ((subscribed m t) → m' = m ∧ k' = ((k + 1) mod length members)%nat).
Proof.
  revert k j m. induction fuel as [|fuel IH]; intros k j m Hm Hj Hsub; [lia|].
  pose proof (lookup_lt_Some _ _ _ Hm) as Hk.
  assert (m ∈ Dict.keys mm) as Hin by (apply members_keys; eauto using list_elem_of_lookup_2).
  destruct (unsubscribed_spec t m Hin) as (b & Hb & Hs). cbn [next_subscriber]. rewrite Hb.
  cbn [mbind result_bind]. destruct b.
  - destruct j as [|j].
    { destruct Hsub as (m' & Hm' & Hsub). rewrite Nat.add_0_r, Nat.mod_small in Hm' by done.
      congruence. }
    set (k1 := ((k + 1) mod length members)%nat).
    assert (k1 < length members)%nat as Hk1 by (apply Nat.mod_upper_bound; lia).
    destruct (cycle_next_eq members k1 Hk1) as (m1 & Hm1 & Hc). rewrite Hc.
    cbn [mbind result_bind].
    destruct (IH k1 j m1 Hm1) as (m' & k' & Hn & ? & ? & _); [lia| |].
    { unfold k1. rewrite Nat.Div0.add_mod_idemp_l.
      by replace (k + 1 + j)%nat with (k + S j)%nat by lia. }
    exists m', k'. by split_and!.
  - exists m, ((k + 1) mod length members)%nat. split_and!; try done.
    apply Nat.mod_upper_bound. lia.
Qed.

(** Positions of the cycle reach every member within one turn. *)
Lemma cycle_reaches (l : list text) k i :
  (k < length l)%nat → (i < length l)%nat →
  ∃ j, (j < length l)%nat ∧ ((k + j) mod length l)%nat = i.
Proof.
  intros Hk Hi. destruct (decide (k ≤ i)%nat).
  - exists (i - k)%nat. split; [lia|]. replace (k + (i - k))%nat with i by lia.
    by apply Nat.mod_small.
  - exists (length l - k + i)%nat. split; [lia|].
    replace (k + (length l - k + i))%nat with (i + 1 * length l)%nat by lia.
    rewrite Nat.Div0.mod_add. by apply Nat.mod_small.
Qed.

Lemma assign_partition_ok k a t p :
  (k < length members)%nat → (∃ m, subscribed m t) →
  ∃ m k', assign_partition mm (mkCycle members k, a) (t, p) =
      Ok (mkCycle members k', assignment_append m t p a) ∧
    subscribed m t ∧ (k' < length members)%nat ∧
    ∀ m0, members !! k = Some m0 → subscribed m0 t →
      m = m0 ∧ k' = ((k + 1) mod length members)%nat.
Proof.
  intros Hk (ms & Hsub). unfold assign_partition. cbn [fst snd].
  destruct (cycle_next_eq members k Hk) as (m1 & Hm1 & Hc). rewrite Hc. cbn [mbind result_bind].
  assert (ms ∈ members) as Hms.
  { apply members_keys. destruct Hsub as (md & Hg & _). apply Dict.get_Some_elem in Hg.
    by apply (list_elem_of_fmap_2 fst) in Hg. }
  apply list_elem_of_lookup in Hms as [i Hi]. pose proof (lookup_lt_Some _ _ _ Hi) as Hil.
  destruct (cycle_reaches members k i Hk Hil) as (j & Hj & Hji).
  destruct (next_subscriber_ok t (S (length mm)) k j m1 Hm1) as (m & k' & Hn & Hs & Hk' & Hsame).
  - pose proof length_members. lia.
  - rewrite Hji. eauto.
  - rewrite Hn. exists m, k'. split_and!; try done. intros m0 Hm0 Hs0.
    assert (m0 = m1) as -> by congruence. auto.
Qed.

Lemma assign_loop tps k a :
  (k < length members)%nat → (∀ tp, tp ∈ tps → ∃ m, subscribed m tp.1) →
  ∃ picks c, for_each tps (assign_partition mm) (mkCycle members k, a) =
      Ok (c, apply_picks picks a) ∧ picks.*2 = tps ∧
    Forall (λ x : pick, subscribed x.1 x.2.1) picks ∧
    ((∀ m tp, m ∈ members → tp ∈ tps → subscribed m tp.1) →
       ∀ i, (i < length tps)%nat → fst <$> picks !! i = members !! ((k + i) mod length members)%nat).
Proof.
  revert k a. induction tps as [|[t p] tps IH]; intros k a Hk Hsub.
  - exists [], (mkCycle members k). split_and!; try done. intros _ i Hi. cbn in Hi. lia.
  - destruct (assign_partition_ok k a t p Hk) as (m & k' & Hs & Hm & Hk' & Hsame).
    { apply (Hsub (t, p)). set_solver. }
    destruct (IH k' (assignment_append m t p a) Hk') as (picks & c & Hl & Hp & Hall & Hidx);
      [intros tp Htp; apply Hsub; set_solver|].
    exists ((m, (t, p)) :: picks), c. cbn [for_each]. rewrite Hs. cbn [mbind result_bind].
    split_and!; [done|by cbn; rewrite Hp|by constructor|].
    intros Hfull i Hi. destruct (lookup_lt_is_Some_2 members k Hk) as [m0 Hm0].
    destruct (Hsame m0 Hm0) as [-> ->].
    { apply (Hfull _ (t, p)); [eauto using list_elem_of_lookup_2|set_solver]. }
    destruct i as [|i]; cbn.
    + by rewrite Nat.add_0_r, Nat.mod_small by done.
    + rewrite Hidx.
      * rewrite Nat.Div0.add_mod_idemp_l. do 2 f_equal. lia.
      * intros m1 tp ? ?. apply Hfull; set_solver.
      * cbn in Hi. lia.
Qed.
End loops.

(** ** The pairs to share *)

Lemma pairs_topics topics tps ps q :
  topic_partition_pairs topics tps = Some ps → q ∈ ps → q.1 ∈ topics.
Proof.
  revert ps. induction topics as [|t topics IH]; intros ps; cbn [topic_partition_pairs].
  - intros [= <-]. set_solver.
  - destruct (Dict.get t tps) as [l|]; [|done]. cbn.
    destruct (topic_partition_pairs topics tps) as [rest|]; [|done]. intros [= <-] Hq.
    apply elem_of_app in Hq as [(p & -> & _)%list_elem_of_fmap|Hq]; [cbn; set_solver|].
    right. by apply (IH rest).
Qed.

Lemma filter_pairs_other t t' (l : list Z) :
  t ≠ t' → filter (λ q : text * Z, q.1 = t) (pair t' <$> l) = [].
Proof.
  intros Hne. induction l as [|p l IH]; [done|]. rewrite fmap_cons.
  by rewrite filter_cons_False by (cbn; congruence).
Qed.

Lemma filter_pairs_same t (l : list Z) :
  snd <$> filter (λ q : text * Z, q.1 = t) (pair t <$> l) = l.
Proof.
  induction l as [|p l IH]; [done|]. rewrite fmap_cons, filter_cons_True by done.
  by rewrite fmap_cons, IH.
Qed.

Lemma pairs_of_topic topics tps ps t :
  topic_partition_pairs topics tps = Some ps → NoDup topics → t ∈ topics →
  snd <$> filter (λ q : text * Z, q.1 = t) ps = default [] (Dict.get t tps).
Proof.
  revert ps. induction topics as [|t0 topics IH]; intros ps; cbn [topic_partition_pairs];
    [set_solver|].
  destruct (Dict.get t0 tps) as [l|] eqn:Hg; [|done]. cbn.
  destruct (topic_partition_pairs topics tps) as [rest|] eqn:Hr; [|done].
  intros [= <-] [Ht0 Hnd]%NoDup_cons Ht. rewrite filter_app, fmap_app.
  destruct (decide (t = t0)) as [->|Hne].
  - rewrite filter_pairs_same, Hg. cbn.
    assert (filter (λ q : text * Z, q.1 = t0) rest = []) as ->; [|by rewrite app_nil_r].
    destruct (filter _ rest) as [|q l'] eqn:Hf; [done|].
    assert (q ∈ filter (λ q : text * Z, q.1 = t0) rest) as [<- Hq]%list_elem_of_filter
      by (rewrite Hf; set_solver).
    by apply (pairs_topics _ _ _ _ Hr) in Hq.
  - rewrite filter_pairs_other by done. cbn. apply IH; [done|done|set_solver].
Qed.

Lemma pairs_known topics tps :
  (∀ t, t ∈ topics → Dict.get t tps ≠ None) ↔ topic_partition_pairs topics tps ≠ None.
Proof.
  induction topics as [|t topics IH]; [split; [done|set_solver]|]. cbn [topic_partition_pairs].
  destruct (Dict.get t tps) as [l|] eqn:Hg; cbn.
  - destruct (topic_partition_pairs topics tps) as [rest|]; cbn.
    + split; [done|]. intros _ t' [->|Ht']%elem_of_cons; [by rewrite Hg|]. by apply IH.
    + split; [|done]. intros H. exfalso. apply IH; [|done]. intros t' Ht'. apply H. set_solver.
  - split; [|done]. intros H. exfalso. apply (H t); [set_solver|done].
Qed.

Lemma pairs_perm topics topics' tps ps :
  topics ≡ₚ topics' → topic_partition_pairs topics tps = Some ps →
  ∃ ps', topic_partition_pairs topics' tps = Some ps' ∧ ps ≡ₚ ps'.
Proof.
  intros Hp. revert ps. induction Hp as [|t l l' _ IH|t t' l|l l' l'' _ IH1 _ IH2];
    intros ps; cbn [topic_partition_pairs].
  - intros [= <-]. by exists [].
  - destruct (Dict.get t tps) as [qs|]; [|done]. cbn.
    destruct (topic_partition_pairs l tps) as [rest|]; [|done]. cbn. intros [= <-].
    destruct (IH rest eq_refl) as (ps' & -> & Hps). eexists. split; [done|]. by rewrite Hps.
  - destruct (Dict.get t tps) as [qs|], (Dict.get t' tps) as [qs'|]; cbn; try done.
    destruct (topic_partition_pairs l tps) as [rest|]; [|done]. cbn. intros [= <-].
    eexists. split; [done|]. solve_Permutation.
  - intros H1. destruct (IH1 _ H1) as (ps1 & H2 & Hp1). destruct (IH2 _ H2) as (ps2 & H3 & Hp2).
    exists ps2. split; [done|]. by etrans.
Qed.

(** Splitting a list by a key among distinct ones. *)
Lemma bind_filter_key {A} (key : A → text) (ms : list text) (l : list A) :
  NoDup ms → Forall (λ x, key x ∈ ms) l → (ms ≫= λ m, filter (λ x, key x = m) l) ≡ₚ l.
Proof.
  revert l. induction ms as [|m ms IH]; intros l Hnd Hall.
  - destruct l as [|x l]; [done|]. apply Forall_cons in Hall as [Hx _]. set_solver.
  - apply NoDup_cons in Hnd as [Hm Hnd]. rewrite bind_cons.
    assert ((ms ≫= λ m', filter (λ x, key x = m') l) =
      (ms ≫= λ m', filter (λ x, key x = m') (filter (λ x, key x ≠ m) l))) as ->.
    { clear IH Hall Hnd. induction ms as [|m' ms IH]; [done|]. rewrite !bind_cons, <-IH by set_solver.
      f_equal. clear IH. induction l as [|x l IHl]; [done|].
      destruct (decide (key x = m')) as [Hx|Hx], (decide (key x = m)) as [Hx'|Hx'].
      - exfalso. apply Hm. rewrite <-Hx', Hx. set_solver.
      - rewrite (filter_cons_True (λ y, key y ≠ m)) by done.
        rewrite !(filter_cons_True (λ y, key y = m')) by done. by rewrite IHl.
      - rewrite (filter_cons_False (λ y, key y ≠ m)) by (cbn; auto).
        by rewrite (filter_cons_False (λ y, key y = m')).
      - rewrite (filter_cons_True (λ y, key y ≠ m)) by done.
        by rewrite !(filter_cons_False (λ y, key y = m')). }
    rewrite IH; [|done|].
    + rewrite <-(filter_app_complement (λ x, key x = m) l) at 3. done.
    + apply Forall_forall. intros x [Hx Hin]%list_elem_of_filter.
      rewrite Forall_forall in Hall. apply Hall in Hin. set_solver.
Qed.

Lemma merge_sort_filter_sorted {A B} (R : relation A) (Q : relation B) (f : A → B)
    (P : A → Prop) `{!∀ x, Decision (P x)} (l : list A) :
  Transitive R → Sorted R l → (∀ x y, P x → P y → R x y → Q (f x) (f y)) →
  Sorted Q (f <$> filter P l).
Proof.
  intros Ht Hs HQ. apply Sorted_StronglySorted in Hs; [|done].
  apply StronglySorted_Sorted. induction Hs as [|x l _ IH Hx]; [constructor|].
  destruct (decide (P x)) as [HP|HP].
  - rewrite filter_cons_True, fmap_cons by done. constructor; [done|].
    apply Forall_forall. intros z (y & -> & [Hy Hin]%list_elem_of_filter)%list_elem_of_fmap.
    rewrite Forall_forall in Hx. by apply HQ; auto.
  - by rewrite filter_cons_False.
Qed.

Lemma fmap_filter_comp {A B} (g : A → B) (P : A → Prop) (Q : B → Prop)
    `{!∀ x, Decision (P x), !∀ y, Decision (Q y)} (l : list A) :
  (∀ x, P x ↔ Q (g x)) → g <$> filter P l = filter Q (g <$> l).
Proof.
  intros HPQ. induction l as [|x l IH]; [done|]. rewrite fmap_cons.
  destruct (decide (P x)) as [HP|HP].
  - rewrite filter_cons_True by done. rewrite filter_cons_True by (by apply HPQ).
    by rewrite fmap_cons, IH.
  - rewrite filter_cons_False by done. by rewrite filter_cons_False by (by rewrite <-HPQ).
Qed.

Lemma Permutation_of_eq {A} (l k : list A) : l = k → l ≡ₚ k.
Proof. by intros ->. Qed.

Lemma Sorted_fmap_inv {A B} (R : relation B) (f : A → B) (l : list A) :
  Sorted R (f <$> l) → Sorted (λ x y, R (f x) (f y)) l.
Proof.
  induction l as [|x l IH]; [constructor|]. rewrite fmap_cons. intros [Hs Hx]%Sorted_inv.
  constructor; [auto|]. destruct l; [constructor|]. apply HdRel_inv in Hx. by constructor.
Qed.

Lemma bind_fmap_out {A B C} (f : B → C) (g : A → list B) (l : list A) :
  (l ≫= λ x, f <$> g x) = f <$> (l ≫= g).
Proof. induction l as [|x l IH]; [done|]. by rewrite !bind_cons, fmap_app, IH. Qed.

(** Going round [ms] gives each of its elements the quotient, or one more. *)
Lemma count_mod {A} (key : A → text) (ms : list text) (l : list A) m j :
  NoDup ms → ms !! j = Some m →
  (∀ i, (i < length l)%nat → key <$> l !! i = ms !! (i mod length ms)%nat) →
  (length l / length ms ≤ length (filter (λ x, key x = m) l) ≤ length l / length ms + 1)%nat.
Proof.
  intros Hnd Hj Hl. pose proof (lookup_lt_Some _ _ _ Hj) as Hjl.
  assert (length (filter (λ x, key x = m) l) =
    (length l / length ms + if decide (j < length l mod length ms) then 1 else 0)%nat) as ->;
    [|case_decide; lia].
  induction l as [|x l IH] using rev_ind.
  - cbn [length filter list_filter]. rewrite Nat.Div0.div_0_l, Nat.Div0.mod_0_l.
    by rewrite decide_False by lia.
  - rewrite filter_app, !length_app, IH.
    2:{ intros i Hi. specialize (Hl i). rewrite length_app, lookup_app_l in Hl by done. apply Hl. lia. }
    specialize (Hl (length l)). rewrite length_app, lookup_app_r, Nat.sub_diag in Hl by done.
    cbn in Hl. specialize (Hl ltac:(lia)). set (n := length l) in *. set (k := length ms) in *.
    assert (key x = m ↔ (n mod k = j)%nat) as Hxm.
    { split.
      - intros Hx. rewrite Hx in Hl. symmetry in Hl. by apply (NoDup_lookup _ _ _ _ Hnd Hl).
      - intros Heq. rewrite Heq, Hj in Hl. congruence. }
    assert (length (filter (λ x, key x = m) [x]) = if decide (n mod k = j) then 1 else 0)%nat as ->.
    { destruct (decide (n mod k = j)%nat) as [Hd|Hd].
      - by rewrite filter_cons_True, filter_nil by (by apply Hxm).
      - by rewrite filter_cons_False, filter_nil by (by rewrite Hxm). }
    cbn [length]. pose proof (Nat.div_mod_eq n k) as Hn. pose proof (Nat.mod_upper_bound n k).
    destruct (decide (n mod k = k - 1)%nat) as [Hlast|Hlast].
    + assert ((n + 1) / k = n / k + 1 ∧ (n + 1) mod k = 0)%nat as [-> ->].
      { assert (n + 1 = 0 + (n / k + 1) * k)%nat as -> by nia.
        rewrite Nat.div_add, Nat.Div0.mod_add, Nat.Div0.div_0_l, Nat.Div0.mod_0_l by lia. lia. }
      repeat case_decide; lia.
    + assert ((n + 1) / k = n / k ∧ (n + 1) mod k = n mod k + 1)%nat as [-> ->].
      { assert (n + 1 = (n mod k + 1) + (n / k) * k)%nat as -> by nia.
        rewrite Nat.div_add, Nat.Div0.mod_add, Nat.div_small, Nat.mod_small by lia.
        assert (n = n mod k + n / k * k)%nat as Hn' by nia. split; [|nia].
        rewrite (Nat.div_unique ((n mod k + 1 + n / k * k)) k (n / k) (n mod k + 1)); nia. }
      repeat case_decide; lia.
Qed.

Section theorems.
Context (set_iter : list text → list text).
Hypothesis set_iter_perm : ∀ l, NoDup l → set_iter l ≡ₚ l.

Lemma set_iter_topics mm : set_iter (subscribed_topics mm) ≡ₚ subscribed_topics mm.
Proof. apply set_iter_perm, NoDup_remove_dups. Qed.

Lemma subscribed_topics_spec mm t :
  NoDup (Dict.keys mm) → t ∈ subscribed_topics mm ↔ ∃ m, subscribed mm m t.
Proof.
  intros Hnd. unfold subscribed_topics. rewrite elem_of_remove_dups, list_elem_of_bind.
  unfold subscribed. split.
  - intros (md & Ht & ([m md'] & -> & Hin)%list_elem_of_fmap). exists m, md'.
    split; [by apply Dict.get_elem|done].
  - intros (m & md & Hg & Ht). exists md. split; [done|]. apply Dict.get_Some_elem in Hg.
    by apply (list_elem_of_fmap_2 snd) in Hg.
Qed.

(** The loop of [_round_robin_assignment], run on members and pairs it can
    share. *)
Lemma round_robin_run mm tps :
  NoDup (Dict.keys mm) → subscribed_topics mm ≠ [] →
  (∀ t, t ∈ subscribed_topics mm → Dict.get t tps ≠ None) →
  ∃ ps picks, topic_partition_pairs (set_iter (subscribed_topics mm)) tps = Some ps ∧
    _round_robin_assignment set_iter mm tps = Ok (apply_picks picks []) ∧
    picks.*2 = merge_sort pair_le ps ∧
    Forall (λ x : pick, subscribed mm x.1 x.2.1) picks ∧
    ((∀ m t, m ∈ Dict.keys mm → t ∈ subscribed_topics mm → subscribed mm m t) →
       ∀ i, (i < length ps)%nat → fst <$> picks !! i =
         merge_sort text_le (Dict.keys mm) !! (i mod length mm)%nat).
Proof.
  intros Hnd Hne Hknown. pose proof (set_iter_topics mm) as Hperm.
  set (topics := set_iter _) in *.
  assert (topics ≠ []) as Htn.
  { intros Heq. rewrite Heq in Hperm. by apply Permutation_nil in Hperm. }
  destruct (topic_partition_pairs topics tps) as [ps|] eqn:Hps.
  2:{ exfalso. apply (proj1 (pairs_known topics tps)); [|done]. intros t Ht. apply Hknown.
      by rewrite <-Hperm. }
  assert (0 < length (merge_sort text_le (Dict.keys mm)))%nat as Hm.
  { rewrite merge_sort_Permutation. unfold Dict.keys. rewrite length_fmap.
    destruct mm; [by destruct Hne|cbn; lia]. }
  assert (∀ tp, tp ∈ merge_sort pair_le ps → tp.1 ∈ subscribed_topics mm) as Hin.
  { intros tp Htp. rewrite merge_sort_Permutation in Htp.
    apply (pairs_topics _ _ _ _ Hps) in Htp. by rewrite Hperm in Htp. }
  destruct (assign_loop mm (merge_sort pair_le ps) 0 [] Hm) as (picks & c & Hl & Hp & Hall & Hidx).
  { intros tp Htp. apply (subscribed_topics_spec _ _ Hnd). by apply Hin. }
  exists ps, picks. unfold _round_robin_assignment. fold topics.
  rewrite bool_decide_false, Hps, Hl by done. split_and!; try done.
  intros Hfull i Hi. rewrite Hidx.
  - by rewrite length_members.
  - intros m tp Hmm Htp. apply Hfull; [by apply members_keys|by apply Hin].
  - by rewrite merge_sort_Permutation.
Qed.

(** The assignment is complete and exclusive: when the partitions of every
    subscribed topic are known, the loop ends, and for each topic the members'
    shares together are exactly the topic's partitions, each given once; a
    member only gets partitions of topics it subscribed to, in increasing
    order. *)
Lemma assignment_complete (mm : list (text * _JoinGroupProtocolMetadata))
    (tps : list (text * list Z)) :
  NoDup (Dict.keys mm) → subscribed_topics mm ≠ [] →
  (∀ t, t ∈ subscribed_topics mm → Dict.get t tps ≠ None) →
  ∃ a, _round_robin_assignment set_iter mm tps = Ok a ∧
    (∀ t, t ∈ subscribed_topics mm →
       (Dict.keys mm ≫= λ m, assigned m t a) ≡ₚ default [] (Dict.get t tps)) ∧
    (∀ m t p, p ∈ assigned m t a → subscribed mm m t) ∧
    (∀ m t, Sorted Z.le (assigned m t a)).
Proof.
  intros Hnd Hne Hknown.
  destruct (round_robin_run mm tps Hnd Hne Hknown) as (ps & picks & Hps & Hr & Hp & Hall & _).
  pose proof (set_iter_topics mm) as Hperm.
  exists (apply_picks picks []). split; [done|]. split_and!.
  - intros t Ht.
    transitivity ((λ x : pick, x.2.2) <$> filter (λ x : pick, x.2.1 = t) picks).
    + rewrite <-(bind_filter_key fst (Dict.keys mm) (filter _ picks) Hnd).
      * rewrite <-bind_fmap_out. apply Permutation_of_eq, list_bind_ext; [|done]. intros m.
        by rewrite assigned_picks, list_filter_filter.
      * apply Forall_forall. intros x [_ Hx]%list_elem_of_filter.
        rewrite Forall_forall in Hall. destruct (Hall _ Hx) as (md & Hg & _).
        apply Dict.get_Some_elem in Hg. by apply (list_elem_of_fmap_2 fst) in Hg.
    + change (λ x : pick, x.2.2) with (snd ∘ (snd : pick → text * Z)).
      rewrite list_fmap_compose, (fmap_filter_comp snd _ (λ q : text * Z, q.1 = t)), Hp
        by done.
      rewrite merge_sort_Permutation. apply Permutation_of_eq, (pairs_of_topic _ _ _ _ Hps).
      * rewrite Hperm. apply NoDup_remove_dups.
      * by rewrite Hperm.
  - intros m t p Hin. rewrite assigned_picks in Hin.
    apply list_elem_of_fmap in Hin as (x & -> & [[<- <-] Hx]%list_elem_of_filter).
    rewrite Forall_forall in Hall. by apply Hall.
  - intros m t. rewrite assigned_picks.
    apply (merge_sort_filter_sorted (λ x y : pick, pair_le x.2 y.2)).
    + intros x y z. apply pair_le_trans.
    + apply Sorted_fmap_inv. rewrite Hp. apply Sorted_merge_sort, _.
    + intros [m1 [t1 p1]] [m2 [t2 p2]]. cbn. intros [_ ->] [_ ->]. unfold pair_le, pair_leb. cbn.
      rewrite bool_decide_true by done. intros. by zbool.
Qed.

(** The assignment is balanced: when every member subscribes to every topic,
    the shares of the members differ by at most one partition. *)
Lemma assignment_balanced (mm : list (text * _JoinGroupProtocolMetadata))
    (tps : list (text * list Z)) :
  NoDup (Dict.keys mm) → subscribed_topics mm ≠ [] →
  (∀ t, t ∈ subscribed_topics mm → Dict.get t tps ≠ None) →
  (∀ m t, m ∈ Dict.keys mm → t ∈ subscribed_topics mm → subscribed mm m t) →
  ∃ a total, _round_robin_assignment set_iter mm tps = Ok a ∧
    topic_partition_pairs (set_iter (subscribed_topics mm)) tps = Some total ∧
    ∀ m, m ∈ Dict.keys mm →
      (length total / length mm ≤ share m a ≤ length total / length mm + 1)%nat.
Proof.
  intros Hnd Hne Hknown Hfull.
  destruct (round_robin_run mm tps Hnd Hne Hknown) as (ps & picks & Hps & Hr & Hp & _ & Hidx).
  specialize (Hidx Hfull). exists (apply_picks picks []), ps. split; [done|]. split; [done|].
  intros m Hm. rewrite share_picks.
  assert (length picks = length ps) as Hlen.
  { rewrite <-(length_fmap snd picks), Hp. by rewrite merge_sort_Permutation. }
  assert (NoDup (merge_sort text_le (Dict.keys mm))) as Hnd' by (by rewrite merge_sort_Permutation).
  pose proof (length_members mm) as Hlm. apply members_keys in Hm.
  apply list_elem_of_lookup in Hm as [j Hj]. pose proof (lookup_lt_Some _ _ _ Hj) as Hjl.
  rewrite <-Hlen, <-Hlm. apply (count_mod fst _ picks m j Hnd' Hj).
  intros i Hi. rewrite Hlm. apply Hidx. lia.
Qed.

(** Without any subscription there is nothing to assign; and when some
    subscribed topic has no known partitions the leader asks for the partitions
    of exactly the subscribed topics. *)
Theorem assignment_errors (mm : list (text * _JoinGroupProtocolMetadata))
    (tps : list (text * list Z)) :
  (subscribed_topics mm = [] →
     _round_robin_assignment set_iter mm tps = Err (GExn PyAssertionError)) ∧
  ((∃ t, t ∈ subscribed_topics mm ∧ Dict.get t tps = None) →
     ∃ topics, _round_robin_assignment set_iter mm tps = Err (_NeedTopicPartitions topics) ∧
       topics ≡ₚ subscribed_topics mm).
Proof.
  pose proof (set_iter_topics mm) as Hperm. split.
  - intros Hnil. rewrite Hnil in Hperm. apply Permutation_nil_r in Hperm.
    unfold _round_robin_assignment. by rewrite Hnil, Hperm.
  - intros (t & Ht & Hg). eexists. split; [|exact Hperm]. rewrite <-Hperm in Ht.
    unfold _round_robin_assignment. rewrite bool_decide_false by (intros Hn; rewrite Hn in Ht; set_solver).
    destruct (topic_partition_pairs _ tps) eqn:Hps; [|done]. exfalso.
    by apply (proj2 (pairs_known _ _) ltac:(by rewrite Hps) t Ht).
Qed.
End theorems.

(** The assignment does not depend on the order in which the interpreter
    iterates the set of topics: two leaders, or two runs of one, agree. *)
Theorem assignment_deterministic (iter1 iter2 : list text → list text)
    (mm : list (text * _JoinGroupProtocolMetadata)) (tps : list (text * list Z)) :
  (∀ l, NoDup l → iter1 l ≡ₚ l) → (∀ l, NoDup l → iter2 l ≡ₚ l) →
  match _round_robin_assignment iter1 mm tps, _round_robin_assignment iter2 mm tps with
  | Ok a1, Ok a2 => a1 = a2
  | Err (_NeedTopicPartitions t1), Err (_NeedTopicPartitions t2) => t1 ≡ₚ t2
  | Err (GExn e1), Err (GExn e2) => e1 = e2
  | _, _ => False
  end.
Proof.
  intros H1 H2. pose proof (set_iter_topics _ H1 mm) as P1. pose proof (set_iter_topics _ H2 mm) as P2.
  unfold _round_robin_assignment. set (t1 := iter1 _) in *. set (t2 := iter2 _) in *.
  assert (t1 ≡ₚ t2) as P by (by rewrite P1, P2).
  destruct (decide (t1 = [])) as [Hn|Hn].
  { rewrite Hn in P |- *. apply Permutation_nil_l in P. by rewrite <-P. }
  assert (t2 ≠ []) as Hn2 by (intros Heq; rewrite Heq in P; by apply Permutation_nil_r in P).
  rewrite (bool_decide_false (t1 = [])), (bool_decide_false (t2 = [])) by done.
  destruct (topic_partition_pairs t1 tps) as [ps1|] eqn:Hp1.
  - destruct (pairs_perm _ _ _ _ P Hp1) as (ps2 & -> & Hps).
    rewrite (merge_sort_eq pair_le _ _ Hps).
    destruct (for_each _ _ _) as [[? ?]|]; done.
  - destruct (topic_partition_pairs t2 tps) as [ps2|] eqn:Hp2; [|done].
    destruct (pairs_perm _ _ _ _ (symmetry P) Hp2) as (ps1 & Hc & _). congruence.
Qed.

(** ** From the members to the leader and back *)

Lemma decode_members_keys members mm :
  decode_members members = Ok mm → NoDup (Dict.keys mm).
Proof.
  apply (for_each_inv (λ mm : list (text * _JoinGroupProtocolMetadata), NoDup (Dict.keys mm)));
    [constructor|].
  intros mm0 x mm1 _ Hnd. destruct (decode_member x); [|done]. cbn. intros [= <-].
  by apply Dict.NoDup_set.
Qed.

(** Every member's part of an assignment is a well-formed [dict]. *)
Definition assignment_wf (a : list (text * list (text * list Z))) : Prop :=
  ∀ m, NoDup (Dict.keys (default [] (Dict.get m a))).

Lemma assignment_append_wf m t p a :
  assignment_wf a → assignment_wf (assignment_append m t p a).
Proof.
  intros Ha m'. unfold assignment_append. rewrite Dict.get_set. case_decide; cbn; [|apply Ha].
  apply Dict.NoDup_set, Ha.
Qed.

Lemma round_robin_wf set_iter mm tps a :
  _round_robin_assignment set_iter mm tps = Ok a → assignment_wf a.
Proof.
  unfold _round_robin_assignment. case_bool_decide; [done|].
  destruct (topic_partition_pairs _ _) as [ps|]; [|done].
  destruct (for_each _ _ _) as [[c a']|] eqn:Hl; [|done]. cbn. intros [= <-].
  apply (for_each_inv (λ st : cycle text * _, assignment_wf st.2)) in Hl; [done|..].
  - intros m. constructor.
  - intros [c0 a0] tp [c1 a1] _ Ha. unfold assign_partition. cbn [fst snd] in *.
    destruct (cycle_next c0) as [[m0 c2]|]; [|done]. cbn [mbind result_bind].
    destruct (next_subscriber _ _ _ _ _) as [[m1 c3]|]; [|done]. cbn. intros [= _ <-].
    by apply assignment_append_wf.
Qed.

Lemma encode_assignments_spec a members : ∀ acc encs,
  for_each members (λ encoded_assignments member,
    encoded ← encode_sync_group_member_assignment 0
      (default [] (Dict.get (jgm_member_id member) a)) (Some []);
    Ok (encoded_assignments ++
          [mkSyncGroupRequestMember (jgm_member_id member) (Some encoded)])) acc = Ok encs →
  assignment_wf a → ∃ new, encs = acc ++ new ∧ sgm_member_id <$> new = jgm_member_id <$> members ∧
    ∀ e, e ∈ new → decode_assignment (sgm_member_metadata e) =
      Ok (default [] (Dict.get (sgm_member_id e) a)).
Proof.
  induction members as [|member members IH]; intros acc encs; cbn [for_each].
  - intros [= <-] _. exists []. rewrite app_nil_r. split_and!; [done..|set_solver].
  - set (inner := default [] (Dict.get (jgm_member_id member) a)).
    pose proof (encodes_assignment (mkSyncGroupMemberAssignment 0 inner (Some []))) as He.
    cbn [sga_version sga_assignments sga_user_data] in He.
    destruct (encode_sync_group_member_assignment 0 inner (Some [])) as [b|] eqn:Hb; [|done].
    cbn [mbind result_bind]. intros Hl Hwf. destruct (IH _ _ Hl Hwf) as (new & -> & Hids & Hdec).
    exists (mkSyncGroupRequestMember (jgm_member_id member) (Some b) :: new).
    rewrite <-app_assoc. split_and!; [done|by rewrite !fmap_cons, Hids|].
    intros e [->|Hin]%elem_of_cons; [|by apply Hdec]. cbn [decode_assignment sgm_member_metadata].
    unfold encodes in He. destruct (encodable _ && _) eqn:Hok; [|destruct He as [? He]; congruence].
    assert (b = ser assignment_schema
      (assignment_value (mkSyncGroupMemberAssignment 0 inner (Some [])))) as -> by congruence.
    pose proof (decodes_assignment (mkSyncGroupMemberAssignment 0 inner (Some [])) (Hwf _) eq_refl
      Hok []) as Hd. rewrite app_nil_r in Hd. by rewrite Hd.
Qed.

(** What the leader hands out reaches the members: [generate_assignments]
    returns one entry per member, in order, and [decode_assignment] of an entry
    is that member's part of the round-robin assignment of the decoded
    subscriptions (whose member ids are distinct). *)
Theorem assignment_delivered (set_iter : list text → list text)
    (members : list _JoinGroupResponseMember) (tps : list (text * list Z))
    (encs : list _SyncGroupRequestMember) :
  generate_assignments set_iter members tps = Ok encs →
  ∃ mm a, decode_members members = Ok mm ∧ NoDup (Dict.keys mm) ∧
    _round_robin_assignment set_iter mm tps = Ok a ∧
    sgm_member_id <$> encs = jgm_member_id <$> members ∧
    ∀ e, e ∈ encs → decode_assignment (sgm_member_metadata e) =
      Ok (default [] (Dict.get (sgm_member_id e) a)).
Proof.
  unfold generate_assignments. destruct (decode_members members) as [mm|] eqn:Hm; [|done].
  cbn [lift mbind result_bind].
  destruct (_round_robin_assignment set_iter mm tps) as [a|] eqn:Hr; [|done].
  cbn [mbind result_bind]. destruct (encode_assignments members a) as [encs'|] eqn:He; [|done].
  intros [= <-]. exists mm, a.
  destruct (encode_assignments_spec a members [] encs' He) as (new & -> & Hids & Hdec);
    [by eapply round_robin_wf|].
  split_and!; [done|by eapply decode_members_keys|done|done|done].
Qed.

(** What a member asks for reaches the leader: the protocol metadata that
    [join_group_protocols] writes is decoded to its topics. *)
Theorem subscription_delivered (topics : list text) (protocols : list _JoinGroupRequestProtocol)
    (member_id : text) :
  join_group_protocols topics = Ok protocols →
  ∃ p, protocols = [p] ∧ jgp_protocol_name p = protocol_type ∧
    decode_member (mkJoinGroupResponseMember member_id (jgp_protocol_metadata p)) =
      Ok (mkJoinGroupProtocolMetadata 0 topics (Some [])).
Proof.
  unfold join_group_protocols. set (md := mkJoinGroupProtocolMetadata 0 topics (Some [])).
  pose proof (encodes_subscription md) as He. cbn [jgpm_version jgpm_subscriptions jgpm_user_data md] in He.
  destruct (encode_join_group_protocol_metadata 0 topics (Some [])) as [b|]; [|done].
  cbn [mbind result_bind]. intros [= <-]. eexists. split; [done|]. split; [done|].
  unfold encodes in He. destruct (encodable _ && _) eqn:Hok; [|by destruct He].
  assert (b = ser subscription_schema (subscription_value md)) as -> by congruence.
  pose proof (decodes_subscription md Hok []) as Hd. rewrite app_nil_r in Hd.
  unfold decode_member. cbn [jgm_member_metadata jgp_protocol_metadata]. by rewrite Hd.
Qed.

(** ** Concrete instances *)

Definition sample_metadata (ts : list text) : _JoinGroupProtocolMetadata :=
  mkJoinGroupProtocolMetadata 0 ts (Some []).

Definition sample_mm : list (text * _JoinGroupProtocolMetadata) :=
  [(txt "m2", sample_metadata [txt "b"]); (txt "m1", sample_metadata [txt "a"; txt "b"])].

Definition sample_mm_full : list (text * _JoinGroupProtocolMetadata) :=
  [(txt "m2", sample_metadata [txt "a"; txt "b"]); (txt "m1", sample_metadata [txt "a"; txt "b"])].

Definition sample_tps : list (text * list Z) := [(txt "b", [1; 0]); (txt "a", [0; 1; 2])].

Lemma reverse_perm (l : list text) : NoDup l → reverse l ≡ₚ l.
Proof. intros _. apply reverse_Permutation. Qed.

Lemma sample_known mm :
  subscribed_topics mm = [txt "b"; txt "a"] ∨ subscribed_topics mm = [txt "a"; txt "b"] →
  ∀ t, t ∈ subscribed_topics mm → Dict.get t sample_tps ≠ None.
Proof.
  intros [-> | ->] t Ht; repeat (apply elem_of_cons in Ht as [->|Ht]; [done|]);
    by apply not_elem_of_nil in Ht.
Qed.

Lemma sample_nodup : NoDup (Dict.keys sample_mm) ∧ NoDup (Dict.keys sample_mm_full).
Proof. split; apply (bool_decide_unpack _); vm_compute; exact I. Qed.

Lemma sample_full m t : m ∈ Dict.keys sample_mm_full → t ∈ subscribed_topics sample_mm_full → subscribed sample_mm_full m t.
Proof.
  intros Hm Ht.
  assert (subscribed_topics sample_mm_full = [txt "a"; txt "b"]) as Hs by (vm_compute; reflexivity).
  rewrite Hs in Ht. exists (sample_metadata [txt "a"; txt "b"]). split; [|exact Ht].
  repeat (apply elem_of_cons in Hm as [->|Hm]; [vm_compute; reflexivity|]).
  by apply not_elem_of_nil in Hm.
Qed.

Example assignment_errors_witness :
  (subscribed_topics [(txt "m1", sample_metadata [])] = [] →
     _round_robin_assignment reverse [(txt "m1", sample_metadata [])] sample_tps =
       Err (GExn PyAssertionError)) ∧
  ((∃ t, t ∈ subscribed_topics [(txt "m1", sample_metadata [])] ∧ Dict.get t sample_tps = None) →
     ∃ topics, _round_robin_assignment reverse [(txt "m1", sample_metadata [])] sample_tps =
       Err (_NeedTopicPartitions topics) ∧
       topics ≡ₚ subscribed_topics [(txt "m1", sample_metadata [])]).
Proof.
  exact (assignment_errors reverse reverse_perm [(txt "m1", sample_metadata [])] sample_tps).
Defined.

Example assignment_deterministic_witness :
  match _round_robin_assignment reverse sample_mm sample_tps,
        _round_robin_assignment id sample_mm sample_tps with
  | Ok a1, Ok a2 => a1 = a2
  | Err (_NeedTopicPartitions t1), Err (_NeedTopicPartitions t2) => t1 ≡ₚ t2
  | Err (GExn e1), Err (GExn e2) => e1 = e2
  | _, _ => False
  end.
Proof.
  apply (assignment_deterministic reverse id sample_mm sample_tps reverse_perm).
  intros l _. reflexivity.
Defined.

(** C29. The round-robin assignment is right. It does not depend on the order in
    which the interpreter iterates the set of topics: two leaders, or two runs of
    one, agree. When the partitions of every subscribed topic are known it ends,
    and for each topic the members' shares together are exactly the topic's
    partitions, each given once; a member only gets partitions of topics it
    subscribed to, in increasing order. When every member subscribes to every
    topic, the shares differ by at most one partition. *)
Theorem assignment_correct (iter1 iter2 : list text → list text)
    (mm : list (text * _JoinGroupProtocolMetadata)) (tps : list (text * list Z)) :
  (∀ l, NoDup l → iter1 l ≡ₚ l) → (∀ l, NoDup l → iter2 l ≡ₚ l) →
  match _round_robin_assignment iter1 mm tps, _round_robin_assignment iter2 mm tps with
  | Ok a1, Ok a2 => a1 = a2
  | Err (_NeedTopicPartitions t1), Err (_NeedTopicPartitions t2) => t1 ≡ₚ t2
  | Err (GExn e1), Err (GExn e2) => e1 = e2
  | _, _ => False
  end ∧
  (NoDup (Dict.keys mm) → subscribed_topics mm ≠ [] →
   (∀ t, t ∈ subscribed_topics mm → Dict.get t tps ≠ None) →
   ∃ a total, _round_robin_assignment iter1 mm tps = Ok a ∧
     topic_partition_pairs (iter1 (subscribed_topics mm)) tps = Some total ∧
     (∀ t, t ∈ subscribed_topics mm →
        (Dict.keys mm ≫= λ m, assigned m t a) ≡ₚ default [] (Dict.get t tps)) ∧
     (∀ m t p, p ∈ assigned m t a → subscribed mm m t) ∧
     (∀ m t, Sorted Z.le (assigned m t a)) ∧
     ((∀ m t, m ∈ Dict.keys mm → t ∈ subscribed_topics mm → subscribed mm m t) →
      ∀ m, m ∈ Dict.keys mm →
        (length total / length mm ≤ share m a ≤ length total / length mm + 1)%nat)).
Proof.
  intros H1 H2. split; [by apply assignment_deterministic|].
  intros Hnd Hne Hk. destruct (round_robin_run iter1 H1 mm tps Hnd Hne Hk) as (total & _ & Hpairs & _).
  destruct (assignment_complete iter1 H1 mm tps Hnd Hne Hk) as (a & Ha & Hall).
  exists a, total. split_and!; try apply Hall; [done..|]. intros Hf.
  destruct (assignment_balanced iter1 H1 mm tps Hnd Hne Hk Hf) as (a' & total' & Ha' & Hpairs' & Hshare).
  rewrite Ha in Ha'. rewrite Hpairs in Hpairs'. by injection Ha' as <-; injection Hpairs' as <-.
Qed.

Example assignment_correct_witness :
  match _round_robin_assignment reverse sample_mm_full sample_tps,
        _round_robin_assignment id sample_mm_full sample_tps with
  | Ok a1, Ok a2 => a1 = a2
  | _, _ => False
  end ∧
  ∃ a total, _round_robin_assignment reverse sample_mm_full sample_tps = Ok a ∧
    topic_partition_pairs (reverse (subscribed_topics sample_mm_full)) sample_tps = Some total ∧
    (∀ t, t ∈ subscribed_topics sample_mm_full →
       (Dict.keys sample_mm_full ≫= λ m, assigned m t a) ≡ₚ default [] (Dict.get t sample_tps)) ∧
    ∀ m, m ∈ Dict.keys sample_mm_full →
      (length total / 2 ≤ share m a ≤ length total / 2 + 1)%nat.
Proof.
  destruct (assignment_correct reverse id sample_mm_full sample_tps reverse_perm (λ l _, reflexivity l)) as [Hd Hb].
  split.
  - destruct (_round_robin_assignment reverse _ _) eqn:H1; [|vm_compute in H1; discriminate H1].
    destruct (_round_robin_assignment id _ _) eqn:H2; [|vm_compute in H2; discriminate H2]. exact Hd.
  - destruct Hb as (a & total & Ha & Hp & Hc & _ & _ & Hs); [exact (proj2 sample_nodup)|vm_compute; discriminate| |].
    + apply sample_known. right. vm_compute. reflexivity.
    + exists a, total. repeat (split; [assumption|]). apply Hs. exact sample_full.
Defined.

Definition sample_members : list _JoinGroupResponseMember :=
  (λ kt : text * _JoinGroupProtocolMetadata, mkJoinGroupResponseMember kt.1
     match encode_join_group_protocol_metadata 0 (jgpm_subscriptions kt.2) (Some []) with
     | Ok b => Some b
     | Err _ => None
     end) <$> sample_mm.

Definition sample_encs : list _SyncGroupRequestMember :=
  match generate_assignments reverse sample_members sample_tps with Ok e => e | Err _ => [] end.

Example assignment_delivered_witness :
  ∃ mm a, decode_members sample_members = Ok mm ∧ NoDup (Dict.keys mm) ∧
    _round_robin_assignment reverse mm sample_tps = Ok a ∧
    sgm_member_id <$> sample_encs = [txt "m2"; txt "m1"] ∧
    ∀ e, e ∈ sample_encs → decode_assignment (sgm_member_metadata e) =
      Ok (default [] (Dict.get (sgm_member_id e) a)).
Proof.
  apply (assignment_delivered reverse sample_members sample_tps sample_encs).
  vm_compute. reflexivity.
Defined.

Definition sample_protocols : list _JoinGroupRequestProtocol :=
  match join_group_protocols [txt "a"] with Ok ps => ps | Err _ => [] end.

Example subscription_delivered_witness :
  ∃ p, sample_protocols = [p] ∧ jgp_protocol_name p = protocol_type ∧
    decode_member (mkJoinGroupResponseMember (txt "m1") (jgp_protocol_metadata p)) =
      Ok (mkJoinGroupProtocolMetadata 0 [txt "a"] (Some [])).
Proof.
  apply (subscription_delivered [txt "a"] sample_protocols (txt "m1")).
  vm_compute. reflexivity.
Defined.
