(* ===== verification/Hosts.v ===== *)
(** [afkak/client.py]: the bootstrap hosts of [KafkaClient], how they are parsed
    ([_normalize_hosts]) and set ([update_cluster_hosts]), and the settings its
    constructor checks. *)
From S2P Require Import Prelude Ordering Common PyBytes Util.
Local Open Scope Z_scope.

(** ** Text *)

Definition is_ascii (s : text) : bool := forallb (λ c, (0 <=? c) && (c <? 128)) s.

(** [s.split(sep)]: at least one part. *)
Fixpoint split_on {A} `{EqDecision A} (sep : A) (s : list A) : list (list A) :=
  match s with
  | [] => [[]]
  | c :: s =>
    if decide (c = sep) then [] :: split_on sep s
    else match split_on sep s with
         | part :: parts => (c :: part) :: parts
         | [] => [[c]]
         end
  end.

(** [s.strip()]: ASCII white space, as the text has passed [nativeString]. *)
Definition is_space (c : Z) : bool := ((9 <=? c) && (c <=? 13)) || ((28 <=? c) && (c <=? 32)).

Fixpoint skip (p : Z → bool) (s : text) : text :=
  match s with c :: s' => if p c then skip p s' else s | [] => [] end.
Definition trim (p : Z → bool) (s : text) : text := reverse (skip p (reverse (skip p s))).
Definition strip : text → text := trim is_space.

(** [int(s)] of ASCII text: white space around, a sign, digits, which may have
    single underscores between them. *)
Definition is_digit (c : Z) : bool := (48 <=? c) && (c <=? 57).

Fixpoint digits (acc : Z) (after_digit : bool) (s : text) : option Z :=
  match s with
  | [] => if after_digit then Some acc else None
  | c :: s =>
    if is_digit c then digits (10 * acc + (c - 48)) true s
    else if (c =? 95) && after_digit then digits acc false s
    else None
  end.

Definition int_space (c : Z) : bool := ((9 <=? c) && (c <=? 13)) || (c =? 32).

Definition signed (s : text) : option Z :=
  match s with
  | 43 :: s => digits 0 false s
  | 45 :: s => Z.opp <$> digits 0 false s
  | s => digits 0 false s
  end.

Definition int_of_ascii (s : text) : res Z :=
  match signed (trim int_space s) with Some z => Ok z | None => Err PyValueError end.

(** ** Arguments *)

(** An element of a [(host, port)] tuple, an element of [hosts], and [hosts]. *)
Inductive item := IVal (v : pyval) | IInt (z : Z).
Inductive host_port := HPText (s : text) | HPBytes (b : bytes) | HPTuple (items : list item) | HPOther.
Inductive hosts_arg := HText (s : text) | HBytes (b : bytes) | HList (l : list host_port).

(** Twisted's [nativeString]: text, limited to ASCII, from text or bytes. *)
Class NativeString := nativeString : pyval → res text.

Class NativeStringLaws (N : NativeString) := {
  native_ascii v s : nativeString v = Ok s → is_ascii s = true;
  native_text s : is_ascii s = true → nativeString (VStr s) = Ok s;
  native_bytes b s : ascii_decode b = Ok s → nativeString (VBytes b) = Ok s;
}.

(** One that keeps the laws. *)
#[export] Instance native_string : NativeString := λ v,
  match v with
  | VStr s => if is_ascii s then Ok s else Err PyUnicodeEncodeError
  | VBytes b => ascii_decode b
  | VOther => Err PyTypeError
  end.

(** The decimal digits and spaces of other scripts are the interpreter's. *)
Class UnicodeInt := int_of_unicode : text → res Z.

Section hosts.
Context {N : NativeString} {U : UnicodeInt}.

Definition int_of_text (s : text) : res Z := if is_ascii s then int_of_ascii s else int_of_unicode s.

Definition int_of (x : item) : res Z :=
  match x with
  | IInt z => Ok z
  | IVal (VStr s) => int_of_text s
  | IVal (VBytes b) => int_of_ascii (Z_of_byte <$> b)
  | IVal VOther => Err PyTypeError
  end.

Definition native (x : item) : res text := nativeString (match x with IVal v => v | IInt _ => VOther end).

(** The body of the loop: what is added to the set. *)
Definition normalize_text (v : pyval) : res (text * Z) :=
  s ← nativeString v;
  match split_on 58 s with
  | [] => Err PyIndexError
  | [host] => Ok (strip host, DefaultKafkaPort)
  | host :: port :: _ => port ← int_of_text (strip port); Ok (strip host, port)
  end.

Definition normalize_one (hp : host_port) : res (text * Z) :=
  match hp with
  | HPText s => normalize_text (VStr s)
  | HPBytes b => normalize_text (VBytes b)
  | HPTuple [host; port] => host ← native host; port ← int_of port; Ok (host, port)
  | HPTuple _ => Err PyValueError
  | HPOther => Err PyTypeError
  end.

(** [hosts.split(',')] when it is a string. *)
Definition entries (hosts : hosts_arg) : list host_port :=
  match hosts with
  | HText s => HPText <$> split_on 44 s
  | HBytes b => HPBytes <$> split_on (byte_of_Z 44) b
  | HList l => l
  end.

Fixpoint normalize_all (hps : list host_port) : res (list (text * Z)) :=
  match hps with
  | [] => Ok []
  | hp :: hps => x ← normalize_one hp; xs ← normalize_all hps; Ok (x :: xs)
  end.
End hosts.

Section client.
Context {N : NativeString} {U : UnicodeInt}.

Definition _normalize_hosts (hosts : hosts_arg) : res (list (text * Z)) :=
  xs ← normalize_all (entries hosts); Ok (sorted_set xs).

(** [update_cluster_hosts(hosts)], on the hosts there were. *)
Definition update_cluster_hosts (hosts : hosts_arg) (_bootstrap_hosts : list (text * Z)) : list (text * Z) * res unit :=
  match _normalize_hosts hosts with
  | Ok hosts => (hosts, Ok tt)
  | Err e => (_bootstrap_hosts, Err e)
  end.

(** What the constructor makes of its arguments: the time limit in
    milliseconds, the client id's bytes, the bootstrap hosts. *)
Record settings := mkSettings { timeout : Z; _clientIdBytes : bytes; _bootstrap_hosts : list (text * Z) }.

Definition default_client_id : bytes := byte_of_Z <$> txt "afkak-client".

Definition configured (hosts : hosts_arg) (clientId : option pyval) (timeout : option Z) : res settings :=
  match timeout with
  | None => Err PyTypeError
  | Some timeout =>
    id ← match clientId with Some id => _coerce_client_id id | None => Ok default_client_id end;
    hosts ← _normalize_hosts hosts;
    Ok (mkSettings timeout id hosts)
  end.
End client.

(** ** Splitting *)

Lemma split_on_nonempty {A} `{EqDecision A} (sep : A) s : split_on sep s ≠ [].
Proof. destruct s as [|c s]; [done|]. cbn. case_decide; [done|]. by destruct (split_on sep s). Qed.

Lemma split_on_none {A} `{EqDecision A} (sep : A) s : sep ∉ s → split_on sep s = [s].
Proof.
  induction s as [|c s IH]; [done|]. intros Hs. cbn. rewrite decide_False by set_solver. by rewrite IH by set_solver.
Qed.

Lemma split_on_app {A} `{EqDecision A} (sep : A) s t : sep ∉ s → split_on sep (s ++ sep :: t) = s :: split_on sep t.
Proof.
  induction s as [|c s IH]; intros Hs; cbn [app split_on]; [by rewrite decide_True|].
  rewrite decide_False by set_solver. by rewrite IH by set_solver.
Qed.

(** The parts put together again, with the separator between them. *)
Fixpoint join_with {A} (sep : A) (parts : list (list A)) : list A :=
  match parts with [] => [] | [part] => part | part :: parts => part ++ sep :: join_with sep parts end.

Lemma split_join {A} `{EqDecision A} (sep : A) parts : parts ≠ [] → (∀ part, part ∈ parts → sep ∉ part) →
  split_on sep (join_with sep parts) = parts.
Proof.
  induction parts as [|p [|q parts] IH]; intros Hne Hs; [done|apply split_on_none, Hs; set_solver|].
  change (join_with sep (p :: q :: parts)) with (p ++ sep :: join_with sep (q :: parts)).
  rewrite split_on_app by (apply Hs; set_solver). f_equal. apply IH; [done|set_solver].
Qed.

(** ** Texts that name a host *)

Lemma skip_none p c s : p c = false → skip p (c :: s) = c :: s.
Proof. cbn. by intros ->. Qed.

Lemma trim_clean p s : (∀ c, head s = Some c → p c = false) → (∀ c, last s = Some c → p c = false) → trim p s = s.
Proof.
  intros Hh Hl. unfold trim. destruct s as [|c s] using rev_ind; [done|]. clear IHs.
  assert (skip p (s ++ [c]) = s ++ [c]) as ->.
  { destruct s as [|d s]; apply skip_none, Hh; done. }
  rewrite reverse_snoc, skip_none by (apply Hl; by rewrite last_snoc). by rewrite reverse_cons, reverse_involutive.
Qed.

Lemma skip_all p a s : Forall (λ c, p c = true) a → skip p (a ++ s) = skip p s.
Proof. induction 1 as [|c a Hc _ IH]; [done|]. cbn. by rewrite Hc. Qed.

Lemma trim_padded p a s b : Forall (λ c, p c = true) a → Forall (λ c, p c = true) b → (∀ c, c ∈ s → p c = false) →
  trim p (a ++ s ++ b) = s.
Proof.
  intros Ha Hb Hs. destruct s as [|c s].
  - unfold trim. rewrite skip_all by done. cbn [app]. rewrite <- (app_nil_r b), skip_all by done. done.
  - transitivity (trim p (c :: s)).
    + unfold trim. rewrite skip_all by done. cbn [app]. rewrite !(skip_none p c) by (apply Hs; left).
      rewrite app_comm_cons, reverse_app, skip_all by (by apply Forall_reverse). done.
    + apply trim_clean; intros d Hd; apply Hs; [by apply head_Some_elem_of|by apply last_Some_elem_of].
Qed.

Lemma skip_ascii p s : is_ascii s = true → is_ascii (skip p s) = true.
Proof. induction s as [|c s IH]; [done|]. cbn. intros [Hc Hs]%andb_prop. destruct (p c); [by apply IH|]. cbn. by rewrite Hc, Hs. Qed.

Lemma reverse_ascii s : is_ascii (reverse s) = is_ascii s.
Proof. unfold is_ascii. apply eq_true_iff_eq. rewrite !forallb_forall. setoid_rewrite <- list_elem_of_In. by setoid_rewrite elem_of_reverse. Qed.

Lemma strip_ascii s : is_ascii s = true → is_ascii (strip s) = true.
Proof. intros Hs. unfold strip, trim. rewrite reverse_ascii. apply skip_ascii. rewrite reverse_ascii. by apply skip_ascii. Qed.

Lemma split_ascii sep s part : is_ascii s = true → part ∈ split_on sep s → is_ascii part = true.
Proof.
  revert part. induction s as [|c s IH]; intros part; cbn [split_on]; [by intros _ ->%list_elem_of_singleton|].
  intros [Hc Hs]%andb_prop. case_decide; [intros [->|?]%elem_of_cons; [done|by apply IH]|].
  pose proof (split_on_nonempty sep s) as Hne. destruct (split_on sep s) as [|q parts]; [done|].
  intros [->|?]%elem_of_cons; [|apply IH; [done|set_solver]]. cbn. rewrite Hc. apply IH; [done|set_solver].
Qed.

(** A port in decimal digits. *)
Definition port_text (ds : list Z) : text := (λ d, 48 + d) <$> ds.
Definition port_value (ds : list Z) : Z := foldl (λ n d, 10 * n + d) 0 ds.
Definition decimal (ds : list Z) : Prop := ds ≠ [] ∧ Forall (λ d, 0 ≤ d ≤ 9) ds.

Lemma digit_char d : 0 ≤ d ≤ 9 → is_digit (48 + d) = true ∧ int_space (48 + d) = false ∧ is_space (48 + d) = false.
Proof. intros Hd. unfold is_digit, int_space, is_space. lia. Qed.

Lemma digits_value ds : Forall (λ d, 0 ≤ d ≤ 9) ds → ∀ acc b, (ds = [] → b = true) →
  digits acc b (port_text ds) = Some (foldl (λ n d, 10 * n + d) acc ds).
Proof.
  induction 1 as [|d ds Hd Hds IH]; intros acc b Hb; [by cbn; rewrite Hb|]. unfold port_text in *. rewrite fmap_cons. cbn [digits foldl].
  destruct (digit_char d Hd) as [-> _]. rewrite IH by done. do 2 f_equal. lia.
Qed.

Lemma port_text_last ds c : Forall (λ d, 0 ≤ d ≤ 9) ds → c ∈ port_text ds → is_digit c = true ∧ int_space c = false ∧ is_space c = false.
Proof. intros Hds (d & -> & Hd)%list_elem_of_fmap. rewrite Forall_forall in Hds. by apply digit_char, Hds. Qed.

Lemma trim_port p ds : (∀ c, c ∈ port_text ds → p c = false) → trim p (port_text ds) = port_text ds.
Proof. intros Hp. apply trim_clean; intros c Hc; apply Hp; [by apply head_Some_elem_of|by apply last_Some_elem_of]. Qed.

Lemma int_of_port ds : decimal ds → int_of_ascii (port_text ds) = Ok (port_value ds).
Proof.
  intros [Hne Hds]. unfold int_of_ascii. rewrite trim_port by (intros c Hc; by apply (port_text_last ds)).
  assert (signed (port_text ds) = digits 0 false (port_text ds)) as ->.
  { destruct ds as [|d ds]; [done|]. apply Forall_cons in Hds as [Hd _]. unfold port_text. rewrite fmap_cons.
    assert (d = 0 ∨ d = 1 ∨ d = 2 ∨ d = 3 ∨ d = 4 ∨ d = 5 ∨ d = 6 ∨ d = 7 ∨ d = 8 ∨ d = 9) as Hcases by lia.
    by destruct_or! Hcases; subst d. }
  by rewrite (digits_value ds Hds).
Qed.

(** A host named in a text: white space around its name, and a port or none,
    with white space around that. *)
Record naming := mkNaming { before : text; host_name : text; after : text; port_name : option (text * list Z * text) }.

Definition blank (s : text) : Prop := Forall (λ c, is_space c = true) s.

Definition named (x : naming) : text :=
  before x ++ host_name x ++ after x ++ match port_name x with Some (a, ds, b) => 58 :: a ++ port_text ds ++ b | None => [] end.
Definition meant (x : naming) : text * Z :=
  (host_name x, match port_name x with Some (_, ds, _) => port_value ds | None => DefaultKafkaPort end).
Record well_named (x : naming) : Prop := {
  wn_ascii : is_ascii (host_name x) = true;
  wn_name c : c ∈ host_name x → is_space c = false ∧ c ≠ 58 ∧ c ≠ 44;
  wn_blank : blank (before x) ∧ blank (after x);
  wn_port : match port_name x with Some (a, ds, b) => blank a ∧ decimal ds ∧ blank b | None => True end;
}.

Lemma blank_no c s : is_space c = false → blank s → c ∉ s.
Proof. intros Hc Hs Hin. unfold blank in Hs. rewrite Forall_forall in Hs. rewrite Hs in Hc by done. done. Qed.

Lemma blank_ascii s : blank s → is_ascii s = true.
Proof. intros Hs. apply forallb_forall. intros c Hc%list_elem_of_In. unfold blank in Hs. rewrite Forall_forall in Hs.
  specialize (Hs c Hc). cbv beta in Hs. unfold is_space in Hs. lia. Qed.

Lemma is_ascii_app s t : is_ascii (s ++ t) = is_ascii s && is_ascii t.
Proof. apply forallb_app. Qed.

Lemma port_text_no c ds : is_digit c = false → Forall (λ d, 0 ≤ d ≤ 9) ds → c ∉ port_text ds.
Proof. intros Hc Hds Hin. destruct (port_text_last ds c Hds Hin). congruence. Qed.

Lemma port_text_ascii ds : Forall (λ d, 0 ≤ d ≤ 9) ds → is_ascii (port_text ds) = true.
Proof. intros Hds. apply forallb_forall. intros c Hc%list_elem_of_In.
  destruct (port_text_last ds c Hds Hc) as [Hd _]. unfold is_digit in Hd. lia. Qed.

Section laws.
Context {N : NativeString} {HN : NativeStringLaws N} {U : UnicodeInt}.

Lemma named_ascii x : well_named x → is_ascii (named x) = true.
Proof using Type.
  intros [Ha _ [Hb Hc] Hp]. unfold named. rewrite !is_ascii_app, Ha, !blank_ascii by done.
  destruct (port_name x) as [[[a ds] b]|]; [|done]. destruct Hp as (? & [_ ?] & ?).
  change (is_ascii (a ++ port_text ds ++ b) = true). by rewrite !is_ascii_app, port_text_ascii, !blank_ascii.
Qed.

Lemma normalize_named x : well_named x → normalize_one (HPText (named x)) = Ok (meant x).
Proof using HN.
  intros Hx. pose proof (named_ascii x Hx) as Hascii. destruct Hx as [_ Hn [Hb Ha] Hp].
  cbn [normalize_one]. unfold normalize_text. rewrite native_text by done. cbn [mbind result_bind].
  unfold named, meant in *. set (h := before x ++ host_name x ++ after x).
  assert (58 ∉ h) as Hh.
  { intros [?|[Hin|?]%elem_of_app]%elem_of_app; [by apply (blank_no 58 (before x))| |by apply (blank_no 58 (after x))]. by destruct (Hn 58 Hin) as (_ & ? & _). }
  assert (strip h = host_name x) as Hstrip by (apply trim_padded; [done..|]; intros c Hc; by apply Hn).
  destruct (port_name x) as [[[a ds] b]|].
  - destruct Hp as (Hpa & Hds & Hpb). replace (before x ++ _) with (h ++ 58 :: a ++ port_text ds ++ b) by (unfold h; by rewrite <- !(assoc_L (++))).
    rewrite split_on_app by done. rewrite split_on_none, Hstrip.
    + unfold strip. rewrite trim_padded by (done || (intros c Hin; apply (port_text_last ds); [apply Hds|done])).
      unfold int_of_text. rewrite port_text_ascii, int_of_port by apply Hds || done. done.
    + intros [?|[?|?]%elem_of_app]%elem_of_app; [by apply (blank_no 58 a)| |by apply (blank_no 58 b)].
      by eapply (port_text_no 58 ds); [done|apply Hds|].
  - replace (before x ++ _) with h by (unfold h; by rewrite app_nil_r). by rewrite split_on_none, Hstrip.
Qed.

(** The separator of hosts is in none. *)
Lemma named_no_comma x : well_named x → 44 ∉ named x.
Proof using Type.
  intros [_ Hn [Hb Ha] Hp]. unfold named.
  intros [?|[Hin|[?|Hin]%elem_of_app]%elem_of_app]%elem_of_app; [by apply (blank_no 44 (before x))| |by apply (blank_no 44 (after x))|].
  - by destruct (Hn 44 Hin) as (_ & _ & ?).
  - destruct (port_name x) as [[[a ds] b]|]; [|by apply elem_of_nil in Hin]. destruct Hp as (? & [_ ?] & ?).
    apply elem_of_cons in Hin as [?|[?|[?|?]%elem_of_app]%elem_of_app]; [done|by apply (blank_no 44 a)|by eapply (port_text_no 44 ds)|by apply (blank_no 44 b)].
Qed.

Lemma normalize_one_ascii hp x : normalize_one hp = Ok x → is_ascii x.1 = true.
Proof.
  assert (∀ v, normalize_text v = Ok x → is_ascii x.1 = true) as Ht.
  { intros v. unfold normalize_text. destruct (nativeString v) as [s|] eqn:Hs; [|done]. apply native_ascii in Hs. cbn [mbind result_bind].
    pose proof (split_ascii 58 s) as Hp. destruct (split_on 58 s) as [|h [|p ps]]; [done| |].
    - intros [= <-]. apply strip_ascii, Hp; [done|set_solver].
    - destruct (int_of_text (strip p)); [|done]. cbn. intros [= <-]. apply strip_ascii, Hp; [done|set_solver]. }
  destruct hp as [s|b|[|h [|p [|? ?]]]|]; try done; [by apply Ht..|]. cbn. unfold native.
  destruct (nativeString _) as [h'|] eqn:Hn; [|done]. cbn. destruct (int_of p); [|done]. cbn. intros [= <-]. by eapply native_ascii.
Qed.

Lemma normalize_all_ok hps : ∀ xs, normalize_all hps = Ok xs → ∀ x, x ∈ xs ↔ ∃ hp, hp ∈ hps ∧ normalize_one hp = Ok x.
Proof.
  induction hps as [|hp hps IH]; intros xs; cbn [normalize_all]; [intros [= <-] x; set_solver|].
  unfold mbind, result_bind. destruct (normalize_one hp) as [y|] eqn:Hy; [|done]. destruct (normalize_all hps) as [ys|] eqn:Hys; [|done].
  intros [= <-] x. rewrite elem_of_cons, (IH ys eq_refl). split.
  - intros [->|(hp' & ? & ?)]; [by exists hp; split; [left|]|by exists hp'; split; [right|]].
  - intros (hp' & [->|?]%elem_of_cons & Hx); [left; congruence|right; by exists hp'].
Qed.

Lemma normalize_all_some hps : (∀ hp, hp ∈ hps → ∃ x, normalize_one hp = Ok x) → ∃ xs, normalize_all hps = Ok xs.
Proof.
  induction hps as [|hp hps IH]; intros Hh; [by exists []|]. destruct (Hh hp) as [x Hx]; [left|].
  destruct IH as [xs Hxs]; [set_solver|]. exists (x :: xs). cbn. rewrite Hx. cbn. by rewrite Hxs.
Qed.

Lemma normalize_all_err hps e : normalize_all hps = Err e → ∃ hp, hp ∈ hps ∧ normalize_one hp = Err e.
Proof.
  induction hps as [|hp hps IH]; [done|]. cbn. unfold mbind, result_bind. destruct (normalize_one hp) as [x|] eqn:Hx.
  - destruct (normalize_all hps); [done|]. intros [= ->]. destruct IH as (hp' & ? & ?); [done|]. exists hp'. by split; [right|].
  - intros [= ->]. exists hp. by split; [left|].
Qed.

Lemma normalize_all_each hps xs hp : normalize_all hps = Ok xs → hp ∈ hps → ∃ x, normalize_one hp = Ok x.
Proof.
  revert xs. induction hps as [|hp' hps IH]; intros xs; cbn; [by intros _ ?%elem_of_nil|]. unfold mbind, result_bind.
  destruct (normalize_one hp') as [x|] eqn:Hx; [|done]. destruct (normalize_all hps); [|done].
  intros _ [->|?]%elem_of_cons; [by exists x|by eapply IH].
Qed.

Lemma normalize_hosts_ok hosts l : _normalize_hosts hosts = Ok l → ∃ xs, normalize_all (entries hosts) = Ok xs ∧ l = sorted_set xs.
Proof. unfold _normalize_hosts, mbind, result_bind. destruct (normalize_all _) as [xs|]; [|done]. intros [= <-]. by exists xs. Qed.

Lemma normalize_hosts_set hosts hps l : _normalize_hosts hosts = Ok l →
  (∀ x, (∃ hp, hp ∈ hps ∧ normalize_one hp = Ok x) ↔ ∃ hp, hp ∈ entries hosts ∧ normalize_one hp = Ok x) →
  (∀ hp, hp ∈ hps → ∃ x, normalize_one hp = Ok x) → _normalize_hosts (HList hps) = Ok l.
Proof.
  unfold _normalize_hosts, mbind, result_bind. destruct (normalize_all (entries hosts)) as [xs|] eqn:Hxs; [|done].
  intros [= <-] Hsame Hall. destruct (normalize_all_some hps Hall) as [ys Hys]. cbn [entries]. rewrite Hys. f_equal.
  symmetry. apply sorted_set_unique; [apply sorted_set_sorted|apply sorted_set_nodup|]. intros x.
  by rewrite sorted_set_elem, (normalize_all_ok _ _ Hxs), (normalize_all_ok _ _ Hys), Hsame.
Qed.

Definition as_tuple (x : text * Z) : host_port := HPTuple [IVal (VStr x.1); IInt x.2].

End laws.

#[export] Instance native_string_laws : NativeStringLaws native_string.
Proof.
  split.
  - intros [s|b|] t; cbn; [by destruct (is_ascii s) eqn:Hs; [intros [= <-]|]| |done]. unfold ascii_decode.
    destruct (forallb _ b) eqn:Hb; [|done]. intros [= <-]. unfold is_ascii. rewrite forallb_forall in *.
    intros c (x & -> & Hx)%list_elem_of_In%list_elem_of_fmap. apply list_elem_of_In, Hb in Hx. pose proof (Z_of_byte_range x). lia.
  - intros s Hs. cbn. by rewrite Hs.
  - done.
Qed.

#[local] Instance no_other_digits : UnicodeInt := λ _, Err PyValueError.

Lemma plainly_named h p : is_ascii h = true → forallb (λ c, negb (is_space c || (c =? 58) || (c =? 44))) h = true →
  match p with Some (a, ds, b) => blank a ∧ decimal ds ∧ blank b | None => True end → well_named (mkNaming [] h [] p).
Proof.
  intros Ha Hh Hp. split; [done| |by split; constructor|done]. cbn [host_name]. intros c Hc%list_elem_of_In.
  rewrite forallb_forall in Hh. specialize (Hh c Hc). cbv beta in Hh. destruct (is_space c); lia.
Qed.


(** The constructor refuses a missing time limit, and otherwise fails as the
    client id or the hosts do. *)
Theorem configured_settings `{N : NativeString} `{U : UnicodeInt} hosts clientId timeout s :
  configured hosts clientId timeout = Ok s ↔
  timeout = Some (Hosts.timeout s) ∧ _normalize_hosts hosts = Ok (_bootstrap_hosts s) ∧
  match clientId with Some id => _coerce_client_id id = Ok (_clientIdBytes s) | None => _clientIdBytes s = default_client_id end.
Proof.
  unfold configured, mbind, result_bind. destruct timeout as [t|]; [|split; [done|by intros [? _]]]. destruct s as [t' id' l']. cbn.
  destruct clientId as [id|]; [destruct (_coerce_client_id id)|]; destruct (_normalize_hosts hosts); naive_solver.
Qed.
