(* ===== verification/Client.v ===== *)
(** [afkak/client.py]: [KafkaClient], the cache of cluster metadata and the
    owner of the broker clients. The broker clients it holds are those of
    [BrokerClient]; what the network does to one is an event of that machine.
    The methods that wait ([inlineCallbacks]) are split where they wait; what
    they route with the cache is in [Routing]. *)
From S2P Require Import Prelude Common PyBytes Util KafkaCodec Deferred BrokerClient.
Local Open Scope Z_scope.

#[export] Instance TopicAndPartition_eq_dec : EqDecision TopicAndPartition.
Proof. solve_decision. Defined.
#[export] Instance TopicAndPartition_countable : Countable TopicAndPartition.
Proof.
  by refine (inj_countable' (λ tp, (tp_topic tp, tp_partition tp))
               (λ p, mkTopicAndPartition p.1 p.2) _); intros [].
Defined.

(** The cached lookup tables are maps; [clients], which is iterated when the
    client is closed, keeps the order of its [dict], and is [None] once closed.
    [closed_clients] are the broker clients given to [_close_brokerclients], in
    that order; [_coordinator_fetches] holds the waiting deferreds of each
    group; [unaware_requests] are the requests passed to
    [_send_broker_unaware_request]. *)
Record KafkaClient := mkKafkaClient {
  clients : option (list (Z * _KafkaBrokerClient));
  topics_to_brokers : gmap TopicAndPartition (option BrokerMetadata);
  partition_meta : gmap TopicAndPartition PartitionMetadata;
  _group_to_coordinator : gmap text BrokerMetadata;
  _coordinator_fetches : gmap text (list nat);
  topic_partitions : gmap text (list Z);
  topic_errors : gmap text Z;
  correlation_id : Z;
  _brokers : gmap Z BrokerMetadata;
  _closing : bool;
  closed_clients : list _KafkaBrokerClient;
  kc_deferreds : deferreds bool;
  unaware_requests : list (Z * bytes);
}.

Definition with_clients x (c : KafkaClient) : KafkaClient :=
  mkKafkaClient x (topics_to_brokers c) (partition_meta c) (_group_to_coordinator c)
    (_coordinator_fetches c) (topic_partitions c) (topic_errors c) (correlation_id c) (_brokers c)
    (_closing c) (closed_clients c) (kc_deferreds c) (unaware_requests c).
Definition with_topics_to_brokers x (c : KafkaClient) : KafkaClient :=
  mkKafkaClient (clients c) x (partition_meta c) (_group_to_coordinator c)
    (_coordinator_fetches c) (topic_partitions c) (topic_errors c) (correlation_id c) (_brokers c)
    (_closing c) (closed_clients c) (kc_deferreds c) (unaware_requests c).
Definition with_partition_meta x (c : KafkaClient) : KafkaClient :=
  mkKafkaClient (clients c) (topics_to_brokers c) x (_group_to_coordinator c)
    (_coordinator_fetches c) (topic_partitions c) (topic_errors c) (correlation_id c) (_brokers c)
    (_closing c) (closed_clients c) (kc_deferreds c) (unaware_requests c).
Definition with_group_to_coordinator x (c : KafkaClient) : KafkaClient :=
  mkKafkaClient (clients c) (topics_to_brokers c) (partition_meta c) x (_coordinator_fetches c)
    (topic_partitions c) (topic_errors c) (correlation_id c) (_brokers c) (_closing c)
    (closed_clients c) (kc_deferreds c) (unaware_requests c).
Definition with_coordinator_fetches x (c : KafkaClient) : KafkaClient :=
  mkKafkaClient (clients c) (topics_to_brokers c) (partition_meta c) (_group_to_coordinator c) x
    (topic_partitions c) (topic_errors c) (correlation_id c) (_brokers c) (_closing c)
    (closed_clients c) (kc_deferreds c) (unaware_requests c).
Definition with_topic_partitions x (c : KafkaClient) : KafkaClient :=
  mkKafkaClient (clients c) (topics_to_brokers c) (partition_meta c) (_group_to_coordinator c)
    (_coordinator_fetches c) x (topic_errors c) (correlation_id c) (_brokers c) (_closing c)
    (closed_clients c) (kc_deferreds c) (unaware_requests c).
Definition with_topic_errors x (c : KafkaClient) : KafkaClient :=
  mkKafkaClient (clients c) (topics_to_brokers c) (partition_meta c) (_group_to_coordinator c)
    (_coordinator_fetches c) (topic_partitions c) x (correlation_id c) (_brokers c) (_closing c)
    (closed_clients c) (kc_deferreds c) (unaware_requests c).
Definition with_correlation_id x (c : KafkaClient) : KafkaClient :=
  mkKafkaClient (clients c) (topics_to_brokers c) (partition_meta c) (_group_to_coordinator c)
    (_coordinator_fetches c) (topic_partitions c) (topic_errors c) x (_brokers c) (_closing c)
    (closed_clients c) (kc_deferreds c) (unaware_requests c).
Definition with_brokers x (c : KafkaClient) : KafkaClient :=
  mkKafkaClient (clients c) (topics_to_brokers c) (partition_meta c) (_group_to_coordinator c)
    (_coordinator_fetches c) (topic_partitions c) (topic_errors c) (correlation_id c) x
    (_closing c) (closed_clients c) (kc_deferreds c) (unaware_requests c).
Definition with_closing x (c : KafkaClient) : KafkaClient :=
  mkKafkaClient (clients c) (topics_to_brokers c) (partition_meta c) (_group_to_coordinator c)
    (_coordinator_fetches c) (topic_partitions c) (topic_errors c) (correlation_id c) (_brokers c)
    x (closed_clients c) (kc_deferreds c) (unaware_requests c).
Definition with_closed_clients x (c : KafkaClient) : KafkaClient :=
  mkKafkaClient (clients c) (topics_to_brokers c) (partition_meta c) (_group_to_coordinator c)
    (_coordinator_fetches c) (topic_partitions c) (topic_errors c) (correlation_id c) (_brokers c)
    (_closing c) x (kc_deferreds c) (unaware_requests c).
Definition with_kc_deferreds x (c : KafkaClient) : KafkaClient :=
  mkKafkaClient (clients c) (topics_to_brokers c) (partition_meta c) (_group_to_coordinator c)
    (_coordinator_fetches c) (topic_partitions c) (topic_errors c) (correlation_id c) (_brokers c)
    (_closing c) (closed_clients c) x (unaware_requests c).
Definition with_unaware_requests x (c : KafkaClient) : KafkaClient :=
  mkKafkaClient (clients c) (topics_to_brokers c) (partition_meta c) (_group_to_coordinator c)
    (_coordinator_fetches c) (topic_partitions c) (topic_errors c) (correlation_id c) (_brokers c)
    (_closing c) (closed_clients c) (kc_deferreds c) x.

Abbreviation meth := (proc exn KafkaClient).

(** [KafkaClient(...)], with the correlation id it starts from. *)
Definition __init__ (correlation_id : Z) : KafkaClient :=
  mkKafkaClient (Some []) ∅ ∅ ∅ ∅ ∅ ∅ correlation_id ∅ false [] no_deferreds [].

(** ** The cache *)

(** [for topic in topics: ...] of [reset_topic_metadata], one topic. *)
Definition reset_topic (topic : text) (c : KafkaClient) : KafkaClient :=
  let c :=
    match topic_partitions c !! topic with
    | None => c
    | Some partitions =>
      let c := with_topics_to_brokers
                 (foldl (λ m partition, delete (mkTopicAndPartition topic partition) m)
                    (topics_to_brokers c) partitions) c in
      with_topic_partitions (delete topic (topic_partitions c)) c
    end in
  with_topic_errors (delete topic (topic_errors c)) c.

(** [tuple(coerce(x) for x in xs)] *)
Fixpoint coerce_all (coerce : pyval → res text) (xs : list pyval) : res (list text) :=
  match xs with
  | [] => Ok []
  | x :: xs => t ← coerce x; ts ← coerce_all coerce xs; Ok (t :: ts)
  end.

Definition reset_topic_metadata (topics : list pyval) : meth unit :=
  topics ← plift (coerce_all _coerce_topic topics);
  pmodify (λ c, foldl (λ c topic, reset_topic topic c) c (topics : list text)).

Definition reset_consumer_group_metadata (groups : list pyval) : meth unit :=
  groups ← plift (coerce_all _coerce_consumer_group groups);
  pmodify (λ c, with_group_to_coordinator
    (foldl (λ m group, delete group m) (_group_to_coordinator c) (groups : list text)) c).

Definition reset_all_metadata (c : KafkaClient) : KafkaClient :=
  with_group_to_coordinator ∅
    (with_topic_errors ∅ (with_topic_partitions ∅ (with_topics_to_brokers ∅ c))).

Definition has_metadata_for_topic (topic : pyval) (c : KafkaClient) : res bool :=
  topic ← _coerce_topic topic; Ok (bool_decide (is_Some (topic_partitions c !! topic))).

Definition metadata_error_for_topic (topic : pyval) (c : KafkaClient) : res Z :=
  topic ← _coerce_topic topic;
  Ok (default (errno UnknownTopicOrPartitionError) (topic_errors c !! topic)).

Definition partition_fully_replicated (topic_and_part : TopicAndPartition) (c : KafkaClient)
    : bool :=
  match partition_meta c !! topic_and_part with
  | None => false
  | Some part_meta => len (pm_replicas part_meta) =? len (pm_isr part_meta)
  end.

Definition topic_fully_replicated (topic : pyval) (c : KafkaClient) : res bool :=
  topic ← _coerce_topic topic;
  Ok match topic_partitions c !! (topic : text) with
     | None | Some [] => false
     | Some partitions =>
       forallb (λ p, partition_fully_replicated (mkTopicAndPartition topic p) c) partitions
     end.

(** [_next_id()] *)
Definition _next_id : meth Z := λ c,
  let correlation_id := (correlation_id c + 1) mod 2 ^ 31 in
  (with_correlation_id correlation_id c, Ok correlation_id).

(** ** Broker clients *)

Section brokers.
(** What [sendString] raises; whether cancelling the connection attempt to a
    node makes it succeed; the iteration order of a set of node ids. *)
Context (sendString : bytes → option exn) (cancel_connects : Z → bool).
Context (set_iter : list Z → list Z).

(** [self.clients], where using [None] as a dict is a [TypeError]. *)
Definition open_clients : meth (list (Z * _KafkaBrokerClient)) := λ c,
  (c, match clients c with Some cs => Ok cs | None => Err PyTypeError end).

(** The broker client itself is the entry of [clients] under its node id. *)
Definition _get_brokerclient (node_id : Z) : meth Z :=
  closing ← pget _closing;
  if closing : bool then praise ClientError
  else
    cs ← open_clients;
    match Dict.get node_id cs with
    | Some _ => mret node_id
    | None =>
      brokers ← pget _brokers;
      broker_metadata ← plift (match (brokers : gmap Z BrokerMetadata) !! node_id with
                               | Some bm => Ok bm
                               | None => Err PyKeyError
                               end);
      _ ← pmodify (with_clients (Some (Dict.set node_id (BrokerClient.__init__ broker_metadata) cs)));
      mret node_id
    end.

(** [close_dlist], the deferred that fires when every client closed so far is
    down, is pending as long as one of [closed_clients] is not. *)
Definition _close_brokerclients (now : Z) (cs : list _KafkaBrokerClient) : meth unit :=
  pfor_each cs (λ brokerClient,
    b ← plift (BrokerClient.close sendString (cancel_connects (node_id brokerClient)) now brokerClient);
    pmodify (λ c, with_closed_clients (closed_clients c ++ [b]) c)).

Definition close_dlist_pending (c : KafkaClient) : bool :=
  existsb (λ b, bool_decide (_dDown b = Some false)) (closed_clients c).

(** [{bm.node_id: bm for bm in brokers}] *)
Definition brokers_by_id (brokers : list BrokerMetadata) : list (Z * BrokerMetadata) :=
  foldl (λ m bm, Dict.set (bm_node_id bm) bm m) [] brokers.

(** [self._brokers.update(by_id)] *)
Definition dict_update (by_id : list (Z * BrokerMetadata)) (m : gmap Z BrokerMetadata)
    : gmap Z BrokerMetadata :=
  foldl (λ m nb, <[nb.1 := nb.2]> m) m by_id.

(** [self.clients[node_id].updateMetadata(broker_meta)], if there is one. *)
Definition update_client (nb : Z * BrokerMetadata) : meth unit :=
  cs ← open_clients;
  match Dict.get nb.1 cs with
  | None => mret tt
  | Some b =>
    b ← plift (updateMetadata nb.2 b);
    pmodify (with_clients (Some (Dict.set nb.1 b cs)))
  end.

(** [[self.clients.pop(node_id) for node_id in set(clients) - set(by_id)]] *)
Definition pop_stale (by_id : list (Z * BrokerMetadata)) : meth (list _KafkaBrokerClient) :=
  cs ← open_clients;
  let stale := set_iter (filter (λ n, n ∉ Dict.keys by_id) (Dict.keys cs)) in
  _ ← pmodify (with_clients (Some (foldl (λ cs n, Dict.del n cs) cs stale)));
  mret (omap (λ n, Dict.get n cs) stale).

Definition _update_brokers (now : Z) (brokers : list BrokerMetadata) (remove : bool) : meth unit :=
  let by_id := brokers_by_id brokers in
  _ ← pmodify (λ c, with_brokers (dict_update by_id (_brokers c)) c);
  _ ← pfor_each by_id update_client;
  if remove then
    to_close ← pop_stale by_id;
    if bool_decide (to_close = []) then mret tt else _close_brokerclients now to_close
  else mret tt.

(** [close()]: a second call finds [None] where the broker clients were. *)
Definition close (now : Z) : meth unit :=
  _ ← pmodify (with_closing true);
  brokerclients ← pget clients;
  _ ← pmodify (with_clients None);
  _ ← match brokerclients with
      | None => praise PyAttributeError
      | Some cs => _close_brokerclients now (Dict.values cs)
      end;
  pmodify reset_all_metadata.

(** ** Metadata responses *)

(** [for partition, meta in partitions.items(): ...] *)
Definition merge_partition (brokers : list (Z * BrokerMetadata)) (topic : text)
    (pm : Z * PartitionMetadata) : meth unit :=
  let '(partition, meta) := pm in
  let topic_part := mkTopicAndPartition topic partition in
  _ ← pmodify (λ c, with_topic_partitions
        (<[topic := default [] (topic_partitions c !! topic) ++ [partition]]> (topic_partitions c)) c);
  _ ← pmodify (λ c, with_partition_meta (<[topic_part := meta]> (partition_meta c)) c);
  leader ← (if pm_leader meta =? -1 then mret None
            else match Dict.get (pm_leader meta) brokers with
                 | Some bm => mret (Some bm)
                 | None => praise PyKeyError
                 end : meth _);
  pmodify (λ c, with_topics_to_brokers (<[topic_part := leader]> (topics_to_brokers c)) c).

(** [for topic, topic_metadata in topics.items(): ...] *)
Definition merge_topic (brokers : list (Z * BrokerMetadata)) (tm : text * TopicMetadata)
    : meth unit :=
  let '(topic, topic_metadata) := tm in
  let partitions := tm_partition_metadata topic_metadata in
  _ ← reset_topic_metadata [VStr topic];
  _ ← pmodify (λ c, with_topic_errors
        (<[topic := tm_topic_error_code topic_metadata]> (topic_errors c)) c);
  if bool_decide (partitions = []) then mret tt
  else
    _ ← pmodify (λ c, with_topic_partitions (<[topic := []]> (topic_partitions c)) c);
    _ ← pfor_each partitions (merge_partition brokers topic);
    pmodify (λ c, with_topic_partitions
      (<[topic := merge_sort Z.le (default [] (topic_partitions c !! topic))]> (topic_partitions c)) c).

Definition _merge_topic_metadata (now : Z) (brokers : list (Z * BrokerMetadata))
    (topics : list (text * TopicMetadata)) (fetched_all_topics : bool) : meth unit :=
  let ok_to_remove := fetched_all_topics && negb (len brokers =? 0) in
  _ ← _update_brokers now (Dict.values brokers) ok_to_remove;
  pfor_each topics (merge_topic brokers).

Definition load_metadata_for_topics (clientId : bytes) (topics : list pyval) : meth unit :=
  topics ← plift (coerce_all _coerce_topic topics);
  requestId ← _next_id;
  request ← plift (encode_metadata_request clientId requestId (Some topics));
  pmodify (λ c, with_unaware_requests (unaware_requests c ++ [(requestId, request)]) c).

Definition _handleMetadataResponse (now : Z) (fetch_all_metadata : bool) (response : bytes)
    : meth (option bool) :=
  '(brokers, topics) ← plift (decode_metadata_response response);
  _ ← _merge_topic_metadata now brokers topics fetch_all_metadata;
  mret (Some true).

Definition _handleMetadataErr (failure : exn) : meth (option bool) :=
  match failure with
  | TwistedCancelledError | CancelledError _ => mret None
  | _ => praise KafkaUnavailableError
  end.

(** [d.addCallbacks(_handleMetadataResponse, _handleMetadataErr)] *)
Definition metadata_answer (now : Z) (fetch_all_metadata : bool) (answer : res bytes)
    : meth (option bool) :=
  match answer with
  | Ok response => _handleMetadataResponse now fetch_all_metadata response
  | Err failure => _handleMetadataErr failure
  end.

(** ** Coordinator lookups *)

(** The result is the number of the deferred returned. *)
Definition load_coordinator_for_group (clientId : bytes) (group : pyval) : meth nat :=
  group ← plift (_coerce_consumer_group group);
  fetches ← pget _coordinator_fetches;
  let new : meth nat := λ c,
    let '(d, ds) := new_deferred (kc_deferreds c) in (with_kc_deferreds ds c, Ok d) in
  match (fetches : gmap text (list nat)) !! (group : text) with
  | Some waiting =>
    d ← new;
    _ ← pmodify (with_coordinator_fetches (<[group := waiting ++ [d]]> fetches));
    mret d
  | None =>
    requestId ← _next_id;
    request ← plift (encode_consumermetadata_request clientId requestId group);
    _ ← pmodify (λ c, with_unaware_requests (unaware_requests c ++ [(requestId, request)]) c);
    d ← new;
    _ ← pmodify (with_coordinator_fetches (<[group := [d]]> fetches));
    mret d
  end.

Definition _handleConsumerMetadataResponse (now : Z) (group : text) (response_bytes : bytes)
    : meth bool :=
  response ← plift (decode_consumermetadata_response response_bytes);
  _ ← plift (raise_for_errno (cmr_error response));
  let bm := mkBrokerMetadata (cmr_node_id response) (cmr_host response) (cmr_port response) in
  _ ← pmodify (λ c, with_group_to_coordinator (<[group := bm]> (_group_to_coordinator c)) c);
  _ ← _update_brokers now [bm] false;
  mret true.

Definition _handleConsumerMetadataErr (group : text) (err : exn) : meth bool :=
  _ ← reset_consumer_group_metadata [VStr group];
  praise (BrokerError CoordinatorNotAvailable).

(** [_propagate]: the result, a value or a failure, goes to every waiting
    deferred. *)
Definition _propagate (group : text) (result : res bool) : meth unit := λ c,
  match _coordinator_fetches c !! group with
  | None => (c, Err PyKeyError)
  | Some ds =>
    let c := with_coordinator_fetches (delete group (_coordinator_fetches c)) c in
    let o := match result with Ok b => Success b | Err e => Failure e end in
    match fire_all ds o (kc_deferreds c) with
    | Ok kds => (with_kc_deferreds kds c, Ok tt)
    | Err e => (c, Err e)
    end
  end.

(** The callbacks of [request_d]. *)
Definition coordinator_answer (now : Z) (group : text) (answer : res bytes) : meth unit := λ c,
  let handled := pcatch (response ← plift answer;
                         _handleConsumerMetadataResponse now group response)
                        (_handleConsumerMetadataErr group) in
  let '(c, result) := handled c in _propagate group result c.

(** ** Responses with an error code *)

Section handle_responses.
(** Any response type: its [error], its [topic] if it has that attribute, and
    the [callback] (the identity when there is none). *)
Context {R O : Type} (error : R → Z) (topic : R → option text) (callback : R → res O).

Definition response_error (fail_on_error : bool) (consumer_group : pyval) (resp : R)
    : meth unit :=
  match raise_for_errno (error resp) with
  | Ok _ => mret tt
  | Err e =>
    match e with
    | BrokerError (UnknownTopicOrPartitionError | NotLeaderForPartitionError) =>
      topic ← plift (match topic resp with Some t => Ok t | None => Err PyAttributeError end);
      _ ← reset_topic_metadata [VStr topic];
      if fail_on_error then praise e else mret tt
    | BrokerError (CoordinatorLoadInProgress | NotCoordinator | CoordinatorNotAvailable) =>
      _ ← reset_consumer_group_metadata [consumer_group];
      if fail_on_error then praise e else mret tt
    | _ => praise e
    end
  end.

Fixpoint _handle_responses (responses : list R) (fail_on_error : bool) (consumer_group : pyval)
    : meth (list O) :=
  match responses with
  | [] => mret []
  | resp :: responses =>
    _ ← response_error fail_on_error consumer_group resp;
    o ← plift (callback resp);
    out ← _handle_responses responses fail_on_error consumer_group;
    mret (o :: out)
  end.
End handle_responses.
End brokers.

(** ** The client as a state machine

    Any order of calls of its methods, of answers to its requests, and of
    network events of its broker clients, open or closed. *)
Inductive event :=
| ResetTopics (topics : list pyval)
| ResetGroups (groups : list pyval)
| ResetAll
| LoadMetadata (clientId : bytes) (topics : list pyval)
| MetadataAnswer (now : Z) (fetch_all_metadata : bool) (answer : res bytes)
| LoadCoordinator (clientId : bytes) (group : pyval)
| CoordinatorAnswer (now : Z) (group : text) (answer : res bytes)
| CancelLoad (d : nat)
| GetBrokerclient (node_id : Z)
| NextId
| OnBroker (node_id : Z) (e : BrokerClient.event)
| OnClosed (i : nat) (e : BrokerClient.event)
| CloseClient (now : Z).

(** Only the owner closes a broker client or changes its address. *)
Definition network_event (e : BrokerClient.event) : bool :=
  match e with BrokerClient.Close _ _ | UpdateMetadata _ => false | _ => true end.

Definition enabled (e : event) (c : KafkaClient) : bool :=
  match e with
  | CoordinatorAnswer _ group _ => bool_decide (is_Some (_coordinator_fetches c !! group))
  | CancelLoad d => bool_decide (d < issued (kc_deferreds c))%nat
  | OnBroker n e =>
    match clients c with
    | None => false
    | Some cs => match Dict.get n cs with
                 | Some b => network_event e && BrokerClient.enabled e b
                 | None => false
                 end
    end
  | OnClosed i e =>
    match closed_clients c !! i with
    | Some b => network_event e && BrokerClient.enabled e b
    | None => false
    end
  | _ => true
  end.

Section machine.
Context (sendString : bytes → option exn) (cancel_connects : Z → bool).
Context (set_iter : list Z → list Z).

Definition handle (e : event) : meth unit :=
  match e with
  | ResetTopics ts => reset_topic_metadata ts
  | ResetGroups gs => reset_consumer_group_metadata gs
  | ResetAll => pmodify reset_all_metadata
  | LoadMetadata i ts => load_metadata_for_topics i ts
  | MetadataAnswer now f a => _ ← metadata_answer sendString cancel_connects set_iter now f a; mret tt
  | LoadCoordinator i g => _ ← load_coordinator_for_group i g; mret tt
  | CoordinatorAnswer now g a => coordinator_answer sendString cancel_connects set_iter now g a
  | CancelLoad d => λ c,
    match cancel_plain d (kc_deferreds c) with
    | Ok ds => (with_kc_deferreds ds c, Ok tt)
    | Err e => (c, Err e)
    end
  | GetBrokerclient n => _ ← _get_brokerclient n; mret tt
  | NextId => _ ← _next_id; mret tt
  | OnBroker n e => pmodify (λ c,
    match clients c with
    | None => c
    | Some cs =>
      match Dict.get n cs with
      | None => c
      | Some b => with_clients (Some (Dict.set n (BrokerClient.step sendString e b) cs)) c
      end
    end)
  | OnClosed i e => pmodify (λ c,
      with_closed_clients (alter (BrokerClient.step sendString e) i (closed_clients c)) c)
  | CloseClient now => close sendString cancel_connects now
  end.

Definition step (e : event) (c : KafkaClient) : KafkaClient := (handle e c).1.

Inductive reachable (correlation_id : Z) : KafkaClient → Prop :=
| reach_init : reachable correlation_id (__init__ correlation_id)
| reach_step e c : reachable correlation_id c → enabled e c = true →
    reachable correlation_id (step e c).
End machine.
