(* ===== verification/ClientInvariant.v ===== *)
(** The invariant of [KafkaClient] ([Client]) and what each of its methods does
    to a well-formed client: the lemmas behind [ClientTheorems]. *)
From S2P Require Import Prelude Common PyBytes Util KafkaCodec Deferred BrokerClient Client.
Local Open Scope Z_scope.

(** ** What the network cannot change of a broker client *)

(** Its node and address, and whether it has been closed. *)
Definition same_owner (b b' : _KafkaBrokerClient) : Prop :=
  node_id b' = node_id b ∧ host b' = host b ∧ port b' = port b ∧
  (_dDown b' = None ↔ _dDown b = None).

#[export] Instance same_owner_preorder : PreOrder same_owner.
Proof.
  split; [by intros b|]. intros b1 b2 b3 (H1 & H2 & H3 & H4) (K1 & K2 & K3 & K4).
  split_and!; [congruence..|]. by rewrite K4.
Qed.

Section owner.
Context (sendString : bytes → option exn).

Definition owned (b : _KafkaBrokerClient) (r : res _KafkaBrokerClient) : Prop :=
  ∀ b', r = Ok b' → same_owner b b'.

Lemma owned_ret b b' : same_owner b b' → owned b (Ok b').
Proof. by intros ? ? [= <-]. Qed.

Lemma owned_bind {A} b (m : res A) (f : A → res _KafkaBrokerClient) :
  (∀ a, m = Ok a → owned b (f a)) → owned b (m ≫= f).
Proof. intros H b'. destruct m as [a|]; [|done]. by apply H. Qed.

Lemma owned_seq b m (f : _KafkaBrokerClient → res _KafkaBrokerClient) :
  owned b m → (∀ b1, owned b1 (f b1)) → owned b (m ≫= f).
Proof. intros Hm Hf. apply owned_bind. intros b1 H1 b' H2. etrans; [by apply Hm|by eapply Hf]. Qed.

Lemma owned_for {X} (xs : list X) body b :
  (∀ b x, owned b (body b x)) → owned b (for_each xs body b).
Proof.
  intros Hb b'. apply (for_each_inv (same_owner b)); [done|].
  intros s x s' _ Hs H. etrans; [done|]. by eapply Hb.
Qed.

Lemma owned_fire_request t o b : owned b (fire_request t o b).
Proof. unfold fire_request. apply owned_bind. intros ds _. by apply owned_ret. Qed.

Lemma owned_del_request k b : owned b (del_request k b).
Proof. unfold del_request. case_match; [by apply owned_ret|done]. Qed.

Lemma same_update_request t b : same_owner b (update_request t b).
Proof. unfold update_request. by case_match. Qed.

Lemma owned_fire_down b : owned b (fire_down b).
Proof.
  unfold fire_down. destruct (_dDown b) as [[]|] eqn:Hd; [done| |done].
  apply owned_ret. unfold same_owner. cbn. rewrite Hd. split_and!; [done..|]. by split.
Qed.

Lemma owned_sendRequest now t b : owned b (_sendRequest sendString now t b).
Proof.
  unfold _sendRequest. set (b1 := update_request _ b).
  assert (same_owner b b1) as H1 by apply same_update_request.
  enough (∀ m, owned b1 m → owned b m) as Hm.
  { apply Hm. destruct (if proto b1 then _ else _).
    - apply owned_seq; [apply owned_del_request|]. intros. apply owned_fire_request.
    - case_match; [|by apply owned_ret].
      assert (same_owner b1 (emit (ESend (d (set_sent (Some now) t)) (request (set_sent (Some now) t))) b1)) as H2 by done.
      intros b' Hb'. etrans; [exact H2|]. revert b' Hb'.
      apply owned_seq; [apply owned_del_request|]. intros. apply owned_fire_request. }
  intros m Hm b' ->. etrans; [done|]. by apply Hm.
Qed.

Lemma owned_cbConnect now b : owned b (cbConnect sendString now b).
Proof.
  unfold cbConnect. set (b1 := emit EConnected _).
  assert (same_owner b b1) as H1 by done.
  intros b' Hb'. etrans; [exact H1|]. revert b' Hb'. change (_dDown b) with (_dDown b1).
  destruct (_dDown b1); [by apply owned_ret|].
  unfold _sendQueued. apply owned_for. intros b2 t. case_match; [by apply owned_ret|].
  apply owned_sendRequest.
Qed.

Lemma same_ebConnect b : same_owner b (ebConnect b).
Proof. unfold ebConnect. by destruct (_dDown b) eqn:Hd; unfold same_owner; cbn. Qed.

Lemma owned_tryConnect answer now b : owned b (tryConnect sendString answer now b).
Proof.
  unfold tryConnect. set (b1 := emit (EConnect _ _) _).
  assert (same_owner b b1) as H1 by done.
  intros b' Hb'. etrans; [exact H1|]. revert b' Hb'. destruct answer.
  - by apply owned_ret.
  - apply owned_cbConnect.
  - apply owned_ret, same_ebConnect.
Qed.

Lemma owned_connect answer now b : owned b (_connect sendString answer now b).
Proof.
  intros b' Hb'. assert (same_owner b (with_failures 0 b)) as H1 by done.
  etrans; [exact H1|]. revert b' Hb'. apply owned_tryConnect.
Qed.

Lemma owned_makeRequest k r x answer now b :
  owned b ('(_, b) ← makeRequest sendString k r x answer now b; Ok b).
Proof.
  unfold makeRequest. case_bool_decide; [done|]. destruct (_dDown b) eqn:Hd; [by apply owned_ret|].
  cbn [new_deferred]. set (t := mkRequestState _ _ _ _ _ _ _).
  set (b1 := mkBrokerClient _ _ _ _ _ _ _ _ _ _ _).
  assert (same_owner b b1) as H1 by (unfold same_owner; cbn; rewrite Hd; done).
  destruct (if proto b then _ else _) as [b2|] eqn:Hm; [|done].
  intros b' [= <-]. etrans; [exact H1|]. revert Hm. apply (λ H : owned b1 _, H b2).
  destruct (proto b); [apply owned_sendRequest|]. case_bool_decide; [|by apply owned_ret].
  apply owned_connect.
Qed.

Lemma owned_connectionLost answer now b : owned b (_connectionLost sendString answer now b).
Proof.
  unfold _connectionLost. assert (same_owner b (with_proto false b)) as H1 by done.
  intros b' Hb'. etrans; [exact H1|]. revert b' Hb'. apply owned_seq.
  - apply owned_for. intros b1 t. case_match; [apply owned_del_request|].
    apply owned_ret, same_update_request.
  - intros b1. destruct (_dDown b1); [apply owned_fire_down|].
    case_bool_decide; [by apply owned_ret|apply owned_connect].
Qed.

Lemma owned_cancel d now b : owned b (cancel d now b).
Proof.
  unfold cancel. case_match; [by apply owned_ret|]. case_match; [|done].
  apply owned_seq; [|intros b1; apply owned_bind; intros ds _; by apply owned_ret].
  unfold _cancelRequest. case_match; [|done]. case_match; [|apply owned_del_request].
  apply owned_ret, same_update_request.
Qed.

Lemma owned_handleResponse r b : owned b (handleResponse r b).
Proof.
  unfold handleResponse. apply owned_bind. intros k _. case_match; [|by apply owned_ret].
  case_match; [by apply owned_ret|]. intros b' Hb'.
  apply owned_fire_request in Hb'. etrans; [|exact Hb']. done.
Qed.

Lemma step_same_owner e b :
  network_event e = true → same_owner b (BrokerClient.step sendString e b).
Proof.
  intros He. unfold BrokerClient.step.
  assert (owned b (BrokerClient.handle sendString e b)) as H.
  { destruct e; try done; cbn [BrokerClient.handle].
    - apply owned_makeRequest.
    - apply owned_cancel.
    - apply owned_handleResponse.
    - apply owned_connectionLost.
    - apply owned_cbConnect.
    - apply owned_ret, same_ebConnect.
    - apply owned_tryConnect.
    - apply owned_ret. unfold disconnect. by case_match. }
  destruct (BrokerClient.handle sendString e b); [by apply H|done].
Qed.

Lemma step_wf e b :
  broker_wf b → BrokerClient.enabled e b = true → broker_wf (BrokerClient.step sendString e b).
Proof.
  intros Hb He. unfold BrokerClient.step. pose proof (handle_wf sendString e b Hb He).
  by destruct (BrokerClient.handle sendString e b).
Qed.

Lemma updateMetadata_ok bm b :
  broker_wf b → node_id b = bm_node_id bm →
  ∃ b', updateMetadata bm b = Ok b' ∧ broker_wf b' ∧ _dDown b' = _dDown b ∧
    requests b' = requests b ∧
    mkBrokerMetadata (node_id b') (host b') (port b') = bm.
Proof.
  intros Hb Hn. pose proof (handle_wf sendString (UpdateMetadata bm) b Hb eq_refl) as H.
  cbn [BrokerClient.handle] in H. unfold updateMetadata in *.
  rewrite Hn, Z.eqb_refl in *. cbn [negb] in *. eexists. split; [done|]. by destruct bm.
Qed.
End owner.

(** ** The invariant *)

(** A broker client in use: under its own node, well formed, not closed, and,
    unless its node is in [rem], at the address the cluster last reported. *)
Definition client_ok (rem : list Z) (brokers : gmap Z BrokerMetadata) (n : Z)
    (b : _KafkaBrokerClient) : Prop :=
  node_id b = n ∧ broker_wf b ∧ _dDown b = None ∧
  ∃ bm, brokers !! n = Some bm ∧ (n ∉ rem → bm = mkBrokerMetadata n (host b) (port b)).

Definition closed_ok (b : _KafkaBrokerClient) : Prop :=
  broker_wf b ∧ _dDown b ≠ None ∧ requests b = [].

(** The brokers are filed under their node ids; every cached leader and
    coordinator is a known broker; every partition with a cached leader is
    listed under its topic; there are broker clients, all in use, until
    the client is closed, and none after; the clients closed so far wait for
    nothing but their connection; each deferred of a coordinator lookup that has
    not fired waits for exactly one group's. *)
Record wf_upto (rem : list Z) (c : KafkaClient) : Prop := {
  wf_brokers n bm : _brokers c !! n = Some bm → bm_node_id bm = n;
  wf_leaders tp bm : topics_to_brokers c !! tp = Some (Some bm) →
    is_Some (_brokers c !! bm_node_id bm);
  wf_listed t p x : topics_to_brokers c !! mkTopicAndPartition t p = Some x →
    ∃ ps, topic_partitions c !! t = Some ps ∧ p ∈ ps;
  wf_coordinators g bm : _group_to_coordinator c !! g = Some bm →
    is_Some (_brokers c !! bm_node_id bm);
  wf_clients :
    match clients c with
    | None => _closing c = true
    | Some cs => _closing c = false ∧ NoDup (Dict.keys cs) ∧
        ∀ n b, Dict.get n cs = Some b → client_ok rem (_brokers c) n b
    end;
  wf_closed : Forall closed_ok (closed_clients c);
  wf_deferreds : deferreds_wf (kc_deferreds c);
  wf_waiting g ds : _coordinator_fetches c !! g = Some ds →
    NoDup ds ∧ ∀ d, d ∈ ds → firable d (kc_deferreds c);
  wf_disjoint g g' ds ds' d : _coordinator_fetches c !! g = Some ds →
    _coordinator_fetches c !! g' = Some ds' → d ∈ ds → d ∈ ds' → g = g';
  wf_outstanding d : outstanding d (kc_deferreds c) →
    ∃ g ds, _coordinator_fetches c !! g = Some ds ∧ d ∈ ds;
}.

Abbreviation client_wf := (wf_upto []).

Lemma foldl_delete_lookup {K V} `{Countable K} (ks : list K) (m : gmap K V) k v :
  foldl (λ m k, delete k m) m ks !! k = Some v ↔ m !! k = Some v ∧ k ∉ ks.
Proof.
  revert m. induction ks as [|k' ks IH]; intros m; cbn; [set_solver|].
  rewrite IH, lookup_delete_Some. set_solver.
Qed.

Lemma foldl_delete_map {K V X} `{Countable K} (g : X → K) (xs : list X) (m : gmap K V) :
  foldl (λ m x, delete (g x) m) m xs = foldl (λ m k, delete k m) m (g <$> xs).
Proof. revert m. induction xs as [|x xs IH]; intros m; [done|]. cbn. apply IH. Qed.

Section invariant.
Context (rem : list Z).

Lemma wf_with_topics ttb tps c :
  (∀ tp bm, ttb !! tp = Some (Some bm) → is_Some (_brokers c !! bm_node_id bm)) →
  (∀ t p x, ttb !! mkTopicAndPartition t p = Some x → ∃ ps, tps !! t = Some ps ∧ p ∈ ps) →
  wf_upto rem c → wf_upto rem (with_topic_partitions tps (with_topics_to_brokers ttb c)).
Proof. intros ?? []. by split. Qed.

Lemma wf_with_topics_to_brokers ttb c :
  (∀ tp bm, ttb !! tp = Some (Some bm) → is_Some (_brokers c !! bm_node_id bm)) →
  (∀ t p x, ttb !! mkTopicAndPartition t p = Some x →
     ∃ ps, topic_partitions c !! t = Some ps ∧ p ∈ ps) →
  wf_upto rem c → wf_upto rem (with_topics_to_brokers ttb c).
Proof. intros ?? []. by split. Qed.

Lemma wf_with_topic_partitions tps c :
  (∀ t p x, topics_to_brokers c !! mkTopicAndPartition t p = Some x →
     ∃ ps, tps !! t = Some ps ∧ p ∈ ps) →
  wf_upto rem c → wf_upto rem (with_topic_partitions tps c).
Proof. intros ? []. by split. Qed.

Lemma wf_with_coordinators m c :
  (∀ g bm, m !! g = Some bm → is_Some (_brokers c !! bm_node_id bm)) →
  wf_upto rem c → wf_upto rem (with_group_to_coordinator m c).
Proof. intros H []. by split. Qed.

Lemma wf_with_topic_errors m c : wf_upto rem c → wf_upto rem (with_topic_errors m c).
Proof. intros []. by split. Qed.
Lemma wf_with_partition_meta m c : wf_upto rem c → wf_upto rem (with_partition_meta m c).
Proof. intros []. by split. Qed.
Lemma wf_with_correlation_id m c : wf_upto rem c → wf_upto rem (with_correlation_id m c).
Proof. intros []. by split. Qed.
Lemma wf_with_unaware_requests m c : wf_upto rem c → wf_upto rem (with_unaware_requests m c).
Proof. intros []. by split. Qed.

Lemma reset_topic_wf t c : wf_upto rem c → wf_upto rem (reset_topic t c).
Proof.
  intros Hc. unfold reset_topic. apply wf_with_topic_errors.
  destruct (topic_partitions c !! t) as [ps|] eqn:Hps; [|done].
  apply (wf_with_topics _ (delete t (topic_partitions c))); [| |done].
  - intros tp bm H. rewrite foldl_delete_map in H.
    apply foldl_delete_lookup in H as [H _]. by eapply wf_leaders.
  - intros t' p x H. rewrite foldl_delete_map in H. apply foldl_delete_lookup in H as [H Hin].
    destruct (wf_listed _ _ Hc _ _ _ H) as (ps' & Hps' & Hp).
    destruct (decide (t' = t)) as [->|]; [|exists ps'; by rewrite lookup_delete_ne].
    rewrite Hps in Hps'. injection Hps' as ->. exfalso. apply Hin, list_elem_of_fmap. by exists p.
Qed.

Lemma reset_topic_metadata_wf ts : keeps (wf_upto rem) (reset_topic_metadata ts).
Proof.
  unfold reset_topic_metadata. keeps_steps. intros c Hc. revert c Hc.
  induction a as [|t a IH]; intros c Hc; [done|]. cbn. by apply IH, reset_topic_wf.
Qed.

Lemma reset_groups_wf gs : keeps (wf_upto rem) (reset_consumer_group_metadata gs).
Proof.
  unfold reset_consumer_group_metadata. keeps_steps. intros c Hc. apply wf_with_coordinators; [|done].
  intros g bm [Hg _]%foldl_delete_lookup. by eapply wf_coordinators.
Qed.

Lemma reset_all_wf c : wf_upto rem c → wf_upto rem (reset_all_metadata c).
Proof.
  intros Hc. unfold reset_all_metadata. apply wf_with_coordinators; [by intros ? ? ?%lookup_empty_Some|].
  apply wf_with_topic_errors. apply (wf_with_topics ∅ ∅); [by intros ? ? ?%lookup_empty_Some| |done].
  by intros ? ? ? ?%lookup_empty_Some.
Qed.

Lemma next_id_wf : keeps (wf_upto rem) _next_id.
Proof. intros c Hc. by apply wf_with_correlation_id. Qed.
End invariant.
#[export] Hint Resolve reset_topic_metadata_wf reset_groups_wf next_id_wf : keeps.

(** ** Updating the broker clients *)

Section brokers_invariant.
Context (sendString : bytes → option exn) (cancel_connects : Z → bool).

Lemma init_client_ok rem brokers n bm :
  bm_node_id bm = n → brokers !! n = Some bm → client_ok rem brokers n (BrokerClient.__init__ bm).
Proof.
  intros Hn Hb. split_and!; [done|apply init_wf|done|]. exists bm. split; [done|]. intros _.
  subst n. by destruct bm.
Qed.

Lemma get_brokerclient_spec rem n c :
  wf_upto rem c →
  match _get_brokerclient n c with
  | (c', Ok n') => n' = n ∧ wf_upto rem c' ∧
      ∃ cs cs', clients c = Some cs ∧ c' = with_clients (Some cs') c ∧
        match Dict.get n cs with
        | Some b => cs' = cs
        | None => ∃ bm, _brokers c !! n = Some bm ∧ cs' = cs ++ [(n, BrokerClient.__init__ bm)]
        end
  | (c', Err e) => c' = c ∧
      (if _closing c then e = ClientError else e = PyKeyError ∧ _brokers c !! n = None)
  end.
Proof.
  intros Hc. pose proof (wf_clients _ _ Hc) as Hcs.
  unfold _get_brokerclient, mbind, proc_bind, pget, open_clients. cbn.
  destruct (_closing c) eqn:Hcl; [done|].
  destruct (clients c) as [cs|] eqn:Hcc; [|done]. cbn.
  destruct (Dict.get n cs) as [b|] eqn:Hg; cbn.
  - split_and!; [done..|]. exists cs, cs. rewrite Hg. split_and!; [done| |done].
    destruct c; cbn in *; by subst.
  - destruct (_brokers c !! n) as [bm|] eqn:Hb; cbn; [|done].
    destruct Hcs as (_ & Hnd & Hok). pose proof (proj1 (Dict.get_None cs n) Hg) as Hn.
    split_and!; [done| |].
    + split; cbn; try apply Hc. split_and!; [done|by apply Dict.NoDup_set|].
      intros n' b'. rewrite Dict.get_set. case_decide as He; [|apply Hok].
      intros [= <-]. subst n'. apply init_client_ok; [by eapply wf_brokers|done].
    + exists cs, (Dict.set n (BrokerClient.__init__ bm) cs). rewrite Hg. split_and!; [done..|].
      exists bm. by rewrite Dict.set_fresh.
Qed.

Definition closes (now : Z) (b b' : _KafkaBrokerClient) : Prop :=
  BrokerClient.close sendString (cancel_connects (node_id b)) now b = Ok b'.

Lemma close_brokerclients_ok now cs c :
  Forall (λ b, broker_wf b ∧ _dDown b = None) cs →
  ∃ bs, _close_brokerclients sendString cancel_connects now cs c =
          (with_closed_clients (closed_clients c ++ bs) c, Ok tt) ∧
    Forall2 (closes now) cs bs ∧ Forall closed_ok bs.
Proof.
  intros Hcs. revert c. induction Hcs as [|b cs [Hb Hd] _ IH]; intros c.
  - exists []. rewrite app_nil_r. split_and!; [by destruct c|constructor..].
  - pose proof (close_wf sendString (cancel_connects (node_id b)) now b Hb) as H.
    rewrite Hd in H. destruct H as (b' & Hcl & Hwf & Hr & Hdn & _).
    destruct (IH (with_closed_clients (closed_clients c ++ [b']) c)) as (bs & Hbs & H2 & H3).
    unfold _close_brokerclients in *.
    rewrite (pfor_each_step _ _ _ _ (with_closed_clients (closed_clients c ++ [b']) c)), Hbs
      by (erewrite proc_bind_ok by (unfold plift; by rewrite Hcl); done).
    exists (b' :: bs). cbn. rewrite <-app_assoc. split_and!; [done|by constructor|].
    constructor; [by split_and!|done].
Qed.

Lemma wf_with_clients rem rem' cs c :
  wf_upto rem c → _closing c = false → NoDup (Dict.keys cs) →
  (∀ n b, Dict.get n cs = Some b → client_ok rem' (_brokers c) n b) →
  wf_upto rem' (with_clients (Some cs) c).
Proof. intros [] ???. by split. Qed.

Lemma wf_with_closed_clients rem bs c :
  wf_upto rem c → Forall closed_ok bs → wf_upto rem (with_closed_clients bs c).
Proof. intros [] ?. by split. Qed.

(** The clients of the nodes in [by_id] get the new address; the others stay. *)
Definition updated (by_id : list (Z * BrokerMetadata)) (n : Z) (b b' : _KafkaBrokerClient) : Prop :=
  match Dict.get n by_id with
  | Some bm => updateMetadata bm b = Ok b'
  | None => b' = b
  end.

Lemma wf_upto_closed rem rem' c : wf_upto rem c → clients c = None → wf_upto rem' c.
Proof. intros [] Hc. split; try done. rewrite Hc in *. done. Qed.

Lemma update_clients_closed by_id c :
  clients c = None →
  pfor_each by_id update_client c =
    (c, if bool_decide (by_id = []) then Ok tt else Err PyTypeError).
Proof.
  intros Hc. destruct by_id as [|nb by_id]; [done|].
  cbn. unfold update_client, open_clients, mbind, proc_bind. cbn. by rewrite Hc.
Qed.

Lemma client_ok_shrink n rem brokers n' b :
  client_ok (n :: rem) brokers n' b → n' ≠ n → client_ok rem brokers n' b.
Proof.
  intros (? & ? & ? & bm & ? & H) ?. split_and!; [done..|]. exists bm. split; [done|].
  intros ?. apply H. set_solver.
Qed.

Lemma update_clients_open by_id c cs :
  NoDup (Dict.keys by_id) →
  (∀ n bm, (n, bm) ∈ by_id → bm_node_id bm = n ∧ _brokers c !! n = Some bm) →
  wf_upto (Dict.keys by_id) c → clients c = Some cs →
  ∃ cs', pfor_each by_id update_client c = (with_clients (Some cs') c, Ok tt) ∧
    client_wf (with_clients (Some cs') c) ∧ Dict.keys cs' = Dict.keys cs ∧
    ∀ n b, Dict.get n cs = Some b → ∃ b', Dict.get n cs' = Some b' ∧ updated by_id n b b'.
Proof.
  revert c cs. induction by_id as [|[n bm] by_id IH]; intros c cs Hnd Hby Hc Hcs.
  { exists cs. cbn. assert (with_clients (Some cs) c = c) as -> by (destruct c; cbn in *; by subst).
    split_and!; [done..|]. intros n b Hg. by exists b. }
  apply NoDup_cons in Hnd as [Hn Hnd]. destruct (Hby n bm) as [Hbm Hbr]; [set_solver|].
  pose proof (wf_clients _ _ Hc) as Hok. rewrite Hcs in Hok. destruct Hok as (Hcl & Hndc & Hok).
  assert (∃ cs1, update_client (n, bm) c = (with_clients (Some cs1) c, Ok tt) ∧
    wf_upto (Dict.keys by_id) (with_clients (Some cs1) c) ∧ Dict.keys cs1 = Dict.keys cs ∧
    ∀ n' b, Dict.get n' cs = Some b → ∃ b', Dict.get n' cs1 = Some b' ∧
      if decide (n' = n) then updateMetadata bm b = Ok b' else b' = b)
    as (cs1 & Hs1 & Hc1 & Hk1 & Hu1).
  { unfold update_client, open_clients, mbind, proc_bind. cbn. rewrite Hcs. cbn.
    destruct (Dict.get n cs) as [b|] eqn:Hg.
    - destruct (Hok n b Hg) as (Hnb & Hwf & Hd & bm' & Hb' & _).
      destruct (updateMetadata_ok sendString bm b) as (b' & Hub & Hwf' & Hd' & _ & Hm);
        [done|congruence|].
      unfold plift. rewrite Hub. cbn. eexists. split; [done|]. split_and!.
      + apply (wf_with_clients _ _ _ _ Hc); [done|by apply Dict.NoDup_set|].
        intros n' b0. rewrite Dict.get_set. case_decide as He.
        * intros [= <-]. subst n'.
          assert (node_id b' = n) as Hnb' by (by rewrite <-Hbm, <-Hm). rewrite Hnb' in Hm.
          split_and!; [done|done|congruence|]. by exists bm.
        * intros Hg0. eapply client_ok_shrink; [by apply Hok|done].
      + rewrite Dict.keys_set, decide_True; [done|].
        apply list_elem_of_fmap. exists (n, b). split; [done|]. by apply Dict.get_Some_elem.
      + intros n' b0 Hg0. rewrite Dict.get_set. case_decide as He; [|by exists b0].
        subst n'. exists b'. split; [done|]. congruence.
    - exists cs. split; [by destruct c; cbn in *; subst|]. split_and!; [|done|].
      + apply (wf_with_clients _ _ _ _ Hc); [done..|].
        intros n' b0 Hg0. eapply client_ok_shrink; [by apply Hok|].
        intros ->. cbn in Hg0. congruence.
      + intros n' b0 Hg0. exists b0. split; [done|]. case_decide; [subst n'; congruence|done]. }
  rewrite (pfor_each_step _ _ _ _ _ Hs1).
  destruct (IH (with_clients (Some cs1) c) cs1) as (cs2 & -> & Hc2 & Hk2 & Hu2);
    [done| |done|done|].
  { intros n' bm' Hin. apply Hby. set_solver. }
  exists cs2. split_and!; [done|done|congruence|]. intros n' b Hg.
  destruct (Hu1 n' b Hg) as (b1 & Hg1 & H1). destruct (Hu2 n' b1 Hg1) as (b2 & Hg2 & H2).
  exists b2. split; [done|]. unfold updated in *. cbn [Dict.get].
  destruct (decide (n' = n)) as [->|]; [|by subst].
  rewrite (proj2 (Dict.get_None by_id n)) in H2 by done. by subst.
Qed.
End brokers_invariant.

Lemma brokers_by_id_snoc brokers bm :
  brokers_by_id (brokers ++ [bm]) = Dict.set (bm_node_id bm) bm (brokers_by_id brokers).
Proof. unfold brokers_by_id. by rewrite foldl_app. Qed.

Lemma brokers_by_id_nodup brokers : NoDup (Dict.keys (brokers_by_id brokers)).
Proof.
  induction brokers as [|bm brokers IH] using rev_ind; [constructor|].
  rewrite brokers_by_id_snoc. by apply Dict.NoDup_set.
Qed.

Lemma brokers_by_id_get brokers n bm :
  Dict.get n (brokers_by_id brokers) = Some bm → bm_node_id bm = n ∧ bm ∈ brokers.
Proof.
  induction brokers as [|bm' brokers IH] using rev_ind; [done|].
  rewrite brokers_by_id_snoc, Dict.get_set. case_decide; [intros [= <-]|intros H1%IH]; set_solver.
Qed.

Lemma brokers_by_id_elem brokers bm :
  bm ∈ brokers → bm_node_id bm ∈ Dict.keys (brokers_by_id brokers).
Proof.
  induction brokers as [|bm' brokers IH] using rev_ind; [by intros ?%not_elem_of_nil|].
  rewrite brokers_by_id_snoc, Dict.keys_set. case_decide; set_solver.
Qed.

Lemma merged_lookup by_id m n :
  NoDup (Dict.keys by_id) →
  dict_update by_id m !! n = match Dict.get n by_id with Some bm => Some bm | None => m !! n end.
Proof.
  revert m. induction by_id as [|[n' bm] by_id IH]; intros m Hnd; [done|].
  apply NoDup_cons in Hnd as [Hn Hnd].
  change (dict_update ((n', bm) :: by_id) m) with (dict_update by_id (<[n' := bm]> m)).
  cbn [Dict.get]. rewrite IH by done. case_decide as He.
  - subst n'. rewrite (proj2 (Dict.get_None by_id n)) by done. by rewrite lookup_insert_eq.
  - by rewrite lookup_insert_ne by congruence.
Qed.

Lemma merged_known by_id m n :
  NoDup (Dict.keys by_id) → is_Some (m !! n) → is_Some (dict_update by_id m !! n).
Proof. intros ??. rewrite merged_lookup by done. by case_match. Qed.

Lemma merged_wf brokers c :
  client_wf c →
  wf_upto (Dict.keys (brokers_by_id brokers))
    (with_brokers (dict_update (brokers_by_id brokers) (_brokers c)) c).
Proof.
  intros Hc. pose proof (brokers_by_id_nodup brokers) as Hnd.
  split; cbn; try apply Hc.
  - intros n bm. rewrite merged_lookup by done. case_match; [|by apply Hc].
    intros [= <-]. by eapply brokers_by_id_get.
  - intros tp bm H. apply merged_known; [done|]. by eapply wf_leaders.
  - intros g bm H. apply merged_known; [done|]. by eapply wf_coordinators.
  - pose proof (wf_clients _ _ Hc) as H. destruct (clients c) as [cs|]; [|done].
    destruct H as (? & ? & Hok). split_and!; [done..|]. intros n b Hg.
    destruct (Hok n b Hg) as (? & ? & ? & bm & Hb & Ha). split_and!; [done..|].
    rewrite merged_lookup by done. destruct (Dict.get n (brokers_by_id brokers)) as [bm'|] eqn:Hg'.
    + exists bm'. split; [done|]. intros []. apply list_elem_of_fmap. exists (n, bm').
      split; [done|]. by apply Dict.get_Some_elem.
    + exists bm. split; [done|]. intros _. apply Ha. set_solver.
Qed.

Lemma foldl_del_get (ns : list Z) (cs : list (Z * _KafkaBrokerClient)) :
  NoDup (Dict.keys cs) →
  NoDup (Dict.keys (foldl (λ cs n, Dict.del n cs) cs ns)) ∧
  ∀ n, Dict.get n (foldl (λ cs n, Dict.del n cs) cs ns) =
       if decide (n ∈ ns) then None else Dict.get n cs.
Proof.
  revert cs. induction ns as [|n' ns IH]; intros cs Hnd; [done|]. cbn.
  destruct (IH (Dict.del n' cs)) as [H1 H2]; [by apply Dict.NoDup_del|]. split; [done|].
  intros n. rewrite H2, Dict.get_del by done. repeat case_decide; set_solver.
Qed.

Section update_brokers.
Context (sendString : bytes → option exn) (cancel_connects : Z → bool).
Context (set_iter : list Z → list Z) (set_iter_perm : ∀ l, set_iter l ≡ₚ l).
Local Abbreviation closes := (closes sendString cancel_connects).

(** The nodes a full metadata response no longer mentions. *)
Definition stale (remove : bool) (brokers : list BrokerMetadata) (n : Z) : Prop :=
  remove = true ∧ n ∉ Dict.keys (brokers_by_id brokers).

#[export] Instance stale_dec remove brokers n : Decision (stale remove brokers n).
Proof. unfold stale. apply _. Defined.

Lemma update_brokers_open now brokers remove c cs :
  client_wf c → clients c = Some cs →
  ∃ cs' bs c', _update_brokers sendString cancel_connects set_iter now brokers remove c = (c', Ok tt) ∧
    c' = with_closed_clients (closed_clients c ++ bs) (with_clients (Some cs')
           (with_brokers (dict_update (brokers_by_id brokers) (_brokers c)) c)) ∧
    client_wf c' ∧
    (∀ n b, Dict.get n cs = Some b →
       if decide (stale remove brokers n)
       then Dict.get n cs' = None ∧ ∃ b', b' ∈ bs ∧ closes now b b'
       else ∃ b', Dict.get n cs' = Some b' ∧ updated (brokers_by_id brokers) n b b') ∧
    (∀ n, Dict.get n cs = None → Dict.get n cs' = None).
Proof.
  intros Hc Hcs. pose proof (merged_wf brokers c Hc) as Hm.
  pose proof (brokers_by_id_nodup brokers) as Hnd.
  unfold _update_brokers. set (by_id := brokers_by_id brokers) in *.
  set (c0 := with_brokers _ c) in *.
  destruct (update_clients_open sendString cancel_connects by_id c0 cs) as (cs1 & Hu & Hw1 & Hk1 & H1); [done| |done|done|].
  { intros n bm Hin. apply Dict.get_elem in Hin; [|done].
    split; [by eapply brokers_by_id_get|]. subst c0. cbn. rewrite merged_lookup by done.
    by rewrite Hin. }
  erewrite proc_bind_ok by done. rewrite (proc_bind_ok _ _ _ _ _ Hu).
  assert (∀ n, Dict.get n cs = None → Dict.get n cs1 = None) as Hnone.
  { intros n. rewrite !Dict.get_None. by rewrite Hk1. }
  destruct remove.
  2:{ exists cs1, [], (with_clients (Some cs1) c0). split; [done|]. split.
      { rewrite app_nil_r. by destruct c. }
      split_and!; [done| |done]. intros n b Hg. rewrite decide_False by (by intros [? _]). auto. }
  pose proof (wf_clients _ _ Hw1) as (_ & Hnd1 & Hok1).
  set (ns := set_iter (filter (λ n, n ∉ Dict.keys by_id) (Dict.keys cs1))).
  assert (∀ n, n ∈ ns ↔ ((n ∉ Dict.keys by_id) ∧ n ∈ Dict.keys cs)) as Hns.
  { intros n. subst ns. rewrite set_iter_perm, list_elem_of_filter. by rewrite Hk1. }
  set (cs2 := foldl (λ cs n, Dict.del n cs) cs1 ns).
  destruct (foldl_del_get ns cs1 Hnd1) as [Hnd2 Hg2]. fold cs2 in Hnd2, Hg2.
  rewrite (proc_bind_ok _ _ _ (with_clients (Some cs2) c0) (omap (λ n, Dict.get n cs1) ns)) by done.
  set (tc := omap _ ns).
  assert (Forall (λ b, broker_wf b ∧ _dDown b = None) tc) as Htc.
  { apply Forall_forall. intros b (n & _ & Hg)%list_elem_of_omap.
    by destruct (Hok1 n b Hg) as (_ & ? & ? & _). }
  destruct (close_brokerclients_ok sendString cancel_connects now tc (with_clients (Some cs2) c0) Htc) as (bs & Hcl & Hbs & Hcok).
  exists cs2, bs, (with_closed_clients (closed_clients c ++ bs) (with_clients (Some cs2) c0)).
  split.
  { case_bool_decide as He; [|done]. rewrite He in Hbs. apply Forall2_nil_inv_l in Hbs as ->.
    rewrite app_nil_r. by destruct c. }
  split; [done|]. split.
  { apply wf_with_closed_clients; [|apply Forall_app; split; [apply Hc|done]].
    apply (wf_with_clients [] _ _ _ Hw1); [by apply Hw1|done|].
    intros n b. rewrite Hg2. case_decide; [done|]. apply Hok1. }
  split; [|intros n Hn; rewrite Hg2; case_decide; auto].
  intros n b Hg. destruct (H1 n b Hg) as (b1 & Hg1 & Hu1).
  assert (n ∈ Dict.keys cs) as Hin.
  { apply list_elem_of_fmap. exists (n, b). split; [done|]. by apply Dict.get_Some_elem. }
  case_decide as Hst.
  - destruct Hst as [_ Hst]. rewrite Hg2, decide_True by (by apply Hns). split; [done|].
    unfold updated in Hu1. rewrite (proj2 (Dict.get_None by_id n)) in Hu1 by done. subst b1.
    assert (b ∈ tc) as Hb. { apply list_elem_of_omap. exists n. split; [by apply Hns|done]. }
    apply list_elem_of_lookup in Hb as [i Hi].
    destruct (Forall2_lookup_l _ _ _ _ _ Hbs Hi) as (b' & Hi' & Hcb).
    exists b'. split; [by eapply list_elem_of_lookup_2|done].
  - exists b1. rewrite Hg2, decide_False; [done|].
    intros [Hn _]%Hns. by apply Hst.
Qed.

Lemma update_brokers_closed now brokers remove c :
  client_wf c → clients c = None →
  ∃ c', c' = with_brokers (dict_update (brokers_by_id brokers) (_brokers c)) c ∧ client_wf c' ∧
    _update_brokers sendString cancel_connects set_iter now brokers remove c =
      (c', if bool_decide (brokers = []) && negb remove then Ok tt else Err PyTypeError).
Proof.
  intros Hc Hcs. pose proof (merged_wf brokers c Hc) as Hm. eexists. split; [done|].
  split; [by eapply wf_upto_closed|]. unfold _update_brokers.
  erewrite proc_bind_ok by done. set (c0 := with_brokers _ c).
  assert (brokers_by_id brokers = [] ↔ brokers = []) as He.
  { split; [|by intros ->]. intros He. destruct brokers as [|bm brokers]; [done|].
    pose proof (brokers_by_id_elem (bm :: brokers) bm ltac:(set_solver)) as H.
    rewrite He in H. by apply not_elem_of_nil in H. }
  pose proof (update_clients_closed (brokers_by_id brokers) c0 Hcs) as Hu.
  case_bool_decide as Hb; case_bool_decide as Hb'; [|tauto|tauto|].
  - rewrite (proc_bind_ok _ _ _ _ _ Hu). destruct remove; [|done].
    erewrite proc_bind_err; [done|]. unfold pop_stale. erewrite proc_bind_err; [done|].
    unfold open_clients. change (clients c0) with (clients c). by rewrite Hcs.
  - by rewrite (proc_bind_err _ _ _ _ _ Hu).
Qed.

Lemma update_brokers_wf now brokers remove c :
  client_wf c →
  let r := _update_brokers sendString cancel_connects set_iter now brokers remove c in
  client_wf r.1 ∧ _brokers r.1 = dict_update (brokers_by_id brokers) (_brokers c).
Proof.
  intros Hc. destruct (clients c) as [cs|] eqn:Hcs.
  - destruct (update_brokers_open now brokers remove c cs Hc Hcs) as (cs' & bs & c' & -> & -> & ? & _).
    done.
  - by destruct (update_brokers_closed now brokers remove c Hc Hcs) as (c' & -> & ? & ->).
Qed.
End update_brokers.

(** ** Merging topics *)

(** What the cache holds for a partition: [None] for no leader. *)
Definition leader_of (brokers : list (Z * BrokerMetadata)) (meta : PartitionMetadata)
    : option BrokerMetadata :=
  if pm_leader meta =? -1 then None else Dict.get (pm_leader meta) brokers.

Definition leader_known (brokers : list (Z * BrokerMetadata)) (pm : Z * PartitionMetadata) : Prop :=
  pm_leader pm.2 = -1 ∨ is_Some (Dict.get (pm_leader pm.2) brokers).

Section merge.
Context (brokers : list (Z * BrokerMetadata)).

Definition set_leaders (t : text) (pms : list (Z * PartitionMetadata))
    (ttb : gmap TopicAndPartition (option BrokerMetadata)) :=
  foldl (λ m pm, <[mkTopicAndPartition t pm.1 := leader_of brokers pm.2]> m) ttb pms.

Definition set_meta (t : text) (pms : list (Z * PartitionMetadata))
    (pmeta : gmap TopicAndPartition PartitionMetadata) :=
  foldl (λ m pm, <[mkTopicAndPartition t pm.1 := pm.2]> m) pmeta pms.

Lemma merge_partition_eq t p meta c :
  leader_known brokers (p, meta) →
  merge_partition brokers t (p, meta) c =
    (with_topics_to_brokers (set_leaders t [(p, meta)] (topics_to_brokers c))
       (with_partition_meta (set_meta t [(p, meta)] (partition_meta c))
          (with_topic_partitions
             (<[t := default [] (topic_partitions c !! t) ++ [p]]> (topic_partitions c)) c)), Ok tt).
Proof.
  intros Hl. unfold merge_partition, leader_known, set_leaders, leader_of in *. cbn in Hl |- *.
  destruct (pm_leader meta =? -1) eqn:He; [done|]. apply Z.eqb_neq in He.
  destruct Hl as [|[bm Hbm]]; [done|]. by rewrite Hbm.
Qed.

(** All partitions of a topic, from a state where the topic is listed. *)
Lemma merge_partitions_eq t pms : ∀ ps c,
  Forall (leader_known brokers) pms → topic_partitions c !! t = Some ps →
  pfor_each pms (merge_partition brokers t) c =
    (with_topics_to_brokers (set_leaders t pms (topics_to_brokers c))
       (with_partition_meta (set_meta t pms (partition_meta c))
          (with_topic_partitions (<[t := ps ++ Dict.keys pms]> (topic_partitions c)) c)), Ok tt).
Proof.
  induction pms as [|[p meta] pms IH]; intros ps c Hl Hps.
  - cbn. rewrite app_nil_r, insert_id by done. by destruct c.
  - inversion Hl as [|? ? Hl1 Hl2]; subst.
    rewrite (pfor_each_step _ _ _ _ _ (merge_partition_eq t p meta c Hl1)).
    rewrite (IH (ps ++ [p])); [|done|].
    + cbn. rewrite insert_insert_eq, <-app_assoc. done.
    + cbn. by rewrite lookup_insert_eq, Hps.
Qed.

(** A leader the response does not describe stops the loop where it stands. *)
Lemma merge_partition_unknown t p meta c :
  ¬ leader_known brokers (p, meta) →
  merge_partition brokers t (p, meta) c =
    (with_partition_meta (set_meta t [(p, meta)] (partition_meta c))
       (with_topic_partitions
          (<[t := default [] (topic_partitions c !! t) ++ [p]]> (topic_partitions c)) c), Err PyKeyError).
Proof.
  intros Hl. unfold merge_partition, leader_known in *. cbn in Hl |- *.
  destruct (pm_leader meta =? -1) eqn:He; [apply Z.eqb_eq in He; tauto|].
  destruct (Dict.get (pm_leader meta) brokers) eqn:Hg; [|done]. exfalso. by apply Hl; right.
Qed.

Definition topic_name_ok (t : text) : Prop := 1 ≤ len t ≤ 249.

Lemma reset_topic_metadata_str t c :
  reset_topic_metadata [VStr t] c =
    if decide (topic_name_ok t) then (reset_topic t c, Ok tt) else (c, Err PyValueError).
Proof.
  unfold reset_topic_metadata, topic_name_ok, mbind, proc_bind, plift. cbn.
  destruct (len t <? 1) eqn:H1; zbool; [by rewrite decide_False by lia|].
  destruct (249 <? len t) eqn:H2; zbool; [by rewrite decide_False by lia|].
  by rewrite decide_True by lia.
Qed.

(** The cache after a topic of the response has been merged. *)
Definition topic_merged (t : text) (tm : TopicMetadata) (c c' : KafkaClient) : Prop :=
  let pms := tm_partition_metadata tm in
  topic_errors c' = <[t := tm_topic_error_code tm]> (topic_errors c) ∧
  topic_partitions c' =
    (if bool_decide (pms = []) then delete t (topic_partitions c)
     else <[t := merge_sort Z.le (Dict.keys pms)]> (topic_partitions c)) ∧
  partition_meta c' = set_meta t pms (partition_meta c) ∧
  topics_to_brokers c' =
    set_leaders t pms (foldl (λ m p, delete (mkTopicAndPartition t p) m) (topics_to_brokers c)
                         (default [] (topic_partitions c !! t))) ∧
  ∃ ttb pme tps te, c' = with_topics_to_brokers ttb (with_partition_meta pme
    (with_topic_partitions tps (with_topic_errors te c))).

Lemma reset_topic_eq t c :
  reset_topic t c =
    with_topics_to_brokers (foldl (λ m p, delete (mkTopicAndPartition t p) m) (topics_to_brokers c)
                              (default [] (topic_partitions c !! t)))
      (with_topic_partitions (delete t (topic_partitions c))
         (with_topic_errors (delete t (topic_errors c)) c)).
Proof.
  unfold reset_topic. destruct (topic_partitions c !! t) as [ps|] eqn:Hps; [done|]. cbn.
  rewrite (delete_id (topic_partitions c)) by done. by destruct c.
Qed.

Lemma merge_topic_eq t tm c :
  topic_name_ok t → Forall (leader_known brokers) (tm_partition_metadata tm) →
  ∃ c', merge_topic brokers (t, tm) c = (c', Ok tt) ∧ topic_merged t tm c c'.
Proof.
  intros Ht Hl. unfold merge_topic, topic_merged. set (pms := tm_partition_metadata tm) in *.
  rewrite (proc_bind_ok _ _ _ (reset_topic t c) tt)
    by (by rewrite reset_topic_metadata_str, decide_True).
  rewrite reset_topic_eq. erewrite proc_bind_ok by done. cbn -[merge_partition].
  case_bool_decide as Hp.
  - eexists. split; [done|]. rewrite Hp. cbn. split_and!; [|done..|].
    + by rewrite insert_delete_eq.
    + by eexists _, _, _, _.
  - erewrite proc_bind_ok by done. erewrite proc_bind_ok.
    2:{ apply (merge_partitions_eq t pms []); [done|]. cbn. by rewrite lookup_insert_eq. }
    eexists. split; [done|]. cbn. rewrite !lookup_insert_eq. cbn.
    rewrite !insert_delete_eq, !insert_insert_eq. split_and!; [done|done|done|done|].
    by eexists _, _, _, _.
Qed.
End merge.

Section merge_wf.
Context (brokers : list (Z * BrokerMetadata)).

(** The invariant, and the brokers of the response are known. *)
Definition merge_wf (c : KafkaClient) : Prop :=
  client_wf c ∧ ∀ l bm, Dict.get l brokers = Some bm → is_Some (_brokers c !! bm_node_id bm).

Lemma merge_wf_frame c c' : merge_wf c → client_wf c' → _brokers c' = _brokers c → merge_wf c'.
Proof. intros [_ H] ? Hb. split; [done|]. by rewrite Hb. Qed.

Lemma reset_topic_unlisted t c : topic_partitions (reset_topic t c) !! t = None.
Proof. rewrite reset_topic_eq. cbn. by rewrite lookup_delete_eq. Qed.

Lemma reset_topic_brokers t c : _brokers (reset_topic t c) = _brokers c.
Proof. by rewrite reset_topic_eq. Qed.

Lemma wf_relist t ps ps' c :
  topic_partitions c !! t = Some ps → ps ⊆ ps' → client_wf c →
  client_wf (with_topic_partitions (<[t := ps']> (topic_partitions c)) c).
Proof.
  intros Hps Hsub Hc. apply wf_with_topic_partitions; [|done]. intros t' p x H.
  destruct (wf_listed _ _ Hc _ _ _ H) as (ps0 & H0 & Hp).
  destruct (decide (t' = t)) as [->|]; [|exists ps0; by rewrite lookup_insert_ne].
  exists ps'. rewrite lookup_insert_eq. split; [done|]. set_solver.
Qed.

Lemma wf_list_empty t c :
  topic_partitions c !! t = None → client_wf c →
  client_wf (with_topic_partitions (<[t := []]> (topic_partitions c)) c).
Proof.
  intros Hps Hc. apply wf_with_topic_partitions; [|done]. intros t' p x H.
  destruct (wf_listed _ _ Hc _ _ _ H) as (ps0 & H0 & Hp).
  exists ps0. by rewrite lookup_insert_ne by congruence.
Qed.

Lemma merge_partition_wf t pm c :
  merge_wf c ∧ is_Some (topic_partitions c !! t) →
  merge_wf (merge_partition brokers t pm c).1 ∧
  is_Some (topic_partitions (merge_partition brokers t pm c).1 !! t).
Proof.
  destruct pm as [p meta]. intros [[Hc Hk] [ps Hps]].
  assert (client_wf (with_topic_partitions
    (<[t := default [] (topic_partitions c !! t) ++ [p]]> (topic_partitions c)) c)) as H1.
  { rewrite Hps. cbn. eapply wf_relist; [done|set_solver|done]. }
  destruct (decide (leader_known brokers (p, meta))) as [Hl|Hl].
  { rewrite merge_partition_eq by done. cbn [fst]. split.
    - apply (merge_wf_frame c); [done| |done]. apply wf_with_topics_to_brokers.
      + intros tp bm. unfold set_leaders. cbn.
        destruct (decide (tp = mkTopicAndPartition t p)) as [->|].
        * rewrite lookup_insert_eq. intros [= Hbm]. unfold leader_of in Hbm. cbn in Hbm.
          destruct (pm_leader meta =? -1); [done|]. by apply Hk in Hbm.
        * rewrite lookup_insert_ne by done. intros H. by eapply wf_leaders.
      + intros t' p' x. unfold set_leaders. cbn.
        destruct (decide (mkTopicAndPartition t' p' = mkTopicAndPartition t p)) as [[= -> ->]|].
        * intros _. eexists. rewrite lookup_insert_eq. split; [done|]. set_solver.
        * rewrite lookup_insert_ne by done. intros H. by apply (wf_listed _ _ H1 _ _ x).
      + by apply wf_with_partition_meta.
    - cbn. by rewrite lookup_insert_eq. }
  rewrite merge_partition_unknown by done. cbn [fst]. split.
  - apply (merge_wf_frame c); [done| |done]. by apply wf_with_partition_meta.
  - cbn. by rewrite lookup_insert_eq.
Qed.

Lemma merge_topic_wf tm : keeps merge_wf (merge_topic brokers tm).
Proof.
  destruct tm as [t tm]. intros c Hm. unfold merge_topic.
  unfold mbind at 1, proc_bind at 1. rewrite reset_topic_metadata_str. case_decide; [|done].
  assert (merge_wf (reset_topic t c)) as H1.
  { eapply merge_wf_frame; [done| |apply reset_topic_brokers]. apply reset_topic_wf, Hm. }
  pose proof (reset_topic_unlisted t c) as Hn. set (c1 := reset_topic t c) in *.
  erewrite proc_bind_ok by done. set (c2 := with_topic_errors _ c1).
  assert (merge_wf c2) as H2 by (apply (merge_wf_frame c1); [done|by apply wf_with_topic_errors, H1|done]).
  case_bool_decide; [done|]. erewrite proc_bind_ok by done. set (c3 := with_topic_partitions _ c2).
  assert (merge_wf c3 ∧ is_Some (topic_partitions c3 !! t)) as H3.
  { split.
    - apply (merge_wf_frame c2); [done| |done]. apply wf_list_empty; [done|apply H2].
    - unfold c3. cbn. by rewrite lookup_insert_eq. }
  pose proof (pfor_each_inv _ (tm_partition_metadata tm) (merge_partition brokers t) c3 H3
                (λ pm s _, merge_partition_wf t pm s)) as H4.
  unfold mbind, proc_bind. destruct (pfor_each _ _ c3) as [c4 [[]|]]; [|apply H4].
  destruct H4 as [H4 [ps Hps]]. cbn in Hps |- *. rewrite Hps.
  apply (merge_wf_frame c4); [done| |done]. eapply wf_relist; [done| |apply H4].
  intros p Hp. cbn. by rewrite merge_sort_Permutation.
Qed.
End merge_wf.

Section methods_wf.
Context (sendString : bytes → option exn) (cancel_connects : Z → bool).
Context (set_iter : list Z → list Z) (set_iter_perm : ∀ l, set_iter l ≡ₚ l).

Lemma merge_topic_metadata_wf now brokers topics f :
  keeps client_wf (_merge_topic_metadata sendString cancel_connects set_iter now brokers topics f).
Proof.
  intros c Hc. unfold _merge_topic_metadata, mbind, proc_bind.
  set (rm := f && _). set (bs := Dict.values brokers).
  destruct (update_brokers_wf sendString cancel_connects set_iter set_iter_perm now bs rm c Hc)
    as [H1 H2].
  destruct (_update_brokers _ _ _ _ _ _ _) as [c1 [[]|]]; [|done]. cbn [fst] in *.
  refine (proj1 (keeps_for (merge_wf brokers) topics _ (λ tm _, merge_topic_wf brokers tm) c1 _)).
  split; [done|]. intros l bm Hg. rewrite H2, merged_lookup by apply brokers_by_id_nodup.
  assert (bm ∈ bs) as Hin.
  { apply list_elem_of_fmap. exists (l, bm). split; [done|]. by apply Dict.get_Some_elem. }
  apply brokers_by_id_elem in Hin. case_match eqn:He; [done|]. by apply Dict.get_None in He.
Qed.

Lemma load_metadata_wf i ts : keeps client_wf (load_metadata_for_topics i ts).
Proof. unfold load_metadata_for_topics. keeps_steps. intros. by apply wf_with_unaware_requests. Qed.

Lemma metadata_answer_wf now f a :
  keeps client_wf (metadata_answer sendString cancel_connects set_iter now f a).
Proof.
  unfold metadata_answer, _handleMetadataResponse, _handleMetadataErr.
  destruct a as [r|e]; [|destruct e; auto with keeps].
  apply keeps_bind; [auto with keeps|]. intros [bs ts].
  apply keeps_bind; [apply merge_topic_metadata_wf|auto with keeps].
Qed.

Lemma get_brokerclient_wf n : keeps client_wf (_get_brokerclient n).
Proof.
  intros c Hc. pose proof (get_brokerclient_spec [] n c Hc) as H.
  destruct (_get_brokerclient n c) as [c' [m|e]]; [by destruct H as (_ & ? & _)|].
  by destruct H as [-> _].
Qed.

Lemma update_brokers_fetches now bs rm c :
  client_wf c →
  let c' := (_update_brokers sendString cancel_connects set_iter now bs rm c).1 in
  _coordinator_fetches c' = _coordinator_fetches c ∧ kc_deferreds c' = kc_deferreds c.
Proof.
  intros Hc. destruct (clients c) as [cs|] eqn:Hcs.
  - by destruct (update_brokers_open sendString cancel_connects set_iter set_iter_perm now bs rm c cs
                   Hc Hcs) as (cs' & cl & c' & -> & -> & _).
  - by destruct (update_brokers_closed sendString cancel_connects set_iter set_iter_perm now bs rm c Hc Hcs)
      as (c' & -> & _ & ->).
Qed.

Lemma wf_with_lookups f ds c :
  client_wf c → deferreds_wf ds →
  (∀ g w, f !! g = Some w → NoDup w ∧ ∀ d, d ∈ w → firable d ds) →
  (∀ g g' w w' d, f !! g = Some w → f !! g' = Some w' → d ∈ w → d ∈ w' → g = g') →
  (∀ d, outstanding d ds → ∃ g w, f !! g = Some w ∧ d ∈ w) →
  client_wf (with_coordinator_fetches f (with_kc_deferreds ds c)).
Proof. intros [] ????. by split. Qed.

(** A deferred that waits was issued. *)
Lemma waiting_issued c g w d :
  client_wf c → _coordinator_fetches c !! g = Some w → d ∈ w →
  (d < issued (kc_deferreds c))%nat.
Proof.
  intros Hc Hg Hd. destruct (wf_waiting _ _ Hc _ _ Hg) as [_ Hf].
  destruct (Hf d Hd) as [[? _]|Hs]; [done|].
  destruct (wf_deferreds _ _ Hc) as (_ & H2 & H3). auto.
Qed.

(** A new deferred joins the ones that wait for a group. *)
Lemma wf_join c g :
  client_wf c →
  let w := default [] (_coordinator_fetches c !! g) in
  client_wf (with_coordinator_fetches
    (<[g := w ++ [issued (kc_deferreds c)]]> (_coordinator_fetches c))
    (with_kc_deferreds (new_deferred (kc_deferreds c)).2 c)).
Proof.
  intros Hc w. set (n := issued (kc_deferreds c)). pose proof (wf_deferreds _ _ Hc) as Hds.
  assert (∀ g' w', _coordinator_fetches c !! g' = Some w' → n ∉ w') as Hn.
  { intros g' w' Hg' Hin. pose proof (waiting_issued _ _ _ _ Hc Hg' Hin). unfold n in *. lia. }
  assert (∀ d, d ∈ w → _coordinator_fetches c !! g = Some w) as Hw.
  { unfold w. intros d. destruct (_coordinator_fetches c !! g); [done|]. cbn. set_solver. }
  assert (∀ d, firable d (kc_deferreds c) → firable d (new_deferred (kc_deferreds c)).2) as Hfir.
  { intros d [Ho|Hs]; [left|by right]. apply new_deferred_outstanding; [done|by left]. }
  assert (firable n (new_deferred (kc_deferreds c)).2) as Hnew.
  { left. apply new_deferred_outstanding; [done|by right]. }
  apply wf_with_lookups; [done|by apply new_deferred_wf|..].
  - intros g' w'. rewrite lookup_insert_Some. intros [[<- <-]|[_ Hg']].
    + split.
      * apply NoDup_app. split_and!; [|intros d Hd Hd'|apply NoDup_singleton].
        -- unfold w. destruct (_coordinator_fetches c !! g) eqn:Hg; [by eapply wf_waiting|constructor].
        -- apply list_elem_of_singleton in Hd' as ->. by apply (Hn g w), Hd; apply Hw in Hd.
      * intros d [Hd| ->%list_elem_of_singleton]%elem_of_app; [|done].
        apply Hfir. eapply wf_waiting; [done|by eapply Hw|done].
    + destruct (wf_waiting _ _ Hc _ _ Hg') as [Hnd Hf]. split; [done|]. auto.
  - assert (∀ g' w' d, d ∈ w ++ [n] → _coordinator_fetches c !! g' = Some w' → d ∈ w' → g = g') as H.
    { intros g' w' d [Hd| ->%list_elem_of_singleton]%elem_of_app Hg' Hd'.
      - eapply (wf_disjoint _ _ Hc); [by eapply Hw|done|done|done].
      - by destruct (Hn _ _ Hg'). }
    intros g1 g2 w1 w2 d. rewrite !lookup_insert_Some.
    intros [[<- <-]|[_ H1]] [[<- <-]|[_ H2]] Hd1 Hd2; [done|by eauto|symmetry; by eauto|].
    by eapply (wf_disjoint _ _ Hc).
  - intros d Hd. apply new_deferred_outstanding in Hd; [|done]. destruct Hd as [Hd| ->].
    + destruct (wf_outstanding _ _ Hc d Hd) as (g' & w' & Hg' & Hin).
      destruct (decide (g' = g)) as [->|].
      * exists g, (w ++ [n]). rewrite lookup_insert_eq. split; [done|]. unfold w. rewrite Hg'.
        set_solver.
      * exists g', w'. by rewrite lookup_insert_ne.
    + exists g, (w ++ [n]). rewrite lookup_insert_eq. split; [done|]. set_solver.
Qed.

Lemma load_coordinator_wf i g : keeps client_wf (load_coordinator_for_group i g).
Proof.
  unfold load_coordinator_for_group. apply keeps_bind; [auto with keeps|]. intros grp c Hc.
  pose proof (wf_join c grp Hc) as Hj. erewrite proc_bind_ok by done.
  destruct (_coordinator_fetches c !! grp) as [w|] eqn:Hg; [exact Hj|].
  unfold mbind at 1, proc_bind at 1. cbn [_next_id].
  set (id := (correlation_id c + 1) mod 2 ^ 31).
  assert (client_wf (with_correlation_id id c)) as H1 by by apply wf_with_correlation_id.
  change (_next_id c) with (with_correlation_id id c, @Ok exn Z id). cbv iota beta.
  unfold mbind at 1, proc_bind at 1, plift.
  destruct (encode_consumermetadata_request i id grp) as [request|]; [|done].
  set (c1 := with_correlation_id id c) in *.
  set (c2 := with_unaware_requests (unaware_requests c1 ++ [(id, request)]) c1).
  assert (client_wf c2) as H2 by by apply wf_with_unaware_requests.
  pose proof (wf_join c2 grp H2) as Hj2. unfold c2 in Hj2 at 1. cbn in Hj2. rewrite Hg in Hj2.
  exact Hj2.
Qed.

(** The result reaches everyone who waits for the group. *)
Lemma propagate_spec g r c w :
  client_wf c → _coordinator_fetches c !! g = Some w →
  ∃ ds, _propagate g r c =
      (with_kc_deferreds ds (with_coordinator_fetches (delete g (_coordinator_fetches c)) c), Ok tt) ∧
    client_wf (_propagate g r c).1 ∧ firings (kc_deferreds c) `prefix_of` firings ds ∧
    ∀ d, d ∈ w → outstanding d (kc_deferreds c) →
      (d, match r with Ok b => Success b | Err e => Failure e end) ∈ firings ds.
Proof.
  intros Hc Hg. unfold _propagate. rewrite Hg.
  set (o := match r with Ok _ => _ | Err _ => _ end).
  destruct (wf_waiting _ _ Hc _ _ Hg) as [Hnd Hf]. pose proof (wf_deferreds _ _ Hc) as Hds.
  destruct (fire_all_firable w o _ Hds Hnd Hf) as (ds & Hfa & Hwf & Hi & Ho).
  exists ds. cbn. rewrite Hfa. destruct (fire_all_records _ _ _ _ Hfa) as [Hp Hr].
  split_and!; [done| |done|exact Hr]. cbn [fst].
  change (client_wf (with_coordinator_fetches (delete g (_coordinator_fetches c))
                       (with_kc_deferreds ds c))).
  apply wf_with_lookups; [done|done|..].
  - intros g' w' [Hne Hg']%lookup_delete_Some. destruct (wf_waiting _ _ Hc _ _ Hg') as [? Hf'].
    split; [done|]. intros d Hd. eapply fire_all_keeps; [done| |by apply Hf'].
    intros Hd'. apply Hne. by eapply (wf_disjoint _ _ Hc).
  - intros g1 g2 w1 w2 d [_ ?]%lookup_delete_Some [_ ?]%lookup_delete_Some.
    by eapply (wf_disjoint _ _ Hc).
  - intros d [Hd Hnw]%Ho. destruct (wf_outstanding _ _ Hc d Hd) as (g' & w' & Hg' & Hin).
    exists g', w'. split; [|done]. apply lookup_delete_Some. split; [|done].
    intros <-. congruence.
Qed.

(** The lookup's answer, if it names a coordinator. *)
Definition coordinator_found (answer : res bytes) : option BrokerMetadata :=
  match answer with
  | Err _ => None
  | Ok response_bytes =>
    match decode_consumermetadata_response response_bytes with
    | Err _ => None
    | Ok response =>
      if decide (cmr_error response = 0)
      then Some (mkBrokerMetadata (cmr_node_id response) (cmr_host response) (cmr_port response))
      else None
    end
  end.

Lemma update_one_broker_commutes now bm m c :
  _update_brokers sendString cancel_connects set_iter now [bm] false (with_group_to_coordinator m c) =
  let '(c', r) := _update_brokers sendString cancel_connects set_iter now [bm] false c in
  (with_group_to_coordinator m c', r).
Proof.
  unfold _update_brokers, update_client, open_clients. cbn -[updateMetadata].
  unfold mbind, proc_bind. cbn -[updateMetadata].
  destruct (clients c) as [cs|] eqn:Hcs; [|done]. cbn -[updateMetadata].
  destruct (Dict.get (bm_node_id bm) cs); [|done]. unfold plift.
  by destruct (updateMetadata _ _).
Qed.

Lemma coordinator_err_eq g e c :
  _handleConsumerMetadataErr g e c =
    (with_group_to_coordinator (delete g (_group_to_coordinator c)) c,
     Err (BrokerError CoordinatorNotAvailable)).
Proof. done. Qed.

Definition coordinator_handled now g answer : meth bool :=
  pcatch (response ← plift answer;
          _handleConsumerMetadataResponse sendString cancel_connects set_iter now g response)
         (_handleConsumerMetadataErr g).

Lemma coordinator_handled_spec now g answer c :
  client_wf c →
  ∃ c', client_wf c' ∧ _coordinator_fetches c' = _coordinator_fetches c ∧
    kc_deferreds c' = kc_deferreds c ∧
    match clients c, coordinator_found answer with
    | Some _, Some bm =>
      coordinator_handled now g answer c = (c', Ok true) ∧
      _group_to_coordinator c' = <[g := bm]> (_group_to_coordinator c) ∧
      _brokers c' = <[bm_node_id bm := bm]> (_brokers c)
    | _, _ =>
      coordinator_handled now g answer c = (c', Err (BrokerError CoordinatorNotAvailable)) ∧
      _group_to_coordinator c' = delete g (_group_to_coordinator c)
    end.
Proof.
  intros Hc. unfold coordinator_handled, pcatch, coordinator_found.
  assert (client_wf (with_group_to_coordinator (delete g (_group_to_coordinator c)) c)) as Hdel.
  { apply wf_with_coordinators; [|done]. intros ? ? [_ ?]%lookup_delete_Some. by eapply wf_coordinators. }
  set (cd := with_group_to_coordinator _ c) in *.
  assert (∀ e, _handleConsumerMetadataErr g e c = (cd, Err (BrokerError CoordinatorNotAvailable)))
    as Herr by done.
  unfold mbind, proc_bind, plift. destruct answer as [rb|e].
  2:{ rewrite Herr. exists cd. split_and!; [done..|]. by destruct (clients c). }
  unfold _handleConsumerMetadataResponse, mbind, proc_bind, plift.
  destruct (decode_consumermetadata_response rb) as [resp|e].
  2:{ rewrite Herr. exists cd. split_and!; [done..|]. by destruct (clients c). }
  unfold raise_for_errno. destruct (decide (cmr_error resp = 0)).
  2:{ exists cd. split_and!; [done..|].
      by destruct (Dict.get (cmr_error resp) errnos); destruct (clients c). }
  cbn [pmodify]. set (bm := mkBrokerMetadata _ _ _). set (m := <[g := bm]> _).
  change (pmodify ?f c) with (f c, @Ok exn unit tt). cbv iota beta.
  rewrite update_one_broker_commutes. destruct (clients c) as [cs|] eqn:Hcs.
  - destruct (update_brokers_open sendString cancel_connects set_iter set_iter_perm now [bm] false c cs
                Hc Hcs) as (cs' & bs & c' & -> & Hc' & Hwf & _).
    exists (with_group_to_coordinator m c'). split_and!; [|by subst c'..].
    apply wf_with_coordinators; [|done].
    intros g' bm' [[<- <-]|[_ Hg]]%lookup_insert_Some; subst c'; cbn; [by rewrite lookup_insert_eq|].
    by apply (wf_coordinators _ _ Hwf g').
  - destruct (update_brokers_closed sendString cancel_connects set_iter set_iter_perm now [bm] false c
                Hc Hcs) as (c' & Hc' & Hwf & ->). cbn. rewrite coordinator_err_eq.
    exists (with_group_to_coordinator (delete g m) c').
    split_and!; [|by subst c'..|unfold m; cbn; by rewrite delete_insert_eq].
    apply wf_with_coordinators; [|done].
    intros g' bm'. unfold m. rewrite delete_insert_eq. intros [_ Hg]%lookup_delete_Some.
    subst c'. by apply (wf_coordinators _ _ Hwf g').
Qed.

Lemma coordinator_answer_spec now g answer c w :
  client_wf c → _coordinator_fetches c !! g = Some w →
  ∃ c' r, coordinator_answer sendString cancel_connects set_iter now g answer c = (c', Ok tt) ∧
    client_wf c' ∧ _coordinator_fetches c' = delete g (_coordinator_fetches c) ∧
    firings (kc_deferreds c) `prefix_of` firings (kc_deferreds c') ∧
    (∀ d, d ∈ w → outstanding d (kc_deferreds c) → (d, r) ∈ firings (kc_deferreds c')) ∧
    match clients c, coordinator_found answer with
    | Some _, Some bm =>
      r = Success true ∧ _group_to_coordinator c' = <[g := bm]> (_group_to_coordinator c) ∧
      _brokers c' = <[bm_node_id bm := bm]> (_brokers c)
    | _, _ =>
      r = Failure (BrokerError CoordinatorNotAvailable) ∧
      _group_to_coordinator c' = delete g (_group_to_coordinator c)
    end.
Proof.
  intros Hc Hg.
  change (coordinator_answer sendString cancel_connects set_iter now g answer c) with
    (let '(c, result) := coordinator_handled now g answer c in _propagate g result c).
  destruct (coordinator_handled_spec now g answer c Hc) as (c1 & Hc1 & Hf1 & Hd1 & H).
  rewrite <-Hf1 in Hg. rewrite <-Hf1, <-Hd1.
  assert (∀ r, coordinator_handled now g answer c = (c1, r) →
    ∃ c', (let '(c, result) := coordinator_handled now g answer c in _propagate g result c) = (c', Ok tt) ∧
      client_wf c' ∧ _coordinator_fetches c' = delete g (_coordinator_fetches c1) ∧
      firings (kc_deferreds c1) `prefix_of` firings (kc_deferreds c') ∧
      (∀ d, d ∈ w → outstanding d (kc_deferreds c1) →
         (d, match r with Ok b => Success b | Err e => Failure e end) ∈ firings (kc_deferreds c')) ∧
      _group_to_coordinator c' = _group_to_coordinator c1 ∧ _brokers c' = _brokers c1) as Hp.
  { intros r ->. destruct (propagate_spec g r c1 w Hc1 Hg) as (ds & Heq & Hwf & Hpre & Hfi).
    rewrite Heq in Hwf |- *. eexists. split; [done|]. by split_and!. }
  destruct (clients c), (coordinator_found answer) as [bm|].
  1: destruct H as (Hr & ? & ?).
  2-4: destruct H as (Hr & ?).
  all: destruct (Hp _ Hr) as (c' & -> & Hwf & Hfe & Hpre & Hfi & ? & ?).
  all: exists c'; eexists; split_and!; [done|done|done|done|exact Hfi|done|congruence..].
Qed.

(** ** Responses *)

Section responses_wf.
Context {R O : Type} (error : R → Z) (topic : R → option text) (callback : R → res O).

Lemma response_error_wf f g resp : keeps client_wf (response_error error topic f g resp).
Proof.
  unfold response_error. keeps_steps.
Qed.

Lemma handle_responses_wf rs f g : keeps client_wf (_handle_responses error topic callback rs f g).
Proof.
  induction rs as [|resp rs IH]; [apply keeps_ret|]. cbn [_handle_responses].
  apply keeps_bind; [apply response_error_wf|]. intros _. keeps_steps.
Qed.
End responses_wf.

(** ** Closing *)

Lemma close_open now c cs :
  client_wf c → clients c = Some cs →
  ∃ bs c', close sendString cancel_connects now c = (c', Ok tt) ∧ client_wf c' ∧
    c' = reset_all_metadata (with_closed_clients (closed_clients c ++ bs)
           (with_clients None (with_closing true c))) ∧
    Forall2 (closes sendString cancel_connects now) (Dict.values cs) bs.
Proof.
  intros Hc Hcs. pose proof (wf_clients _ _ Hc) as H. rewrite Hcs in H. destruct H as (_ & Hnd & Hok).
  set (c1 := with_clients None (with_closing true c)).
  assert (client_wf c1) as H1. { destruct Hc. by split. }
  destruct (close_brokerclients_ok sendString cancel_connects now (Dict.values cs) c1)
    as (bs & Hcl & H2 & Hbs).
  { apply Forall_forall. intros b Hb. apply list_elem_of_fmap in Hb as ([n b0] & -> & Hin).
    apply Dict.get_elem in Hin; [|done]. by destruct (Hok _ _ Hin) as (_ & ? & ? & _). }
  exists bs. eexists. split_and!; [| |done|done].
  - unfold close. erewrite proc_bind_ok by done. erewrite proc_bind_ok by done.
    erewrite proc_bind_ok by done. cbn [clients with_closing]. rewrite Hcs.
    by rewrite (proc_bind_ok _ _ _ _ _ Hcl).
  - apply reset_all_wf, wf_with_closed_clients; [done|]. apply Forall_app. split; [apply H1|done].
Qed.

Lemma close_twice now c :
  client_wf c → clients c = None →
  close sendString cancel_connects now c = (c, Err PyAttributeError).
Proof.
  intros Hc Hcs. pose proof (wf_clients _ _ Hc) as H. rewrite Hcs in H.
  unfold close. erewrite proc_bind_ok by done. erewrite proc_bind_ok by done.
  erewrite proc_bind_ok by done. cbn [clients with_closing]. rewrite Hcs.
  erewrite proc_bind_err by done. f_equal. destruct c. cbn in *. by subst.
Qed.

(** ** Every reachable state *)

Lemma cancel_load_wf d ds c :
  client_wf c → (d < issued (kc_deferreds c))%nat → cancel_plain d (kc_deferreds c) = Ok ds →
  client_wf (with_kc_deferreds ds c).
Proof.
  intros Hc Hd Hcp. destruct (cancel_plain_spec d _ (wf_deferreds _ _ Hc) Hd)
    as (ds' & Hcp' & Hwf & _ & Ho & Hf).
  assert (ds' = ds) as -> by congruence.
  replace (with_kc_deferreds ds c) with
    (with_coordinator_fetches (_coordinator_fetches c) (with_kc_deferreds ds c)) by by destruct c.
  apply wf_with_lookups; [done|done| |apply Hc|].
  - intros g w Hg. destruct (wf_waiting _ _ Hc _ _ Hg) as [? Hw]. split; [done|]. auto.
  - intros d' [Hd' _]%Ho. by apply (wf_outstanding _ _ Hc).
Qed.

Lemma on_broker_wf n e c :
  client_wf c → enabled (OnBroker n e) c = true →
  client_wf (step sendString cancel_connects set_iter (OnBroker n e) c).
Proof.
  intros Hc He. unfold step. cbn in He |- *. pose proof (wf_clients _ _ Hc) as H.
  destruct (clients c) as [cs|] eqn:Hcs; [|done]. destruct H as (Hcl & Hnd & Hok).
  destruct (Dict.get n cs) as [b|] eqn:Hg; [|done].
  apply andb_prop in He as [Hne He]. destruct (Hok n b Hg) as (Hn & Hwf & Hd & bm & Hb & Ha).
  destruct (step_same_owner sendString e b Hne) as (H1 & H2 & H3 & H4).
  apply (wf_with_clients [] _ _ _ Hc); [done|by apply Dict.NoDup_set|].
  intros n' b'. rewrite Dict.get_set. case_decide; [|apply Hok]. intros [= <-]. subst n'.
  split_and!; [congruence|by apply step_wf|by apply H4|]. exists bm. split; [done|].
  rewrite H2, H3. exact Ha.
Qed.

Lemma on_closed_wf i e c :
  client_wf c → enabled (OnClosed i e) c = true →
  client_wf (step sendString cancel_connects set_iter (OnClosed i e) c).
Proof.
  intros Hc He. unfold step. cbn in He |- *. pose proof (wf_closed _ _ Hc) as H.
  destruct (closed_clients c !! i) as [b|] eqn:Hi; [|done].
  apply andb_prop in He as [Hne He]. apply wf_with_closed_clients; [done|].
  apply Forall_alter; [done|]. intros b0 Hb0 (Hwf & Hd & Hr). assert (b0 = b) as -> by congruence.
  pose proof (step_wf sendString e b Hwf He) as Hwf'.
  destruct (step_same_owner sendString e b Hne) as (_ & _ & _ & H4).
  assert (_dDown (BrokerClient.step sendString e b) ≠ None) as Hd' by by rewrite H4.
  split_and!; [done|done|]. destruct Hwf' as (_ & Hcw & _). unfold conn_wf in Hcw.
  destruct (_dDown (BrokerClient.step sendString e b)); [by destruct Hcw|done].
Qed.

Lemma client_step_wf e c :
  client_wf c → enabled e c = true → client_wf (step sendString cancel_connects set_iter e c).
Proof.
  intros Hc He. destruct e; try (by apply on_broker_wf); try (by apply on_closed_wf);
    unfold step; cbn [handle].
  - by apply reset_topic_metadata_wf.
  - by apply reset_groups_wf.
  - by apply reset_all_wf.
  - by apply load_metadata_wf.
  - apply keeps_bind; [apply metadata_answer_wf|auto with keeps|done].
  - apply keeps_bind; [apply load_coordinator_wf|auto with keeps|done].
  - cbn in He. apply bool_decide_eq_true in He as [w Hw].
    by destruct (coordinator_answer_spec now group answer c w Hc Hw) as (c' & r & -> & ? & _).
  - cbn in He. apply bool_decide_eq_true in He. destruct (cancel_plain _ _) eqn:Hcp; [|done].
    by eapply cancel_load_wf.
  - apply keeps_bind; [apply get_brokerclient_wf|auto with keeps|done].
  - apply keeps_bind; [apply next_id_wf|auto with keeps|done].
  - destruct (clients c) as [cs|] eqn:Hcs.
    + by destruct (close_open now c cs Hc Hcs) as (bs & c' & -> & ? & _).
    + by rewrite close_twice.
Qed.

Lemma client_init_wf i : client_wf (__init__ i).
Proof.
  split; cbn.
  1-4: intros *; rewrite lookup_empty; done.
  - split_and!; [done|constructor|done].
  - constructor.
  - apply no_deferreds_wf.
  - intros *. by rewrite lookup_empty.
  - intros *. by rewrite lookup_empty.
  - intros d [Hd _]. cbn in Hd. lia.
Qed.

Lemma client_reachable_wf i c :
  reachable sendString cancel_connects set_iter i c → client_wf c.
Proof. induction 1; [apply client_init_wf|by apply client_step_wf]. Qed.
End methods_wf.
