(* ===== verification/ClientTheorems.v ===== *)
(** What [KafkaClient] promises: its cache can be routed by, metadata responses
    replace what it knew, coordinator lookups are shared, closing ends
    everything, and error codes of responses clear what they prove stale. *)
From S2P Require Import Prelude Common PyBytes Util KafkaCodec Deferred BrokerClient Client ClientInvariant.
Local Open Scope Z_scope.

(** ** Theorems *)

Section theorems.
Context (sendString : bytes → option exn) (cancel_connects : Z → bool).
Context (set_iter : list Z → list Z) (set_iter_perm : ∀ l, set_iter l ≡ₚ l).

(** A request can be routed to the broker: there is, or there is now, a
    broker client for it, not closed and at the address last reported. *)
Definition routable (bm : BrokerMetadata) (c : KafkaClient) : Prop :=
  ∃ c' cs b, _get_brokerclient (bm_node_id bm) c = (c', Ok (bm_node_id bm)) ∧
    clients c' = Some cs ∧ Dict.get (bm_node_id bm) cs = Some b ∧ _dDown b = None ∧
    _brokers c !! bm_node_id bm = Some (mkBrokerMetadata (node_id b) (host b) (port b)).

Lemma known_routable bm c :
  client_wf c → _closing c = false → is_Some (_brokers c !! bm_node_id bm) → routable bm c.
Proof.
  intros Hc Hcl [bm' Hb]. unfold routable. set (n := bm_node_id bm) in *.
  pose proof (get_brokerclient_spec [] n c Hc) as H.
  destruct (_get_brokerclient n c) as [c' [n'|e]] eqn:Heq.
  2:{ destruct H as [-> H]. rewrite Hcl in H. destruct H as [_ H]. congruence. }
  destruct H as (-> & Hc' & cs & cs' & Hcs & -> & Hg).
  assert (∃ b, Dict.get n cs' = Some b) as [b Hgb].
  { destruct (Dict.get n cs) as [b|] eqn:Hn; [exists b; by subst|].
    destruct Hg as (bm0 & _ & ->). exists (BrokerClient.__init__ bm0).
    apply Dict.get_None in Hn. rewrite <-Dict.set_fresh by done. apply Dict.get_set_eq. }
  pose proof (wf_clients _ _ Hc') as (_ & _ & Hok). destruct (Hok n b Hgb) as (Hn & _ & Hd & bm0 & Hb0 & Ha).
  exists (with_clients (Some cs') c), cs', b. split_and!; [done|done|done|done|].
  cbn in Hb0. rewrite Hb0. f_equal. rewrite Hn. apply Ha. set_solver.
Qed.

(** C2. The cache is safe to route by: whatever the application calls, the
    brokers answer and the network does, in any order, the cache stays well
    formed; in particular every cached leader and every cached coordinator can
    be sent to until the client is closed, so that no lookup of a broker by
    node id ever fails. *)
Theorem client_cache_safe (correlation_id : Z) (c : KafkaClient)
    (Hr : reachable sendString cancel_connects set_iter correlation_id c) :
  client_wf c ∧
  (_closing c = false →
     (∀ tp bm, topics_to_brokers c !! tp = Some (Some bm) → routable bm c) ∧
     (∀ g bm, _group_to_coordinator c !! g = Some bm → routable bm c)).
Proof using set_iter_perm.
  pose proof (client_reachable_wf _ _ _ set_iter_perm _ _ Hr) as Hc.
  split; [done|]. intros Hcl. split; intros ? bm H; apply known_routable; try done.
  - by eapply wf_leaders.
  - by eapply wf_coordinators.
Qed.

(** *** Metadata *)

Definition mergeable (brokers : list (Z * BrokerMetadata)) (ttm : text * TopicMetadata) : Prop :=
  topic_name_ok ttm.1 ∧ NoDup (Dict.keys (tm_partition_metadata ttm.2)) ∧
  Forall (leader_known brokers) (tm_partition_metadata ttm.2).

Lemma set_leaders_lookup brokers t pms ttb t' p :
  NoDup (Dict.keys pms) →
  set_leaders brokers t pms ttb !! mkTopicAndPartition t' p =
    if decide (t' = t)
    then match Dict.get p pms with
         | Some meta => Some (leader_of brokers meta)
         | None => ttb !! mkTopicAndPartition t' p
         end
    else ttb !! mkTopicAndPartition t' p.
Proof.
  revert ttb. induction pms as [|[p0 m0] pms IH]; intros ttb Hnd; [by case_decide|].
  apply NoDup_cons in Hnd as [Hp Hnd].
  change (set_leaders brokers t ((p0, m0) :: pms) ttb) with
    (set_leaders brokers t pms (<[mkTopicAndPartition t p0 := leader_of brokers m0]> ttb)).
  rewrite IH by done. case_decide as Ht; [|by rewrite lookup_insert_ne by congruence].
  subst t'. cbn [Dict.get]. case_decide as He.
  - subst p0. rewrite (proj2 (Dict.get_None pms p)) by done. by rewrite lookup_insert_eq.
  - by rewrite lookup_insert_ne by congruence.
Qed.

Lemma set_meta_lookup t pms pme t' p :
  NoDup (Dict.keys pms) →
  set_meta t pms pme !! mkTopicAndPartition t' p =
    if decide (t' = t)
    then match Dict.get p pms with
         | Some meta => Some meta
         | None => pme !! mkTopicAndPartition t' p
         end
    else pme !! mkTopicAndPartition t' p.
Proof.
  revert pme. induction pms as [|[p0 m0] pms IH]; intros pme Hnd; [by case_decide|].
  apply NoDup_cons in Hnd as [Hp Hnd].
  change (set_meta t ((p0, m0) :: pms) pme) with
    (set_meta t pms (<[mkTopicAndPartition t p0 := m0]> pme)).
  rewrite IH by done. case_decide as Ht; [|by rewrite lookup_insert_ne by congruence].
  subst t'. cbn [Dict.get]. case_decide as He.
  - subst p0. rewrite (proj2 (Dict.get_None pms p)) by done. by rewrite lookup_insert_eq.
  - by rewrite lookup_insert_ne by congruence.
Qed.

(** What the cache knows of a topic. *)
Definition topic_cached (brokers : list (Z * BrokerMetadata)) (t : text) (tm : TopicMetadata)
    (c : KafkaClient) : Prop :=
  let pms := tm_partition_metadata tm in
  topic_errors c !! t = Some (tm_topic_error_code tm) ∧
  topic_partitions c !! t =
    (if bool_decide (pms = []) then None else Some (merge_sort Z.le (Dict.keys pms))) ∧
  (∀ p, topics_to_brokers c !! mkTopicAndPartition t p = leader_of brokers <$> Dict.get p pms) ∧
  (∀ p meta, Dict.get p pms = Some meta →
     partition_meta c !! mkTopicAndPartition t p = Some meta).

Definition topic_unchanged (t : text) (c c' : KafkaClient) : Prop :=
  topic_errors c' !! t = topic_errors c !! t ∧
  topic_partitions c' !! t = topic_partitions c !! t ∧
  ∀ p, topics_to_brokers c' !! mkTopicAndPartition t p = topics_to_brokers c !! mkTopicAndPartition t p
       ∧ partition_meta c' !! mkTopicAndPartition t p = partition_meta c !! mkTopicAndPartition t p.

Lemma topic_merged_cached brokers t tm c c' :
  client_wf c → NoDup (Dict.keys (tm_partition_metadata tm)) → topic_merged brokers t tm c c' →
  topic_cached brokers t tm c'.
Proof.
  intros Hc Hnd (He & Htp & Hme & Htb & _). unfold topic_cached.
  rewrite He, Htp, Hme, Htb, lookup_insert_eq. split_and!; [done| | |].
  - case_bool_decide; [by rewrite lookup_delete_eq|by rewrite lookup_insert_eq].
  - intros p. rewrite set_leaders_lookup, decide_True by done.
    destruct (Dict.get p (tm_partition_metadata tm)); [done|]. cbn.
    destruct (foldl _ _ _ !! _) as [x|] eqn:Hx; [|done]. exfalso.
    rewrite foldl_delete_map in Hx. apply foldl_delete_lookup in Hx as [Hx Hin].
    destruct (wf_listed _ _ Hc _ _ _ Hx) as (ps & Hps & Hp). apply Hin.
    rewrite Hps. apply list_elem_of_fmap. by exists p.
  - intros p meta Hg. by rewrite set_meta_lookup, decide_True, Hg by done.
Qed.

Lemma topic_merged_other brokers t tm c c' t' :
  NoDup (Dict.keys (tm_partition_metadata tm)) → topic_merged brokers t tm c c' → t' ≠ t →
  topic_unchanged t' c c'.
Proof.
  intros Hnd (He & Htp & Hme & Htb & _) Hne. unfold topic_unchanged. rewrite He, Htp, Hme, Htb.
  rewrite lookup_insert_ne by congruence. split_and!; [done| |].
  - case_bool_decide; [by rewrite lookup_delete_ne by congruence|by rewrite lookup_insert_ne by congruence].
  - intros p. rewrite set_leaders_lookup, set_meta_lookup, !decide_False by done. split; [|done].
    rewrite foldl_delete_map. apply option_eq. intros x. rewrite foldl_delete_lookup.
    split; [by intros [? _]|]. intros ?. split; [done|]. intros (p' & [= ? ?] & _)%list_elem_of_fmap.
    congruence.
Qed.

Lemma unchanged_trans t c1 c2 c3 :
  topic_unchanged t c1 c2 → topic_unchanged t c2 c3 → topic_unchanged t c1 c3.
Proof.
  intros (H1 & H2 & H3) (K1 & K2 & K3). split_and!; [congruence..|]. intros p.
  destruct (H3 p), (K3 p). split; congruence.
Qed.

Lemma cached_unchanged brokers t tm c c' :
  topic_cached brokers t tm c → topic_unchanged t c c' → topic_cached brokers t tm c'.
Proof.
  intros (H1 & H2 & H3 & H4) (K1 & K2 & K3). unfold topic_cached. rewrite K1, K2.
  split_and!; [done|done| |].
  - intros p. destruct (K3 p) as [-> _]. apply H3.
  - intros p meta Hg. destruct (K3 p) as [_ ->]. by apply H4.
Qed.

Lemma merge_topics_ok brokers topics : ∀ c,
  merge_wf brokers c → NoDup (Dict.keys topics) → Forall (mergeable brokers) topics →
  ∃ c', pfor_each topics (merge_topic brokers) c = (c', Ok tt) ∧
    (∀ t tm, (t, tm) ∈ topics → topic_cached brokers t tm c') ∧
    (∀ t, t ∉ Dict.keys topics → topic_unchanged t c c') ∧
    clients c' = clients c ∧ _brokers c' = _brokers c ∧ closed_clients c' = closed_clients c.
Proof.
  induction topics as [|[t tm] topics IH]; intros c Hc Hnd Hok.
  { exists c. split_and!; [done|by intros ? ? ?%not_elem_of_nil|done..]. }
  apply NoDup_cons in Hnd as [Ht Hnd]. inversion Hok as [|? ? (Hn & Hp & Hl) Hok2]; subst.
  destruct (merge_topic_eq brokers t tm c Hn Hl) as (c1 & Heq & Hm).
  pose proof (merge_topic_wf brokers (t, tm) c Hc) as Hc1. rewrite Heq in Hc1.
  destruct (IH c1 Hc1 Hnd Hok2) as (c2 & Heq2 & H1 & H2 & H3 & H4 & H5).
  exists c2. rewrite (pfor_each_step _ _ _ _ _ Heq). split; [done|].
  pose proof (topic_merged_cached _ _ _ _ _ (proj1 Hc) Hp Hm) as Hca.
  pose proof Hm as (_ & _ & _ & _ & ttb & pme & tps & te & Hceq).
  split_and!; [| |subst c1; cbn in *; congruence..].
  - intros t' tm' [[= -> ->]|Hin]%elem_of_cons; [|by apply H1].
    eapply cached_unchanged; [done|by apply H2].
  - intros t' Ht'. apply not_elem_of_cons in Ht' as [Hne Ht'].
    eapply unchanged_trans; [|by apply H2].
    by eapply topic_merged_other.
Qed.

(** A metadata response replaces what the cache knows of its topics: the
    error code, the sorted partitions, each partition's leader (or that it has
    none) and replicas; partitions that are gone are forgotten, and the other
    topics keep what they had. The topics of the response must have valid names
    and leaders among its brokers. *)
Lemma metadata_merged (now : Z) (brokers : list (Z * BrokerMetadata))
    (topics : list (text * TopicMetadata)) (fetched_all_topics : bool) (correlation_id : Z)
    (c : KafkaClient) (cs : list (Z * _KafkaBrokerClient))
    (Hr : reachable sendString cancel_connects set_iter correlation_id c)
    (Hcs : clients c = Some cs)
    (Hnd : NoDup (Dict.keys topics)) (Hok : Forall (mergeable brokers) topics) :
  ∃ c', _merge_topic_metadata sendString cancel_connects set_iter now brokers topics
          fetched_all_topics c = (c', Ok tt) ∧
    client_wf c' ∧
    (∀ t tm, (t, tm) ∈ topics → topic_cached brokers t tm c') ∧
    (∀ t, t ∉ Dict.keys topics → topic_unchanged t c c').
Proof using set_iter_perm.
  pose proof (client_reachable_wf _ _ _ set_iter_perm _ _ Hr) as Hc.
  pose proof (merge_topic_metadata_wf sendString cancel_connects set_iter set_iter_perm now brokers topics
                fetched_all_topics c Hc) as Hwf.
  unfold _merge_topic_metadata in *. set (rm := fetched_all_topics && _) in *.
  destruct (update_brokers_open sendString cancel_connects set_iter set_iter_perm now
              (Dict.values brokers) rm c cs Hc Hcs) as (cs' & bs & c1 & Hu & Hc1 & Hw1 & _).
  rewrite (proc_bind_ok _ _ _ _ _ Hu) in Hwf |- *.
  assert (merge_wf brokers c1) as Hm1.
  { split; [done|]. subst c1. intros l bm Hg. cbn. rewrite merged_lookup by apply brokers_by_id_nodup.
    assert (bm ∈ Dict.values brokers) as Hin%brokers_by_id_elem.
    { apply list_elem_of_fmap. exists (l, bm). split; [done|]. by apply Dict.get_Some_elem. }
    case_match eqn:He; [done|]. by apply Dict.get_None in He. }
  destruct (merge_topics_ok brokers topics c1 Hm1 Hnd Hok) as (c2 & Heq & H1 & H2 & _).
  rewrite Heq in *. exists c2. split_and!; [done|done|done|]. intros t Ht.
  specialize (H2 t Ht). subst c1. exact H2.
Qed.

(** *** Broker clients *)

(** A broker client that has been closed: every request it held has failed,
    last one first, and none is left. *)
Definition shut_down (b b' : _KafkaBrokerClient) : Prop :=
  _dDown b' ≠ None ∧ requests b' = [] ∧
  firings (bc_deferreds b') = firings (bc_deferreds b) ++ omap close_firing (reverse (requests b)).

Lemma closes_shut_down now b b' :
  broker_wf b → closes sendString cancel_connects now b b' → shut_down b b'.
Proof.
  intros Hb Hcl. unfold closes in Hcl.
  pose proof (close_wf sendString (cancel_connects (node_id b)) now b Hb) as H.
  destruct (_dDown b); [congruence|]. destruct H as (b1 & H1 & _ & Hr & Hd & Hf).
  assert (b1 = b') as -> by congruence. by split_and!.
Qed.

(** The brokers of a response: their addresses are recorded, and passed on to
    the broker clients there are, which keep their requests; when the response
    lists the whole cluster, the clients of the nodes it does not mention are
    closed and forgotten. No other client changes, and none is opened. *)
Lemma brokers_reconciled (now : Z) (brokers : list BrokerMetadata) (remove : bool)
    (correlation_id : Z) (c : KafkaClient) (cs : list (Z * _KafkaBrokerClient))
    (Hr : reachable sendString cancel_connects set_iter correlation_id c)
    (Hcs : clients c = Some cs) :
  ∃ c' cs' bs, _update_brokers sendString cancel_connects set_iter now brokers remove c = (c', Ok tt) ∧
    clients c' = Some cs' ∧ closed_clients c' = closed_clients c ++ bs ∧
    (∀ n, _brokers c' !! n = match Dict.get n (brokers_by_id brokers) with
                             | Some bm => Some bm
                             | None => _brokers c !! n
                             end) ∧
    (∀ n, Dict.get n cs = None → Dict.get n cs' = None) ∧
    ∀ n b, Dict.get n cs = Some b →
      match Dict.get n (brokers_by_id brokers) with
      | Some bm => ∃ b', Dict.get n cs' = Some b' ∧ host b' = bm_host bm ∧ port b' = bm_port bm ∧
                         requests b' = requests b
      | None => if remove then Dict.get n cs' = None ∧ ∃ b', b' ∈ bs ∧ shut_down b b'
                else Dict.get n cs' = Some b
      end.
Proof using set_iter_perm.
  pose proof (client_reachable_wf _ _ _ set_iter_perm _ _ Hr) as Hc.
  destruct (update_brokers_open sendString cancel_connects set_iter set_iter_perm now brokers remove
              c cs Hc Hcs) as (cs' & bs & c' & Hu & Hc' & _ & H1 & H2).
  exists c', cs', bs. split; [done|]. subst c'. split_and!; [done|done| |done|].
  { intros n. cbn. apply merged_lookup, brokers_by_id_nodup. }
  pose proof (wf_clients _ _ Hc) as Hok. rewrite Hcs in Hok. destruct Hok as (_ & _ & Hok).
  intros n b Hg. specialize (H1 n b Hg). destruct (Hok n b Hg) as (Hn & Hwf & _ & _).
  unfold updated in H1. destruct (Dict.get n (brokers_by_id brokers)) as [bm|] eqn:Hb.
  - rewrite decide_False in H1.
    2:{ intros [_ Hst]. apply Dict.get_None in Hst. congruence. }
    destruct H1 as (b' & Hg' & Hub). exists b'. split; [done|].
    destruct (brokers_by_id_get _ _ _ Hb) as [Hbm _].
    destruct (updateMetadata_ok sendString bm b Hwf) as (b2 & Hub2 & _ & _ & Hrq & Hm);
      [congruence|]. assert (b2 = b') as -> by congruence. subst bm. by split_and!.
  - apply Dict.get_None in Hb. destruct remove.
    + rewrite decide_True in H1 by done. destruct H1 as (? & b' & ? & Hcl). split; [done|].
      exists b'. split; [done|]. by eapply closes_shut_down.
    + rewrite decide_False in H1 by (by intros [? _]). destruct H1 as (b' & ? & ->). done.
Qed.

(** *** Coordinators *)


(** One lookup serves everyone who asks for a group's coordinator while it is
    under way: a second call sends nothing and waits with the first; the answer
    fires every waiting deferred, with the same result; the coordinator is then
    cached and known as a broker, or, when the answer names none, forgotten. *)
Theorem coordinator_lookup_shared (clientId : bytes) (group : text) (correlation_id : Z)
    (c : KafkaClient) (w : list nat) (now : Z) (answer : res bytes)
    (Hr : reachable sendString cancel_connects set_iter correlation_id c)
    (Hg : _coordinator_fetches c !! group = Some w) :
  (∃ c', load_coordinator_for_group clientId (VStr group) c = (c', Ok (issued (kc_deferreds c))) ∧
     unaware_requests c' = unaware_requests c ∧
     _coordinator_fetches c' !! group = Some (w ++ [issued (kc_deferreds c)])) ∧
  ∃ c' r, coordinator_answer sendString cancel_connects set_iter now group answer c = (c', Ok tt) ∧
    _coordinator_fetches c' !! group = None ∧
    (∀ d, d ∈ w → outstanding d (kc_deferreds c) → (d, r) ∈ firings (kc_deferreds c')) ∧
    match clients c, coordinator_found answer with
    | Some _, Some bm => r = Success true ∧ _group_to_coordinator c' !! group = Some bm ∧
                         _brokers c' !! bm_node_id bm = Some bm
    | _, _ => r = Failure (BrokerError CoordinatorNotAvailable) ∧
              _group_to_coordinator c' !! group = None
    end.
Proof using set_iter_perm.
  pose proof (client_reachable_wf _ _ _ set_iter_perm _ _ Hr) as Hc. split.
  - unfold load_coordinator_for_group. erewrite proc_bind_ok by done.
    erewrite proc_bind_ok by done. rewrite Hg. eexists. split; [done|]. split; [done|].
    cbn. by rewrite lookup_insert_eq.
  - destruct (coordinator_answer_spec sendString cancel_connects set_iter set_iter_perm now group answer
                c w Hc Hg) as (c' & r & Heq & _ & Hf & _ & Hfi & H).
    exists c', r. split_and!; [done|by rewrite Hf, lookup_delete_eq|done|].
    destruct (clients c), (coordinator_found answer) as [bm|].
    1: destruct H as (-> & -> & ->); by rewrite !lookup_insert_eq.
    all: destruct H as (-> & ->); by rewrite lookup_delete_eq.
Qed.

(** *** Closing *)

(** [close()] closes every broker client, so that every request made of one
    fails, and clears the cache; afterwards nothing can be routed, and metadata
    that arrives late is refused. (A second [close()] raises [AttributeError].) *)
Theorem client_closed (now : Z) (correlation_id : Z) (c : KafkaClient)
    (cs : list (Z * _KafkaBrokerClient))
    (Hr : reachable sendString cancel_connects set_iter correlation_id c)
    (Hcs : clients c = Some cs) :
  ∃ c' bs, close sendString cancel_connects now c = (c', Ok tt) ∧
    _closing c' = true ∧ clients c' = None ∧ closed_clients c' = closed_clients c ++ bs ∧
    Forall2 shut_down (Dict.values cs) bs ∧
    topics_to_brokers c' = ∅ ∧ topic_partitions c' = ∅ ∧ topic_errors c' = ∅ ∧
    _group_to_coordinator c' = ∅ ∧
    (∀ n, _get_brokerclient n c' = (c', Err ClientError)) ∧
    (∀ brokers topics f, brokers ≠ [] →
       (_merge_topic_metadata sendString cancel_connects set_iter now brokers topics f c').2
         = Err PyTypeError) ∧
    close sendString cancel_connects now c' = (c', Err PyAttributeError).
Proof using set_iter_perm.
  pose proof (client_reachable_wf _ _ _ set_iter_perm _ _ Hr) as Hc.
  destruct (close_open sendString cancel_connects now c cs Hc Hcs) as (bs & c' & Hcl & Hwf & Hc' & H2).
  exists c', bs. split; [done|].
  assert (close sendString cancel_connects now c' = (c', Err PyAttributeError)) as Htw.
  { apply close_twice; [done|]. by subst c'. }
  assert (∀ brokers topics f, brokers ≠ [] →
    (_merge_topic_metadata sendString cancel_connects set_iter now brokers topics f c').2
      = Err PyTypeError) as Hlate.
  { intros brokers topics f Hb. unfold _merge_topic_metadata.
    destruct (update_brokers_closed sendString cancel_connects set_iter set_iter_perm now
                (Dict.values brokers) (f && negb (len brokers =? 0)) c' Hwf) as (c2 & _ & _ & Hu);
      [by subst c'|].
    rewrite bool_decide_false in Hu by (by destruct brokers).
    by rewrite (proc_bind_err _ _ _ _ _ Hu). }
  subst c'. split_and!; try done.
  pose proof (wf_clients _ _ Hc) as Hok. rewrite Hcs in Hok. destruct Hok as (_ & Hnd & Hok).
  apply Forall2_same_length_lookup_2; [by eapply Forall2_length|]. intros k b b' Hb Hb'.
  eapply closes_shut_down; [|by eapply (Forall2_lookup_lr _ _ _ _ _ _ H2)].
  apply list_elem_of_lookup_2, list_elem_of_fmap in Hb as ([n b0] & -> & Hin).
  apply Dict.get_elem in Hin; [|done]. by destruct (Hok _ _ Hin) as (_ & ? & _).
Qed.
End theorems.

(** *** Responses *)

(** The error codes that mean the cached leader, or the cached coordinator, is
    out of date. *)
Definition stale_leader (code : Z) : bool :=
  (code =? errno UnknownTopicOrPartitionError) || (code =? errno NotLeaderForPartitionError).
Definition stale_coordinator (code : Z) : bool :=
  (code =? errno CoordinatorLoadInProgress) || (code =? errno NotCoordinator) ||
  (code =? errno CoordinatorNotAvailable).

Section check_responses.
Context {R : Type} (error : R → Z) (topic : R → option text) (group : text).

(** The response makes [_handle_responses] raise. *)
Definition raises (fail_on_error : bool) (r : R) : bool :=
  if fail_on_error then negb (error r =? 0)
  else negb ((error r =? 0) || stale_leader (error r) || stale_coordinator (error r)).

(** What a response makes the cache forget. *)
Definition forget (c : KafkaClient) (r : R) : KafkaClient :=
  if stale_leader (error r) then
    match topic r with Some t => reset_topic t c | None => c end
  else if stale_coordinator (error r) then
    with_group_to_coordinator (delete group (_group_to_coordinator c)) c
  else c.

Definition topic_present (r : R) : Prop :=
  stale_leader (error r) = true → ∃ t, topic r = Some t ∧ topic_name_ok t.

Lemma reset_group_str c :
  reset_consumer_group_metadata [VStr group] c =
    (with_group_to_coordinator (delete group (_group_to_coordinator c)) c, Ok tt).
Proof. done. Qed.

Lemma response_error_eq f r c :
  topic_present r →
  ∃ e, response_error error topic f (VStr group) r c =
         (forget c r, if raises f r then Err e else Ok tt) ∧
       (raises f r = true → exn_errno e = Some (error r)).
Proof.
  unfold topic_present, response_error, raises, forget. intros Ht.
  unfold raise_for_errno. case_decide as Hz; [rewrite Hz; exists OutOfFuel; by destruct f|].
  destruct (Dict.get (error r) errnos) as [cls|] eqn:Hcls.
  - destruct (errnos_get_sound _ _ Hcls) as [He _]. exists (BrokerError cls).
    rewrite He in Ht |- *. cbn [exn_errno]. split; [|done].
    destruct cls; try (by destruct f); try (by destruct f; rewrite ?reset_group_str).
    all: destruct (Ht eq_refl) as (t & -> & Hn); unfold mbind, proc_bind, plift;
      rewrite reset_topic_metadata_str, decide_True by done; by destruct f.
  - exists (BrokerErrorUnknown (error r)). cbn [exn_errno]. split; [|done].
    assert (∀ cls, error r ≠ errno cls) as Hne.
    { intros cls Heq. rewrite Heq, errnos_get_errno in Hcls. done. }
    unfold stale_leader, stale_coordinator.
    rewrite !(proj2 (Z.eqb_neq _ _)) by (apply Hne || done). by destruct f.
Qed.

(** Responses are checked one by one: an error code that says the cached
    leader or coordinator is out of date makes the client forget it; the first
    response that raises ends the check with the exception of its code. With
    [fail_on_error] any error raises; without, every error raises but those
    five. *)
Theorem responses_checked (fail_on_error : bool) (pre post : list R) (c : KafkaClient)
    (Hpre : Forall (λ r, raises fail_on_error r = false) pre)
    (Htopic : Forall topic_present (pre ++ post)) :
  match post with
  | [] => _handle_responses error topic Ok pre fail_on_error (VStr group) c =
            (foldl forget c pre, Ok pre)
  | resp :: _ =>
    raises fail_on_error resp = true →
    ∃ e, _handle_responses error topic (O := R) Ok (pre ++ post) fail_on_error (VStr group) c =
           (forget (foldl forget c pre) resp, Err e) ∧ exn_errno e = Some (error resp)
  end.
Proof.
  revert c. induction Hpre as [|r pre Hr _ IH]; intros c.
  - destruct post as [|resp post]; [done|]. intros Hraise. inversion Htopic; subst.
    destruct (response_error_eq fail_on_error resp c) as (e & Heq & He); [done|].
    rewrite Hraise in Heq. exists e. split; [|by apply He]. cbn [app _handle_responses].
    by rewrite (proc_bind_err _ _ _ _ _ Heq).
  - cbn [app] in Htopic. inversion Htopic as [|? ? Hr1 Hr2]; subst. specialize (IH Hr2 (forget c r)).
    destruct (response_error_eq fail_on_error r c Hr1) as (e & Heq & _). rewrite Hr in Heq.
    destruct post as [|resp post].
    + cbn [_handle_responses]. rewrite (proc_bind_ok _ _ _ _ _ Heq).
      erewrite proc_bind_ok by done. by rewrite (proc_bind_ok _ _ _ _ _ IH).
    + intros Hraise. destruct (IH Hraise) as (e' & Heq' & He').
      exists e'. split; [|done]. cbn [app _handle_responses].
      rewrite (proc_bind_ok _ _ _ _ _ Heq). erewrite proc_bind_ok by done.
      by rewrite (proc_bind_err _ _ _ _ _ Heq').
Qed.
End check_responses.

(** *** A concrete run

    A full metadata response with two brokers and a topic of three partitions,
    one of them without a leader; a broker client is opened and makes a request;
    the coordinator of a group is looked up. *)
Definition sample_string (s : string) : bytes :=
  be_encode 2 (Z.of_nat (String.length s)) ++ (byte_of_Z <$> txt s).

Definition sample_partition (p leader : Z) : bytes :=
  be_encode 2 0 ++ be_encode 4 p ++ be_encode 4 leader ++ be_encode 4 0 ++ be_encode 4 0.

Definition sample_metadata : bytes :=
  be_encode 4 1 ++ be_encode 4 2 ++
  (be_encode 4 1 ++ sample_string "kafka1" ++ be_encode 4 9092) ++
  (be_encode 4 2 ++ sample_string "kafka2" ++ be_encode 4 9092) ++
  be_encode 4 1 ++ be_encode 2 0 ++ sample_string "t" ++ be_encode 4 3 ++
  sample_partition 2 1 ++ sample_partition 0 2 ++ sample_partition 1 (-1).

Definition no_connect : Z → bool := λ _, false.
Definition given_order : list Z → list Z := λ l, l.

Lemma given_order_perm l : given_order l ≡ₚ l.
Proof. done. Qed.

Definition client_run (es : list event) : KafkaClient :=
  foldl (λ c e, if enabled e c then step no_send_error no_connect given_order e c else c)
    (__init__ 0) es.

Lemma client_run_reachable es :
  reachable no_send_error no_connect given_order 0 (client_run es).
Proof.
  unfold client_run. generalize (reach_init no_send_error no_connect given_order 0).
  generalize (__init__ 0). induction es as [|e es IH]; intros c Hc; [done|]. cbn [foldl].
  apply IH. destruct (enabled e c) eqn:He; [by apply reach_step|done].
Qed.

Definition sample_kafka_client : KafkaClient :=
  client_run [MetadataAnswer 0 true (Ok sample_metadata); GetBrokerclient 1;
              OnBroker 1 (MakeRequest 5 [] true ConnectOk 0); LoadCoordinator [] (VStr (txt "g"))].

Definition sample_clients : list (Z * _KafkaBrokerClient) :=
  default [] (clients sample_kafka_client).

Definition sample_brokers : list (Z * BrokerMetadata) :=
  [(2, mkBrokerMetadata 2 (txt "kafka2b") 9093)].

Definition sample_topics : list (text * TopicMetadata) :=
  [(txt "t", mkTopicMetadata (txt "t") 0
     [(3, mkPartitionMetadata (txt "t") 3 0 2 [] []);
      (1, mkPartitionMetadata (txt "t") 1 0 (-1) [] [])])].

Example client_cache_safe_witness :
  topics_to_brokers sample_kafka_client !! mkTopicAndPartition (txt "t") 0 =
    Some (Some (mkBrokerMetadata 2 (txt "kafka2") 9092)) ∧
  routable (mkBrokerMetadata 2 (txt "kafka2") 9092) sample_kafka_client.
Proof.
  split; [vm_compute; reflexivity|].
  destruct (client_cache_safe no_send_error no_connect given_order given_order_perm 0
    sample_kafka_client (client_run_reachable _)) as [_ H].
  destruct H as [H _]; [vm_compute; reflexivity|].
  apply (H (mkTopicAndPartition (txt "t") 0)). vm_compute. reflexivity.
Defined.

Lemma sample_topics_mergeable : Forall (mergeable sample_brokers) sample_topics.
Proof.
  constructor; [|constructor]. split_and!.
  - split; vm_compute; discriminate.
  - apply (bool_decide_unpack _). vm_compute. exact I.
  - constructor; [right; vm_compute; by eexists|].
    constructor; [left; reflexivity|constructor].
Qed.


Definition sample_coordinator : bytes :=
  be_encode 4 2 ++ be_encode 2 0 ++ be_encode 4 2 ++ sample_string "kafka2" ++ be_encode 4 9092.

Example coordinator_lookup_shared_witness :
  ∃ c' r, coordinator_answer no_send_error no_connect given_order 1 (txt "g")
      (Ok sample_coordinator) sample_kafka_client = (c', Ok tt) ∧
    r = Success true ∧
    _group_to_coordinator c' !! txt "g" = Some (mkBrokerMetadata 2 (txt "kafka2") 9092).
Proof.
  destruct (coordinator_lookup_shared no_send_error no_connect given_order given_order_perm []
    (txt "g") 0 sample_kafka_client [0%nat] 1 (Ok sample_coordinator) (client_run_reachable _))
    as (_ & c' & r & H1 & _ & _ & H2); [vm_compute; reflexivity|].
  assert (coordinator_found (Ok sample_coordinator) = Some (mkBrokerMetadata 2 (txt "kafka2") 9092))
    as Hf by (vm_compute; reflexivity).
  rewrite Hf in H2.
  destruct (clients sample_kafka_client) eqn:Hcl; [|vm_compute in Hcl; discriminate].
  exists c', r. split; [exact H1|]. destruct H2 as (Hr & Hg & _). split; [exact Hr|exact Hg].
Defined.

Example client_closed_witness :
  ∃ c' bs, close no_send_error no_connect 1 sample_kafka_client = (c', Ok tt) ∧
    Forall2 shut_down (Dict.values sample_clients) bs ∧
    _get_brokerclient 1 c' = (c', Err ClientError).
Proof.
  destruct (client_closed no_send_error no_connect given_order given_order_perm 1 0 sample_kafka_client
    sample_clients (client_run_reachable _))
    as (c' & bs & H1 & _ & _ & _ & H2 & _ & _ & _ & _ & H3 & _); [vm_compute; reflexivity|].
  exists c', bs. split; [exact H1|]. split; [exact H2|apply H3].
Defined.

Example responses_checked_witness :
  ∃ e, _handle_responses fst (λ r, Some r.2) (O := Z * text) Ok
         [(6, txt "t"); (0, txt "u"); (10, txt "t"); (0, txt "u")] false (VStr (txt "g"))
         sample_kafka_client =
       (reset_topic (txt "t") sample_kafka_client, Err e) ∧ exn_errno e = Some 10.
Proof.
  apply (responses_checked fst (λ r, Some r.2) (txt "g") false [(6, txt "t"); (0, txt "u")]
    [(10, txt "t"); (0, txt "u")] sample_kafka_client).
  - repeat constructor.
  - repeat constructor; intros _; eexists; (split; [reflexivity|]); split; vm_compute; discriminate.
  - reflexivity.
Defined.
