(* ===== verification/Coroutine.v ===== *)
(** Coroutines ([inlineCallbacks]): code on a shared state that waits for
    answers. While one waits the state is everyone's, so it is resumed with the
    answer and whatever the state has become. *)
From S2P Require Import Prelude.

Section coroutine.
(** The state [S], the exceptions [E], what can be waited for [Q] and the
    answers, and what is done to the outside world [O] without waiting. *)
Context {Q : Type} {ans : Q → Type} {O S E : Type}.

(** A coroutine that has been started: it has ended, waits, or does something
    outside and goes on. *)
Inductive thread (R : Type) : Type :=
| Done (s : S) (r : result E R)
| Wait (s : S) (q : Q) (k : ans q → S → thread R)
| Say (o : O) (t : thread R).
Arguments Done {R} s r.
Arguments Wait {R} s q k.
Arguments Say {R} o t.

Definition co (R : Type) : Type := S → thread R.

Fixpoint thread_bind {R T} (f : R → co T) (t : thread R) : thread T :=
  match t with
  | Done s (Ok r) => f r s
  | Done s (Err e) => Done s (Err e)
  | Wait s q k => Wait s q (λ a s, thread_bind f (k a s))
  | Say o t => Say o (thread_bind f t)
  end.

(** [try: t except e: h(e)] *)
Fixpoint thread_catch {R} (h : E → co R) (t : thread R) : thread R :=
  match t with
  | Done s (Ok r) => Done s (Ok r)
  | Done s (Err e) => h e s
  | Wait s q k => Wait s q (λ a s, thread_catch h (k a s))
  | Say o t => Say o (thread_catch h t)
  end.

Definition atomically {R} (m : proc E S R) : co R := λ s, let '(s, r) := m s in Done s r.
Definition await (q : Q) : co (ans q) := λ s, Wait s q (λ a s, Done s (Ok a)).
Definition say (o : O) : co unit := λ s, Say o (Done s (Ok tt)).
Definition co_raise {R} (e : E) : co R := λ s, Done s (Err e).
Definition co_catch {R} (m : co R) (h : E → co R) : co R := λ s, thread_catch h (m s).
End coroutine.

Arguments thread {Q} ans O S E R.
Arguments co {Q} ans O S E R.

Arguments Done {Q ans O S E R} s r.
Arguments Wait {Q ans O S E R} s q k.
Arguments Say {Q ans O S E R} o t.

#[export] Instance co_ret {Q} {ans : Q → Type} {O S E} : MRet (co ans O S E) :=
  λ R r s, Done s (Ok r).
#[export] Instance co_bind {Q} {ans : Q → Type} {O S E} : MBind (co ans O S E) :=
  λ R T f m s, thread_bind f (m s).

(** The result of [m], value or exception. *)
Definition co_try {Q} {ans : Q → Type} {O S E R} (m : co ans O S E R)
    : co ans O S E (result E R) :=
  co_catch (r ← m; mret (Ok r)) (λ e, mret (Err e)).

(** The exceptions of [m], as those of a larger type. *)
Fixpoint thread_map_err {Q} {ans : Q → Type} {O S E E' R} (f : E → E') (t : thread ans O S E R)
    : thread ans O S E' R :=
  match t with
  | Done s (Ok r) => Done s (Ok r)
  | Done s (Err e) => Done s (Err (f e))
  | Wait s q k => Wait s q (λ a s, thread_map_err f (k a s))
  | Say o t => Say o (thread_map_err f t)
  end.
Definition co_map_err {Q} {ans : Q → Type} {O S E E' R} (f : E → E') (m : co ans O S E R)
    : co ans O S E' R := λ s, thread_map_err f (m s).

(** ** Runs

    A run of a coroutine: what it asked with the answers it got, and what it
    did, in order; then how it ended. The answers, and what becomes of the state
    in the meantime, are arbitrary. *)

Inductive happened {Q} (ans : Q → Type) (O : Type) : Type :=
| Asked (q : Q) (a : ans q)
| Did (o : O).
Arguments Asked {Q ans O} q a.
Arguments Did {Q ans O} o.

Section runs.
Context {Q : Type} {ans : Q → Type} {O S E : Type}.
Implicit Types (tr : list (happened ans O)).

Fixpoint runs {R} (t : thread ans O S E R) tr (s' : S) (r' : result E R) : Prop :=
  match t with
  | Done s r => tr = [] ∧ s' = s ∧ r' = r
  | Wait s q k => ∃ a s1 tr1, tr = Asked q a :: tr1 ∧ runs (k a s1) tr1 s' r'
  | Say o t => ∃ tr1, tr = Did o :: tr1 ∧ runs t tr1 s' r'
  end.

(** An environment that answers at once; every coroutine ends with it. *)
Fixpoint play {R} (env : S → ∀ q, ans q * S) (t : thread ans O S E R)
    : list (happened ans O) * (S * result E R) :=
  match t with
  | Done s r => ([], (s, r))
  | Wait s q k =>
    let '(a, s) := env s q in
    let '(tr, end_) := play env (k a s) in (Asked q a :: tr, end_)
  | Say o t => let '(tr, end_) := play env t in (Did o :: tr, end_)
  end.

Lemma play_runs {R} env (t : thread ans O S E R) :
  let '(tr, (s, r)) := play env t in runs t tr s r.
Proof.
  induction t as [s r|s q k IH|o t IH]; cbn.
  - done.
  - destruct (env s q) as [a s1]. specialize (IH a s1).
    destruct (play env (k a s1)) as [tr [s' r]]. eauto.
  - destruct (play env t) as [tr [s' r]]. eauto.
Qed.

Lemma runs_play {R} env (t : thread ans O S E R) :
  runs t (play env t).1 (play env t).2.1 (play env t).2.2.
Proof. pose proof (play_runs env t) as H. by destruct (play env t) as [tr [s r]]. Qed.

(** The parts of a run of [m ≫= f]. *)
Lemma runs_bind {R T} (m : co ans O S E R) (f : R → co ans O S E T) s tr s' r :
  runs ((m ≫= f) s) tr s' r →
  (∃ tr1 s1 a tr2, runs (m s) tr1 s1 (Ok a) ∧ runs (f a s1) tr2 s' r ∧ tr = tr1 ++ tr2) ∨
  (∃ e, runs (m s) tr s' (Err e) ∧ r = Err e).
Proof.
  unfold mbind, co_bind. generalize (m s) as t. clear. intros t. revert tr s' r.
  induction t as [s [a|e]|s q k IH|o t IH]; cbn; intros tr s' r H.
  - left. by exists [], s, a, tr.
  - right. destruct H as (-> & -> & ->). by exists e.
  - destruct H as (a & s1 & tr1 & -> & H).
    apply IH in H as [(tr2 & s2 & b & tr3 & H2 & H3 & ->)|(e & He & ->)].
    + left. exists (Asked q a :: tr2), s2, b, tr3. split_and!; [eauto|done|done].
    + right. exists e. eauto 6.
  - destruct H as (tr1 & -> & H). apply IH in H as [(tr2 & s2 & b & tr3 & H2 & H3 & ->)|(e & He & ->)].
    + left. exists (Did o :: tr2), s2, b, tr3. split_and!; [eauto|done|done].
    + right. exists e. eauto 6.
Qed.

Lemma runs_catch {R} (m : co ans O S E R) (h : E → co ans O S E R) s tr s' r :
  runs (co_catch m h s) tr s' r →
  (∃ a, runs (m s) tr s' (Ok a) ∧ r = Ok a) ∨
  (∃ tr1 s1 e tr2, runs (m s) tr1 s1 (Err e) ∧ runs (h e s1) tr2 s' r ∧ tr = tr1 ++ tr2).
Proof.
  unfold co_catch. generalize (m s) as t. clear. intros t. revert tr s' r.
  induction t as [s [a|e]|s q k IH|o t IH]; cbn; intros tr s' r H.
  - left. destruct H as (-> & -> & ->). by exists a.
  - right. by exists [], s, e, tr.
  - destruct H as (a & s1 & tr1 & -> & H).
    apply IH in H as [(b & Hb & ->)|(tr2 & s2 & e & tr3 & H2 & H3 & ->)].
    + left. exists b. eauto 6.
    + right. exists (Asked q a :: tr2), s2, e, tr3. split_and!; [eauto|done|done].
  - destruct H as (tr1 & -> & H). apply IH in H as [(b & Hb & ->)|(tr2 & s2 & e & tr3 & H2 & H3 & ->)].
    + left. exists b. eauto 6.
    + right. exists (Did o :: tr2), s2, e, tr3. split_and!; [eauto|done|done].
Qed.

Lemma runs_atomically {R} (m : proc E S R) s tr s' r :
  runs ((atomically m : co ans O S E R) s) tr s' r ↔ tr = [] ∧ m s = (s', r).
Proof. unfold atomically. destruct (m s) as [s1 r1]. cbn. naive_solver. Qed.

Lemma runs_await q s tr s' r :
  runs ((await q : co ans O S E (ans q)) s) tr s' r → ∃ a, tr = [Asked q a] ∧ r = Ok a.
Proof. cbn. intros (a & s1 & tr1 & -> & -> & -> & ->). by exists a. Qed.

(** A step that cannot wait. *)
Lemma co_bind_ok {R T} (m : proc E S R) (f : R → co ans O S E T) s s1 a :
  m s = (s1, Ok a) → (atomically m ≫= f) s = f a s1.
Proof. unfold mbind, co_bind, atomically. by intros ->. Qed.

Lemma co_bind_err {R T} (m : proc E S R) (f : R → co ans O S E T) s s1 e :
  m s = (s1, Err e) → (atomically m ≫= f) s = Done s1 (Err e).
Proof. unfold mbind, co_bind, atomically. by intros ->. Qed.

Lemma runs_try {R} (m : co ans O S E R) s tr s' r :
  runs (co_try m s) tr s' r → ∃ r0, runs (m s) tr s' r0 ∧ r = Ok r0.
Proof.
  intros H. unfold co_try in H. apply runs_catch in H as [(a & H & ->)|(tr1 & s1 & e & tr2 & H & H' & ->)].
  - apply runs_bind in H as [(tr1 & s1 & b & tr2 & H & H' & ->)|(e & H & He)]; [|done].
    destruct H' as (-> & -> & [= ->]). rewrite app_nil_r. by exists (Ok b).
  - destruct H' as (-> & -> & ->). rewrite app_nil_r. exists (Err e). split; [|done].
    apply runs_bind in H as [(tr3 & s3 & b & tr2 & H & H' & ->)|(e' & H & [= <-])]; [|done].
    by destruct H' as (_ & _ & ?).
Qed.
End runs.

Lemma runs_map_err {Q} {ans : Q → Type} {O S E E' R} (f : E → E') (m : co ans O S E R) s tr s' r :
  runs (co_map_err f m s) tr s' r →
  ∃ r0, runs (m s) tr s' r0 ∧ r = match r0 with Ok a => Ok a | Err e => Err (f e) end.
Proof.
  unfold co_map_err. generalize (m s) as t. clear m s. intros t. revert tr s' r.
  induction t as [s [a|e]|s q k IH|o t IH]; cbn; intros tr s' r H.
  - destruct H as (-> & -> & ->). by exists (Ok a).
  - destruct H as (-> & -> & ->). by exists (Err e).
  - destruct H as (a & s1 & tr1 & -> & H). apply IH in H as (r0 & H & ->). exists r0. eauto 7.
  - destruct H as (tr1 & -> & H). apply IH in H as (r0 & H & ->). exists r0. eauto 6.
Qed.

(** ** What a coroutine never does *)

Section only.
Context {Q : Type} {ans : Q → Type} {O S E : Type}.
Context (ok : happened ans O → Prop).

Definition only {R} (m : co ans O S E R) : Prop :=
  ∀ s tr s' r, runs (m s) tr s' r → Forall ok tr.

Lemma only_bind {R T} (m : co ans O S E R) (f : R → co ans O S E T) :
  only m → (∀ a, only (f a)) → only (m ≫= f).
Proof.
  intros Hm Hf s tr s' r [(tr1 & s1 & a & tr2 & H1 & H2 & ->)|(e & H & ->)]%runs_bind; [|by eapply Hm].
  apply Forall_app. split; [by eapply Hm|by eapply Hf].
Qed.

Lemma only_catch {R} (m : co ans O S E R) (h : E → co ans O S E R) :
  only m → (∀ e, only (h e)) → only (co_catch m h).
Proof.
  intros Hm Hh s tr s' r [(a & H & ->)|(tr1 & s1 & e & tr2 & H1 & H2 & ->)]%runs_catch; [by eapply Hm|].
  apply Forall_app. split; [by eapply Hm|by eapply Hh].
Qed.

Lemma only_ret {R} (a : R) : only (mret a).
Proof. by intros s tr s' r (-> & _). Qed.
Lemma only_raise {R} e : only (co_raise (R := R) e).
Proof. by intros s tr s' r (-> & _). Qed.
Lemma only_atomically {R} (m : proc E S R) : only (atomically m).
Proof. by intros s tr s' r [-> _]%runs_atomically. Qed.
Lemma only_await q : (∀ a, ok (Asked q a)) → only (await q).
Proof. intros H s tr s' r (a & -> & _)%runs_await. by repeat constructor. Qed.
Lemma only_say o : ok (Did o) → only (say o).
Proof. intros H s tr s' r (tr1 & -> & -> & _). by repeat constructor. Qed.
Lemma only_try {R} (m : co ans O S E R) : only m → only (co_try m).
Proof. intros Hm s tr s' r (r0 & H & _)%runs_try. by eapply Hm. Qed.
End only.

Lemma only_map_err {Q} {ans : Q → Type} {O S E E' R} ok (f : E → E') (m : co ans O S E R) :
  only ok m → only ok (co_map_err f m).
Proof. intros Hm s tr s' r (r0 & H & _)%runs_map_err. by eapply Hm. Qed.

Create HintDb only.
#[export] Hint Resolve only_ret only_raise only_atomically : only.

Ltac only_steps :=
  repeat first
    [ lazymatch goal with
      | |- only _ (_ ≫= _) => apply only_bind; [|intros ?]
      | |- only _ (co_catch _ _) => apply only_catch; [|intros ?]
      | |- only _ (co_try _) => apply only_try
      | |- only _ (co_map_err _ _) => apply only_map_err
      | |- only _ (await ?q) => refine (only_await _ q _); intros ?
      | |- only _ (say _) => apply only_say
      end
    | solve [auto with only]
    | case_match ].
