(* ===== verification/Routing.v ===== *)
(** [afkak/client.py]: how [KafkaClient] sends requests. The methods are
    coroutines on the client of [Client]: they look up the broker in its cache,
    load metadata where that has no answer, make the requests of the broker
    clients of [BrokerClient] and collect the responses. *)
From S2P Require Import Prelude Common PyBytes Util Codec KafkaCodec Deferred BrokerClient Client Coroutine.
Local Open Scope Z_scope.

(** A request made of a broker client: the exception it failed with at once, or
    its deferred; and after how many milliseconds it is to time out. *)
Record request_made := mkRequestMade {
  rm_node : Z;
  rm_id : Z;
  rm_request : bytes;
  rm_expect : bool;
  rm_timeout : Z;
  rm_deferred : exn + nat;
}.

(** What the coroutines wait for: one request or a [DeferredList] of them, a
    coordinator lookup, a bootstrap connection and the request on it, the delay
    before an attempt. *)
Inductive query :=
| QRequest (r : request_made)
| QRequests (rs : list request_made)
| QCoordinator (d : nat)
| QConnect (hostport : text * Z)
| QBootstrap (hostport : text * Z) (request : bytes)
| QDelay (attempt : Z).

Definition answer (q : query) : Type :=
  match q with
  | QRequest _ => res bytes
  | QRequests _ => list (res (option bytes))
  | QCoordinator _ => res bool
  | QConnect _ => res unit
  | QBootstrap _ _ => res bytes
  | QDelay _ => res unit
  end.

(** [protocol.transport.loseConnection()] *)
Inductive act := ALoseConnection (hostport : text * Z).

(** The client, and the time. *)
Abbreviation world := (KafkaClient * Z)%type.
Abbreviation kco := (co answer act world exn).

(** A method that does not wait. *)
Definition call {R} (m : Z → meth R) : kco R :=
  atomically (λ w : world, let '(c, r) := m w.2 w.1 in ((c, w.2), r)).

Definition look {R} (f : KafkaClient → R) : kco R := call (λ _, pget f).

(** [yield d] of a result. *)
Definition co_lift {R} (r : res R) : kco R := λ w, Done w r.

(** [FailedPayloadsError] carries the responses there are, and each payload of
    a failed request with its failure. *)
Inductive send_exn (P R : Type) : Type :=
| SExn (e : exn)
| SFailedPayloads (responses : list R) (failed_payloads : list (P * exn)).
Arguments SExn {P R} e.
Arguments SFailedPayloads {P R} responses failed_payloads.

Section routing.
(** As in [Client], and: the answer of the endpoint to a connection attempt to a
    node, an order for the random shuffles, the bootstrap hosts, the client id,
    and the attributes [timeout] (milliseconds) and [_disconnect_on_timeout]. *)
Context (sendString : bytes → option exn) (cancel_connects : Z → bool).
Context (set_iter : list Z → list Z).
Context (connect_answer : Z → connect_result) (shuffle : ∀ X, list X → list X).
Context (_bootstrap_hosts : list (text * Z)) (_clientIdBytes : bytes).
Context (timeout : Z) (_disconnect_on_timeout : bool).

(** ** One request to a broker *)

Definition request_timeout (min_timeout : option Z) : Z :=
  match min_timeout with None => timeout | Some m => Z.max timeout m end.

(** The broker client is the one of the node, which the callers have just
    looked up. *)
Definition _make_request_to_broker (broker correlationId : Z) (request : bytes)
    (expectResponse : bool) (min_timeout : option Z) (now : Z) : meth request_made :=
  cs ← open_clients;
  match Dict.get broker cs with
  | None => praise PyKeyError
  | Some b =>
    '(d, b) ← plift (makeRequest sendString correlationId request expectResponse
                       (connect_answer broker) now b);
    _ ← pmodify (with_clients (Some (Dict.set broker b cs)));
    mret (mkRequestMade broker correlationId request expectResponse (request_timeout min_timeout) d)
  end.

(** The variables of a call of [_make_request_to_broker] while its deferred is
    outstanding: [dc.active()], and [failure]. *)
Record timed := mkTimed { dc_active : bool; tm_failure : option exn }.

(** [d.cancel()] and [broker.disconnect()] on the broker client of the node, as
    long as the client owns it: once it is closed the deferred has fired. *)
Definition on_brokerclient (broker : Z) (f : _KafkaBrokerClient → res _KafkaBrokerClient)
    : meth unit := λ c,
  match clients c with
  | None => (c, Ok tt)
  | Some cs =>
    match Dict.get broker cs with
    | None => (c, Ok tt)
    | Some b => match f b with
                | Ok b => (with_clients (Some (Dict.set broker b cs)) c, Ok tt)
                | Err e => (c, Err e)
                end
    end
  end.

Definition _mrtb_timeout (broker : Z) (d : nat) (now : Z) (t : timed) : meth timed :=
  let t := mkTimed false (Some (BrokerError RequestTimedOutError)) in
  _ ← on_brokerclient broker (cancel d now);
  _ ← (if _disconnect_on_timeout then on_brokerclient broker (λ b, Ok (disconnect b))
       else mret tt : meth unit);
  mret t.

(** The result of the request's deferred, as the caller gets it. *)
Definition _mrtb_cb {X} (result : res X) (t : timed) : timed * res X :=
  (mkTimed false (tm_failure t),
   match tm_failure t with Some e => Err e | None => result end).

(** ** Requests any broker can answer *)

(** The connection is dropped in either case ([finally]). *)
Fixpoint bootstrap_from (hostports : list (text * Z)) (request : bytes) : kco bytes :=
  match hostports with
  | [] => co_raise KafkaUnavailableError
  | hp :: hostports =>
    connected ← await (QConnect hp);
    match connected with
    | Err _ => bootstrap_from hostports request
    | Ok _ =>
      response ← await (QBootstrap hp request);
      _ ← say (ALoseConnection hp);
      match response with
      | Err _ => bootstrap_from hostports request
      | Ok response => mret response
      end
    end
  end.

Definition _send_bootstrap_request (request : bytes) : kco bytes :=
  bootstrap_from (shuffle _ _bootstrap_hosts) request.

(** [self.clients[node_id].connected()], [False] for a node without client. *)
Definition node_connected (c : KafkaClient) (node_id : Z) : bool :=
  match clients c with
  | None => false
  | Some cs => match Dict.get node_id cs with Some b => connected b | None => false end
  end.

(** [node_ids.sort(reverse=True, key=connected)]: Python's sort is stable. *)
Definition connected_first (c : KafkaClient) (node_ids : list Z) : list Z :=
  filter (λ n, node_connected c n = true) node_ids ++
  filter (λ n, node_connected c n = false) node_ids.

Fixpoint try_brokers (node_ids : list Z) (requestId : Z) (request : bytes) : kco bytes :=
  match node_ids with
  | [] => _send_bootstrap_request request
  | node_id :: node_ids =>
    broker ← call (λ _, _get_brokerclient node_id);
    resp ← co_try (rm ← call (_make_request_to_broker broker requestId request true None);
                   resp ← await (QRequest rm);
                   co_lift resp);
    match resp with
    | Ok resp => mret resp
    | Err e => if is_KafkaError e then try_brokers node_ids requestId request else co_raise e
    end
  end.

Definition _send_broker_unaware_request (requestId : Z) (request : bytes) : kco bytes :=
  closing ← look _closing;
  if closing : bool then co_raise ClientError
  else
    node_ids ← look (λ c, connected_first c (shuffle _ (map_to_list (_brokers c)).*1));
    try_brokers node_ids requestId request.

(** [yield self.load_metadata_for_topics(...)]: its request is the one it
    has queued last. *)
Definition load_metadata (topics : list pyval) : kco (option bool) :=
  _ ← call (λ _, load_metadata_for_topics _clientIdBytes topics);
  queued ← look (λ c, last (unaware_requests c));
  '(requestId, request) ← co_lift (match queued with Some q => Ok q | None => Err PyIndexError end);
  response ← co_try (_send_broker_unaware_request requestId request);
  call (λ now, metadata_answer sendString cancel_connects set_iter now
                 (bool_decide (topics = [])) response).

(** ** Leaders and coordinators *)

Definition _get_leader_for_partition (topic : text) (partition : Z) : kco (option BrokerMetadata) :=
  let key := mkTopicAndPartition topic partition in
  known ← look (λ c, topics_to_brokers c !! key);
  _ ← (match known with
       | Some (Some _) => mret tt
       | _ => _ ← load_metadata [VStr topic]; mret tt
       end : kco unit);
  known ← look (λ c, topics_to_brokers c !! key);
  match known with
  | None => co_raise PartitionUnavailableError
  | Some leader => mret leader
  end.

(** A lookup that is under way is shared. *)
Definition _get_coordinator_for_group (consumer_group : text) : kco (option BrokerMetadata) :=
  known ← look (λ c, _group_to_coordinator c !! consumer_group);
  _ ← (match known with
       | Some _ => mret tt
       | None =>
         d ← call (λ _, load_coordinator_for_group _clientIdBytes (VStr consumer_group));
         loaded ← await (QCoordinator d);
         _ ← co_lift loaded;
         mret tt
       end : kco unit);
  look (λ c, _group_to_coordinator c !! consumer_group).

(** ** Payloads to the brokers that own them *)

Section aware.
(** The payloads and the responses have a topic and a partition. *)
Context {P R : Type}.
Context (p_key : P → text * Z) (r_key : R → text * Z).
Context (encoder_fn : bytes → Z → list P → res bytes) (decode_fn : option (bytes → pygen R Z)).

Definition leader_of (consumer_group : option text) (payload : P) : kco BrokerMetadata :=
  match consumer_group with
  | None =>
    leader ← _get_leader_for_partition (p_key payload).1 (p_key payload).2;
    match leader with Some bm => mret bm | None => co_raise LeaderUnavailableError end
  | Some group =>
    leader ← _get_coordinator_for_group group;
    match leader with
    | Some bm => mret bm
    | None => co_raise (BrokerError CoordinatorNotAvailable)
    end
  end.

(** [payloads_by_broker[leader].append(payload)] *)
Definition add_payload (leader : BrokerMetadata) (payload : P)
    (by_broker : list (BrokerMetadata * list P)) : list (BrokerMetadata * list P) :=
  Dict.set leader (default [] (Dict.get leader by_broker) ++ [payload]) by_broker.

Fixpoint group_payloads (consumer_group : option text) (payloads : list P)
    (by_broker : list (BrokerMetadata * list P)) : kco (list (BrokerMetadata * list P)) :=
  match payloads with
  | [] => mret by_broker
  | payload :: payloads =>
    leader ← leader_of consumer_group payload;
    group_payloads consumer_group payloads (add_payload leader payload by_broker)
  end.

(** [for broker_meta, payloads in payloads_by_broker.items(): ...] *)
Fixpoint send_groups (by_broker : list (BrokerMetadata * list P)) (now : Z)
    : meth (list request_made) :=
  match by_broker with
  | [] => mret []
  | (broker_meta, payloads) :: by_broker =>
    broker ← _get_brokerclient (bm_node_id broker_meta);
    requestId ← _next_id;
    request ← plift (encoder_fn _clientIdBytes requestId payloads);
    rm ← _make_request_to_broker broker requestId request
           (match decode_fn with Some _ => true | None => false end) None now;
    rms ← send_groups by_broker now;
    mret (rm :: rms)
  end.

(** [for (success, response), payloads in zip(results, payloadsList): ...] *)
Fixpoint gather (results : list (res (option bytes) * list P)) (acc : list ((text * Z) * R))
    (failed_payloads : list (P * exn)) : res (list ((text * Z) * R) * list (P * exn)) :=
  match results with
  | [] => Ok (acc, failed_payloads)
  | (Err e, payloads) :: results =>
    gather results acc (failed_payloads ++ ((λ p, (p, e)) <$> payloads))
  | (Ok response, payloads) :: results =>
    match decode_fn with
    | None => gather results acc failed_payloads
    | Some decode =>
      match response with
      | None => Err PyTypeError
      | Some response =>
        let '(items, ended) := decode response in
        _ ← ended;
        gather results (foldl (λ acc r, Dict.set (r_key r) r acc) acc items) failed_payloads
      end
    end
  end.

Definition in_order (keys : list (text * Z)) (acc : list ((text * Z) * R)) : list R :=
  omap (λ k, Dict.get k acc) keys.

Definition _send_broker_aware_request (payloads : list P) (consumer_group : option text)
    : co answer act world (send_exn P R) (list R) :=
  if is_empty payloads then co_raise (SExn PyValueError)
  else
    '(rms, by_broker) ← co_map_err SExn (
      by_broker ← group_payloads consumer_group payloads [];
      rms ← call (send_groups by_broker);
      mret (rms, by_broker));
    results ← co_map_err SExn (await (QRequests rms));
    '(acc, failed_payloads) ← co_map_err SExn (co_lift (gather (zip results by_broker.*2) [] []));
    let responses := in_order (p_key <$> payloads) acc in
    if is_empty failed_payloads then mret responses
    else
      _ ← co_map_err SExn (call (λ _, pmodify reset_all_metadata));
      co_raise (SFailedPayloads responses failed_payloads).
End aware.

(** ** The public requests *)

Definition checked {P R O} (error : R → Z) (topic : R → option text) (callback : R → res O)
    (fail_on_error : bool) (consumer_group : pyval) (resps : co answer act world (send_exn P R) (list R))
    : co answer act world (send_exn P R) (list O) :=
  resps ← resps;
  co_map_err SExn (call (λ _, _handle_responses error topic callback resps fail_on_error consumer_group)).

Definition send_produce_request {O} (payloads : list ProduceRequest) (acks timeout : Z)
    (fail_on_error : bool) (callback : ProduceResponse → res O) :=
  checked prr_error (λ r, Some (prr_topic r)) callback fail_on_error VOther
    (_send_broker_aware_request
       (λ p, (pr_topic p, pr_partition p)) (λ r, (prr_topic r, prr_partition r))
       (λ client_id correlation_id payloads,
          encode_produce_request client_id correlation_id (Some payloads) acks timeout)
       (if acks =? 0 then None else Some decode_produce_response) payloads None).

(** [max_wait_time / 1000 > self.timeout - 0.1], in milliseconds. *)
Definition send_fetch_request `{CompressionLib} {O} (depth : nat) (payloads : list FetchRequest)
    (fail_on_error : bool) (callback : FetchResponse (pygen OffsetAndMessage unit) → res O)
    (max_wait_time min_bytes : Z) :=
  if timeout - 100 <? max_wait_time then co_raise (SExn PyValueError)
  else
    checked frr_error (λ r, Some (frr_topic r)) callback fail_on_error VOther
      (_send_broker_aware_request
         (λ p, (fr_topic p, fr_partition p)) (λ r, (frr_topic r, frr_partition r))
         (λ client_id correlation_id payloads,
            encode_fetch_request client_id correlation_id (Some payloads) max_wait_time min_bytes)
         (Some (decode_fetch_response depth)) payloads None).

Definition send_offset_request {O} (payloads : list OffsetRequest) (fail_on_error : bool)
    (callback : OffsetResponse → res O) :=
  checked orr_error (λ r, Some (orr_topic r)) callback fail_on_error VOther
    (_send_broker_aware_request
       (λ p, (or_topic p, or_partition p)) (λ r, (orr_topic r, orr_partition r))
       (λ client_id correlation_id payloads,
          encode_offset_request client_id correlation_id (Some payloads))
       (Some decode_offset_response) payloads None).

Definition send_offset_fetch_request {O} (group : text) (payloads : list OffsetFetchRequest)
    (fail_on_error : bool) (callback : OffsetFetchResponse → res O) :=
  checked ofrr_error (λ r, Some (ofrr_topic r)) callback fail_on_error (VStr group)
    (_send_broker_aware_request
       (λ p, (ofr_topic p, ofr_partition p)) (λ r, (ofrr_topic r, ofrr_partition r))
       (λ client_id correlation_id payloads,
          encode_offset_fetch_request client_id correlation_id group payloads)
       (Some decode_offset_fetch_response) payloads (Some group)).

Definition send_offset_commit_request {O} (group : pyval) (payloads : list OffsetCommitRequest)
    (fail_on_error : bool) (callback : OffsetCommitResponse → res O)
    (group_generation_id : Z) (consumer_id : option text) :=
  group ← co_map_err SExn (co_lift (_coerce_consumer_group group));
  checked ocrr_error (λ r, Some (ocrr_topic r)) callback fail_on_error (VStr group)
    (_send_broker_aware_request
       (λ p, (ocr_topic p, ocr_partition p)) (λ r, (ocrr_topic r, ocrr_partition r))
       (λ client_id correlation_id payloads,
          encode_offset_commit_request client_id correlation_id group group_generation_id
            consumer_id payloads)
       (Some decode_offset_commit_response) payloads (Some group)).

(** The decoded response of a group membership request has an [error], and no
    [topic]. *)
Definition _send_request_to_coordinator {P R} (error : R → Z) (group : text) (payload : P)
    (encoder_fn : bytes → Z → P → res bytes) (decode_fn : bytes → res R)
    (min_timeout : option Z) : kco R :=
  coordinator ← _get_coordinator_for_group group;
  match coordinator with
  | None => co_raise (BrokerError CoordinatorNotAvailable)
  | Some bm =>
    rm ← call (λ now,
      broker ← _get_brokerclient (bm_node_id bm);
      request_id ← _next_id;
      encoded_request ← plift (encoder_fn _clientIdBytes request_id payload);
      _make_request_to_broker broker request_id encoded_request true min_timeout now);
    response ← await (QRequest rm);
    response ← co_lift response;
    decoded ← co_lift (decode_fn response);
    _ ← call (λ _, _handle_responses error (λ _, None) Ok [decoded] true (VStr group));
    mret decoded
  end.

(** ** Loading the partitions of topics *)

(** What is missing of a topic: it has an error, or no partitions. *)
Definition snapshot_topic (c : KafkaClient) (topic : text) : option (list Z) :=
  match topic_errors c !! topic with
  | Some code =>
    if code =? 0 then
      match topic_partitions c !! topic with None | Some [] => None | Some ps => Some ps end
    else None
  | None => None
  end.

(** The [while True] loop, for at most [fuel] attempts; from the second on the
    topics are those of the last response. *)
Fixpoint load_attempts (fuel : nat) (attempt : Z) (topics : list text) : kco (list (text * list Z)) :=
  match fuel with
  | O => co_raise OutOfFuel
  | S fuel =>
    correlationId ← call (λ _, _next_id);
    request ← co_lift (encode_metadata_request _clientIdBytes correlationId (Some topics));
    response ← _send_broker_unaware_request correlationId request;
    '(brokers, topics) ← co_lift (decode_metadata_response response);
    _ ← call (λ now, _merge_topic_metadata sendString cancel_connects set_iter now brokers topics false);
    let names := Dict.keys topics in
    _ ← co_lift (coerce_all _coerce_topic (VStr <$> names));
    snapshot ← look (λ c, (λ t, (t, snapshot_topic c t)) <$> names);
    if forallb (λ ts, match ts.2 with Some _ => true | None => false end) snapshot then
      mret (omap (λ ts : text * option (list Z), ps ← ts.2; Some (ts.1, ps)) snapshot)
    else
      delayed ← await (QDelay attempt);
      _ ← co_lift delayed;
      load_attempts fuel (attempt + 1) names
  end.

Definition _load_topic_partitions (fuel : nat) (topics : list pyval) : kco (list (text * list Z)) :=
  if is_empty topics then co_raise PyAssertionError
  else
    topics ← co_lift (coerce_all _coerce_topic topics);
    load_attempts fuel 1 topics.
End routing.
