(* ===== verification/RoutingTheorems.v ===== *)
(** What sending requests through the client guarantees ([Routing]): which broker
    gets what, how responses and failures come back, and that any broker is
    tried before a request is given up. *)
From S2P Require Import Prelude Common PyBytes Util Codec KafkaCodec Deferred BrokerClient Client ClientInvariant ClientTheorems Coroutine Routing.
Local Open Scope Z_scope.

(** ** Requests of a broker client *)

Definition fewer (b b' : _KafkaBrokerClient) : Prop :=
  Dict.keys (requests b') ⊆ Dict.keys (requests b).

#[export] Instance fewer_preorder : PreOrder fewer.
Proof. unfold fewer. split; [intros b; set_solver|]. intros b1 b2 b3. set_solver. Qed.

Lemma fewer_same b b' : requests b' = requests b → fewer b b'.
Proof. unfold fewer. by intros ->. Qed.

Section fewer.
Context (sendString : bytes → option exn).

Definition lessens (b : _KafkaBrokerClient) (r : res _KafkaBrokerClient) : Prop :=
  ∀ b', r = Ok b' → fewer b b'.

Lemma lessens_seq b m (f : _KafkaBrokerClient → res _KafkaBrokerClient) :
  lessens b m → (∀ b1, lessens b1 (f b1)) → lessens b (m ≫= f).
Proof.
  intros Hm Hf b' H. destruct m as [b1|]; [|done]. etrans; [by apply Hm|by eapply Hf].
Qed.

Lemma lessens_fire t o b : lessens b (fire_request t o b).
Proof.
  unfold fire_request. destruct (fire _ _ _); [|done]. intros b' [= <-]. by apply fewer_same.
Qed.

Lemma lessens_del k b : lessens b (del_request k b).
Proof.
  unfold del_request. destruct (Dict.get k _); [|done]. intros b' [= <-]. apply Dict.keys_del_subset.
Qed.

Lemma fewer_update t b : fewer b (update_request t b).
Proof.
  unfold update_request, fewer. destruct (Dict.get _ _) eqn:Hg; [|done].
  cbn [requests with_requests]. rewrite Dict.keys_set. case_decide as Hk; [done|]. exfalso. apply Hk.
  destruct (decide (correlationId t ∈ Dict.keys (requests b))) as [|H]; [done|].
  apply Dict.get_None in H. congruence.
Qed.

Lemma lessens_sendRequest now t b : lessens b (_sendRequest sendString now t b).
Proof.
  unfold _sendRequest. set (b1 := update_request _ b).
  assert (H1 : fewer b b1) by apply fewer_update. clearbody b1.
  intros b' Hb'. etrans; [exact H1|]. revert b' Hb'.
  destruct (if proto b1 then _ else _).
  - apply lessens_seq; [apply lessens_del|intros; apply lessens_fire].
  - destruct (negb _); [|by intros b' [= <-]; apply fewer_same].
    apply (lessens_seq (emit (ESend (d (set_sent (Some now) t)) (request (set_sent (Some now) t))) b1));
      [apply lessens_del|intros; apply lessens_fire].
Qed.

Lemma lessens_tryConnect answer now b : lessens b (tryConnect sendString answer now b).
Proof.
  unfold tryConnect. destruct answer; cbn.
  - intros b' [= <-]. by apply fewer_same.
  - unfold cbConnect. cbn. destruct (_dDown b); [by intros b' [= <-]; apply fewer_same|].
    unfold _sendQueued. intros b' Hb'.
    refine (for_each_inv (fewer b) _ _ _ b' _ _ Hb'); [by apply fewer_same|].
    intros s x s' _ Hs H. etrans; [exact Hs|]. destruct (sent x); [by simplify_eq|].
    by eapply lessens_sendRequest.
  - intros b' [= <-]. unfold ebConnect. cbn. destruct (_dDown b); by apply fewer_same.
Qed.

Lemma makeRequest_keys k r x answer now b o b' :
  makeRequest sendString k r x answer now b = Ok (o, b') →
  ∀ i, i ∈ Dict.keys (requests b') → i = k ∨ i ∈ Dict.keys (requests b).
Proof.
  unfold makeRequest. case_bool_decide as Hk; [done|].
  destruct (_dDown b); [intros [= <- <-]; auto|]. cbn [new_deferred].
  set (t := mkRequestState _ _ _ _ _ _ _). set (b1 := mkBrokerClient _ _ _ _ _ _ _ _ _ _ _).
  assert (H1 : ∀ b2, fewer b1 b2 → ∀ i, i ∈ Dict.keys (requests b2) → i = k ∨ i ∈ Dict.keys (requests b)).
  { unfold fewer, b1. cbn [requests]. rewrite Dict.set_fresh, Dict.keys_app by done. set_solver. }
  destruct (if proto b then _ else _) as [b2|] eqn:Hm; [|done]. intros [= <- <-]. apply H1.
  destruct (proto b); [by eapply lessens_sendRequest|]. case_bool_decide; [|by simplify_eq].
  by apply lessens_tryConnect in Hm.
Qed.
End fewer.

(** ** Making requests *)

(** The next [n] correlation ids. *)
Fixpoint next_ids (correlation_id : Z) (n : nat) : list Z :=
  match n with
  | O => []
  | S n => let i := (correlation_id + 1) mod 2 ^ 31 in i :: next_ids i n
  end.

Lemma next_ids_eq cid n :
  next_ids cid n = (λ k, (cid + 1 + k) mod 2 ^ 31) <$> seqZ 0 (Z.of_nat n).
Proof.
  revert cid. induction n as [|n IH]; intros cid; [done|]. cbn [next_ids].
  rewrite IH, (seqZ_cons 0 (Z.of_nat (S n))) by lia. cbn [fmap list_fmap]. f_equal; [by rewrite Z.add_0_r|].
  replace (Z.pred (Z.of_nat (S n))) with (Z.of_nat n) by lia. change (Z.succ 0) with (1 + 0).
  rewrite <- (fmap_add_seqZ 1 0 (Z.of_nat n)). rewrite <- list_fmap_compose.
  apply list_fmap_ext. intros i k _. cbn. rewrite <- Z.add_assoc, Zplus_mod_idemp_l. f_equal; lia.
Qed.

Lemma next_ids_prefix cid n m : (n ≤ m)%nat → next_ids cid n ⊆ next_ids cid m.
Proof.
  revert cid m. induction n as [|n IH]; intros cid m Hm; [apply list_subseteq_nil|].
  destruct m as [|m]; [lia|]. cbn [next_ids]. specialize (IH ((cid + 1) mod 2 ^ 31) m ltac:(lia)).
  set_solver.
Qed.

Lemma next_ids_nodup cid n : (Z.of_nat n ≤ 2 ^ 31) → NoDup (next_ids cid n).
Proof.
  intros Hn. rewrite next_ids_eq. apply NoDup_fmap_2_strong; [|apply NoDup_seqZ].
  intros x y Hx%elem_of_seqZ Hy%elem_of_seqZ Heq.
  assert ((x - y) mod 2 ^ 31 = 0) as Hm.
  { replace (x - y) with (cid + 1 + x - (cid + 1 + y)) by lia. by rewrite Zminus_mod, Heq, Z.sub_diag. }
  apply Z.mod_divide in Hm as [k Hk]; [|done]. nia.
Qed.

(** What sending requests leaves alone. *)
Definition same_cache (c c' : KafkaClient) : Prop :=
  _closing c' = _closing c ∧ _brokers c' = _brokers c ∧ topics_to_brokers c' = topics_to_brokers c ∧
  topic_partitions c' = topic_partitions c ∧ topic_errors c' = topic_errors c ∧
  _group_to_coordinator c' = _group_to_coordinator c ∧ partition_meta c' = partition_meta c.

#[export] Instance same_cache_preorder : PreOrder same_cache.
Proof.
  unfold same_cache. split; [intros c; by split_and!|].
  intros c1 c2 c3 H K. destruct_and!. split_and!; congruence.
Qed.

(** No broker client has a request pending under one of the ids. *)
Definition unused (ids : list Z) (c : KafkaClient) : Prop :=
  ∀ cs n b, clients c = Some cs → Dict.get n cs = Some b → ∀ i, i ∈ ids → i ∉ Dict.keys (requests b).

Lemma unused_check ids c :
  Forall (λ nb : Z * _KafkaBrokerClient, Forall (λ i, i ∉ Dict.keys (requests nb.2)) ids)
    (default [] (clients c)) →
  unused ids c.
Proof.
  intros H cs n b Hcs Hg i Hi. rewrite Hcs in H. cbn in H. rewrite Forall_forall in H.
  specialize (H (n, b) (Dict.get_Some_elem _ _ _ Hg)). rewrite Forall_forall in H. by apply H.
Qed.

Lemma unused_mono ids ids' c : ids' ⊆ ids → unused ids c → unused ids' c.
Proof. intros Hs Hu cs n b Hcs Hg i Hi. by eapply Hu, Hs. Qed.

Section sending.
Context (sendString : bytes → option exn) (connect_answer : Z → connect_result).
Context (_clientIdBytes : bytes) (timeout now : Z).

Abbreviation make_request := (_make_request_to_broker sendString connect_answer timeout).

Lemma get_brokerclient_known n c ids :
  client_wf c → _closing c = false → is_Some (_brokers c !! n) → unused ids c →
  ∃ c' cs b, _get_brokerclient n c = (c', Ok n) ∧ client_wf c' ∧ same_cache c c' ∧
    correlation_id c' = correlation_id c ∧ clients c' = Some cs ∧ Dict.get n cs = Some b ∧ unused ids c'.
Proof.
  intros Hc Hcl [bm Hbm] Hu. pose proof (get_brokerclient_spec [] n c Hc) as H.
  destruct (_get_brokerclient n c) as [c' [n'|e]].
  - destruct H as (-> & Hc' & cs & cs' & Hcs & -> & Hg). destruct (Dict.get n cs) as [b|] eqn:Hgn.
    + subst cs'. exists (with_clients (Some cs) c), cs, b. split_and!; try done.
      intros cs' k b' [= <-]. by apply Hu.
    + destruct Hg as (bm' & _ & ->). pose proof (proj1 (Dict.get_None cs n) Hgn) as Hn.
      eexists _, (cs ++ [(n, BrokerClient.__init__ bm')]), _. split_and!; try done.
      * rewrite <- Dict.set_fresh by done. apply Dict.get_set_eq.
      * intros cs' k b' [= <-]. rewrite <- Dict.set_fresh by done. rewrite Dict.get_set.
        case_decide; [|by apply Hu]. intros [= <-] i _. apply not_elem_of_nil.
  - destruct H as [-> H]. rewrite Hcl in H. destruct H as [_ H]. congruence.
Qed.

Lemma make_request_known n id request expect mt c cs b ids :
  client_wf c → clients c = Some cs → Dict.get n cs = Some b → id ∉ Dict.keys (requests b) →
  id ∉ ids → unused ids c →
  ∃ c' d, make_request n id request expect mt now c =
      (c', Ok (mkRequestMade n id request expect (request_timeout timeout mt) d)) ∧
    client_wf c' ∧ same_cache c c' ∧ correlation_id c' = correlation_id c ∧ unused ids c'.
Proof.
  intros Hc Hcs Hg Hid Hids Hu. unfold _make_request_to_broker, mbind, proc_bind, open_clients.
  rewrite Hcs, Hg. pose proof (wf_clients _ _ Hc) as Hw. rewrite Hcs in Hw.
  destruct Hw as (Hcl & Hnd & Hall). destruct (Hall _ _ Hg) as (Hn & Hbw & Hd & bm & Hbm & Haddr).
  pose proof (makeRequest_wf sendString id request expect (connect_answer n) now b Hbw) as Hm.
  pose proof (owned_makeRequest sendString id request expect (connect_answer n) now b) as Ho.
  pose proof (λ o b', makeRequest_keys sendString id request expect (connect_answer n) now b o b') as Hk.
  destruct (makeRequest _ _ _ _ _ _ _) as [[d b']|e]; [|by destruct Hm].
  specialize (Hk _ _ eq_refl). cbn in Ho. specialize (Ho _ eq_refl). destruct Ho as (Ho1 & Ho2 & Ho3 & Ho4).
  exists (with_clients (Some (Dict.set n b' cs)) c), d. split_and!; try done.
  - apply (wf_with_clients []); [done..|by apply Dict.NoDup_set|].
    intros n' b1. rewrite Dict.get_set. case_decide as Hn'; [|apply Hall]. intros [= <-]. subst n'.
    split_and!; [congruence| |by apply Ho4|].
    + destruct d as [e|k]; [by destruct Hm as (-> & _)|by destruct Hm].
    + exists bm. split; [done|]. intros Hr. rewrite (Haddr Hr). congruence.
  - intros cs' k b1 [= <-]. rewrite Dict.get_set. case_decide as Hk'; [|by apply Hu].
    intros [= <-] i Hi Hik. apply Hk in Hik as [->|Hik]; [done|]. by eapply Hu.
Qed.

Section groups.
Context {P R : Type} (encoder_fn : bytes → Z → list P → res bytes)
  (decode_fn : option (bytes → pygen R Z)).

(** The request made for a group of payloads. *)
Definition made (group : BrokerMetadata * list P) (rm : request_made) : Prop :=
  rm_node rm = bm_node_id group.1 ∧
  encoder_fn _clientIdBytes (rm_id rm) group.2 = Ok (rm_request rm) ∧
  rm_expect rm = bool_decide (is_Some decode_fn) ∧ rm_timeout rm = timeout.

Lemma send_groups_known by_broker : ∀ c,
  client_wf c → _closing c = false →
  Forall (λ g, is_Some (_brokers c !! bm_node_id g.1)) by_broker →
  Forall (λ g, ∀ id, 0 ≤ id < 2 ^ 31 → ∃ request, encoder_fn _clientIdBytes id g.2 = Ok request)
    by_broker →
  NoDup (next_ids (correlation_id c) (length by_broker)) →
  unused (next_ids (correlation_id c) (length by_broker)) c →
  ∃ rms c', send_groups sendString connect_answer _clientIdBytes timeout encoder_fn decode_fn
      by_broker now c = (c', Ok rms) ∧
    client_wf c' ∧ same_cache c c' ∧ Forall2 made by_broker rms ∧
    rm_id <$> rms = next_ids (correlation_id c) (length by_broker).
Proof.
  induction by_broker as [|[bm ps] by_broker IH]; intros c Hc Hcl Hbr Henc Hnd Hu.
  { by exists [], c. }
  apply Forall_cons in Hbr as [Hbm Hbr]. apply Forall_cons in Henc as [He Henc].
  cbn [length next_ids] in Hnd, Hu |- *. set (id := (correlation_id c + 1) mod 2 ^ 31) in *.
  apply NoDup_cons in Hnd as [Hid Hnd].
  destruct (get_brokerclient_known _ c _ Hc Hcl Hbm Hu) as (c1 & cs & b & Hg & Hc1 & Hs1 & Hi1 & Hcs & Hb & Hu1).
  cbn [send_groups]. erewrite proc_bind_ok by exact Hg.
  set (c2 := with_correlation_id id c1).
  assert (_next_id c1 = (c2, Ok id)) as Hn by (unfold _next_id; by rewrite Hi1).
  erewrite proc_bind_ok by exact Hn. destruct (He id) as [req Hreq]; [by apply Z.mod_pos_bound|]. cbn [fst snd] in Hreq |- *.
  erewrite proc_bind_ok by (unfold plift; by rewrite Hreq).
  destruct (make_request_known (bm_node_id bm) id req (bool_decide (is_Some decode_fn)) None c2 cs b
              (next_ids id (length by_broker))) as (c3 & d & Hm & Hc3 & Hs3 & Hi3 & Hu3);
    [by apply next_id_wf in Hc1; unfold _next_id in Hc1; rewrite Hi1 in Hc1|done|done| |done| |].
  { eapply Hu1; [done..|]. apply list_elem_of_here. }
  { eapply unused_mono; [|exact Hu1]. set_solver. }
  assert ((match decode_fn with Some _ => true | None => false end) = bool_decide (is_Some decode_fn)) as ->
    by (by destruct decode_fn).
  erewrite proc_bind_ok by exact Hm.
  assert (same_cache c c3) as Hs by (etrans; [exact Hs1|exact Hs3]).
  pose proof Hs as (Hs' & Hb' & _).
  destruct (IH c3) as (rms & c4 & Hr & Hc4 & Hs4 & Hf & Hids); try done.
  - by rewrite Hs'.
  - by rewrite Hb'.
  - by rewrite Hi3.
  - by rewrite Hi3.
  - erewrite proc_bind_ok by exact Hr. eexists _, c4. split; [done|]. split_and!; [done|by etrans| |].
    + constructor; [by split_and!|done].
    + cbn. rewrite Hids, Hi3. done.
Qed.
End groups.
End sending.

(** ** Grouping payloads by leader *)

Section grouping.
Context {P : Type} (lead : P → BrokerMetadata).

(** One group per leader; a group has all the payloads of its leader, in order. *)
Record grouped (payloads : list P) (by_broker : list (BrokerMetadata * list P)) : Prop := {
  grouped_nodup : NoDup (Dict.keys by_broker);
  grouped_payloads bm ps : (bm, ps) ∈ by_broker →
    ps = filter (λ p, lead p = bm) payloads ∧ ps ≠ [];
  grouped_all p : p ∈ payloads → lead p ∈ Dict.keys by_broker;
}.

Lemma grouped_collect payloads : grouped payloads (collect ((λ p, (lead p, p)) <$> payloads) []).
Proof.
  assert (∀ bm, (filter (λ kx, kx.1 = bm) ((λ p, (lead p, p)) <$> payloads)).*2 =
    filter (λ p, lead p = bm) payloads) as Hf.
  { intros bm. induction payloads as [|p ps IH]; [done|]. rewrite fmap_cons, !filter_cons. cbn [fst snd].
    destruct (decide (lead p = bm)); rewrite ?fmap_cons; by rewrite IH. }
  split.
  - apply collect_nodup.
  - intros bm ps [-> Hne]%collect_elem. by rewrite Hf in *.
  - intros p Hp. apply collect_keys. rewrite <- list_fmap_compose. by apply (list_elem_of_fmap_2 lead).
Qed.

Lemma grouped_length payloads by_broker :
  grouped payloads by_broker → (length by_broker ≤ length payloads)%nat.
Proof.
  intros [Hnd Hps _]. rewrite <- (length_fmap fst by_broker), <- (length_fmap lead payloads).
  apply submseteq_length, NoDup_submseteq; [done|]. intros bm ([bm' ps] & -> & Hin)%list_elem_of_fmap.
  apply Hps in Hin as [-> Hne]. cbn. destruct (filter _ _) as [|p ps] eqn:Hf; [done|].
  assert (p ∈ filter (λ p, lead p = bm') payloads) as [<- Hp]%list_elem_of_filter
    by (rewrite Hf; apply list_elem_of_here). by apply list_elem_of_fmap_2.
Qed.
End grouping.

(** ** Runs of the client's coroutines *)

Lemma runs_call {R} (m : Z → meth R) (w : world) tr w' r :
  runs (call m w) tr w' r → tr = [] ∧ w'.2 = w.2 ∧ m w.2 w.1 = (w'.1, r).
Proof.
  unfold call. intros [-> H]%runs_atomically. destruct (m w.2 w.1) as [c r1]. by simplify_eq.
Qed.

Lemma runs_look {R} (f : KafkaClient → R) (w : world) tr w' r :
  runs (look f w) tr w' r → tr = [] ∧ w' = w ∧ r = Ok (f w.1).
Proof.
  unfold look. intros (-> & H2 & H)%runs_call. destruct w, w'. cbn in *. unfold pget in H. injection H as <- <-. by subst.
Qed.

Lemma runs_lift {R} (x : res R) (w : world) tr w' r :
  runs ((co_lift x : kco R) w) tr w' r → tr = [] ∧ w' = w ∧ r = x.
Proof. done. Qed.

Lemma only_call {R} ok (m : Z → meth R) : only ok (call m).
Proof. apply only_atomically. Qed.
Lemma only_look {R} ok (f : KafkaClient → R) : only ok (look f).
Proof. apply only_call. Qed.
Lemma only_lift {R} ok (x : res R) : only ok (co_lift x : kco R).
Proof. by intros w tr w' r (-> & _)%runs_lift. Qed.
#[export] Hint Resolve only_call only_look only_lift : only.

(** Not the requests of [_send_broker_aware_request]. *)
Definition not_requests (h : happened answer act) : Prop :=
  match h with Asked (QRequests _) _ => False | _ => True end.

(** ** Requests to the leaders of partitions *)

Lemma co_done {Q} {ans : Q → Type} {O S E A B} (m : co ans O S E A) (f : A → co ans O S E B) s s1 a :
  m s = Done s1 (Ok a) → (m ≫= f) s = f a s1.
Proof. unfold mbind, co_bind. by intros ->. Qed.

Section aware.
Context (sendString : bytes → option exn) (cancel_connects : Z → bool).
Context (set_iter : list Z → list Z).
Context (connect_answer : Z → connect_result) (shuffle : ∀ X, list X → list X).
Context (_bootstrap_hosts : list (text * Z)) (_clientIdBytes : bytes) (timeout : Z).
Context {P R : Type} (p_key : P → text * Z) (r_key : R → text * Z).
Context (encoder_fn : bytes → Z → list P → res bytes) (decode_fn : option (bytes → pygen R Z)).

Abbreviation send_aware := (_send_broker_aware_request sendString cancel_connects set_iter connect_answer
  shuffle _bootstrap_hosts _clientIdBytes timeout p_key r_key encoder_fn decode_fn).

(** The cached leader of a payload's partition. *)
Definition leads (c : KafkaClient) (lead : P → BrokerMetadata) (p : P) : Prop :=
  topics_to_brokers c !! mkTopicAndPartition (p_key p).1 (p_key p).2 = Some (Some (lead p)).

(** What the call does with the results of its requests. *)
Definition finish (payloads : list P) (by_broker : list (BrokerMetadata * list P))
    (results : list (res (option bytes))) : co answer act world (send_exn P R) (list R) :=
  '(acc, failed_payloads) ← co_map_err SExn (co_lift (gather r_key decode_fn (zip results by_broker.*2) [] []));
  let responses := in_order (p_key <$> payloads) acc in
  if is_empty failed_payloads then mret responses
  else
    _ ← co_map_err SExn (call (λ _, pmodify reset_all_metadata));
    co_raise (SFailedPayloads responses failed_payloads).

Lemma group_payloads_cached lead (c : KafkaClient) now payloads : ∀ by_broker,
  Forall (leads c lead) payloads →
  group_payloads sendString cancel_connects set_iter connect_answer shuffle
      _bootstrap_hosts _clientIdBytes timeout p_key None payloads by_broker (c, now)
    = Done (c, now) (Ok (collect ((λ p, (lead p, p)) <$> payloads) by_broker)).
Proof.
  induction payloads as [|p payloads IH]; intros by_broker Hl; [done|].
  apply Forall_cons in Hl as [Hp Hl]. unfold leads in Hp.
  cbn [group_payloads]. erewrite co_done; [by apply IH|].
  unfold leader_of. erewrite co_done; [|
    unfold _get_leader_for_partition, look, call, mbind, co_bind, atomically, pget; cbn;
    rewrite Hp; cbn; by rewrite Hp]. done.
Qed.


(** ** Responses and failures *)

Definition failed_of (results : list (res (option bytes))) (groups : list (list P)) : list (P * exn) :=
  concat (zip_with (λ r ps, match r with Ok _ => [] | Err e => (λ p, (p, e)) <$> ps end) results groups).

Definition decoded (r : res (option bytes)) : list R :=
  match decode_fn, r with Some decode, Ok (Some b) => (decode b).1 | _, _ => [] end.

(** A result that [decode_fn] can take, where there is one. *)
Definition decodes (r : res (option bytes)) : Prop :=
  match decode_fn, r with
  | Some decode, Ok (Some b) => is_ok (decode b).2 = true
  | Some _, Ok None => False
  | _, _ => True
  end.

#[export] Instance decodes_dec r : Decision (decodes r).
Proof. unfold decodes. destruct decode_fn, r as [[b|]|]; apply _. Defined.

Definition accumulate (acc : list ((text * Z) * R)) (rs : list R) : list ((text * Z) * R) :=
  foldl (λ acc r, Dict.set (r_key r) r acc) acc rs.

(** The last response for a partition. *)
Definition response_for (k : text * Z) (rs : list R) : option R :=
  last (filter (λ r, r_key r = k) rs).

Lemma accumulate_get rs : ∀ acc k,
  Dict.get k (accumulate acc rs) =
    match response_for k rs with Some r => Some r | None => Dict.get k acc end.
Proof using Type.
  unfold accumulate, response_for. induction rs as [|r rs IH] using rev_ind; intros acc k; [done|].
  rewrite foldl_snoc, filter_app, filter_cons, filter_nil, Dict.get_set, IH.
  destruct (decide (r_key r = k)) as [<-|Hk].
  - by rewrite decide_True, last_snoc.
  - by rewrite decide_False, app_nil_r.
Qed.

Lemma gather_ok results : ∀ groups acc failed,
  length results = length groups → Forall decodes results →
  gather r_key decode_fn (zip results groups) acc failed =
    Ok (accumulate acc (concat (decoded <$> results)), failed ++ failed_of results groups).
Proof using Type.
  induction results as [|r results IH]; intros [|ps groups] acc failed Hlen Hd; try done.
  { cbn. by rewrite app_nil_r. }
  injection Hlen as Hlen. apply Forall_cons in Hd as [Hr Hd]. cbn [zip zip_with gather].
  unfold failed_of, accumulate. cbn [zip_with fmap list_fmap concat]. rewrite foldl_app.
  unfold decodes, decoded in *. destruct r as [b|e].
  - destruct decode_fn as [decode|]; [|by apply IH]. destruct b as [b|]; [|done].
    destruct (decode b) as [items [z|e]]; [|done]. cbn [fst snd mbind result_bind]. by rewrite IH.
  - rewrite app_assoc. rewrite IH by done. by destruct decode_fn.
Qed.

Lemma gather_err results : ∀ (groups : list (list P)) acc failed,
  length results = length groups → ¬ Forall decodes results →
  ∃ e, gather r_key decode_fn (zip results groups) acc failed = Err e.
Proof using Type.
  induction results as [|r results IH]; intros [|ps groups] acc failed Hlen Hd; try done.
  { by destruct Hd. }
  injection Hlen as Hlen. rewrite Forall_cons in Hd. cbn [zip zip_with gather].
  unfold decodes at 1 in Hd. destruct r as [b|e].
  - destruct decode_fn as [decode|]; [|apply IH; [done|intros HF; apply Hd; by split]]. destruct b as [b|]; [|by eexists].
    destruct (decode b) as [items [z|e]]; cbn in *; [apply IH; [done|intros HF; apply Hd; by split]|by eexists].
  - apply IH; [done|]. intros HF; apply Hd; split; [|done]; by destruct decode_fn.
Qed.

Lemma failed_of_elem results : ∀ groups p e,
  (p, e) ∈ failed_of results groups ↔
  ∃ i ps, groups !! i = Some ps ∧ results !! i = Some (Err e) ∧ p ∈ ps.
Proof using Type.
  unfold failed_of. induction results as [|r results IH]; intros groups p e.
  { cbn. split; [by intros ?%elem_of_nil|]. by intros (? & ? & ? & ? & ?). }
  destruct groups as [|ps groups].
  { cbn. split; [by intros ?%elem_of_nil|]. by intros (? & ? & ? & ? & ?). }
  cbn [zip_with concat]. rewrite elem_of_app, IH. split.
  - intros [H|(i & ps' & H)]; [|by exists (S i), ps']. destruct r as [b|e']; [by apply elem_of_nil in H|].
    apply list_elem_of_fmap in H as (p' & [= <- <-] & H). by exists 0%nat, ps.
  - intros ([|i] & ps' & Hg & Hr & Hp); [left|right; by exists i, ps'].
    injection Hg as <-. injection Hr as ->. apply list_elem_of_fmap. by exists p.
Qed.

Lemma in_order_eq payloads (acc : list ((text * Z) * R)) :
  in_order (p_key <$> payloads) acc = omap (λ p, Dict.get (p_key p) acc) payloads.
Proof. unfold in_order. induction payloads as [|p ps IH]; [done|]. cbn. by rewrite <- IH. Qed.

(** C7. When the requests have been answered or failed, the caller gets one
    response per payload that has one, in the order of the payloads, the last
    one received for its partition; if any request failed it gets them in a
    [FailedPayloadsError] with exactly the payloads whose leader's request
    failed, each with that failure, and the cached metadata is dropped. A
    response that does not decode raises its error instead. *)
Theorem responses_collected lead payloads by_broker results (w : world) :
  grouped lead payloads by_broker → length results = length by_broker →
  let failed := failed_of results by_broker.*2 in
  let responses := omap (λ p, response_for (p_key p) (concat (decoded <$> results))) payloads in
  (Forall decodes results →
     finish payloads by_broker results w =
       if is_empty failed then Done w (Ok responses)
       else Done (reset_all_metadata w.1, w.2) (Err (SFailedPayloads responses failed))) ∧
  (¬ Forall decodes results → ∃ e, finish payloads by_broker results w = Done w (Err (SExn e))) ∧
  ∀ p e, (p, e) ∈ failed ↔
    p ∈ payloads ∧ ∃ i ps, by_broker !! i = Some (lead p, ps) ∧ results !! i = Some (Err e).
Proof using Type.
  intros Hg Hlen failed responses. assert (length results = length by_broker.*2) as Hlen'
    by (by rewrite length_fmap).
  split_and!.
  - intros Hd. unfold finish, co_lift, co_map_err, mbind, co_bind. cbn.
    rewrite (gather_ok results by_broker.*2 [] [] Hlen' Hd). cbn. fold failed.
    assert (in_order (p_key <$> payloads) (accumulate [] (concat (decoded <$> results))) = responses) as ->.
    { rewrite in_order_eq. apply list_omap_ext. apply Forall_Forall2_diag, Forall_forall.
      intros p _. rewrite accumulate_get. by destruct (response_for _ _). }
    destruct failed as [|f failed']; [done|]. done.
  - intros Hd. destruct (gather_err results by_broker.*2 [] [] Hlen' Hd) as [e He]. exists e.
    unfold finish, co_lift, co_map_err, mbind, co_bind. cbn. by rewrite He.
  - intros p e. unfold failed. rewrite failed_of_elem. split.
    + intros (i & ps & Hi & Hr & Hp). apply list_lookup_fmap_Some in Hi as ([bm ps'] & -> & Hi).
      pose proof (list_elem_of_lookup_2 _ _ _ Hi) as Hin.
      apply (grouped_payloads _ _ _ Hg) in Hin as [Hps _]. cbn in Hp. rewrite Hps in Hp.
      apply list_elem_of_filter in Hp as [<- Hp]. by eauto.
    + intros (Hp & i & ps & Hi & Hr). exists i, ps. split_and!; [by rewrite list_lookup_fmap, Hi|done|].
      pose proof (list_elem_of_lookup_2 _ _ _ Hi) as Hin.
      apply (grouped_payloads _ _ _ Hg) in Hin as [-> _]. by apply list_elem_of_filter.
Qed.

(** ** Every run *)

Lemma bootstrap_polite request hosts : only not_requests (bootstrap_from hosts request).
Proof.
  induction hosts as [|hp hosts IH]; cbn [bootstrap_from]; only_steps; done.
Qed.

Lemma unaware_polite id request :
  only not_requests (_send_broker_unaware_request sendString connect_answer shuffle _bootstrap_hosts
                       timeout id request).
Proof.
  unfold _send_broker_unaware_request. only_steps. revert a0.
  induction a0 as [|n ns IH]; cbn [try_brokers]; [apply bootstrap_polite|]. only_steps; done.
Qed.

Abbreviation group := (group_payloads sendString cancel_connects set_iter connect_answer shuffle
  _bootstrap_hosts _clientIdBytes timeout p_key).
Abbreviation lookup_leader := (leader_of sendString cancel_connects set_iter connect_answer shuffle
  _bootstrap_hosts _clientIdBytes timeout p_key).

Lemma leader_of_polite g p : only not_requests (lookup_leader g p).
Proof.
  unfold leader_of, _get_leader_for_partition, _get_coordinator_for_group, load_metadata.
  only_steps; try done; apply unaware_polite.
Qed.

#[local] Hint Resolve leader_of_polite : only.

Lemma group_polite g payloads : ∀ by_broker, only not_requests (group g payloads by_broker).
Proof. induction payloads as [|p ps IH]; intros bb; cbn [group_payloads]; only_steps. Qed.

(** The groups share out the payloads. *)
Definition shared_out (payloads : list P) (by_broker : list (BrokerMetadata * list P)) : Prop :=
  NoDup (Dict.keys by_broker) ∧ concat by_broker.*2 ≡ₚ payloads.

Lemma group_shared_out g payloads : ∀ by_broker w tr w' r done,
  runs (group g payloads by_broker w) tr w' r → shared_out done by_broker →
  match r with Ok by_broker' => shared_out (done ++ payloads) by_broker' | Err _ => True end.
Proof.
  induction payloads as [|p ps IH]; intros bb w tr w' r done H Hs; cbn [group_payloads] in H.
  - destruct H as (_ & _ & ->). by rewrite app_nil_r.
  - apply runs_bind in H as [(tr1 & w1 & bm & tr2 & _ & H & _)|(e & _ & ->)]; [|done].
    destruct Hs as [Hnd Hs]. assert (shared_out (done ++ [p]) (add_payload bm p bb)) as Hs'.
    + split; [by apply Dict.NoDup_set|]. etrans; [apply concat_append|].
      rewrite Hs. apply Permutation_cons_append.
    + specialize (IH _ _ _ _ _ _ H Hs'). by rewrite <- app_assoc in IH.
Qed.

Lemma get_brokerclient_same n c c' n' : _get_brokerclient n c = (c', Ok n') → n' = n.
Proof.
  unfold _get_brokerclient, open_clients, mbind, proc_bind, pget, praise, plift, pmodify. cbn.
  destruct (_closing c); [done|]. destruct (clients c) as [cs|]; [|done]. cbn.
  destruct (Dict.get n cs); [by intros [= _ <-]|].
  destruct (_brokers c !! n); [by intros [= _ <-]|done].
Qed.

Lemma make_request_made n id request expect mt now c c' rm :
  _make_request_to_broker sendString connect_answer timeout n id request expect mt now c = (c', Ok rm) →
  rm_node rm = n ∧ rm_id rm = id ∧ rm_request rm = request ∧ rm_expect rm = expect ∧
  rm_timeout rm = request_timeout timeout mt.
Proof.
  unfold _make_request_to_broker, open_clients, mbind, proc_bind, praise, plift, pmodify.
  destruct (clients c); [|done]. destruct (Dict.get n l); [|done].
  destruct (makeRequest _ _ _ _ _ _ _) as [[d b]|]; [|done]. by intros [= <- <-].
Qed.

Lemma send_groups_made by_broker : ∀ now c c' rms,
  send_groups sendString connect_answer _clientIdBytes timeout encoder_fn decode_fn by_broker now c
    = (c', Ok rms) →
  Forall2 (made _clientIdBytes timeout encoder_fn decode_fn) by_broker rms.
Proof.
  induction by_broker as [|[bm ps] bb IH]; intros now c c' rms H; cbn [send_groups] in H.
  { injection H as <- <-. constructor. }
  apply proc_bind_inv in H as (c1 & n & Hn & H). apply get_brokerclient_same in Hn as ->.
  apply proc_bind_inv in H as (c2 & id & Hid & H).
  apply proc_bind_inv in H as (c3 & req & Hreq & H). injection Hreq as _ Hreq.
  apply proc_bind_inv in H as (c4 & rm & Hrm & H). apply make_request_made in Hrm as (H1 & H2 & H3 & H4 & H5).
  apply proc_bind_inv in H as (c5 & rms' & Hrms & H). injection H as _ <-.
  constructor; [|by eapply IH]. split_and!; cbn; [done|by rewrite H2, H3| |done].
  rewrite H4. by destruct decode_fn.
Qed.

Lemma finish_done payloads by_broker results w :
  ∃ w' r, finish payloads by_broker results w = Done w' r.
Proof.
  unfold finish, co_lift, co_map_err, mbind, co_bind. cbn.
  destruct (gather _ _ _ _ _) as [[acc failed]|]; cbn; [|eauto]. destruct (is_empty failed); cbn; eauto.
Qed.

(** C6. Every run of [_send_broker_aware_request], whatever metadata and
    coordinator lookups it takes and whatever happens to the client meanwhile:
    either it raises, having sent none or not all of the requests, or it
    sends, once, a request per broker that between them carry each payload
    exactly once, and ends as their results say. *)
Theorem sent_once payloads consumer_group (w : world) tr w' r :
  runs (send_aware payloads consumer_group w) tr w' r →
  (payloads = [] → tr = [] ∧ w' = w ∧ r = Err (SExn PyValueError)) ∧
  ∃ tr1, Forall not_requests tr1 ∧
    ((tr = tr1 ∧ ∃ e, r = Err (SExn e)) ∨
     ∃ by_broker rms results w1,
       tr = tr1 ++ [Asked (QRequests rms) results] ∧ shared_out payloads by_broker ∧
       Forall2 (made _clientIdBytes timeout encoder_fn decode_fn) by_broker rms ∧
       finish payloads by_broker results w1 = Done w' r).
Proof.
  unfold _send_broker_aware_request. intros H. destruct (is_empty payloads) eqn:He.
  { destruct payloads; [|done]. destruct H as (-> & -> & ->). split; [done|]. exists []. split; [done|]. eauto. }
  split; [by intros ->|].
  apply runs_bind in H as [(tr1 & w1 & [rms bb] & tr2 & H1 & H & ->)|(e & H & ->)].
  - apply runs_map_err in H1 as ([[rms' bb']|] & H1 & [= <- <-]).
    apply runs_bind in H1 as [(tr3 & w2 & bb' & tr4 & Hg & H1 & ->)|(e & _ & ?)]; [|done].
    apply runs_bind in H1 as [(tr5 & w3 & rms' & tr6 & Hs & H1 & ->)|(e & _ & ?)]; [|done].
    apply runs_call in Hs as (-> & _ & Hs). destruct H1 as (-> & -> & [= <- <-]). rewrite !app_nil_r.
    destruct H as (results & w4 & tr5 & -> & H). change (runs (finish payloads bb results w4) tr5 w' r) in H.
    destruct (finish_done payloads bb results w4) as (w5 & r5 & Hf). rewrite Hf in H. destruct H as (-> & -> & ->).
    exists tr3. split; [by eapply group_polite|]. right. exists bb, rms, results, w4. split_and!; [done| |by eapply send_groups_made|done].
    eapply (group_shared_out _ _ _ _ _ _ _ []) in Hg; [done|]. by split; [constructor|].
  - apply runs_map_err in H as (r0 & H & He'). exists tr. split.
    + apply runs_bind in H as [(tr3 & w2 & bb' & tr4 & Hg & H1 & ->)|(e' & H & ->)].
      * apply Forall_app. split; [by eapply group_polite|].
        apply runs_bind in H1 as [(tr5 & w3 & rms' & tr6 & Hs & H1 & ->)|(e' & H1 & ->)].
        -- apply runs_call in Hs as (-> & _). by destruct H1 as (-> & _).
        -- by apply runs_call in H1 as (-> & _).
      * by eapply group_polite.
    + left. split; [done|]. destruct r0; [done|]. exists e0. congruence.
Qed.
End aware.

(** ** Concrete runs

    Three payloads for the topic of the sample client, two of them for one
    broker; then the first broker answers and the second does not. *)
Definition sample_leader (p : text * Z) : BrokerMetadata :=
  if p.2 =? 2 then mkBrokerMetadata 1 (txt "kafka1") 9092 else mkBrokerMetadata 2 (txt "kafka2") 9092.

Definition sample_payloads : list (text * Z) := [(txt "t", 0); (txt "t", 2); (txt "t", 0)].

Definition sample_encoder (client_id : bytes) (correlation_id : Z) (payloads : list (text * Z)) : res bytes :=
  Ok (be_encode 4 correlation_id ++ (byte_of_Z <$> payloads.*2)).

(** The response has, for each byte, a result for that partition. *)
Definition sample_decoder (response : bytes) : pygen ((text * Z) * nat) Z :=
  (imap (λ i b, ((txt "t", Z_of_byte b), i)) response, Ok 0).


Definition sample_groups : list (BrokerMetadata * list (text * Z)) :=
  collect ((λ p, (sample_leader p, p)) <$> sample_payloads) [].

(** The first broker answers for partition 0 twice, the second request fails. *)
Definition sample_results : list (res (option bytes)) :=
  [Ok (Some [byte_of_Z 0; byte_of_Z 5; byte_of_Z 0]); Err (BrokerError RequestTimedOutError)].

Example responses_collected_witness :
  finish id fst (Some sample_decoder) sample_payloads sample_groups sample_results
      (sample_kafka_client, 0) =
    Done (reset_all_metadata sample_kafka_client, 0)
      (Err (SFailedPayloads [((txt "t", 0), 2%nat); ((txt "t", 0), 2%nat)]
              [((txt "t", 2), BrokerError RequestTimedOutError)])) ∧
  ((txt "t", 2), BrokerError RequestTimedOutError) ∈ failed_of sample_results sample_groups.*2.
Proof.
  destruct (responses_collected id fst (Some sample_decoder) sample_leader sample_payloads sample_groups
    sample_results (sample_kafka_client, 0) (grouped_collect _ _)) as (H1 & _ & H2); [reflexivity|].
  split.
  - rewrite H1; [reflexivity|]. apply (bool_decide_unpack _). vm_compute. exact I.
  - apply H2. split; [vm_compute; right; left|]. exists 1%nat. eexists. split; reflexivity.
Defined.

(** Answers whatever is asked; requests to brokers as [sample_results]. *)
Definition sample_env (w : world) (q : query) : answer q * world :=
  (match q as q return answer q with
   | QRequest _ => Ok sample_metadata
   | QRequests _ => sample_results
   | QCoordinator _ => Ok true
   | QConnect _ => Ok tt
   | QBootstrap _ _ => Ok sample_metadata
   | QDelay _ => Ok tt
   end, w).

(** Partition 1 has no leader, so its metadata is loaded first. *)
Definition sample_send (payloads : list (text * Z)) :=
  _send_broker_aware_request no_send_error no_connect given_order (λ _, ConnectPending) (λ _ xs, xs)
    [] [] 10000 id fst sample_encoder (Some sample_decoder) payloads None (sample_kafka_client, 0).

Example sent_once_witness :
  (play sample_env (sample_send [])).1 = [] ∧
  ∃ tr1, Forall not_requests tr1 ∧
    (((play sample_env (sample_send sample_payloads)).1 = tr1 ∧
        ∃ e, (play sample_env (sample_send sample_payloads)).2.2 = Err (SExn e)) ∨
     ∃ by_broker rms results w1,
       (play sample_env (sample_send sample_payloads)).1 = tr1 ++ [Asked (QRequests rms) results] ∧
       shared_out sample_payloads by_broker ∧
       Forall2 (made [] 10000 sample_encoder (Some sample_decoder)) by_broker rms ∧
       finish id fst (Some sample_decoder) sample_payloads by_broker results w1 =
         Done (play sample_env (sample_send sample_payloads)).2.1
              (play sample_env (sample_send sample_payloads)).2.2).
Proof.
  split.
  - apply (sent_once no_send_error no_connect given_order (λ _, ConnectPending) (λ _ xs, xs)
      [] [] 10000 id fst sample_encoder (Some sample_decoder) [] None (sample_kafka_client, 0)
      _ _ _ (runs_play sample_env _)). reflexivity.
  - apply (sent_once no_send_error no_connect given_order (λ _, ConnectPending) (λ _ xs, xs)
      [] [] 10000 id fst sample_encoder (Some sample_decoder) sample_payloads None (sample_kafka_client, 0)
      _ _ _ (runs_play sample_env _)).
Defined.
