(* ===== verification/RoutingRuns.v ===== *)
(** What every run of the other coroutines of [Routing] guarantees: requests any
    broker can serve, the lookup of a leader, requests to a group's coordinator,
    loading the partitions of topics, and the timeout of a request. *)
From S2P Require Import Prelude Common PyBytes Util Codec KafkaCodec Deferred BrokerClient Client ClientInvariant ClientTheorems Coroutine Routing RoutingTheorems.
Local Open Scope Z_scope.

(** ** What a run did *)

(** The response to a request, if it succeeded. *)
Definition response_to (q : query) : answer q → option bytes :=
  match q with
  | QRequest _ | QBootstrap _ _ =>
    λ a : res bytes, match a with Ok response => Some response | Err _ => None end
  | _ => λ _, None
  end.
Definition response_in (h : happened answer act) : option bytes :=
  match h with Asked q a => response_to q a | Did _ => None end.

Definition node_asked (h : happened answer act) : option Z :=
  match h with Asked (QRequest rm) _ => Some (rm_node rm) | _ => None end.
Definition host_tried (h : happened answer act) : option (text * Z) :=
  match h with Asked (QConnect hp) _ => Some hp | _ => None end.
Definition host_asked (h : happened answer act) : option (text * Z) :=
  match h with Asked (QBootstrap hp _) _ => Some hp | _ => None end.
Definition host_dropped (h : happened answer act) : option (text * Z) :=
  match h with Did (ALoseConnection hp) => Some hp | _ => None end.

(** Whatever is sent is the request. *)
Definition asks (id : Z) (request : bytes) (h : happened answer act) : Prop :=
  match h with
  | Asked (QRequest rm) _ => rm_id rm = id ∧ rm_request rm = request ∧ rm_expect rm = true
  | Asked (QBootstrap _ request') _ => request' = request
  | _ => True
  end.

(** An attempt at the nodes and then the bootstrap hosts: each is asked at most
    once and in this order, a host's connection is dropped when it has been
    asked, the first response ends it, and without one every host is tried. *)
Record attempt (nodes : list Z) (hosts : list (text * Z)) (id : Z) (request : bytes)
    (tr : list (happened answer act)) (r : res bytes) : Prop := {
  at_nodes : sublist (omap node_asked tr) nodes;
  at_hosts : omap host_tried tr `prefix_of` hosts;
  at_dropped : omap host_dropped tr = omap host_asked tr;
  at_length : (length tr ≤ length nodes + 3 * length hosts)%nat;
  at_asks : Forall (asks id request) tr;
  at_result : omap response_in tr = match r with Ok response => [response] | Err _ => [] end;
  at_unavailable : r = Err KafkaUnavailableError → omap host_tried tr = hosts;
}.

Ltac attempt_tac :=
  split; cbn in *; first
    [ done | lia | by repeat constructor
    | by apply prefix_cons, prefix_nil | by apply prefix_cons | by f_equal
    | by apply sublist_nil_l | by apply prefix_nil | idtac ].

Section runs.
Context (sendString : bytes → option exn) (cancel_connects : Z → bool).
Context (set_iter : list Z → list Z).
Context (connect_answer : Z → connect_result) (shuffle : ∀ X, list X → list X).
Context (_bootstrap_hosts : list (text * Z)) (_clientIdBytes : bytes) (timeout : Z).

Lemma bootstrap_attempt id request hosts : ∀ w tr w' r,
  runs (bootstrap_from hosts request w) tr w' r → attempt [] hosts id request tr r.
Proof.
  induction hosts as [|hp hosts IH]; intros w tr w' r H; cbn [bootstrap_from] in H.
  { destruct H as (-> & _ & ->). attempt_tac. }
  destruct H as (a & w1 & tr1 & -> & H). destruct a as [u|e].
  - cbn in H. destruct H as (b & w2 & tr2 & -> & tr3 & -> & H). destruct b as [resp|e].
    + destruct H as (-> & _ & ->). attempt_tac.
    + apply IH in H as []. attempt_tac.
      intros Hr. by rewrite at_unavailable0.
  - apply IH in H as []. attempt_tac.
    intros Hr. by rewrite at_unavailable0.
Qed.

Lemma get_brokerclient_errors n c c' e :
  _get_brokerclient n c = (c', Err e) → e ≠ KafkaUnavailableError.
Proof.
  unfold _get_brokerclient, open_clients, mbind, proc_bind, pget, praise, plift, pmodify. cbn.
  destruct (_closing c); [by intros [= _ <-]|]. destruct (clients c) as [cs|]; [|by intros [= _ <-]]. cbn.
  destruct (Dict.get n cs); [done|]. destruct (_brokers c !! n); [done|by intros [= _ <-]].
Qed.

(** One node was passed over. *)
Lemma attempt_next n nodes hosts id request tr0 tr r :
  (tr0 = [] ∨ ∃ rm e, tr0 = [Asked (QRequest rm) (Err e)] ∧ rm_node rm = n ∧ asks id request (Asked (QRequest rm) (Err e))) →
  attempt nodes hosts id request tr r → attempt (n :: nodes) hosts id request (tr0 ++ tr) r.
Proof.
  intros [-> |(rm & e & -> & <- & Ha)] []; attempt_tac; by constructor.
Qed.

Lemma attempt_end n nodes hosts id request tr r :
  tr = [] ∧ (∃ e, r = Err e) ∨
  (∃ rm a, tr = [Asked (QRequest rm) a] ∧ r = a ∧ rm_node rm = n ∧ asks id request (Asked (QRequest rm) a)) →
  r ≠ Err KafkaUnavailableError → attempt (n :: nodes) hosts id request tr r.
Proof.
  intros [(-> & e & ->)|(rm & a & -> & -> & <- & Ha)] Hr; attempt_tac; [apply sublist_skip, sublist_nil_l|by constructor|by destruct a].
Qed.

Abbreviation try_nodes := (try_brokers sendString connect_answer shuffle _bootstrap_hosts timeout).

Lemma try_attempt id request nodes : ∀ w tr w' r,
  runs (try_nodes nodes id request w) tr w' r →
  attempt nodes (shuffle _ _bootstrap_hosts) id request tr r.
Proof.
  induction nodes as [|n nodes IH]; intros w tr w' r H; cbn [try_brokers] in H.
  { by eapply bootstrap_attempt. }
  apply runs_bind in H as [(tr1 & w1 & b & tr2 & Hb & H & ->)|(e & H & ->)].
  - apply runs_call in Hb as (-> & _ & Hb). apply get_brokerclient_same in Hb as ->.
    apply runs_bind in H as [(tr3 & w2 & resp & tr4 & Hr & H & ->)|(e & H & ->)];
      [|by apply runs_try in H as (r0 & _ & ?)].
    apply runs_try in Hr as (r0 & Hr & [= ->]). cbn [app].
    assert ((tr3 = [] ∧ (∃ e, r0 = Err e)) ∨ ∃ rm a, tr3 = [Asked (QRequest rm) a] ∧ r0 = a ∧ rm_node rm = n ∧
              asks id request (Asked (QRequest rm) a)) as Htr.
    { apply runs_bind in Hr as [(tr5 & w3 & rm & tr6 & Hm & Hr & ->)|(e & Hr & ->)].
      - apply runs_call in Hm as (-> & _ & Hm). apply make_request_made in Hm as (H1 & H2 & H3 & H4 & _).
        destruct Hr as (a & w4 & tr7 & -> & -> & -> & ->). right. by exists rm, a.
      - apply runs_call in Hr as (-> & _). left. eauto. }
    destruct r0 as [resp|e].
    + destruct H as (-> & _ & ->). rewrite app_nil_r. by apply attempt_end.
    + destruct (is_KafkaError e) eqn:He.
      * apply IH in H. apply attempt_next; [|done].
        destruct Htr as [[-> _]|(rm & a & -> & <- & Hn & Ha)]; [by left|]. right. eauto.
      * destruct H as (-> & _ & ->). rewrite app_nil_r. apply attempt_end; [done|]. intros [= ->]. done.
  - apply runs_call in H as (-> & _ & H). apply attempt_end; [left; eauto|].
    intros [= ->]. by apply get_brokerclient_errors in H.
Qed.


(** ** Leaders *)

Abbreviation load := (load_metadata sendString cancel_connects set_iter connect_answer shuffle
  _bootstrap_hosts _clientIdBytes timeout).

(** The leader of a partition: the cached one, at once and with no request,
    if there is one; otherwise the topic's metadata is loaded first, and what
    the cache then says is the answer: no such partition is an error, a
    partition without leader is [None]. *)
Theorem leader_lookup topic partition (w : world) tr w' r :
  let key := mkTopicAndPartition topic partition in
  runs (_get_leader_for_partition sendString cancel_connects set_iter connect_answer shuffle
          _bootstrap_hosts _clientIdBytes timeout topic partition w) tr w' r →
  match topics_to_brokers w.1 !! key with
  | Some (Some bm) => tr = [] ∧ w' = w ∧ r = Ok (Some bm)
  | _ => ∃ loaded, runs (load [VStr topic] w) tr w' loaded ∧
      r = match loaded with
          | Err e => Err e
          | Ok _ => match topics_to_brokers w'.1 !! key with
                    | None => Err PartitionUnavailableError
                    | Some leader => Ok leader
                    end
          end
  end.
Proof.
  intros key H. unfold _get_leader_for_partition in H. fold key in H.
  apply runs_bind in H as [(tr1 & w1 & known & tr2 & Hk & H & ->)|(e & H & ->)];
    [|by apply runs_look in H as (_ & _ & ?)].
  apply runs_look in Hk as (-> & -> & [= ->]). cbn [app].
  assert (∀ w tr w' r,
    runs ((known ← look (λ c, topics_to_brokers c !! key);
           match known with None => co_raise PartitionUnavailableError | Some leader => mret leader end : kco _) w)
      tr w' r →
    tr = [] ∧ w' = w ∧ r = match topics_to_brokers w.1 !! key with
                           | None => Err PartitionUnavailableError
                           | Some leader => Ok leader
                           end) as Hend.
  { clear. intros w tr w' r [(tr1 & w1 & known & tr2 & Hk & H & ->)|(e & H & ->)]%runs_bind;
      [|by apply runs_look in H as (_ & _ & ?)].
    apply runs_look in Hk as (-> & -> & [= ->]).
    destruct (topics_to_brokers w.1 !! key); by destruct H as (-> & -> & ->). }
  destruct (topics_to_brokers w.1 !! key) as [[bm|]|] eqn:Hkey.
  { apply Hend in H as (-> & -> & ->). by rewrite Hkey. }
  all: apply runs_bind in H as [(tr3 & w3 & u & tr4 & Hl & H & ->)|(e & H & ->)].
  1,3: apply Hend in H as (-> & -> & ->); rewrite app_nil_r;
    apply runs_bind in Hl as [(tr5 & w5 & x & tr6 & Hl & (-> & -> & _) & ->)|(e & _ & ?)]; [|done];
    exists (Ok x); by rewrite app_nil_r.
  all: apply runs_bind in H as [(tr5 & w5 & x & tr6 & _ & (_ & _ & ?) & _)|(e' & H & [= ->])]; [done|];
    by exists (Err e').
Qed.

(** ** Requests to coordinators *)

Section coordinator.
Context {P R : Type} (error : R → Z) (encoder_fn : bytes → Z → P → res bytes) (decode_fn : bytes → res R).

(** The request of the call. *)
Definition coordinator_asked (bm : BrokerMetadata) (payload : P) (min_timeout : option Z) (rm : request_made)
    : Prop :=
  rm_node rm = bm_node_id bm ∧ encoder_fn _clientIdBytes (rm_id rm) payload = Ok (rm_request rm) ∧
  rm_expect rm = true ∧ rm_timeout rm = request_timeout timeout min_timeout.

Lemma handle_one group d (c : KafkaClient) :
  stale_leader (error d) = false →
  ∃ e, _handle_responses error (λ _, None) Ok [d] true (VStr group) c =
    (forget error (λ _, None) group c d, if error d =? 0 then Ok [d] else Err e) ∧
  (error d ≠ 0 → exn_errno e = Some (error d)).
Proof.
  intros Hs. destruct (response_error_eq error (λ _, None) group true d c) as (e & He & Hn).
  { intros Ht. congruence. }
  exists e. cbn [_handle_responses]. unfold raises in He, Hn. destruct (error d =? 0) eqn:Hz.
  - cbn [negb] in He. rewrite (proc_bind_ok _ _ _ _ _ He). apply Z.eqb_eq in Hz. by split.
  - cbn [negb] in He. rewrite (proc_bind_err _ _ _ _ _ He). split; [done|]. intros _. by apply Hn.
Qed.

Abbreviation find_coordinator := (_get_coordinator_for_group _clientIdBytes).

End coordinator.

(** ** Partitions of topics *)

Definition delay_before (h : happened answer act) : option Z :=
  match h with Asked (QDelay attempt) _ => Some attempt | _ => None end.

Definition no_delay (h : happened answer act) : Prop := delay_before h = None.

Lemma unaware_no_delay id request :
  only no_delay (_send_broker_unaware_request sendString connect_answer shuffle _bootstrap_hosts
                   timeout id request).
Proof.
  assert (∀ hosts, only no_delay (bootstrap_from hosts request)) as Hb.
  { induction hosts as [|hp hosts IH]; cbn [bootstrap_from]; only_steps; done. }
  unfold _send_broker_unaware_request. only_steps. revert a0.
  induction a0 as [|n ns IH]; cbn [try_brokers]; [apply Hb|]. only_steps; done.
Qed.

Lemma no_delays tr : Forall no_delay tr → omap delay_before tr = [].
Proof. induction 1 as [|h tr Hh _ IH]; [done|]. cbn. unfold no_delay in Hh. by rewrite Hh. Qed.

Abbreviation load_parts := (load_attempts sendString cancel_connects set_iter connect_answer shuffle
  _bootstrap_hosts _clientIdBytes timeout).

(** The topic has partitions, no error, and these are they. *)
Definition has_partitions (c : KafkaClient) (tp : text * list Z) : Prop :=
  topic_errors c !! tp.1 = Some 0 ∧ topic_partitions c !! tp.1 = Some tp.2 ∧ tp.2 ≠ [].

Lemma snapshot_topic_spec c t ps : snapshot_topic c t = Some ps → has_partitions c (t, ps).
Proof.
  unfold snapshot_topic, has_partitions. cbn [fst snd]. destruct (topic_errors c !! t) as [code|]; [|done].
  destruct (Z.eqb_spec code 0) as [->|]; [|done].
  destruct (topic_partitions c !! t) as [[|p ps']|]; [done| |done]. by intros [= <-].
Qed.

(** An attempt up to its delay. *)
Lemma attempt_spec fuel attempt topics w tr w' r :
  runs (load_parts (S fuel) attempt topics w) tr w' r →
  (omap delay_before tr = [] ∧ match r with Ok l => Forall (has_partitions w'.1) l | Err _ => True end) ∨
  (omap delay_before tr = [attempt] ∧ ∃ e, r = Err e) ∨
  ∃ tr1 names w1 tr2, omap delay_before tr = attempt :: omap delay_before tr2 ∧
    runs (load_parts fuel (attempt + 1) names w1) tr2 w' r ∧ tr = tr1 ++ tr2.
Proof.
  intros H. cbn [load_attempts] in H.
  apply runs_bind in H as [(t1 & w1 & id & t2 & H1 & H & ->)|(e & H & ->)];
    [apply runs_call in H1 as (-> & _)|apply runs_call in H as (-> & _); (left; by split)].
  apply runs_bind in H as [(t3 & w3 & req & t4 & (-> & -> & _) & H & ->)|(e & (-> & -> & _) & ->)]; [|(left; by split)].
  apply runs_bind in H as [(t5 & w5 & resp & t6 & H5 & H & ->)|(e & H & ->)].
  2: { left. split; [|done]. apply no_delays. by eapply unaware_no_delay. }
  apply unaware_no_delay, no_delays in H5.
  apply runs_bind in H as [(t7 & w7 & [bs ts] & t8 & (-> & -> & _) & H & ->)|(e & (-> & -> & _) & ->)].
  2: { left. by rewrite app_nil_r. }
  apply runs_bind in H as [(t9 & w9 & u & t10 & H9 & H & ->)|(e & H & ->)];
    [apply runs_call in H9 as (-> & _)|apply runs_call in H as (-> & _); left; rewrite app_nil_r; by split].
  apply runs_bind in H as [(t11 & w11 & u' & t12 & (-> & -> & _) & H & ->)|(e & (-> & -> & _) & ->)].
  2: { left. by rewrite app_nil_r. }
  apply runs_bind in H as [(t13 & w13 & snap & t14 & H13 & H & ->)|(e & H & ->)];
    [|by apply runs_look in H as (_ & _ & ?)].
  apply runs_look in H13 as (-> & -> & [= ->]). cbn [app]. rewrite omap_app, H5. cbn [app].
  destruct (forallb _ _) eqn:Hall.
  - left. destruct H as (-> & -> & ->). split; [done|]. apply Forall_forall. intros [t ps] Hin.
    apply list_elem_of_omap in Hin as ([t' o] & Hin & Ho). apply list_elem_of_fmap in Hin as (t'' & [= -> ->] & _).
    cbn in Ho. destruct (snapshot_topic _ t'') as [ps'|] eqn:Hs; [|done]. injection Ho as <- <-.
    by apply snapshot_topic_spec.
  - destruct H as (a & w15 & t15 & -> & H). cbn [thread_bind] in H.
    apply runs_bind in H as [(t16 & w16 & u'' & t17 & (-> & -> & _) & H & ->)|(e & (-> & -> & _) & ->)].
    + right. right. eexists (t5 ++ [_]), _, w15, t17. split_and!; [done|exact H|]. by rewrite <- app_assoc.
    + right. left. split; [done|]. eauto.
Qed.

(** [_load_topic_partitions] returns only what its doc promises: every topic
    of the result has no error and has these partitions in the cache at that
    moment, at least one; it tries again after the delays of attempts 1, 2, 3,
    ..., one between two attempts. *)
Theorem partitions_loaded fuel topics (w : world) tr w' r :
  runs (_load_topic_partitions sendString cancel_connects set_iter connect_answer shuffle
          _bootstrap_hosts _clientIdBytes timeout fuel topics w) tr w' r →
  (topics = [] → tr = [] ∧ r = Err PyAssertionError) ∧
  (∃ n, (n ≤ fuel)%nat ∧ omap delay_before tr = seqZ 1 (Z.of_nat n)) ∧
  match r with Ok snapshot => Forall (has_partitions w'.1) snapshot | Err _ => True end.
Proof.
  intros H. unfold _load_topic_partitions in H. destruct topics as [|t topics].
  { destruct H as (-> & _ & ->). split_and!; [done| |done]. exists 0%nat. split; [lia|done]. }
  split; [done|]. cbn [is_empty] in H.
  apply runs_bind in H as [(t1 & w1 & names & t2 & (-> & -> & _) & H & ->)|(e & (-> & -> & _) & ->)].
  2: { split; [|done]. exists 0%nat. split; [lia|done]. }
  cbn [app]. clear t topics. revert H.
  assert (∀ attempt names w tr w' r, runs (load_parts fuel attempt names w) tr w' r →
    (∃ n, (n ≤ fuel)%nat ∧ omap delay_before tr = seqZ attempt (Z.of_nat n)) ∧
    match r with Ok snapshot => Forall (has_partitions w'.1) snapshot | Err _ => True end) as Hall.
  2: { intros H. by eapply Hall. }
  clear. induction fuel as [|fuel IH]; intros attempt names w tr w' r H.
  { destruct H as (-> & _ & ->). split; [|done]. exists 0%nat. split; [lia|done]. }
  apply attempt_spec in H as [[-> Hr]|[[-> [e ->]]|(tr1 & names' & w1 & tr2 & -> & H & ->)]].
  - split; [|done]. exists 0%nat. split; [lia|done].
  - split; [|done]. exists 1%nat. split; [lia|done].
  - apply IH in H as [(n & Hn & ->) Hr]. split; [|done]. exists (S n). split; [lia|].
    rewrite (seqZ_cons attempt) by lia. do 2 f_equal; lia.
Qed.
End runs.

(** ** Timeouts *)

Lemma cancelRequest_frame k now b b' :
  _cancelRequest k now b = Ok b' → proto b' = proto b ∧ bc_deferreds b' = bc_deferreds b.
Proof.
  unfold _cancelRequest, update_request, del_request. destruct (Dict.get k (requests b)) as [r|]; [|done].
  destruct (sent r); [|by intros [= <-]]. intros [= <-]. by destruct (Dict.get _ _).
Qed.

Lemma cancel_frame d now b b' :
  cancel d now b = Ok b' →
  proto b' = proto b ∧
  ∀ x, outstanding x (bc_deferreds b') ↔ outstanding x (bc_deferreds b) ∧ x ≠ d.
Proof.
  unfold cancel. destruct (called d _) eqn:Hc.
  - intros [= <-]. split; [done|]. intros x. split; [|tauto]. intros Hx. split; [done|].
    intros ->. apply called_spec in Hc. by apply Hx in Hc.
  - destruct (cancellers b !! d) as [k|]; [|done]. cbn [mbind result_bind].
    destruct (_cancelRequest k now b) as [b1|] eqn:H1; [|done].
    apply cancelRequest_frame in H1 as [Hp Hd]. cbn. rewrite Hd.
    destruct (fire _ _ _) as [ds|] eqn:Hf; [|done]. intros [= <-]. cbn. split; [done|].
    intros x. by eapply fire_effect.
Qed.

Lemma dict_set_set {K V} `{EqDecision K} (k : K) (v w : V) d :
  Dict.set k w (Dict.set k v d) = Dict.set k w d.
Proof.
  induction d as [|[k' v'] d IH]; cbn; [by rewrite decide_True|].
  destruct (decide (k = k')) as [->|]; cbn; [by rewrite decide_True|]. by rewrite decide_False, IH.
Qed.

Lemma disconnect_frame b :
  same_owner b (disconnect b) ∧ bc_deferreds (disconnect b) = bc_deferreds b ∧
  effects (disconnect b) = effects b ++ (if proto b then [ELoseConnection] else []).
Proof. unfold disconnect. destruct (proto b); [done|]. by rewrite app_nil_r. Qed.

(** C10. When the time of a request is up its deferred is cancelled, so nothing
    waits for it any more and the other requests of the broker are as they
    were; the caller gets [RequestTimedOutError], whatever the deferred ended
    with; if so configured the connection is dropped. A request that has ended
    in time keeps its result and stops the clock. *)
Theorem request_times_out (_disconnect_on_timeout : bool) n d now (t : timed)
    (c : KafkaClient) cs b :
  client_wf c → clients c = Some cs → Dict.get n cs = Some b → (d < issued (bc_deferreds b))%nat →
  ∃ b', let t' := mkTimed false (Some (BrokerError RequestTimedOutError)) in
    _mrtb_timeout _disconnect_on_timeout n d now t c =
      (with_clients (Some (Dict.set n b' cs)) c, Ok t') ∧
    client_wf (with_clients (Some (Dict.set n b' cs)) c) ∧
    ¬ outstanding d (bc_deferreds b') ∧
    (∀ x, x ≠ d → outstanding x (bc_deferreds b') ↔ outstanding x (bc_deferreds b)) ∧
    effects b' = effects b ++ (if _disconnect_on_timeout && proto b then [ELoseConnection] else []) ∧
    (∀ X (x : res X), _mrtb_cb x t' = (t', Err (BrokerError RequestTimedOutError))) ∧
    (∀ X (x : res X), _mrtb_cb x (mkTimed true None) = (mkTimed false None, x)).
Proof.
  intros Hc Hcs Hg Hd. pose proof (wf_clients _ _ Hc) as Hw. rewrite Hcs in Hw.
  destruct Hw as (Hcl & Hnd & Hall). destruct (Hall _ _ Hg) as (Hn & Hbw & Hdn & bm & Hbm & Haddr).
  destruct (cancel_spec d now b Hbw Hd) as (b1 & H1 & Hbw1 & He1 & _).
  destruct (cancel_frame _ _ _ _ H1) as [Hp1 Ho1].
  pose proof (owned_cancel d now b _ H1) as Hs1.
  destruct (disconnect_frame b1) as (Hs2 & Hd2 & He2).
  set (b' := if _disconnect_on_timeout then disconnect b1 else b1).
  assert (same_owner b b') as (Hs & Hsh & Hsp & Hsd).
  { unfold b'. destruct _disconnect_on_timeout; [by etrans|done]. }
  exists b'. cbn. split_and!; try done.
  - unfold _mrtb_timeout, on_brokerclient, mbind, proc_bind. rewrite Hcs, Hg, H1.
    unfold b'. destruct _disconnect_on_timeout; cbn; [|done]. rewrite Dict.get_set_eq. cbn.
    by rewrite dict_set_set.
  - apply (wf_with_clients []); [done..|by apply Dict.NoDup_set|].
    intros n' b2. rewrite Dict.get_set. case_decide as Hn'; [|apply Hall]. intros [= <-]. subst n'.
    split_and!; [congruence| |by apply Hsd|].
    + unfold b'. destruct _disconnect_on_timeout; [|done].
      by apply (handle_wf (λ _, None) Disconnect b1 Hbw1).
    + exists bm. split; [done|]. intros Hr. rewrite (Haddr Hr). congruence.
  - assert (bc_deferreds b' = bc_deferreds b1) as -> by (unfold b'; by destruct _disconnect_on_timeout).
    rewrite Ho1. tauto.
  - intros x Hx. assert (bc_deferreds b' = bc_deferreds b1) as -> by (unfold b'; by destruct _disconnect_on_timeout).
    rewrite Ho1. tauto.
  - unfold b'. destruct _disconnect_on_timeout; cbn; [by rewrite He2, He1, Hp1|by rewrite He1, app_nil_r].
Qed.

(** ** Concrete runs

    The brokers of the sample client do not answer in time, the first bootstrap
    host refuses the connection, the second serves the metadata. *)
Definition hosts : list (text * Z) := [(txt "a", 9092); (txt "b", 9092)].

Definition down_env (w : world) (q : query) : answer q * world :=
  (match q as q return answer q with
   | QRequest _ => Err (BrokerError RequestTimedOutError)
   | QRequests _ => []
   | QCoordinator _ => Err (BrokerError CoordinatorNotAvailable)
   | QConnect hp => if decide (hp = (txt "a", 9092)) then Err TwistedCancelledError else Ok tt
   | QBootstrap _ _ => Ok sample_metadata
   | QDelay _ => Ok tt
   end, w).

Definition sample_world : world := (sample_kafka_client, 0).

Definition unaware_run (w : world) :=
  play down_env (_send_broker_unaware_request no_send_error (λ _, ConnectPending) (λ _ xs, xs) hosts 10000
                   7 [] w).


Definition leader_run (partition : Z) (w : world) :=
  play sample_env (_get_leader_for_partition no_send_error no_connect given_order (λ _, ConnectPending)
                     (λ _ xs, xs) hosts [] 10000 (txt "t") partition w).

Example leader_lookup_witness :
  (leader_run 0 sample_world).1 = [] ∧
  ∃ loaded : res (option bool), (leader_run 9 sample_world).2.2 = match loaded with
    | Err e => Err e
    | Ok _ => match topics_to_brokers (leader_run 9 sample_world).2.1.1
                      !! mkTopicAndPartition (txt "t") 9 with
              | None => Err PartitionUnavailableError
              | Some leader => Ok leader
              end
    end.
Proof.
  pose proof (λ partition w, leader_lookup no_send_error no_connect given_order (λ _, ConnectPending)
    (λ _ xs, xs) hosts [] 10000 (txt "t") partition w _ _ _ (runs_play sample_env _)) as H.
  assert (∀ w bm, topics_to_brokers w.1 !! mkTopicAndPartition (txt "t") 0 = Some (Some bm) →
    (leader_run 0 w).1 = []) as H0.
  { intros w bm Hl. specialize (H 0 w). rewrite Hl in H. apply H. }
  assert (∀ w, topics_to_brokers w.1 !! mkTopicAndPartition (txt "t") 9 = None →
    ∃ loaded : res (option bool), (leader_run 9 w).2.2 = match loaded with
    | Err e => Err e
    | Ok _ => match topics_to_brokers (leader_run 9 w).2.1.1 !! mkTopicAndPartition (txt "t") 9 with
              | None => Err PartitionUnavailableError
              | Some leader => Ok leader
              end
    end) as H9.
  { intros w Hl. specialize (H 9 w). rewrite Hl in H. destruct H as (loaded & _ & H). by exists loaded. }
  split.
  - apply (H0 sample_world (mkBrokerMetadata 2 (txt "kafka2") 9092)). vm_compute. reflexivity.
  - apply (H9 sample_world). vm_compute. reflexivity.
Defined.

(** The coordinator of the group is cached; it answers with an error code. *)
Definition joined_client : KafkaClient :=
  (coordinator_answer no_send_error no_connect given_order 1 (txt "g") (Ok sample_coordinator)
     sample_kafka_client).1.

Definition code_decoder (response : bytes) : res Z := Ok (errno NotCoordinator).

Definition coordinator_run (w : world) :=
  play sample_env (_send_request_to_coordinator no_send_error (λ _, ConnectPending) [] 10000 id (txt "g")
                     tt (λ _ i _, Ok (be_encode 4 i)) code_decoder (Some 30000) w).

Definition joined_world : world := (joined_client, 0).


Definition partitions_run (topics : list pyval) (w : world) :=
  play sample_env (_load_topic_partitions no_send_error no_connect given_order (λ _, ConnectPending)
                     (λ _ xs, xs) hosts [] 10000 3 topics w).

(** The response lists the topic without error. *)
Example partitions_loaded_witness :
  (partitions_run [] sample_world).2.2 = Err PyAssertionError ∧
  (partitions_run [VStr (txt "t")] sample_world).2.2 = Ok [(txt "t", [0; 1; 2])] ∧
  Forall (has_partitions (partitions_run [VStr (txt "t")] sample_world).2.1.1) [(txt "t", [0; 1; 2])].
Proof.
  pose proof (λ topics w, partitions_loaded no_send_error no_connect given_order (λ _, ConnectPending)
    (λ _ xs, xs) hosts [] 10000 3 topics w _ _ _ (runs_play sample_env _)) as H.
  assert (∀ w topics l, (partitions_run topics w).2.2 = Ok l →
    Forall (has_partitions (partitions_run topics w).2.1.1) l) as Hl.
  { intros w topics l Hr. destruct (H topics w) as (_ & _ & Hp). unfold partitions_run in *. by rewrite Hr in Hp. }
  split; [by apply (H [] sample_world)|]. split; [vm_compute; reflexivity|].
  apply (Hl sample_world). vm_compute. reflexivity.
Defined.

(** The request the sample client has made of the first broker times out. *)
Example request_times_out_witness :
  match Dict.get 1 sample_clients with
  | None => False
  | Some b =>
    ∃ b', _mrtb_timeout true 1 0 5 (mkTimed true None) sample_kafka_client =
        (with_clients (Some (Dict.set 1 b' sample_clients)) sample_kafka_client,
         Ok (mkTimed false (Some (BrokerError RequestTimedOutError)))) ∧
      outstanding 0 (bc_deferreds b) ∧ ¬ outstanding 0 (bc_deferreds b') ∧
      _mrtb_cb (Ok tt) (mkTimed false (Some (BrokerError RequestTimedOutError))) =
        (mkTimed false (Some (BrokerError RequestTimedOutError)), Err (BrokerError RequestTimedOutError))
  end.
Proof.
  destruct (Dict.get 1 sample_clients) as [b|] eqn:Hb; [|vm_compute in Hb; discriminate].
  assert (0 < issued (bc_deferreds b))%nat as Hi.
  { vm_compute in Hb. injection Hb as <-. vm_compute. lia. }
  destruct (request_times_out true 1 0 5 (mkTimed true None) sample_kafka_client sample_clients b)
    as (b' & H1 & _ & H2 & _ & _ & H3 & _).
  - apply (client_reachable_wf _ _ _ given_order_perm 0 _ (client_run_reachable _)).
  - vm_compute. reflexivity.
  - exact Hb.
  - exact Hi.
  - exists b'. split; [exact H1|]. split; [|split; [exact H2|apply H3]].
    split; [exact Hi|]. vm_compute in Hb. injection Hb as <-. apply not_elem_of_nil.
Defined.
