(* ===== verification/Producer.v ===== *)
(** [afkak/producer.py]: [Producer], which collects messages into batches, finds
    their partitions, sends one batch at a time and retries what fails. Its
    client is seen through what it knows of a topic ([client_view]) and through
    what it answers, which are part of the events; its partitioners are those
    of a class ([Partitioners]). *)
From S2P Require Import Prelude Common PyBytes Util Codec KafkaCodec Partitioner Deferred Client Routing.
Local Open Scope Z_scope.

(** ** Partitioners

    [partitioner_class(topic, partitions)], and [p.partition(key, partitions)],
    which may change the partitioner. *)
Class Partitioners := {
  partitioner : Type;
  partitioner_class : text → list Z → res partitioner;
  partition : option bytes → list Z → partitioner → partitioner * res Z;
}.

#[export] Instance round_robin : Partitioners := {
  partitioner := RoundRobinPartitioner;
  partitioner_class := _set_partitions false 0;
  partition _ ps p := match rr_partition false 0 p ps with Ok (x, p') => (p', Ok x) | Err e => (p, Err e) end;
}.

(** The hashed partitioner has no state, and raises without a key. *)
Definition hashed (_c_murmur2 : option (bytes → Z)) : Partitioners := {|
  partitioner := unit;
  partitioner_class _ _ := Ok tt;
  partition key ps p := (p, match key with
                            | Some key => hashed_partition _c_murmur2 (KBytes key) ps
                            | None => Err PyTypeError
                            end);
|}.

(** ** The client, as the producer sees it *)
Record client_view := mkView {
  topic_error : text → Z;
  topic_parts : text → option (list Z);
}.

Definition view_of (c : KafkaClient) : client_view :=
  mkView (λ t, default (errno UnknownTopicOrPartitionError) (topic_errors c !! t))
         (λ t, topic_partitions c !! t).

(** [send_produce_request(...)]: responses, or its exception. *)
Abbreviation produce_result := (result (send_exn ProduceRequest ProduceResponse) (list ProduceResponse)).

(** ** State *)

(** What the deferred of a request is called back with: nothing, the response,
    or an exception object that is not wrapped in a [Failure]. *)
Inductive delivered := DNone | DResponse (r : ProduceResponse) | DError (e : exn).

Inductive effect :=
| ELoadMetadata (topic : text)
| ECancelLoad (i : nat)
| ESend (payloads : list ProduceRequest)
| ECancelSend
| ECallLater (increases : nat)
| ECancelCall
| EResetTopics (topics : list text)
| EStartLooper
| EStopLooper.

(** A call of [_next_partition]: it waits for the client or for its delay, or
    has ended. *)
Inductive lookup := LLoading | LDelay | LDone (r : res Z).

(** [payloadsByTopicPart] and [deferredsByTopicPart] of a batch. *)
Record sending := mkSending {
  payloadsByTopicPart : list (TopicAndPartition * ProduceRequest);
  deferredsByTopicPart : list (TopicAndPartition * list nat);
}.

(** Where the processing of a batch, [_batch_send_d], waits: for the partitions
    of its requests, for the client to send the payloads, or for the delay
    before the payloads are sent again. *)
Inductive batch :=
| BLooking (requests : list SendRequest) (lookups : list lookup)
| BSending (s : sending) (payloads : list ProduceRequest)
| BDelay (s : sending) (payloads : list ProduceRequest).

Record config := mkConfig {
  req_acks : Z;
  ack_timeout : Z;
  _max_attempts : Z;
  codec : Z;
  batch_every_n : Z;
  batch_every_b : Z;
  batch_every_t : option Z;
}.

(** [_retry_interval] is the initial one increased that many times. *)
Record Producer `{Partitioners} := mkProducer {
  partitioners : gmap text partitioner;
  _req_attempts : Z;
  _retry_interval : nat;
  _batch_reqs : list SendRequest;
  _waitingMsgCount : Z;
  _waitingByteCount : Z;
  _outstanding : list nat;
  _batch_send_d : option batch;
  _sendLooper : option looping;
  stopping : bool;
  pd_deferreds : deferreds delivered;
  pd_effects : list effect;
}.

Section producer.
Context `{PS : Partitioners} `{CompressionLib} (cfg : config).
Implicit Types (p : Producer).

Definition with_partitioners x p : Producer :=
  mkProducer _ x (_req_attempts p) (_retry_interval p) (_batch_reqs p) (_waitingMsgCount p)
    (_waitingByteCount p) (_outstanding p) (_batch_send_d p) (_sendLooper p) (stopping p)
    (pd_deferreds p) (pd_effects p).
Definition with_attempts x i p : Producer :=
  mkProducer _ (partitioners p) x i (_batch_reqs p) (_waitingMsgCount p) (_waitingByteCount p)
    (_outstanding p) (_batch_send_d p) (_sendLooper p) (stopping p) (pd_deferreds p) (pd_effects p).
Definition with_waiting reqs n b p : Producer :=
  mkProducer _ (partitioners p) (_req_attempts p) (_retry_interval p) reqs n b (_outstanding p)
    (_batch_send_d p) (_sendLooper p) (stopping p) (pd_deferreds p) (pd_effects p).
Definition with_batch x p : Producer :=
  mkProducer _ (partitioners p) (_req_attempts p) (_retry_interval p) (_batch_reqs p)
    (_waitingMsgCount p) (_waitingByteCount p) (_outstanding p) x (_sendLooper p) (stopping p)
    (pd_deferreds p) (pd_effects p).
Definition with_deferreds out ds p : Producer :=
  mkProducer _ (partitioners p) (_req_attempts p) (_retry_interval p) (_batch_reqs p)
    (_waitingMsgCount p) (_waitingByteCount p) out (_batch_send_d p) (_sendLooper p) (stopping p) ds
    (pd_effects p).
Definition with_looper x p : Producer :=
  mkProducer _ (partitioners p) (_req_attempts p) (_retry_interval p) (_batch_reqs p)
    (_waitingMsgCount p) (_waitingByteCount p) (_outstanding p) (_batch_send_d p) x (stopping p)
    (pd_deferreds p) (pd_effects p).
Definition with_stopping x p : Producer :=
  mkProducer _ (partitioners p) (_req_attempts p) (_retry_interval p) (_batch_reqs p)
    (_waitingMsgCount p) (_waitingByteCount p) (_outstanding p) (_batch_send_d p) (_sendLooper p) x
    (pd_deferreds p) (pd_effects p).
Definition emit (e : effect) p : Producer :=
  mkProducer _ (partitioners p) (_req_attempts p) (_retry_interval p) (_batch_reqs p)
    (_waitingMsgCount p) (_waitingByteCount p) (_outstanding p) (_batch_send_d p) (_sendLooper p)
    (stopping p) (pd_deferreds p) (pd_effects p ++ [e]).

Abbreviation pmeth := (proc exn Producer).

(** ** Deferreds of requests *)

(** [self._outstanding.remove(d)] *)
Fixpoint remove_first (d : nat) (ds : list nat) : list nat :=
  match ds with
  | [] => []
  | d' :: ds => if decide (d = d') then ds else d' :: remove_first d ds
  end.

(** [d.callback(x)] and [d.errback(e)]; the first callback of [d] is
    [_remove_from_outstanding]. *)
Definition settle (d : nat) (o : outcome delivered) : pmeth unit := λ p,
  match fire d o (pd_deferreds p) with
  | Ok ds => (with_deferreds (remove_first d (_outstanding p)) ds p, Ok tt)
  | Err e => (p, Err e)
  end.

Definition is_called (d : nat) : pmeth bool := pget (λ p, called d (pd_deferreds p)).

(** [_deliver_result(d_list, result)] *)
Definition _deliver_result (ds : list nat) (result : outcome delivered) : pmeth unit :=
  pfor_each ds (λ d, c ← is_called d; if c : bool then mret tt else settle d result).

(** ** Partitions *)

Definition pick_partition (view : client_view) (topic : text) (key : option bytes) : pmeth lookup :=
  match topic_parts view topic with
  | None => mret (LDone (Err PyKeyError))
  | Some partitions =>
    known ← pget (λ p, partitioners p !! topic);
    match (match known with Some pt => Ok pt | None => partitioner_class topic partitions end) with
    | Err e => mret (LDone (Err e))
    | Ok pt =>
      let '(pt, r) := partition key partitions pt in
      _ ← pmodify (λ p, with_partitioners (<[topic := pt]> (partitioners p)) p);
      mret (LDone r)
    end
  end.

(** From the test of the loop to where it waits or ends. *)
Definition _next_partition (view : client_view) (topic : text) (key : option bytes) : pmeth lookup :=
  if topic_error view topic =? 0 then pick_partition view topic key
  else
    attempts ← pget _req_attempts;
    match (if _max_attempts cfg <=? attempts then raise_for_errno (topic_error view topic) else Ok tt) with
    | Err e => mret (LDone (Err e))
    | Ok _ => _ ← pmodify (emit (ELoadMetadata topic)); mret LLoading
    end.

(** After [yield self.client.load_metadata_for_topics(topic)]. *)
Definition metadata_loaded (view : client_view) (topic : text) (key : option bytes) (loaded : res unit)
    : pmeth lookup :=
  match loaded with
  | Err e => mret (LDone (Err e))
  | Ok _ =>
    if topic_error view topic =? 0 then pick_partition view topic key
    else
      _ ← pmodify (λ p, emit (ECallLater (_retry_interval p))
                          (with_attempts (_req_attempts p + 1) (S (_retry_interval p)) p));
      mret LDelay
  end.

Fixpoint lookups_of (view : client_view) (requests : list SendRequest) : pmeth (list lookup) :=
  match requests with
  | [] => mret []
  | req :: requests =>
    l ← _next_partition view (sr_topic req) (sr_key req);
    ls ← lookups_of view requests;
    mret (l :: ls)
  end.

(** ** Sending *)

(** The first loop of [_send_requests]. *)
Fixpoint sort_requests (found : list (res Z * SendRequest))
    (reqsByTopicPart : list (TopicAndPartition * list SendRequest))
    : pmeth (list (TopicAndPartition * list SendRequest)) :=
  match found with
  | [] => mret reqsByTopicPart
  | (part_or_failure, req) :: found =>
    c ← is_called (sr_deferred req);
    if c : bool then sort_requests found reqsByTopicPart
    else
      match part_or_failure with
      | Err e => _ ← settle (sr_deferred req) (Failure e); sort_requests found reqsByTopicPart
      | Ok partition =>
        let topicPart := mkTopicAndPartition (sr_topic req) partition in
        sort_requests found (dict_append topicPart req reqsByTopicPart)
      end
  end.

(** The second. *)
Fixpoint build_payloads (reqs : list (TopicAndPartition * list SendRequest))
    : res (list (TopicAndPartition * ProduceRequest)) :=
  match reqs with
  | [] => Ok []
  | (topicPart, rs) :: reqs =>
    msgSet ← create_message_set rs (codec cfg);
    payloads ← build_payloads reqs;
    Ok ((topicPart, mkProduceRequest (tp_topic topicPart) (tp_partition topicPart) msgSet) :: payloads)
  end.

(** [self.client.send_produce_request(payloads, ...); self._req_attempts += 1] *)
Definition send_payloads (s : sending) (payloads : list ProduceRequest) : pmeth (option batch) :=
  _ ← pmodify (λ p, emit (ESend payloads) (with_attempts (_req_attempts p + 1) (_retry_interval p) p));
  mret (Some (BSending s payloads)).

Definition deferreds_of (reqs : list (TopicAndPartition * list SendRequest))
    : list (TopicAndPartition * list nat) :=
  (λ kv : TopicAndPartition * list SendRequest, (kv.1, sr_deferred <$> kv.2)) <$> reqs.

(** [None] when there is nothing to wait for. *)
Definition _send_requests (parts_results : list (res Z)) (requests : list SendRequest)
    : pmeth (option batch) :=
  reqs ← sort_requests (zip parts_results requests) [];
  payloads ← plift (build_payloads reqs);
  if is_empty payloads then mret None
  else send_payloads (mkSending payloads (deferreds_of reqs)) payloads.*2.

(** ** Responses *)

(** The failure of a payload: a [Failure], or the exception of its response. *)
Inductive failure := FFailure (e : exn) | FException (e : exn).

Definition deliver_failure (f : failure) : outcome delivered :=
  match f with FFailure e => Failure e | FException e => Success (DError e) end.

Definition stale (f : failure) : bool :=
  match f with
  | FException (BrokerError (NotLeaderForPartitionError | UnknownTopicOrPartitionError)) => true
  | _ => false
  end.

Definition payload_key (r : ProduceRequest) : TopicAndPartition :=
  mkTopicAndPartition (pr_topic r) (pr_partition r).
Definition response_key (r : ProduceResponse) : TopicAndPartition :=
  mkTopicAndPartition (prr_topic r) (prr_partition r).

Definition deferreds_at (s : sending) (k : TopicAndPartition) : list nat :=
  default [] (Dict.get k (deferredsByTopicPart s)).
Definition all_deferreds (s : sending) : list nat := concat (deferredsByTopicPart s).*2.

Definition _check_retry_payloads (s : sending) (failed_payloads : list (ProduceRequest * failure))
    : pmeth (option batch) :=
  attempts ← pget _req_attempts;
  if _max_attempts cfg <=? attempts then
    _ ← pfor_each failed_payloads
          (λ pf, _deliver_result (deferreds_at s (payload_key pf.1)) (deliver_failure pf.2));
    mret None
  else
    _ ← pmodify (λ p, emit (ECallLater (_retry_interval p))
                        (with_attempts (_req_attempts p) (S (_retry_interval p)) p));
    let reset_topics := remove_dups (pr_topic <$> (filter (λ pf, stale pf.2 = true) failed_payloads).*1) in
    _ ← (if is_empty reset_topics then mret tt else pmodify (emit (EResetTopics reset_topics)));
    mret (Some (BDelay s failed_payloads.*1)).

(** [for res in result: ...]. An error for a partition that no payload of the
    batch has is not what the client answers ([answer_fits]); the code would
    trip over the empty list its [defaultdict] makes up. *)
Fixpoint handle_responses (s : sending) (result : list ProduceResponse)
    (failed_payloads : list (ProduceRequest * failure)) : pmeth (list (ProduceRequest * failure)) :=
  match result with
  | [] => mret failed_payloads
  | res :: result =>
    match raise_for_errno (prr_error res) with
    | Err e =>
      match Dict.get (response_key res) (payloadsByTopicPart s) with
      | Some p => handle_responses s result (failed_payloads ++ [(p, FException e)])
      | None => praise PyAttributeError
      end
    | Ok _ =>
      _ ← _deliver_result (deferreds_at s (response_key res)) (Success (DResponse res));
      handle_responses s result failed_payloads
    end
  end.

Definition _handle_send_response (s : sending) (result : produce_result) : pmeth (option batch) :=
  let handle result failed_payloads :=
    failed_payloads ← handle_responses s result failed_payloads;
    if is_empty failed_payloads then mret None else _check_retry_payloads s failed_payloads in
  match result with
  | Ok [] =>
    _ ← _deliver_result (all_deferreds s)
          (if req_acks cfg =? PRODUCER_ACK_NOT_REQUIRED then Success DNone else Failure NoResponseError);
    mret None
  | Ok result => handle result []
  | Err (SExn e) =>
    if is_KafkaError e then handle [] ((λ payload, (payload, FFailure e)) <$> (payloadsByTopicPart s).*2)
    else _ ← _deliver_result (all_deferreds s) (Failure e); mret None
  | Err (SFailedPayloads responses failed_payloads) =>
    handle responses ((λ pe : ProduceRequest * exn, (pe.1, FFailure pe.2)) <$> failed_payloads)
  end.

(** ** Batches *)

Definition _complete_batch_send p : Producer := with_attempts 0 0 (with_batch None p).

Definition is_done (l : lookup) : bool := match l with LDone _ => true | _ => false end.
Definition lookup_result (l : lookup) : res Z := match l with LDone r => r | _ => Err OutOfFuel end.

(** [_check_send_batch] does what follows if there is enough. *)
Definition enough p : bool :=
  (negb (batch_every_n cfg =? 0) && (batch_every_n cfg <=? _waitingMsgCount p)) ||
  (negb (batch_every_b cfg =? 0) && (batch_every_b cfg <=? _waitingByteCount p)).

(** A step of the chain of [_batch_send_d] that ends in a deferred is waited
    for; any other end, an exception included, completes the batch. [check] is
    the [_check_send_batch] that comes last. *)
Definition chain (check : pmeth unit) (m : pmeth (option batch)) : pmeth unit := λ p,
  match m p with
  | (p, Ok (Some b)) => (with_batch (Some b) p, Ok tt)
  | (p, _) => check (_complete_batch_send p)
  end.

(** The [DeferredList] of the lookups fires when all have ended. *)
Definition looking (check : pmeth unit) (requests : list SendRequest) (ls : list lookup) : pmeth unit :=
  _ ← pmodify (with_batch (Some (BLooking requests ls)));
  if forallb is_done ls then chain check (_send_requests (lookup_result <$> ls) requests) else mret tt.

Definition send_batch (check : pmeth unit) (view : client_view) : pmeth unit :=
  requests ← pget _batch_reqs;
  b ← pget _batch_send_d;
  if is_empty requests || bool_decide (is_Some (b : option batch)) then mret tt
  else
    _ ← pmodify (with_waiting [] 0 0);
    ls ← lookups_of view requests;
    looking check requests ls.

(** A batch can complete at once, and then the check is made again; that one
    finds nothing waiting. *)
Fixpoint check_send_batch (fuel : nat) (view : client_view) : pmeth unit :=
  match fuel with
  | O => praise OutOfFuel
  | S fuel =>
    e ← pget enough;
    if e : bool then send_batch (check_send_batch fuel view) view else mret tt
  end.

Definition _check_send_batch (view : client_view) : pmeth unit := check_send_batch 2 view.
Definition _send_batch (view : client_view) : pmeth unit := send_batch (_check_send_batch view) view.

(** ** The interface *)

(** [send_messages]: the exception it fails with at once, or its deferred. *)
Fixpoint check_messages (msgs : list (option pyval)) : res (list (option bytes) * Z) :=
  match msgs with
  | [] => Ok ([], 0)
  | m :: msgs =>
    m ← match m with
        | None => Ok (None, 0)
        | Some (VBytes b) => Ok (Some b, len b)
        | Some _ => Err PyTypeError
        end;
    '(ms, byte_cnt) ← check_messages msgs;
    Ok (m.1 :: ms, m.2 + byte_cnt)
  end.

Definition check_arguments (topic : pyval) (key : option pyval) (msgs : list (option pyval))
    : res (text * option bytes * list (option bytes) * Z) :=
  topic ← _coerce_topic topic;
  key ← match key with
        | None => Ok None
        | Some (VBytes b) => Ok (Some b)
        | Some _ => Err PyTypeError
        end;
  if is_empty msgs then Err PyValueError
  else '(ms, byte_cnt) ← check_messages msgs; Ok (topic, key, ms, byte_cnt).

Definition send_messages (view : client_view) (topic : pyval) (key : option pyval)
    (msgs : list (option pyval)) : pmeth (exn + nat) :=
  match check_arguments topic key msgs with
  | Err e => mret (inl e)
  | Ok (topic, key, ms, byte_cnt) =>
    d ← pget (λ p, issued (pd_deferreds p));
    _ ← pmodify (λ p, with_deferreds (_outstanding p ++ [d]) (new_deferred (pd_deferreds p)).2
          (with_waiting (_batch_reqs p ++ [mkSendRequest topic key ms d])
             (_waitingMsgCount p + len ms) (_waitingByteCount p + byte_cnt) p));
    _ ← _check_send_batch view;
    mret (inr d)
  end.

(** [len(m)] of the messages that are not [None]. *)
Definition message_bytes (ms : list (option bytes)) : Z :=
  foldr (λ m n, match m with Some b => len b + n | None => n end) 0 ms.

(** [d.cancel()] of a request's deferred. *)
Definition _cancel_send_messages (d : nat) : pmeth unit :=
  reqs ← pget _batch_reqs;
  match filter (λ req, sr_deferred req = d) (reqs : list SendRequest) with
  | req :: _ =>
    _ ← pmodify (λ p, with_waiting (filter (λ req, sr_deferred req ≠ d) (_batch_reqs p))
          (_waitingMsgCount p - len (sr_messages req))
          (_waitingByteCount p - message_bytes (sr_messages req)) p);
    settle d (Failure (CancelledError (Some false)))
  | [] =>
    b ← pget _batch_send_d;
    settle d (Failure (CancelledError (Some (bool_decide (is_Some (b : option batch))))))
  end.

Definition cancel (d : nat) : pmeth unit :=
  c ← is_called d; if c : bool then mret tt else _cancel_send_messages d.

Definition _cancel_outstanding : pmeth unit :=
  ds ← pget _outstanding; pfor_each ds cancel.

(** ** Answers *)

(** What a lookup of the batch in progress becomes. *)
Definition lookup_step (check : pmeth unit) (i : nat) (step : SendRequest → pmeth lookup) : pmeth unit :=
  b ← pget _batch_send_d;
  match b with
  | Some (BLooking requests ls) =>
    match requests !! i with
    | Some req => l ← step req; looking check requests (<[i := l]> ls)
    | None => mret tt
    end
  | _ => mret tt
  end.

Definition loaded_answer (view : client_view) (i : nat) (loaded : res unit) : pmeth unit :=
  lookup_step (_check_send_batch view) i
    (λ req, metadata_loaded view (sr_topic req) (sr_key req) loaded).

Definition delay_elapsed (view : client_view) (i : nat) : pmeth unit :=
  lookup_step (_check_send_batch view) i (λ req, _next_partition view (sr_topic req) (sr_key req)).

Definition send_answer (view : client_view) (result : produce_result) : pmeth unit :=
  b ← pget _batch_send_d;
  match b with
  | Some (BSending s _) => chain (_check_send_batch view) (_handle_send_response s result)
  | _ => mret tt
  end.

(** [_do_retry] *)
Definition retry_elapsed (view : client_view) : pmeth unit :=
  b ← pget _batch_send_d;
  match b with
  | Some (BDelay s payloads) => chain (_check_send_batch view) (send_payloads s payloads)
  | _ => mret tt
  end.

(** ** Stopping *)

(** [self._batch_send_d.cancel()]: the lookups that wait for a delay fail, the
    client is asked to give up what it does, a retry is called off
    ([_cancel_retry]). *)
Definition cancel_lookup (l : lookup) : lookup :=
  match l with LDelay => LDone (Err TwistedCancelledError) | l => l end.

Definition loading_indices (ls : list lookup) : list nat :=
  omap (λ il : nat * lookup, match il.2 with LLoading => Some il.1 | _ => None end) (imap pair ls).

Definition cancel_batch (view : client_view) : pmeth unit :=
  b ← pget _batch_send_d;
  match b with
  | None => mret tt
  | Some (BLooking requests ls) =>
    _ ← pfor_each (loading_indices ls) (λ i, pmodify (emit (ECancelLoad i)));
    looking (_check_send_batch view) requests (cancel_lookup <$> ls)
  | Some (BSending _ _) => pmodify (emit ECancelSend)
  | Some (BDelay s _) =>
    chain (_check_send_batch view)
      (_ ← pmodify (emit ECancelCall);
       _ ← _deliver_result (all_deferreds s) (Failure TwistedCancelledError);
       praise TwistedCancelledError)
  end.

(** [_send_timer_stopped] is the callback of the first start only; a looping
    call that does not run cannot be stopped. *)
Definition stop_looper : pmeth unit :=
  l ← pget _sendLooper;
  match batch_every_t cfg, l with
  | Some _, Some (LoopRunning reports) =>
    _ ← pmodify (emit EStopLooper);
    pmodify (with_looper (if reports then None else Some LoopStopped))
  | Some _, Some LoopStopped => praise PyAssertionError
  | _, _ => mret tt
  end.

(** [loads] and [sent] are what the client calls back with while its calls are
    being cancelled. *)
Definition stop (view : client_view) (loads : list (nat * res unit)) (sent : option produce_result)
    : pmeth unit :=
  _ ← pmodify (with_stopping true);
  _ ← cancel_batch view;
  _ ← pfor_each loads (λ il, loaded_answer view il.1 il.2);
  _ ← match sent with Some r => send_answer view r | None => mret tt end;
  _ ← stop_looper;
  _cancel_outstanding.

Definition _send_timer_failed p : Producer :=
  with_looper (Some (LoopRunning false)) (emit EStartLooper p).
End producer.

(** ** Construction *)

(** An argument that should be an [Integral]. *)
Inductive pyint := PInt (z : Z) | PNotInt.

Definition integral (x : pyint) : res Z := match x with PInt z => Ok z | PNotInt => Err PyTypeError end.

Definition check_codec (codec : option pyint) : res Z :=
  match codec with
  | None => Ok CODEC_NONE
  | Some (PInt z) => if decide (z ∈ _SUPPORTED_CODECS) then Ok z else Err UnsupportedCodecError
  | Some PNotInt => Err PyTypeError
  end.

(** [Producer(...)]. *)
Definition __init__ `{Partitioners} (req_acks ack_timeout max_req_attempts : Z) (codec : option pyint)
    (batch_send : bool) (batch_every_n batch_every_b : pyint) (batch_every_t : option Z)
    : res (config * Producer) :=
  '(n, b, t) ← (if batch_send then
                  n ← integral batch_every_n; b ← integral batch_every_b; Ok (n, b, batch_every_t)
                else Ok (1, 1, None));
  codec ← check_codec codec;
  let looping := match t with Some t => negb (t =? 0) | None => false end in
  Ok (mkConfig req_acks ack_timeout max_req_attempts codec n b t,
      mkProducer _ ∅ 0 0 [] 0 0 [] None (if looping then Some (LoopRunning true) else None) false
        no_deferreds (if looping then [EStartLooper] else [])).

(** ** The producer as a state machine

    Calls of its methods, ticks of its looping call, and answers to what it waits
    for, in any order. Each event comes with what the client knows then. *)
Inductive event :=
| SendMessages (topic : pyval) (key : option pyval) (msgs : list (option pyval))
| CancelRequest (d : nat)
| Tick
| LooperFailed
| MetadataLoaded (i : nat) (loaded : res unit)
| DelayElapsed (i : nat)
| SendAnswer (result : produce_result)
| RetryElapsed
| Stop (loads : list (nat * res unit)) (sent : option produce_result).

Section machine.
Context `{PS : Partitioners} `{CompressionLib} (cfg : config).

#[export] Instance ProduceRequest_eq_dec : EqDecision ProduceRequest.
Proof. solve_decision. Defined.

(** What the client answers: responses to the payloads it was sent, and failed
    payloads among them ([Routing.in_order], [Routing.gather]). *)
Definition answer_fits (payloads : list ProduceRequest) (result : produce_result) : bool :=
  let fits responses :=
    forallb (λ r, bool_decide (response_key r ∈ payload_key <$> payloads)) responses in
  match result with
  | Ok responses => fits responses
  | Err (SExn _) => true
  | Err (SFailedPayloads responses failed) =>
    fits responses && forallb (λ pe : ProduceRequest * exn, bool_decide (pe.1 ∈ payloads)) failed
  end.

Definition lookup_at (i : nat) (p : Producer) : option lookup :=
  match _batch_send_d p with Some (BLooking _ ls) => ls !! i | _ => None end.

Definition enabled (e : event) (p : Producer) : bool :=
  match e with
  | SendMessages _ _ _ => true
  | CancelRequest d => bool_decide (d < issued (pd_deferreds p))%nat
  | Tick | LooperFailed => match _sendLooper p with Some (LoopRunning _) => true | _ => false end
  | MetadataLoaded i _ => match lookup_at i p with Some LLoading => true | _ => false end
  | DelayElapsed i => match lookup_at i p with Some LDelay => true | _ => false end
  | SendAnswer result =>
    match _batch_send_d p with Some (BSending _ payloads) => answer_fits payloads result | _ => false end
  | RetryElapsed => match _batch_send_d p with Some (BDelay _ _) => true | _ => false end
  | Stop loads sent =>
    match _batch_send_d p, sent with
    | Some (BLooking _ ls), None =>
      bool_decide (NoDup loads.*1 ∧ loads.*1 ⊆ loading_indices ls)
    | Some (BSending _ payloads), Some result => is_empty loads && answer_fits payloads result
    | _, _ => is_empty loads && bool_decide (sent = None)
    end
  end.

Definition handle (view : client_view) (e : event) : proc exn Producer unit :=
  match e with
  | SendMessages topic key msgs => _ ← send_messages cfg view topic key msgs; mret tt
  | CancelRequest d => cancel d
  | Tick => _send_batch cfg view
  | LooperFailed => pmodify _send_timer_failed
  | MetadataLoaded i loaded => loaded_answer cfg view i loaded
  | DelayElapsed i => delay_elapsed cfg view i
  | SendAnswer result => send_answer cfg view result
  | RetryElapsed => retry_elapsed cfg view
  | Stop loads sent => stop cfg view loads sent
  end.

Definition step (view : client_view) (e : event) (p : Producer) : Producer := (handle view e p).1.

Inductive reachable (p0 : Producer) : Producer → Prop :=
| reach_init : reachable p0 p0
| reach_step view e p : reachable p0 p → enabled e p = true → reachable p0 (step view e p).
End machine.
