(* ===== verification/ProducerInvariant.v ===== *)
(** What each operation of the producer does, as equations, and the invariant of
    its states. *)
From S2P Require Import Prelude Common PyBytes Util Codec KafkaCodec Partitioner Deferred Client Routing Producer.
Local Open Scope Z_scope.

(** ** Settling deferreds *)

Section settle.
Context `{PS : Partitioners} `{CompressionLib} (cfg : config).
Implicit Types (p : Producer).

Definition uncalled (p : Producer) (d : nat) : Prop := called d (pd_deferreds p) = false.

(** The deferreds have been fired, in this order. *)
Definition settled (fs : list (nat * outcome delivered)) p : Producer :=
  with_deferreds (foldl (λ ds f, remove_first f.1 ds) (_outstanding p) fs)
    (mkDeferreds (issued (pd_deferreds p)) (firings (pd_deferreds p) ++ fs) (suppressed (pd_deferreds p))) p.

Lemma settled_nil p : settled [] p = p.
Proof. unfold settled. rewrite app_nil_r. by destruct p as [??????????[]?]. Qed.

Lemma settled_app fs fs' p : settled (fs ++ fs') p = settled fs' (settled fs p).
Proof. unfold settled. cbn. by rewrite foldl_app, <- app_assoc. Qed.

Lemma settle_eq d o p : uncalled p d → settle d o p = (settled [(d, o)] p, Ok tt).
Proof. unfold settle, fire, uncalled. by intros ->. Qed.

Lemma uncalled_settled fs p d : uncalled (settled fs p) d ↔ uncalled p d ∧ d ∉ fs.*1.
Proof.
  unfold uncalled, called. cbn. rewrite !bool_decide_eq_false, fmap_app, elem_of_app. naive_solver.
Qed.

#[export] Instance uncalled_dec p d : Decision (uncalled p d).
Proof. unfold uncalled. apply _. Defined.

Lemma deliver_eq o ds : ∀ p, NoDup ds →
  _deliver_result ds o p = (settled ((λ d, (d, o)) <$> filter (uncalled p) ds) p, Ok tt).
Proof.
  unfold _deliver_result. induction ds as [|d ds IH]; intros p Hnd; [by rewrite settled_nil|].
  apply NoDup_cons in Hnd as [Hd Hnd]. rewrite filter_cons. destruct (decide (uncalled p d)) as [Hu|Hu].
  - rewrite (pfor_each_step _ _ _ _ (settled [(d, o)] p)).
    2: { unfold is_called, mbind, proc_bind, pget. rewrite Hu. by apply settle_eq. }
    rewrite IH by done. rewrite fmap_cons, <- settled_app. cbn [app].
    repeat f_equal. apply filter_ext_in. intros d' Hd'. rewrite uncalled_settled.
    cbn. rewrite list_elem_of_singleton. split; [tauto|]. intros. split; [done|]. intros ->. done.
  - rewrite (pfor_each_step _ _ _ _ p); [by apply IH|].
    unfold is_called, mbind, proc_bind, pget. unfold uncalled in Hu.
    by destruct (called d (pd_deferreds p)).
Qed.

(** Results delivered one after another: a deferred gets the first. *)
Fixpoint fires (l : list (list nat * outcome delivered)) p : list (nat * outcome delivered) :=
  match l with
  | [] => []
  | (ds, o) :: l => let fs := (λ d, (d, o)) <$> filter (uncalled p) ds in fs ++ fires l (settled fs p)
  end.

Lemma fires_snd (ds : list nat) (o : outcome delivered) : ((λ d, (d, o)) <$> ds).*1 = ds.
Proof. rewrite <- list_fmap_compose. apply list_fmap_id. Qed.

Lemma fires_sound l : ∀ p d o, (d, o) ∈ fires l p → uncalled p d ∧ ∃ ds, (ds, o) ∈ l ∧ d ∈ ds.
Proof.
  induction l as [|[ds o'] l IH]; intros p d o; cbn; [by intros ?%elem_of_nil|].
  rewrite elem_of_app. intros [Hin|Hin].
  - apply list_elem_of_fmap in Hin as (d' & [= <- <-] & Hin). apply list_elem_of_filter in Hin as [Hu Hd].
    split; [done|]. exists ds. split; [apply list_elem_of_here|done].
  - apply IH in Hin as [Hu (ds' & Hl & Hd)]. apply uncalled_settled in Hu as [Hu _].
    split; [done|]. exists ds'. split; [by apply list_elem_of_further|done].
Qed.

Lemma fires_nodup l : ∀ p, Forall (λ dso, NoDup dso.1) l → NoDup (fires l p).*1.
Proof.
  induction l as [|[ds o] l IH]; intros p Hl; cbn; [constructor|].
  apply Forall_cons in Hl as [Hds Hl]. rewrite fmap_app, fires_snd. apply NoDup_app. split_and!.
  - by apply NoDup_filter.
  - intros d Hd Hin. apply list_elem_of_fmap in Hin as ([d' o'] & -> & Hin).
    apply fires_sound in Hin as [Hu _]. apply uncalled_settled in Hu as [_ Hu].
    by rewrite fires_snd in Hu.
  - by apply IH.
Qed.

(** Every deferred in the list has fired, each with the first result for it. *)
Lemma fires_first l1 ds o l2 : ∀ p d,
  uncalled p d → d ∈ ds → (∀ dso, dso ∈ l1 → d ∉ dso.1) → (d, o) ∈ fires (l1 ++ (ds, o) :: l2) p.
Proof.
  induction l1 as [|[ds1 o1] l1 IH]; intros p d Hu Hd Hl; cbn; apply elem_of_app.
  - left. apply list_elem_of_fmap. exists d. split; [done|]. by apply list_elem_of_filter.
  - right. apply IH; [|done|set_solver]. apply uncalled_settled. split; [done|]. rewrite fires_snd.
    intros [_ Hin]%list_elem_of_filter. apply (Hl (ds1, o1)); [apply list_elem_of_here|done].
Qed.

Lemma deliver_each_eq l : ∀ p,
  Forall (λ dso, NoDup dso.1) l →
  pfor_each l (λ dso, _deliver_result dso.1 dso.2) p = (settled (fires l p) p, Ok tt).
Proof.
  induction l as [|[ds o] l IH]; intros p Hl; [by rewrite settled_nil|].
  apply Forall_cons in Hl as [Hds Hl]. rewrite (pfor_each_step (ds, o) l _ p _ (deliver_eq o ds p Hds)).
  rewrite IH by done. cbn. by rewrite settled_app.
Qed.

(** ** The partitions of a batch *)

(** Finding partitions changes partitioners, attempts and the delay only. *)
Definition same_books p p' : Prop :=
  _batch_reqs p' = _batch_reqs p ∧ _waitingMsgCount p' = _waitingMsgCount p ∧
  _waitingByteCount p' = _waitingByteCount p ∧ _outstanding p' = _outstanding p ∧
  _batch_send_d p' = _batch_send_d p ∧ _sendLooper p' = _sendLooper p ∧
  pd_deferreds p' = pd_deferreds p ∧ _req_attempts p ≤ _req_attempts p'.

#[export] Instance same_books_preorder : PreOrder same_books.
Proof.
  unfold same_books. split; [intros p; by split_and!|].
  intros p1 p2 p3 H1 H2. destruct_and!. split_and!; first [congruence|lia].
Qed.

(** A procedure that cannot raise. *)
Definition books {A} (m : proc exn Producer A) : Prop :=
  ∀ p, ∃ p' a, m p = (p', Ok a) ∧ same_books p p'.

Lemma books_bind {A B} (m : proc exn Producer A) (f : A → proc exn Producer B) :
  books m → (∀ a, books (f a)) → books (m ≫= f).
Proof.
  intros Hm Hf p. destruct (Hm p) as (p1 & a & H1 & Hs). destruct (Hf a p1) as (p2 & b & H2 & Hs').
  exists p2, b. rewrite (proc_bind_ok _ _ _ _ _ H1). split; [done|by etrans].
Qed.

Lemma books_ret {A} (a : A) : books (mret a).
Proof. intros p. by exists p, a. Qed.
Lemma books_get {A} (f : Producer → A) : books (pget f).
Proof. intros p. by exists p, (f p). Qed.
Lemma books_modify f : (∀ p, same_books p (f p)) → books (pmodify f).
Proof. intros Hf p. by exists (f p), tt. Qed.

Ltac books_steps :=
  repeat first
    [ lazymatch goal with
      | |- books (_ ≫= _) => apply books_bind; [|intros ?]
      | |- books (mret _) => apply books_ret
      | |- books (pget _) => apply books_get
      | |- books (pmodify _) => apply books_modify; intros ?; unfold same_books; cbn; split_and!; first [done|lia]
      end
    | case_match ].

Lemma pick_books view t k : books (pick_partition view t k).
Proof. unfold pick_partition. books_steps. Qed.

Lemma next_partition_books view t k : books (_next_partition cfg view t k).
Proof. unfold _next_partition. books_steps. apply pick_books. Qed.

Lemma metadata_loaded_books view t k r : books (metadata_loaded view t k r).
Proof. unfold metadata_loaded. books_steps. apply pick_books. Qed.

Lemma lookups_books view requests p :
  ∃ p' ls, lookups_of cfg view requests p = (p', Ok ls) ∧ same_books p p' ∧ length ls = length requests.
Proof.
  revert p. induction requests as [|req reqs IH]; intros p; [by exists p, []|]. cbn [lookups_of].
  destruct (next_partition_books view (sr_topic req) (sr_key req) p) as (p1 & l & H1 & Hs1).
  rewrite (proc_bind_ok _ _ _ _ _ H1). destruct (IH p1) as (p2 & ls & H2 & Hs2 & Hl).
  rewrite (proc_bind_ok _ _ _ _ _ H2). exists p2, (l :: ls). split_and!; [done|by etrans|cbn; by rewrite Hl].
Qed.

(** ** Sending a batch *)

Abbreviation found := (list (res Z * SendRequest)).

(** The requests that have not been cancelled meanwhile; those of them without
    partition, and the others under theirs. *)
Definition live p (l : found) : found := filter (λ rq, uncalled p (sr_deferred rq.2)) l.
Definition refused (l : found) : list (nat * outcome delivered) :=
  omap (λ rq, match rq.1 with Err e => Some (sr_deferred rq.2, Failure e) | Ok _ => None end) l.
Definition placed (l : found) : list (TopicAndPartition * SendRequest) :=
  omap (λ rq, match rq.1 with
              | Ok x => Some (mkTopicAndPartition (sr_topic rq.2) x, rq.2)
              | Err _ => None
              end) l.

Lemma sort_requests_eq (l : found) : ∀ acc p,
  NoDup (sr_deferred <$> l.*2) →
  sort_requests l acc p = (settled (refused (live p l)) p, Ok (collect (placed (live p l)) acc)).
Proof.
  induction l as [|[r req] l IH]; intros acc p Hnd; [by rewrite settled_nil|].
  cbn [fmap list_fmap snd] in Hnd. apply NoDup_cons in Hnd as [Hd Hnd].
  cbn [sort_requests]. unfold is_called at 1. unfold mbind at 1, proc_bind at 1, pget at 1.
  unfold live. rewrite filter_cons. cbn [snd]. destruct (decide (uncalled p (sr_deferred req))) as [Hu|Hu].
  - unfold uncalled in Hu. rewrite Hu. destruct r as [x|e].
    + rewrite IH by done. done.
    + rewrite (proc_bind_ok _ _ _ _ _ (settle_eq _ _ _ Hu)), IH by done.
      assert (live (settled [(sr_deferred req, Failure e)] p) l = live p l) as ->; [|].
      { apply filter_ext_in. intros rq Hrq. rewrite uncalled_settled. cbn.
        rewrite list_elem_of_singleton. split; [tauto|]. intros. split; [done|]. intros He. apply Hd.
        rewrite <- He. apply list_elem_of_fmap_2, list_elem_of_fmap_2, Hrq. }
      cbn. by rewrite <- settled_app.
  - unfold uncalled in Hu. destruct (called _ _); [by apply IH|done].
Qed.

Definition built (reqs : list (TopicAndPartition * list SendRequest))
    (payloads : list (TopicAndPartition * ProduceRequest)) : Prop :=
  Forall2 (λ kr kp, kp.1 = kr.1 ∧ payload_key kp.2 = kr.1 ∧
             create_message_set kr.2 (codec cfg) = Ok (pr_messages kp.2)) reqs payloads.

Lemma build_payloads_ok reqs : ∀ payloads,
  build_payloads cfg reqs = Ok payloads → built reqs payloads.
Proof.
  induction reqs as [|[tp rs] reqs IH]; intros payloads; cbn; [intros [= <-]; constructor|].
  destruct (create_message_set rs (codec cfg)) as [ms|] eqn:Hm; [|done]. cbn.
  destruct (build_payloads cfg reqs) as [pls|]; [|done]. cbn. intros [= <-].
  constructor; [|by apply IH]. cbn. split_and!; [done|by destruct tp|done].
Qed.

(** ** Responses *)

(** What a response delivers, and what fails with it. *)
Definition acks (s : sending) (rs : list ProduceResponse) : list (list nat * outcome delivered) :=
  omap (λ r, match raise_for_errno (prr_error r) with
             | Ok _ => Some (deferreds_at s (response_key r), Success (DResponse r))
             | Err _ => None
             end) rs.
Definition errors (s : sending) (rs : list ProduceResponse) : list (ProduceRequest * failure) :=
  omap (λ r, match raise_for_errno (prr_error r) with
             | Ok _ => None
             | Err e => (λ pl, (pl, FException e)) <$> Dict.get (response_key r) (payloadsByTopicPart s)
             end) rs.

(** The deferreds of each partition are distinct. *)
Definition distinct (s : sending) : Prop := ∀ k, NoDup (deferreds_at s k).

Lemma handle_responses_eq s rs : ∀ failed p,
  distinct s → (∀ r, r ∈ rs → response_key r ∈ Dict.keys (payloadsByTopicPart s)) →
  handle_responses s rs failed p = (settled (fires (acks s rs) p) p, Ok (failed ++ errors s rs)).
Proof.
  induction rs as [|r rs IH]; intros failed p Hs Hk.
  { cbn. by rewrite settled_nil, app_nil_r. }
  cbn [handle_responses]. unfold acks, errors. cbn [omap list_omap].
  destruct (raise_for_errno (prr_error r)) as [u|e].
  - rewrite (proc_bind_ok _ _ _ _ _ (deliver_eq _ _ p (Hs _))), IH; [|done|set_solver].
    cbn [fires]. by rewrite settled_app.
  - destruct (Dict.get _ _) as [pl|] eqn:Hg.
    + rewrite IH; [|done|set_solver]. cbn. by rewrite <- app_assoc.
    + exfalso. apply Dict.get_None in Hg. apply Hg, Hk. apply list_elem_of_here.
Qed.

Definition failures (s : sending) (failed : list (ProduceRequest * failure))
    : list (list nat * outcome delivered) :=
  (λ pf, (deferreds_at s (payload_key pf.1), deliver_failure pf.2)) <$> failed.

Definition stale_topics (failed : list (ProduceRequest * failure)) : list text :=
  remove_dups (pr_topic <$> (filter (λ pf, stale pf.2 = true) failed).*1).

Lemma check_retry_eq s failed p :
  distinct s →
  _check_retry_payloads cfg s failed p =
    if _max_attempts cfg <=? _req_attempts p then
      (settled (fires (failures s failed) p) p, Ok None)
    else
      let p1 := emit (ECallLater (_retry_interval p)) (with_attempts (_req_attempts p) (S (_retry_interval p)) p) in
      (match stale_topics failed with [] => p1 | ts => emit (EResetTopics ts) p1 end,
       Ok (Some (BDelay s failed.*1))).
Proof.
  intros Hs. unfold _check_retry_payloads, mbind, proc_bind, pget. cbn.
  destruct (_max_attempts cfg <=? _req_attempts p).
  - pose proof (deliver_each_eq (failures s failed) p) as Hd. unfold failures in Hd at 2.
    rewrite pfor_each_fmap in Hd. cbn [fst snd] in Hd.
    rewrite Hd; [done|]. apply Forall_fmap, Forall_true. intros pf. apply Hs.
  - fold (stale_topics failed). by destruct (stale_topics failed).
Qed.
End settle.

(** ** The invariant *)

Section invariant.
Context `{PS : Partitioners} `{CompressionLib} (cfg : config).
Implicit Types (p : Producer).

Definition msg_count (reqs : list SendRequest) : Z :=
  foldr (λ req n, len (sr_messages req) + n) 0 reqs.
Definition byte_count (reqs : list SendRequest) : Z :=
  foldr (λ req n, message_bytes (sr_messages req) + n) 0 reqs.

(** The books, while the batch in progress has the deferreds [L]: each deferred
    fires at most once and is listed as outstanding until then; the counts are
    those of the queue; a queued request has not been answered, and none is
    both queued and in progress. *)
Record core (L : list nat) p : Prop := {
  c_deferreds : deferreds_wf (pd_deferreds p);
  c_outstanding d : d ∈ _outstanding p ↔ outstanding d (pd_deferreds p);
  c_nodup : NoDup (_outstanding p);
  c_msgs : _waitingMsgCount p = msg_count (_batch_reqs p);
  c_bytes : _waitingByteCount p = byte_count (_batch_reqs p);
  c_queue req : req ∈ _batch_reqs p → outstanding (sr_deferred req) (pd_deferreds p) ∧ sr_messages req ≠ [];
  c_disjoint : NoDup (L ++ (sr_deferred <$> _batch_reqs p));
  c_issued d : d ∈ L → (d < issued (pd_deferreds p))%nat;
  c_attempts : 0 ≤ _req_attempts p;
}.

Lemma elem_of_remove_first d d' ds : NoDup ds → d' ∈ remove_first d ds ↔ d' ∈ ds ∧ d' ≠ d.
Proof.
  induction ds as [|d0 ds IH]; cbn; [set_solver|]. intros [Hd Hnd]%NoDup_cons. specialize (IH Hnd).
  case_decide as He; [subst|]; set_solver.
Qed.

Lemma remove_first_nodup d ds : NoDup ds → NoDup (remove_first d ds).
Proof.
  induction ds as [|d0 ds IH]; cbn; [done|]. intros [Hd Hnd]%NoDup_cons. case_decide; [done|].
  apply NoDup_cons. split; [|by apply IH]. by intros [? _]%elem_of_remove_first.
Qed.

Lemma removed_all (fs : list (nat * outcome delivered)) : ∀ ds,
  NoDup ds →
  NoDup (foldl (λ ds f, remove_first f.1 ds) ds fs) ∧
  ∀ d, d ∈ foldl (λ ds f, remove_first f.1 ds) ds fs ↔ d ∈ ds ∧ d ∉ fs.*1.
Proof.
  induction fs as [|f fs IH]; intros ds Hnd; [set_solver|]. cbn.
  destruct (IH (remove_first f.1 ds)) as [H1 H2]; [by apply remove_first_nodup|]. split; [done|].
  intros d. rewrite H2, elem_of_remove_first by done. set_solver.
Qed.

Lemma core_settled L p fs :
  core L p → NoDup fs.*1 →
  (∀ d, d ∈ fs.*1 → (d < issued (pd_deferreds p))%nat ∧ (d ∉ sr_deferred <$> _batch_reqs p) ∧ uncalled p d) →
  core L (settled fs p).
Proof.
  intros [(Hd1 & Hd2 & Hd3) Ho Hnd Hm Hb Hq Hdis Hi Ha] Hfs Hl.
  assert (∀ d, d ∈ fs.*1 → d ∉ (firings (pd_deferreds p)).*1) as Hfresh.
  { intros d Hd. destruct (Hl d Hd) as (_ & _ & Hu). unfold uncalled, called in Hu. by apply bool_decide_eq_false in Hu. }
  split; cbn; try done.
  - unfold deferreds_wf. cbn. rewrite fmap_app. split_and!.
    + apply NoDup_app. set_solver.
    + intros d [Hd|Hd]%elem_of_app; [by apply Hd2|]. by apply Hl.
    + set_solver.
  - intros d. rewrite (proj2 (removed_all fs _ Hnd)), Ho. unfold outstanding. cbn.
    rewrite fmap_app, elem_of_app. tauto.
  - by apply removed_all.
  - intros req Hreq. destruct (Hq req Hreq) as [[Hr1 Hr2] Hr]. split; [|done]. split; [done|]. cbn.
    rewrite fmap_app, elem_of_app. intros [?|Hin]; [done|]. apply Hl in Hin as (_ & Hin & _).
    apply Hin. by apply list_elem_of_fmap_2.
Qed.

Lemma core_settled_batch L p fs :
  core L p → NoDup fs.*1 → (∀ d, d ∈ fs.*1 → d ∈ L ∧ uncalled p d) → core L (settled fs p).
Proof.
  intros Hc Hfs Hl. apply core_settled; [done|done|]. intros d Hd. destruct (Hl d Hd) as [Hin Hu].
  split_and!; [by eapply c_issued| |done].
  pose proof (c_disjoint _ _ Hc) as Hdis. apply NoDup_app in Hdis as (_ & Hdis & _). by apply Hdis.
Qed.

Lemma core_books L p p' : core L p → same_books p p' → core L p'.
Proof.
  intros [] (H1 & H2 & H3 & H4 & H5 & H6 & H7 & H8).
  split; rewrite ?H1, ?H2, ?H3, ?H4, ?H7; try done. lia.
Qed.

Lemma core_shrink L L' p : core L p → NoDup L' → L' ⊆ L → core L' p.
Proof.
  intros [] Hnd Hs. split; try done; [|auto].
  apply NoDup_app in c_disjoint0 as (H1 & H2 & H3). apply NoDup_app. split_and!; auto.
Qed.

Lemma core_batch L b p : core L p → core L (with_batch b p).
Proof. intros []. by split. Qed.
Lemma core_emit L e p : core L p → core L (emit e p).
Proof. intros []. by split. Qed.
Lemma core_attempts L a i p : 0 ≤ a → core L p → core L (with_attempts a i p).
Proof. intros ? []. by split. Qed.
Lemma core_looper L l p : core L p → core L (with_looper l p).
Proof. intros []. by split. Qed.
Lemma core_stopping L b p : core L p → core L (with_stopping b p).
Proof. intros []. by split. Qed.

Lemma core_taken p : core [] p → core (sr_deferred <$> _batch_reqs p) (with_waiting [] 0 0 p).
Proof.
  intros []. split; cbn; try done.
  - by intros req ?%elem_of_nil.
  - by rewrite app_nil_r.
  - intros d (req & -> & Hreq)%list_elem_of_fmap. by apply c_queue0.
Qed.

Definition batch_deferreds (b : option batch) : list nat :=
  match b with
  | None => []
  | Some (BLooking requests _) => sr_deferred <$> requests
  | Some (BSending s _ | BDelay s _) => all_deferreds s
  end.

(** The payloads and the deferreds of a batch are filed under their partitions. *)
Record sending_ok (s : sending) : Prop := {
  so_keys : Dict.keys (deferredsByTopicPart s) = Dict.keys (payloadsByTopicPart s);
  so_nodup : NoDup (Dict.keys (payloadsByTopicPart s));
  so_payload k pl : (k, pl) ∈ payloadsByTopicPart s → payload_key pl = k;
}.

Definition sends (s : sending) (payloads : list ProduceRequest) : Prop :=
  sending_ok s ∧ payloads ≠ [] ∧ payloads ⊆ (payloadsByTopicPart s).*2.

(** Where a batch waits. A retry is under way only while there are attempts
    left. *)
Definition batch_ok (attempts : Z) (b : option batch) : Prop :=
  match b with
  | None => True
  | Some (BLooking requests ls) => length ls = length requests ∧ forallb is_done ls = false
  | Some (BSending s payloads) => sends s payloads ∧ 1 ≤ attempts
  | Some (BDelay s payloads) => sends s payloads ∧ 1 ≤ attempts < _max_attempts cfg
  end.

(** Nothing that is enough for a batch waits while none is in progress. *)
Definition not_idle p : Prop := _batch_send_d p = None → enough cfg p = true → _batch_reqs p = [].

Record producer_wf p : Prop := {
  pw_core : core (batch_deferreds (_batch_send_d p)) p;
  pw_batch : batch_ok (_req_attempts p) (_batch_send_d p);
  pw_idle : not_idle p;
}.

Lemma deferreds_at_nodup s k : NoDup (all_deferreds s) → NoDup (deferreds_at s k).
Proof.
  unfold all_deferreds, deferreds_at. destruct (Dict.get k _) as [ds|] eqn:Hg; cbn; [|by constructor].
  apply Dict.get_Some_elem, list_elem_of_split in Hg as (l1 & l2 & ->).
  rewrite fmap_app, concat_app. cbn. intros (_ & _ & Hnd)%NoDup_app. by apply NoDup_app in Hnd as (? & _).
Qed.

Lemma deferreds_at_subset s k : deferreds_at s k ⊆ all_deferreds s.
Proof.
  unfold all_deferreds, deferreds_at. destruct (Dict.get k _) as [ds|] eqn:Hg; cbn; [|set_solver].
  apply Dict.get_Some_elem, list_elem_of_split in Hg as (l1 & l2 & ->).
  rewrite fmap_app, concat_app. cbn. set_solver.
Qed.

Lemma fires_ok l L p :
  core L p → Forall (λ dso, NoDup dso.1 ∧ dso.1 ⊆ L) l → core L (settled (fires l p) p).
Proof.
  intros Hc Hl. apply core_settled_batch; [done| |].
  - apply fires_nodup. eapply Forall_impl; [exact Hl|]. by intros ? [? _].
  - intros d ([d' o] & -> & Hin)%list_elem_of_fmap. apply fires_sound in Hin as [Hu (ds & Hds & Hd)].
    split; [|done]. rewrite Forall_forall in Hl. by apply (Hl (ds, o) Hds).
Qed.

(** *** Steps of the chain *)

(** A procedure that leaves the queue alone and ends where a batch may wait. *)
Definition chain_step L (m : proc exn Producer (option batch)) p : Prop :=
  let '(p', r) := m p in
  _batch_reqs p' = _batch_reqs p ∧
  match r with
  | Ok (Some b) => core (batch_deferreds (Some b)) p' ∧ batch_ok (_req_attempts p') (Some b)
  | _ => core L p'
  end.

Lemma deferreds_of_keys reqs : Dict.keys (deferreds_of reqs) = Dict.keys reqs.
Proof. unfold Dict.keys, deferreds_of. by rewrite <- list_fmap_compose. Qed.

Lemma deferreds_of_all payloads reqs :
  all_deferreds (mkSending payloads (deferreds_of reqs)) = sr_deferred <$> concat reqs.*2.
Proof.
  unfold all_deferreds, deferreds_of. cbn. rewrite <- list_fmap_compose.
  induction reqs as [|kr reqs IH]; [done|]. cbn. by rewrite IH, fmap_app.
Qed.

Lemma built_ok reqs payloads :
  NoDup (Dict.keys reqs) → built cfg reqs payloads →
  sending_ok (mkSending payloads (deferreds_of reqs)).
Proof.
  intros Hnd Hb.
  assert (Dict.keys payloads = Dict.keys reqs ∧ ∀ k pl, (k, pl) ∈ payloads → payload_key pl = k) as [Hk Hp].
  { clear Hnd. induction Hb as [|kr kp reqs payloads (H1 & H2 & _) _ [IH1 IH2]].
    - split; [done|]. by intros k pl ?%elem_of_nil.
    - split; [by unfold Dict.keys in *; cbn; rewrite H1, IH1|].
      intros k pl [Heq|Hin]%elem_of_cons; [|by apply IH2]. subst kp. cbn in H1, H2. by rewrite H1, H2. }
  split; cbn [payloadsByTopicPart deferredsByTopicPart]; [|by rewrite Hk|done].
  by rewrite Hk, <- (deferreds_of_keys reqs).
Qed.

Lemma zip_snd {A B} (l : list A) (k : list B) : length l = length k → (zip l k).*2 = k.
Proof. intros. apply snd_zip. lia. Qed.

Lemma placed_requests (l : list (res Z * SendRequest)) : sublist (placed l).*2 l.*2.
Proof.
  unfold placed. induction l as [|[[x|e] req] l IH]; cbn; [constructor|by apply sublist_skip|by apply sublist_cons].
Qed.

Lemma refused_fst (l : list (res Z * SendRequest)) : sublist (refused l).*1 (sr_deferred <$> l.*2).
Proof.
  unfold refused. induction l as [|[[x|e] req] l IH]; cbn; [constructor|by apply sublist_cons|by apply sublist_skip].
Qed.

Lemma live_requests p (l : list (res Z * SendRequest)) : sublist (live p l).*2 l.*2.
Proof. apply fmap_sublist, sublist_filter. Qed.

(** [_send_requests] on a batch whose partitions have been found. *)
Definition groups p results requests : list (TopicAndPartition * list SendRequest) :=
  collect (placed (live p (zip results requests))) [].

Definition sent p results requests payloads : Producer :=
  let p1 := settled (refused (live p (zip results requests))) p in
  emit (ESend payloads) (with_attempts (_req_attempts p + 1) (_retry_interval p) p1).

Lemma send_requests_eq results requests p :
  length results = length requests → NoDup (sr_deferred <$> requests) →
  _send_requests cfg results requests p =
    match build_payloads cfg (groups p results requests) with
    | Err e => (settled (refused (live p (zip results requests))) p, Err e)
    | Ok [] => (settled (refused (live p (zip results requests))) p, Ok None)
    | Ok payloads =>
      (sent p results requests payloads.*2,
       Ok (Some (BSending (mkSending payloads (deferreds_of (groups p results requests))) payloads.*2)))
    end.
Proof.
  intros Hl Hnd. unfold _send_requests.
  rewrite (proc_bind_ok _ _ _ _ _ (sort_requests_eq _ [] p ltac:(by rewrite zip_snd))).
  fold (groups p results requests). unfold mbind, proc_bind, plift.
  by destruct (build_payloads cfg _) as [[|pl pls]|e].
Qed.

Lemma send_requests_step results requests p :
  core (sr_deferred <$> requests) p → length results = length requests →
  chain_step (sr_deferred <$> requests) (_send_requests cfg results requests) p.
Proof.
  intros Hc Hl. pose proof (c_disjoint _ _ Hc) as Hdis. apply NoDup_app in Hdis as (Hnd & _ & _).
  unfold chain_step. rewrite send_requests_eq by done.
  set (l := zip results requests). assert (l.*2 = requests) as Hl2 by (by apply zip_snd).
  assert (core (sr_deferred <$> requests) (settled (refused (live p l)) p)) as Hc1.
  { apply core_settled_batch; [done| |].
    - eapply sublist_NoDup; [|apply refused_fst]. eapply sublist_NoDup; [|apply fmap_sublist, live_requests].
      by rewrite Hl2.
    - intros d Hd. eapply elem_of_sublist in Hd; [|apply refused_fst].
      apply list_elem_of_fmap in Hd as (req & -> & Hreq). split.
      + apply list_elem_of_fmap_2. rewrite <- Hl2. eapply elem_of_sublist; [exact Hreq|]. apply live_requests.
      + apply list_elem_of_fmap in Hreq as (rq & -> & Hrq). by apply list_elem_of_filter in Hrq as [? _]. }
  destruct (build_payloads cfg (groups p results requests)) as [payloads|e] eqn:Hb; [|by split].
  destruct payloads as [|kp payloads']; [by split|]. set (payloads := kp :: payloads') in *.
  split; [done|].
  pose proof (built_ok _ _ (collect_nodup _) (build_payloads_ok _ _ _ Hb)) as Hok. split.
  - cbn [batch_deferreds]. rewrite deferreds_of_all. apply core_emit, core_attempts.
    + pose proof (c_attempts _ _ Hc). lia.
    + eapply core_shrink; [exact Hc1| |].
      * unfold groups. fold l. rewrite collect_perm.
        eapply sublist_NoDup; [|apply fmap_sublist; etrans; [apply placed_requests|apply live_requests]].
        by rewrite Hl2.
      * intros d (req & -> & Hreq)%list_elem_of_fmap. apply list_elem_of_fmap_2.
        unfold groups in Hreq. fold l in Hreq. rewrite collect_perm in Hreq.
        rewrite <- Hl2. eapply elem_of_sublist; [exact Hreq|].
        etrans; [apply placed_requests|apply live_requests].
  - split; [|cbn; pose proof (c_attempts _ _ Hc); lia]. split; [done|]. split; [done|]. done.
Qed.

Lemma answer_keys s payloads rs :
  sends s payloads → forallb (λ r, bool_decide (response_key r ∈ payload_key <$> payloads)) rs = true →
  ∀ r, r ∈ rs → response_key r ∈ Dict.keys (payloadsByTopicPart s).
Proof.
  intros (Hok & _ & Hsub) Hf r Hr. rewrite forallb_forall in Hf.
  apply list_elem_of_In, Hf, bool_decide_eq_true in Hr. apply list_elem_of_fmap in Hr as (pl & -> & Hpl).
  apply Hsub, list_elem_of_fmap in Hpl as ([k pl'] & -> & Hpl). cbn.
  rewrite (so_payload _ Hok _ _ Hpl). by apply (list_elem_of_fmap_2 fst) in Hpl.
Qed.

Lemma errors_payloads s rs : (errors s rs).*1 ⊆ (payloadsByTopicPart s).*2.
Proof.
  intros pl ([pl' f] & -> & Hin)%list_elem_of_fmap. apply list_elem_of_omap in Hin as (r & _ & Hr).
  destruct (raise_for_errno _); [done|]. destruct (Dict.get _ _) as [pl|] eqn:Hg; [|done].
  injection Hr as <- <-. apply Dict.get_Some_elem in Hg. by apply (list_elem_of_fmap_2 snd) in Hg.
Qed.

Lemma acks_ok L s rs :
  all_deferreds s ⊆ L → NoDup (all_deferreds s) → Forall (λ dso, NoDup dso.1 ∧ dso.1 ⊆ L) (acks s rs).
Proof.
  intros Hs Hnd. apply Forall_forall. intros dso (r & _ & Hr)%list_elem_of_omap.
  destruct (raise_for_errno _); [|done]. injection Hr as <-. cbn.
  split; [by apply deferreds_at_nodup|]. etrans; [apply deferreds_at_subset|done].
Qed.

Lemma failures_ok L s failed :
  all_deferreds s ⊆ L → NoDup (all_deferreds s) → Forall (λ dso, NoDup dso.1 ∧ dso.1 ⊆ L) (failures s failed).
Proof.
  intros Hs Hnd. apply Forall_fmap, Forall_true. intros pf. cbn.
  split; [by apply deferreds_at_nodup|]. etrans; [apply deferreds_at_subset|done].
Qed.

Lemma check_retry_step s failed p :
  core (all_deferreds s) p → sending_ok s → failed ≠ [] → failed.*1 ⊆ (payloadsByTopicPart s).*2 →
  1 ≤ _req_attempts p → chain_step (all_deferreds s) (_check_retry_payloads cfg s failed) p.
Proof.
  intros Hc Hok Hne Hf Ha. pose proof (c_disjoint _ _ Hc) as Hdis. apply NoDup_app in Hdis as (Hnd & _ & _).
  unfold chain_step. rewrite check_retry_eq by (intros k; by apply deferreds_at_nodup).
  destruct (Z.leb_spec (_max_attempts cfg) (_req_attempts p)) as [Hm|Hm].
  - split; [done|]. apply fires_ok; [done|by apply failures_ok].
  - cbv zeta. set (p1 := emit _ (with_attempts _ _ p)).
    assert (core (all_deferreds s) p1) as Hc1 by (apply core_emit, core_attempts; [lia|done]).
    assert (batch_ok (_req_attempts p) (Some (BDelay s failed.*1))) as Hb.
    { split; [|by split]. split; [done|]. split; [by destruct failed|done]. }
    destruct (stale_topics failed); (split; [done|]); split; try done. by apply core_emit.
Qed.

Lemma handle_step s payloads result p :
  core (all_deferreds s) p → sends s payloads → answer_fits payloads result = true →
  1 ≤ _req_attempts p → chain_step (all_deferreds s) (_handle_send_response cfg s result) p.
Proof.
  intros Hc Hs Hfit Ha. pose proof (c_disjoint _ _ Hc) as Hdis. apply NoDup_app in Hdis as (Hnd & _ & _).
  pose proof Hs as (Hok & Hne & Hsub).
  assert (∀ o, chain_step (all_deferreds s) (_ ← _deliver_result (all_deferreds s) o; mret None) p) as Hall.
  { intros o. unfold chain_step. rewrite (proc_bind_ok _ _ _ _ _ (deliver_eq o _ p Hnd)). split; [done|].
    pose proof (fires_ok [(all_deferreds s, o)] _ p Hc) as Hf. cbn in Hf. rewrite app_nil_r in Hf.
    apply Hf. by constructor. }
  assert (∀ rs failed, forallb (λ r, bool_decide (response_key r ∈ payload_key <$> payloads)) rs = true →
    failed.*1 ⊆ (payloadsByTopicPart s).*2 →
    chain_step (all_deferreds s)
      (failed ← handle_responses s rs failed;
       if is_empty failed then mret None else _check_retry_payloads cfg s failed) p) as Hhandle.
  { intros rs failed Hrs Hfs. unfold chain_step.
    rewrite (proc_bind_ok _ _ _ _ _ (handle_responses_eq s rs failed p
      (λ k, deferreds_at_nodup s k Hnd) (answer_keys s payloads rs Hs Hrs))).
    assert (core (all_deferreds s) (settled (fires (acks s rs) p) p)) as Hc1
      by (apply fires_ok; [done|by apply acks_ok]).
    destruct (failed ++ errors s rs) as [|f failed'] eqn:Hf; cbn [is_empty]; [by split|].
    rewrite <- Hf. apply (check_retry_step s (failed ++ errors s rs) (settled (fires (acks s rs) p) p));
      [done|done|by rewrite Hf| |done].
    rewrite fmap_app. intros pl [Hpl|Hpl]%elem_of_app; [by apply Hfs|by eapply errors_payloads]. }
  unfold _handle_send_response. destruct result as [[|r rs]|[e|rs failed]].
  - apply Hall.
  - apply (Hhandle (r :: rs) []); [exact Hfit|by intros ? ?%elem_of_nil].
  - destruct (is_KafkaError e); [|apply Hall]. apply (Hhandle [] _); [done|].
    intros pl (pf & -> & Hpf)%list_elem_of_fmap. by apply list_elem_of_fmap in Hpf as (pl & -> & Hpl).
  - cbn [answer_fits] in Hfit. apply andb_prop in Hfit as [Hrs Hfs]. apply (Hhandle rs _ Hrs).
    intros pl (pf & -> & Hpf)%list_elem_of_fmap. apply list_elem_of_fmap in Hpf as (pe & -> & Hpe).
    rewrite forallb_forall in Hfs. apply list_elem_of_In, Hfs, bool_decide_eq_true in Hpe. by apply Hsub.
Qed.

(** *** Batches *)

Definition ready p : Prop := core [] p ∧ _batch_send_d p = None.

(** The check is made when a batch has completed. *)
Definition check_ok (P : Producer → Prop) (check : proc exn Producer unit) : Prop :=
  ∀ p, ready p → P p → ∃ p', check p = (p', Ok tt) ∧ producer_wf p'.

Lemma chain_wf L check m p P :
  chain_step L m p → check_ok P check → (∀ p', _batch_reqs p' = _batch_reqs p → P p') →
  ∃ p', chain check m p = (p', Ok tt) ∧ producer_wf p'.
Proof.
  unfold chain_step, chain. intros Hm Hck HP.
  assert (∀ p', core L p' → ready (_complete_batch_send p')) as Hcomplete.
  { intros p' Hc. split; [|done]. apply core_attempts; [done|]. apply core_batch.
    eapply core_shrink; [exact Hc|constructor|]. by intros d ?%elem_of_nil. }
  destruct (m p) as [p1 [[b|]|e]]; destruct Hm as [Hq Hm].
  - destruct Hm as [Hc Hb]. eexists. split; [done|]. split; [by apply core_batch|done|done].
  - apply Hck; [by eapply Hcomplete|by apply HP].
  - apply Hck; [by eapply Hcomplete|by apply HP].
Qed.

Lemma looking_wf check requests ls p P :
  core (sr_deferred <$> requests) p → length ls = length requests →
  check_ok P check → (∀ p', _batch_reqs p' = _batch_reqs p → P p') →
  ∃ p', looking cfg check requests ls p = (p', Ok tt) ∧ producer_wf p'.
Proof.
  intros Hc Hl Hck HP. unfold looking. erewrite proc_bind_ok by done.
  set (p1 := with_batch (Some (BLooking requests ls)) p).
  assert (core (sr_deferred <$> requests) p1) as Hc1 by (by apply core_batch).
  destruct (forallb is_done ls) eqn:Hd.
  - eapply (chain_wf _ check _ p1); [apply send_requests_step; [done|by rewrite length_fmap]|done|done].
  - exists p1. split; [done|]. by split.
Qed.

Lemma send_batch_wf check view p :
  ready p → check_ok (λ p', _batch_reqs p' = []) check →
  ∃ p', send_batch cfg check view p = (p', Ok tt) ∧ (_batch_reqs p = [] ∧ p' = p ∨ producer_wf p').
Proof.
  intros [Hc Hb] Hck. unfold send_batch, mbind, proc_bind, pget. rewrite Hb.
  destruct (_batch_reqs p) as [|req reqs] eqn:Hq; [exists p; split; [done|by left]|].
  cbn [is_empty orb]. rewrite bool_decide_false by (by intros [? ?]). cbn [pmodify].
  set (p1 := with_waiting [] 0 0 p). rewrite <- Hq.
  destruct (lookups_books cfg view (_batch_reqs p) p1) as (p2 & ls & -> & Hs & Hl).
  assert (core (sr_deferred <$> _batch_reqs p) p2) as Hc2 by (eapply core_books; [by apply core_taken|done]).
  destruct (looking_wf check (_batch_reqs p) ls p2 (λ p', _batch_reqs p' = []) Hc2 Hl Hck) as (p' & Hp' & Hw).
  { intros p' ->. by destruct Hs as (-> & _). }
  exists p'. split; [exact Hp'|by right].
Qed.

Lemma ready_wf p : ready p → not_idle p → producer_wf p.
Proof. intros [Hc Hb] Hi. split; rewrite ?Hb; try done. Qed.

Lemma check_send_batch_ok view : check_ok (λ _, True) (_check_send_batch cfg view).
Proof.
  assert (∀ n, check_ok (λ p, _batch_reqs p = []) (check_send_batch cfg (S n) view)) as H1.
  { intros n p Hr Hq. exists p. split.
    - cbn. unfold mbind, proc_bind, pget. destruct (enough cfg p); [|done].
      unfold send_batch, mbind, proc_bind, pget. by rewrite Hq.
    - by apply ready_wf; [|intros _ _]. }
  intros p Hr _. unfold _check_send_batch. cbn [check_send_batch].
  unfold mbind at 1, proc_bind at 1, pget at 1. destruct (enough cfg p) eqn:He.
  - destruct (send_batch_wf (check_send_batch cfg 1 view) view p Hr (H1 0%nat)) as (p' & Hp' & Hw).
    exists p'. split; [exact Hp'|]. destruct Hw as [[Hq ->]|]; [|done]. by apply ready_wf; [|intros _ _].
  - exists p. split; [done|]. apply ready_wf; [done|]. intros _ He'. congruence.
Qed.

(** *** Events *)

Lemma busy_check view p : is_Some (_batch_send_d p) → _check_send_batch cfg view p = (p, Ok tt).
Proof.
  intros Hb. unfold _check_send_batch. cbn. unfold mbind, proc_bind, pget.
  destruct (enough cfg p); [|done]. unfold send_batch, mbind, proc_bind, pget.
  by rewrite bool_decide_true, orb_true_r.
Qed.

Lemma check_messages_spec msgs ms n :
  check_messages msgs = Ok (ms, n) → length ms = length msgs ∧ n = message_bytes ms.
Proof.
  revert ms n. induction msgs as [|m msgs IH]; intros ms n; cbn; [by intros [= <- <-]|].
  destruct m as [[s|b|]|]; cbn; try done; destruct (check_messages msgs) as [[ms' n']|] eqn:Hm; cbn; try done;
    intros [= <- <-]; destruct (IH _ _ eq_refl) as [H1 H2]; cbn; rewrite H1, H2; split; first [done|lia].
Qed.

Lemma check_arguments_spec topic key msgs t k ms n :
  check_arguments topic key msgs = Ok (t, k, ms, n) → ms ≠ [] ∧ n = message_bytes ms.
Proof.
  unfold check_arguments. destruct (_coerce_topic topic); [|done]. cbn.
  destruct (match key with None => _ | Some _ => _ end) as [key'|]; [|done]. cbn.
  destruct msgs as [|m msgs]; [done|]. cbn [is_empty].
  destruct (check_messages (m :: msgs)) as [[ms' n']|] eqn:Hm; [|done]. cbn. intros [= _ _ <- <-].
  apply check_messages_spec in Hm as [Hl ->]. split; [|done]. by destruct ms'.
Qed.

Lemma msg_count_app l l' : msg_count (l ++ l') = msg_count l + msg_count l'.
Proof. unfold msg_count. induction l as [|r l IH]; [done|]. cbn in *. lia. Qed.
Lemma byte_count_app l l' : byte_count (l ++ l') = byte_count l + byte_count l'.
Proof. unfold byte_count. induction l as [|r l IH]; [done|]. cbn in *. lia. Qed.

(** The state in which a new request has been queued. *)
Definition queued (t : text) (k : option bytes) (ms : list (option bytes)) p : Producer :=
  let d := issued (pd_deferreds p) in
  with_deferreds (_outstanding p ++ [d]) (new_deferred (pd_deferreds p)).2
    (with_waiting (_batch_reqs p ++ [mkSendRequest t k ms d])
       (_waitingMsgCount p + len ms) (_waitingByteCount p + message_bytes ms) p).

Lemma queued_core L t k ms p : core L p → ms ≠ [] → core L (queued t k ms p).
Proof.
  intros [(Hd1 & Hd2 & Hd3) Ho Hnd Hm Hb Hq Hdis Hi Ha] Hms. set (d := issued (pd_deferreds p)).
  assert (d ∉ (firings (pd_deferreds p)).*1) as Hfresh.
  { intros Hin. apply Hd2 in Hin. unfold d in Hin. clear -Hin. lia. }
  assert (∀ x, outstanding x (new_deferred (pd_deferreds p)).2 ↔ outstanding x (pd_deferreds p) ∨ x = d) as Hout.
  { intros x. unfold outstanding. cbn. split.
    - intros [Hx Hf]. destruct (decide (x = d)); [by right|]. left. split; [unfold d in *; lia|done].
    - intros [[Hx Hf]| ->]; (split; [unfold d in *; lia|done]). }
  split; cbn; try done.
  - unfold deferreds_wf. cbn. split_and!; [done| |done]. intros x Hx. apply Hd2 in Hx. lia.
  - intros x. rewrite elem_of_app, list_elem_of_singleton, Ho. symmetry. apply Hout.
  - apply NoDup_app. split_and!; [done| |apply NoDup_singleton].
    intros x Hx%Ho ->%list_elem_of_singleton. destruct Hx as [Hx _]. unfold d in Hx. lia.
  - rewrite msg_count_app, Hm. cbn [msg_count foldr sr_messages]. by rewrite Z.add_0_r.
  - rewrite byte_count_app, Hb. cbn [byte_count foldr sr_messages]. by rewrite Z.add_0_r.
  - intros req [Hreq|Hreq]%elem_of_app.
    + destruct (Hq req Hreq) as [Hr Hne]. split; [|done]. apply Hout. by left.
    + apply list_elem_of_singleton in Hreq as ->. split; [|done]. apply Hout. by right.
  - rewrite fmap_app, app_assoc. apply NoDup_app. split_and!; [done| |apply NoDup_singleton].
    intros x [Hx|Hx]%elem_of_app ->%list_elem_of_singleton; cbn in *.
    + apply Hi in Hx. unfold d in Hx. lia.
    + apply list_elem_of_fmap in Hx as (req & He & Hx). apply Hq in Hx as [[Hx _] _].
      cbn in He. rewrite <- He in Hx. unfold d in Hx. lia.
  - intros x Hx. apply Hi in Hx. lia.
Qed.

Lemma after_check view p :
  core (batch_deferreds (_batch_send_d p)) p → batch_ok (_req_attempts p) (_batch_send_d p) →
  ∃ p', _check_send_batch cfg view p = (p', Ok tt) ∧ producer_wf p'.
Proof.
  intros Hc Hb. destruct (_batch_send_d p) as [b|] eqn:Hbd.
  - exists p. split; [by apply busy_check; rewrite Hbd|]. split; rewrite ?Hbd; [done|done|]. intros Hn. congruence.
  - apply check_send_batch_ok; [by split|done].
Qed.

Lemma send_messages_eq view topic key msgs p :
  producer_wf p →
  match check_arguments topic key msgs with
  | Err e => send_messages cfg view topic key msgs p = (p, Ok (inl e))
  | Ok (t, k, ms, _) =>
    ∃ p', _check_send_batch cfg view (queued t k ms p) = (p', Ok tt) ∧ producer_wf p' ∧
      send_messages cfg view topic key msgs p = (p', Ok (inr (issued (pd_deferreds p))))
  end.
Proof.
  intros [Hc Hb _]. unfold send_messages. destruct (check_arguments topic key msgs) as [[[[t k] ms] n]|e] eqn:Ha; [|done].
  apply check_arguments_spec in Ha as [Hms ->].
  destruct (after_check view (queued t k ms p)) as (p' & Hp' & Hw); [by apply queued_core|done|].
  exists p'. split; [done|]. split; [done|]. unfold mbind, proc_bind, pget, pmodify.
  unfold queued in Hp'. by rewrite Hp'.
Qed.

(** The request of a queued deferred. *)
Lemma queue_split L p d :
  core L p →
  (∃ l1 req l2, _batch_reqs p = l1 ++ req :: l2 ∧ sr_deferred req = d ∧
     filter (λ r, sr_deferred r = d) (_batch_reqs p) = [req] ∧
     filter (λ r, sr_deferred r ≠ d) (_batch_reqs p) = l1 ++ l2) ∨
  filter (λ r, sr_deferred r = d) (_batch_reqs p) = [] ∧ d ∉ sr_deferred <$> _batch_reqs p.
Proof.
  intros Hc. pose proof (c_disjoint _ _ Hc) as Hdis. apply NoDup_app in Hdis as (_ & _ & Hnd).
  destruct (decide (d ∈ sr_deferred <$> _batch_reqs p)) as [Hin|Hin].
  - left. apply list_elem_of_fmap in Hin as (req & -> & Hin).
    apply list_elem_of_split in Hin as (l1 & l2 & Hl). rewrite Hl in Hnd |- *. exists l1, req, l2.
    rewrite fmap_app in Hnd. cbn in Hnd. apply NoDup_app in Hnd as (_ & H1 & [H2 _]%NoDup_cons).
    assert (∀ r, r ∈ l1 ++ l2 → sr_deferred r ≠ sr_deferred req) as Hne.
    { intros r [Hr|Hr]%elem_of_app He.
      - apply (H1 (sr_deferred r)); [by apply list_elem_of_fmap_2|]. rewrite He. apply list_elem_of_here.
      - apply H2. rewrite <- He. by apply list_elem_of_fmap_2. }
    split_and!; [done|done| |].
    + rewrite filter_app, filter_cons_True by done.
      rewrite (elem_of_nil_inv (filter _ l1)), (elem_of_nil_inv (filter _ l2)); [done| |];
        intros r [He Hr]%list_elem_of_filter; eapply Hne; [|done| |done]; set_solver.
    + rewrite filter_app, filter_cons_False by (by intros ?).
      assert (∀ l : list SendRequest, (∀ r, r ∈ l → r ∈ l1 ++ l2) → filter (λ r, sr_deferred r ≠ sr_deferred req) l = l) as Hall.
      { intros l Hl'. rewrite (filter_ext_in _ (λ _, True)); [|].
        - clear. induction l as [|x l IH]; [done|]. by rewrite filter_cons_True, IH.
        - intros r Hr. split; [done|]. intros _. by apply Hne, Hl'. }
      rewrite !Hall by set_solver. done.
  - right. split; [|done]. apply elem_of_nil_inv. intros r [He Hr]%list_elem_of_filter. apply Hin.
    rewrite <- He. by apply list_elem_of_fmap_2.
Qed.

(** [d.cancel()] on a request's deferred. *)
Definition dequeued (d : nat) p : Producer :=
  match filter (λ r, sr_deferred r = d) (_batch_reqs p) with
  | req :: _ =>
    with_waiting (filter (λ r, sr_deferred r ≠ d) (_batch_reqs p))
      (_waitingMsgCount p - len (sr_messages req))
      (_waitingByteCount p - message_bytes (sr_messages req)) p
  | [] => p
  end.

Definition cancelled_with (d : nat) p : exn :=
  match filter (λ r, sr_deferred r = d) (_batch_reqs p) with
  | _ :: _ => CancelledError (Some false)
  | [] => CancelledError (Some (bool_decide (is_Some (_batch_send_d p))))
  end.

Lemma cancel_eq d p :
  cancel d p = (if decide (uncalled p d) then settled [(d, Failure (cancelled_with d p))] (dequeued d p) else p, Ok tt).
Proof.
  unfold cancel, is_called, mbind, proc_bind, pget. cbn. destruct (decide (uncalled p d)) as [Hu|Hu].
  2: { unfold uncalled in Hu. by destruct (called d (pd_deferreds p)). }
  pose proof Hu as Hu'. unfold uncalled in Hu'. rewrite Hu'.
  unfold _cancel_send_messages, dequeued, cancelled_with, mbind, proc_bind, pget, pmodify. cbn.
  destruct (filter _ _) as [|req reqs]; by apply settle_eq.
Qed.

Lemma cancel_core L d p :
  core L p → (d < issued (pd_deferreds p))%nat → core L (cancel d p).1.
Proof.
  intros Hc Hd. rewrite cancel_eq. cbn. destruct (decide (uncalled p d)) as [Hu|]; [|done].
  unfold dequeued. destruct (queue_split L p d Hc) as [(l1 & req & l2 & Hl & Hr & -> & Hf)|[-> Hin]].
  - assert (core L (with_waiting (l1 ++ l2) (_waitingMsgCount p - len (sr_messages req))
      (_waitingByteCount p - message_bytes (sr_messages req)) p)) as Hc1.
    { destruct Hc. rewrite Hl in *. split; cbn; try done.
      - rewrite c_msgs0, !msg_count_app. change (msg_count (req :: l2)) with (len (sr_messages req) + msg_count l2). lia.
      - rewrite c_bytes0, !byte_count_app.
        change (byte_count (req :: l2)) with (message_bytes (sr_messages req) + byte_count l2). lia.
      - intros r Hr'. apply c_queue0. set_solver.
      - rewrite fmap_app in *. cbn in c_disjoint0. rewrite app_assoc in *.
        apply NoDup_app in c_disjoint0 as (H1 & H2 & [H3 H4]%NoDup_cons). apply NoDup_app.
        split_and!; [done| |done]. intros x Hx Hx'. apply (H2 x Hx). by right. }
    rewrite Hf. apply core_settled; [exact Hc1|apply NoDup_singleton|].
    intros x ->%list_elem_of_singleton. cbn. split_and!; [done| |done].
    rewrite <- Hf. intros (r & He & [Hne _]%list_elem_of_filter)%list_elem_of_fmap. congruence.
  - apply core_settled; [done|apply NoDup_singleton|]. by intros x ->%list_elem_of_singleton.
Qed.

Lemma message_bytes_nonneg ms : 0 ≤ message_bytes ms.
Proof.
  induction ms as [|[b|] ms IH]; [done| |done].
  change (0 ≤ len b + message_bytes ms). unfold len. lia.
Qed.

Lemma producer_cancel_wf d p :
  producer_wf p → (d < issued (pd_deferreds p))%nat → producer_wf (cancel d p).1.
Proof.
  intros [Hc Hb Hi] Hd. pose proof (cancel_core _ d p Hc Hd) as Hc'. rewrite cancel_eq in *. cbn in *.
  destruct (decide (uncalled p d)); [|by split]. revert Hc'. unfold dequeued.
  destruct (queue_split _ p d Hc) as [(l1 & req & l2 & Hl & Hr & -> & Hf)|[-> Hin]]; intros Hc'; [|by split].
  split; [exact Hc'|exact Hb|]. intros Hn He. cbn in *. specialize (Hi Hn).
  assert (enough cfg p = true) as He'.
  { unfold enough in *. cbn in He. pose proof (message_bytes_nonneg (sr_messages req)).
    assert (0 ≤ len (sr_messages req)) by (unfold len; lia).
    apply orb_true_iff in He. apply orb_true_iff.
    destruct He as [[Hz Hle%Z.leb_le]%andb_prop|[Hz Hle%Z.leb_le]%andb_prop]; [left|right];
      rewrite Hz; apply Z.leb_le; lia. }
  rewrite (Hi He') in Hl. by destruct l1.
Qed.

Lemma cancel_all_wf ds : ∀ p,
  producer_wf p → (∀ d, d ∈ ds → (d < issued (pd_deferreds p))%nat) →
  ∃ p', pfor_each ds cancel p = (p', Ok tt) ∧ producer_wf p'.
Proof.
  induction ds as [|d ds IH]; intros p Hp Hds; [by exists p|].
  pose proof (producer_cancel_wf d p Hp (Hds d ltac:(set_solver))) as Hw.
  pose proof (cancel_eq d p) as He. destruct (cancel d p) as [p1 r] eqn:Hcan. injection He as -> ->.
  rewrite (pfor_each_step _ _ _ _ _ Hcan). cbn in Hw. apply IH; [done|].
  intros x Hx. specialize (Hds x ltac:(set_solver)).
  destruct (decide (uncalled p d)); [|done]. cbn. unfold dequeued. by destruct (filter _ _).
Qed.

Lemma cancel_outstanding_wf p :
  producer_wf p → ∃ p', _cancel_outstanding p = (p', Ok tt) ∧ producer_wf p'.
Proof.
  intros Hp. unfold _cancel_outstanding, mbind, proc_bind, pget. cbn. apply cancel_all_wf; [done|].
  intros d Hd. apply (c_outstanding _ _ (pw_core _ Hp)) in Hd. apply Hd.
Qed.

(** What the client calls back with. *)
Lemma lookup_step_wf view i step p :
  producer_wf p → (∀ req, books (step req)) →
  ∃ p', lookup_step cfg (_check_send_batch cfg view) i step p = (p', Ok tt) ∧ producer_wf p'.
Proof.
  intros Hp Hstep. unfold lookup_step, mbind, proc_bind, pget.
  destruct (_batch_send_d p) as [[requests ls| |]|] eqn:Hb; try by exists p.
  destruct (requests !! i) as [req|]; [|by exists p].
  destruct (Hstep req p) as (p1 & l & -> & Hs). pose proof (pw_core _ Hp) as Hc. pose proof (pw_batch _ Hp) as Hbo.
  rewrite Hb in Hc, Hbo. destruct Hbo as [Hl _].
  eapply (looking_wf _ requests (<[i:=l]> ls) p1 (λ _, True));
    [by eapply core_books|by rewrite length_insert|apply check_send_batch_ok|done].
Qed.

Lemma loaded_answer_wf view i r p :
  producer_wf p → ∃ p', loaded_answer cfg view i r p = (p', Ok tt) ∧ producer_wf p'.
Proof. intros Hp. apply lookup_step_wf; [done|]. intros req. apply metadata_loaded_books. Qed.

Lemma send_answer_wf view r p :
  producer_wf p → enabled (SendAnswer r) p = true →
  ∃ p', send_answer cfg view r p = (p', Ok tt) ∧ producer_wf p'.
Proof.
  intros Hp He. unfold send_answer, mbind, proc_bind, pget. cbn in He.
  pose proof (pw_core _ Hp) as Hc. pose proof (pw_batch _ Hp) as Hb.
  destruct (_batch_send_d p) as [[|s payloads|]|]; try done. destruct Hb as [Hs Ha].
  eapply chain_wf; [by eapply handle_step|apply check_send_batch_ok|done].
Qed.

Lemma retry_wf view p :
  producer_wf p → enabled RetryElapsed p = true →
  ∃ p', retry_elapsed cfg view p = (p', Ok tt) ∧ producer_wf p'.
Proof.
  intros Hp He. unfold retry_elapsed, mbind, proc_bind, pget. cbn in He.
  pose proof (pw_core _ Hp) as Hc. pose proof (pw_batch _ Hp) as Hb.
  destruct (_batch_send_d p) as [[| |s payloads]|]; try done. destruct Hb as [Hs Ha].
  eapply (chain_wf (all_deferreds s)); [|apply check_send_batch_ok|done].
  split; [done|]. split; [apply core_emit, core_attempts; [lia|done]|]. split; [done|cbn; lia].
Qed.

Lemma tick_wf view p : producer_wf p → ∃ p', _send_batch cfg view p = (p', Ok tt) ∧ producer_wf p'.
Proof.
  intros Hp. destruct (_batch_send_d p) as [b|] eqn:Hb.
  - exists p. split; [|done]. unfold _send_batch, send_batch, mbind, proc_bind, pget.
    by rewrite Hb, bool_decide_true, orb_true_r.
  - pose proof (pw_core _ Hp) as Hc. rewrite Hb in Hc.
    destruct (send_batch_wf (_check_send_batch cfg view) view p) as (p' & Hp' & Hw); [by split| |].
    + intros q Hq _. by apply check_send_batch_ok.
    + exists p'. split; [exact Hp'|]. by destruct Hw as [[_ ->]|].
Qed.

Lemma emits_wf es p :
  producer_wf p → producer_wf (foldl (λ p e, emit e p) p es).
Proof.
  revert p. induction es as [|e es IH]; intros p Hp; [done|]. cbn. apply IH. destruct Hp.
  split; [by apply core_emit|done|done].
Qed.

Lemma cancel_batch_wf view p :
  producer_wf p → ∃ p', cancel_batch cfg view p = (p', Ok tt) ∧ producer_wf p' ∧
    ∀ s payloads, _batch_send_d p = Some (BSending s payloads) → _batch_send_d p' = _batch_send_d p.
Proof.
  intros Hp. pose proof (pw_core _ Hp) as Hc. pose proof (pw_batch _ Hp) as Hb.
  unfold cancel_batch, mbind at 1, proc_bind at 1, pget at 1.
  destruct (_batch_send_d p) as [[requests ls|s payloads|s payloads]|] eqn:Hbd.
  - assert (pfor_each (E := exn) (loading_indices ls) (λ i, pmodify (emit (ECancelLoad i))) p =
      (foldl (λ p e, emit e p) p (ECancelLoad <$> loading_indices ls), Ok tt)) as He.
    { rewrite (pfor_each_pure _ (λ i p, emit (ECancelLoad i) p)) by done. f_equal.
      clear. generalize (loading_indices ls) as ixs. intros ixs. revert p.
      induction ixs as [|i ixs IH]; intros p; [done|]. cbn. apply IH. }
    erewrite proc_bind_ok by exact He.
    assert (∀ es, core (sr_deferred <$> requests) (foldl (λ p e, emit e p) p es)) as Hces.
    { intros es. revert Hc. clear. revert p. induction es as [|e es IH]; intros p Hc; [done|].
      cbn. by apply IH, core_emit. }
    destruct Hb as [Hl _].
    destruct (looking_wf (_check_send_batch cfg view) requests (cancel_lookup <$> ls) _ (λ _, True)
      (Hces (ECancelLoad <$> loading_indices ls))) as (p' & Hp' & Hw);
      [by rewrite length_fmap|apply check_send_batch_ok|done|]. exists p'. by split_and!.
  - exists (emit ECancelSend p). split; [done|]. split; [|by intros].
    split; [by apply core_emit; cbn; rewrite Hbd|cbn; by rewrite Hbd|intros Hn; cbn in Hn; congruence].
  - destruct (chain_wf (all_deferreds s) (_check_send_batch cfg view)
      (_ ← pmodify (emit ECancelCall);
       _ ← _deliver_result (all_deferreds s) (Failure TwistedCancelledError);
       praise TwistedCancelledError) p (λ _, True)) as (p' & Hp' & Hw);
      [|apply check_send_batch_ok|done|by exists p'].
    unfold chain_step. erewrite proc_bind_ok by done.
    pose proof (c_disjoint _ _ Hc) as Hdis. apply NoDup_app in Hdis as (Hnd & _ & _).
    erewrite proc_bind_ok by (by apply deliver_eq). split; [done|].
    pose proof (fires_ok [(all_deferreds s, Failure TwistedCancelledError)] _ _ (core_emit _ ECancelCall _ Hc)) as Hf.
    cbn [fires] in Hf. rewrite app_nil_r in Hf. apply Hf. by constructor.
  - exists p. by split_and!.
Qed.

Lemma loads_wf view loads : ∀ p,
  producer_wf p →
  ∃ p', pfor_each loads (λ il, loaded_answer cfg view il.1 il.2) p = (p', Ok tt) ∧ producer_wf p'.
Proof.
  induction loads as [|il loads IH]; intros p Hp; [by exists p|].
  destruct (loaded_answer_wf view il.1 il.2 p Hp) as (p1 & H1 & Hp1).
  rewrite (pfor_each_step il loads (λ il, loaded_answer cfg view il.1 il.2) p p1 H1). by apply IH.
Qed.
End invariant.

(** ** What is only added to

    Whatever the producer does but for its looping call, a deferred that has
    fired stays fired, and nothing it did is undone. *)
Section follows.
Context `{PS : Partitioners} `{CompressionLib} (cfg : config).
Implicit Types (p : Producer).

Definition follows p p' : Prop :=
  _sendLooper p' = _sendLooper p ∧ firings (pd_deferreds p) `prefix_of` firings (pd_deferreds p') ∧
  (issued (pd_deferreds p) ≤ issued (pd_deferreds p'))%nat ∧ pd_effects p `prefix_of` pd_effects p'.

#[export] Instance follows_preorder : PreOrder follows.
Proof.
  split; [intros p; by split_and!|]. intros p1 p2 p3 (? & ? & ? & ?) (? & ? & ? & ?).
  split_and!; [congruence|by etrans|lia|by etrans].
Qed.

(** Steps that follow whatever came before. *)
Lemma keeps_follows {A} p0 (m : proc exn Producer A) :
  (∀ p, follows p (m p).1) → keeps (follows p0) m.
Proof. intros Hm p Hp. by etrans. Qed.

Lemma follows_modify p0 (f : Producer → Producer) :
  (∀ p, follows p (f p)) → keeps (follows p0) (pmodify (E := exn) f).
Proof. intros Hf. apply keeps_follows. exact Hf. Qed.

Lemma settle_follows p0 d o : keeps (follows p0) (settle d o).
Proof.
  apply keeps_follows. intros p. unfold settle, fire. destruct (called d (pd_deferreds p)); [case_decide|];
    cbn; split_and!; cbn; by first [done|apply prefix_app_r].
Qed.

Lemma is_called_follows p0 d : keeps (follows p0) (is_called d).
Proof. apply keeps_get. Qed.

Ltac follows_modify :=
  intros ? ?; etrans; [eassumption|]; split_and!; cbn;
  repeat apply prefix_app_r; first [done|lia].

#[local] Hint Resolve settle_follows is_called_follows : keeps.
#[local] Hint Extern 2 => lazymatch goal with |- ∀ s, _ → follows _ _ => follows_modify end : keeps.

Lemma deliver_follows p0 ds o : keeps (follows p0) (_deliver_result ds o).
Proof. apply keeps_for. intros d _. keeps_steps. Qed.
#[local] Hint Resolve deliver_follows : keeps.

Lemma next_partition_follows p0 view t k : keeps (follows p0) (_next_partition cfg view t k).
Proof. unfold _next_partition, pick_partition. keeps_steps. Qed.

Lemma metadata_loaded_follows p0 view t k r : keeps (follows p0) (metadata_loaded view t k r).
Proof. unfold metadata_loaded, pick_partition. keeps_steps. Qed.

Lemma lookups_follows p0 view requests : keeps (follows p0) (lookups_of cfg view requests).
Proof.
  induction requests as [|req reqs IH]; [apply keeps_ret|]. cbn [lookups_of].
  apply keeps_bind; [apply next_partition_follows|]. intros l. keeps_steps.
Qed.

Lemma sort_requests_follows p0 found acc : keeps (follows p0) (sort_requests found acc).
Proof.
  revert acc. induction found as [|[[x|e] req] found IH]; intros acc; cbn [sort_requests]; keeps_steps.
Qed.
#[local] Hint Resolve next_partition_follows metadata_loaded_follows lookups_follows sort_requests_follows : keeps.

Lemma send_requests_follows p0 results requests : keeps (follows p0) (_send_requests cfg results requests).
Proof. unfold _send_requests, send_payloads. keeps_steps. Qed.

Lemma check_retry_follows p0 s failed : keeps (follows p0) (_check_retry_payloads cfg s failed).
Proof.
  unfold _check_retry_payloads. keeps_steps. apply keeps_for. intros pf _. auto with keeps.
Qed.

Lemma handle_responses_follows p0 s rs failed : keeps (follows p0) (handle_responses s rs failed).
Proof.
  revert failed. induction rs as [|r rs IH]; intros failed; cbn [handle_responses]; keeps_steps.
Qed.
#[local] Hint Resolve send_requests_follows check_retry_follows handle_responses_follows : keeps.

Lemma handle_send_response_follows p0 s result : keeps (follows p0) (_handle_send_response cfg s result).
Proof. unfold _handle_send_response. keeps_steps. Qed.
#[local] Hint Resolve handle_send_response_follows : keeps.

Lemma chain_follows p0 check m :
  keeps (follows p0) m → keeps (follows p0) check → keeps (follows p0) (chain check m).
Proof.
  intros Hm Hc p Hp. unfold chain. specialize (Hm p Hp). destruct (m p) as [p1 [[b|]|e]]; cbn in Hm;
    [|apply Hc|apply Hc]; (etrans; [exact Hm|]); by split_and!.
Qed.

Lemma looking_follows p0 check requests ls :
  keeps (follows p0) check → keeps (follows p0) (looking cfg check requests ls).
Proof. intros Hc. unfold looking. keeps_steps. by apply chain_follows; [apply send_requests_follows|]. Qed.

Lemma send_batch_follows p0 check view :
  keeps (follows p0) check → keeps (follows p0) (send_batch cfg check view).
Proof. intros Hc. unfold send_batch. keeps_steps. by apply looking_follows. Qed.

Lemma check_follows p0 n view : keeps (follows p0) (check_send_batch cfg n view).
Proof.
  induction n as [|n IH]; cbn [check_send_batch]; [apply keeps_raise|]. keeps_steps. by apply send_batch_follows.
Qed.

Lemma lookup_step_follows p0 view i step :
  (∀ req, keeps (follows p0) (step req)) →
  keeps (follows p0) (lookup_step cfg (_check_send_batch cfg view) i step).
Proof.
  intros Hs. unfold lookup_step. apply keeps_bind; [apply keeps_get|]. intros [[requests ls| |]|]; try apply keeps_ret.
  destruct (requests !! i); [|apply keeps_ret]. apply keeps_bind; [apply Hs|]. intros l.
  apply looking_follows, check_follows.
Qed.

Lemma loaded_answer_follows p0 view i r : keeps (follows p0) (loaded_answer cfg view i r).
Proof. apply lookup_step_follows. auto with keeps. Qed.

Lemma send_answer_follows p0 view r : keeps (follows p0) (send_answer cfg view r).
Proof.
  unfold send_answer. apply keeps_bind; [apply keeps_get|]. intros [[| |]|]; try apply keeps_ret.
  apply chain_follows; [auto with keeps|apply check_follows].
Qed.

Lemma cancel_batch_follows p0 view : keeps (follows p0) (cancel_batch cfg view).
Proof.
  unfold cancel_batch. apply keeps_bind; [apply keeps_get|]. intros [[requests ls|s pls|s pls]|].
  - apply keeps_bind; [apply keeps_for; intros i _; keeps_steps; follows_modify|]. intros _.
    apply looking_follows, check_follows.
  - keeps_steps.
  - apply chain_follows; [keeps_steps|apply check_follows].
  - apply keeps_ret.
Qed.

Lemma cancel_follows p0 d : keeps (follows p0) (cancel d).
Proof. unfold cancel, _cancel_send_messages. keeps_steps. Qed.

Lemma cancel_outstanding_follows p0 : keeps (follows p0) _cancel_outstanding.
Proof. unfold _cancel_outstanding. keeps_steps. apply keeps_for. intros d _. apply cancel_follows. Qed.

(** What [stop] does before it comes to the looping call. *)
Definition stop_answers view (loads : list (nat * res unit)) (sent : option produce_result)
    : proc exn Producer unit :=
  _ ← pmodify (with_stopping true);
  _ ← cancel_batch cfg view;
  _ ← pfor_each loads (λ il, loaded_answer cfg view il.1 il.2);
  match sent with Some r => send_answer cfg view r | None => mret tt end.

Lemma stop_eq view loads sent p :
  stop cfg view loads sent p =
    (_ ← stop_answers view loads sent; _ ← stop_looper cfg; _cancel_outstanding) p.
Proof.
  unfold stop, stop_answers, mbind, proc_bind. cbn.
  destruct (cancel_batch cfg view _) as [p1 [[]|]]; [|done].
  destruct (pfor_each loads _ p1) as [p2 [[]|]]; [|done].
  destruct sent as [r|]; [|done]. by destruct (send_answer cfg view r p2) as [p3 [[]|]].
Qed.

Lemma stop_answers_follows p0 view loads sent : keeps (follows p0) (stop_answers view loads sent).
Proof.
  unfold stop_answers. keeps_steps; [apply cancel_batch_follows|apply keeps_for|apply send_answer_follows].
  intros il _. apply loaded_answer_follows.
Qed.
End follows.

(** ** The events *)

Section events.
Context `{PS : Partitioners} `{CompressionLib} (cfg : config).
Implicit Types (p : Producer).

Lemma wf_looper l p : producer_wf cfg p → producer_wf cfg (with_looper l p).
Proof. intros []. split; [by apply core_looper|done|done]. Qed.
Lemma wf_stopping b p : producer_wf cfg p → producer_wf cfg (with_stopping b p).
Proof. intros []. split; [by apply core_stopping|done|done]. Qed.
Lemma wf_emit e p : producer_wf cfg p → producer_wf cfg (emit e p).
Proof. intros []. split; [by apply core_emit|done|done]. Qed.

(** A looping call that has stopped, and is there still. *)
Definition looper_stuck p : Prop := batch_every_t cfg ≠ None ∧ _sendLooper p = Some LoopStopped.

Lemma stop_looper_wf p :
  producer_wf cfg p →
  ∃ p' r, stop_looper cfg p = (p', r) ∧ producer_wf cfg p' ∧ pd_deferreds p' = pd_deferreds p ∧
    (looper_stuck p ∧ r = Err PyAssertionError ∨ ¬ looper_stuck p ∧ r = Ok tt).
Proof.
  intros Hp. unfold stop_looper, looper_stuck, mbind, proc_bind, pget, pmodify. cbn.
  destruct (batch_every_t cfg) as [t|]; [destruct (_sendLooper p) as [[b|]|] eqn:Hl|].
  - do 2 eexists. split; [done|]. split; [by apply wf_looper, wf_emit|]. split; [done|].
    right. split; [by intros [_ ?]|done].
  - do 2 eexists. split; [done|]. split; [done|]. split; [done|]. by left.
  - do 2 eexists. split; [done|]. split; [done|]. split; [done|]. right. split; [by intros [_ ?]|done].
  - do 2 eexists. split; [done|]. split; [done|]. split; [done|]. right. split; [by intros [? _]|done].
Qed.

Lemma stop_answers_wf view loads sent p :
  producer_wf cfg p → enabled (Stop loads sent) p = true →
  ∃ p', stop_answers cfg view loads sent p = (p', Ok tt) ∧ producer_wf cfg p'.
Proof.
  intros Hp He. unfold stop_answers. erewrite proc_bind_ok by done.
  destruct (cancel_batch_wf cfg view _ (wf_stopping true p Hp)) as (p1 & H1 & Hp1 & Hb1).
  erewrite proc_bind_ok by exact H1. cbn in Hb1.
  destruct (loads_wf cfg view loads p1 Hp1) as (p2 & H2 & Hp2). erewrite proc_bind_ok by exact H2.
  destruct sent as [r|]; [|by exists p2]. cbn in He.
  destruct (_batch_send_d p) as [[|s payloads|]|] eqn:Hb.
  2: { apply andb_prop in He as [Hl He]. destruct loads as [|]; [|done]. injection H2 as <-.
    apply send_answer_wf; [done|]. cbn. by rewrite (Hb1 s payloads eq_refl). }
  all: by apply andb_prop in He as [_ He].
Qed.

(** Cancelled deferreds have fired; no other becomes outstanding. *)
Lemma cancel_fires d p :
  (d < issued (pd_deferreds p))%nat → d ∈ (firings (pd_deferreds (cancel d p).1)).*1.
Proof.
  intros Hd. rewrite cancel_eq. cbn. destruct (decide (uncalled p d)) as [Hu|Hu].
  - cbn. rewrite fmap_app. apply elem_of_app. right. apply list_elem_of_here.
  - unfold uncalled in Hu. apply not_false_is_true in Hu. by apply called_spec.
Qed.

Lemma cancel_all_fired ds : ∀ p p',
  (∀ d, d ∈ ds → (d < issued (pd_deferreds p))%nat) → pfor_each ds cancel p = (p', Ok tt) →
  issued (pd_deferreds p') = issued (pd_deferreds p) ∧
  ∀ d, d ∈ ds ∨ d ∈ (firings (pd_deferreds p)).*1 → d ∈ (firings (pd_deferreds p')).*1.
Proof.
  induction ds as [|d ds IH]; intros p p' Hds Hp.
  { injection Hp as <-. split; [done|]. by intros d [?%elem_of_nil|]. }
  pose proof (cancel_eq d p) as Heq. pose proof (cancel_fires d p (Hds d ltac:(set_solver))) as Hfd.
  pose proof (cancel_follows p d p ltac:(reflexivity)) as (_ & [fs Hfs] & _ & _).
  destruct (cancel d p) as [p1 r] eqn:Hcan. injection Heq as Hp1 ->. cbn in Hfd, Hfs.
  assert (issued (pd_deferreds p1) = issued (pd_deferreds p)) as Hi.
  { rewrite Hp1. destruct (decide (uncalled p d)); [|done]. cbn. unfold dequeued. by destruct (filter _ _). }
  rewrite (pfor_each_step _ _ _ _ _ Hcan) in Hp. apply IH in Hp as [Hi' Hf']; [|rewrite Hi; set_solver].
  split; [congruence|]. intros x Hx. apply Hf'.
  rewrite Hfs, fmap_app, elem_of_app in *. set_solver.
Qed.

Lemma cancel_outstanding_done p :
  producer_wf cfg p →
  ∃ p', _cancel_outstanding p = (p', Ok tt) ∧ producer_wf cfg p' ∧
    _outstanding p' = [] ∧ _batch_reqs p' = [].
Proof.
  intros Hp. destruct (cancel_outstanding_wf cfg p Hp) as (p' & Hc & Hp'). exists p'.
  split; [done|]. split; [done|]. pose proof (pw_core _ _ Hp) as Hco. pose proof (pw_core _ _ Hp') as Hco'.
  assert (∀ d, ¬ outstanding d (pd_deferreds p')) as Hnone.
  { unfold _cancel_outstanding in Hc. apply cancel_all_fired in Hc as [Hi Hf].
    - intros d [Hd1 Hd2]. apply Hd2, Hf. rewrite Hi in Hd1.
      destruct (decide (d ∈ (firings (pd_deferreds p)).*1)); [by right|left].
      apply (c_outstanding _ _ Hco). by split.
    - intros d Hd. by apply (c_outstanding _ _ Hco) in Hd as [? _]. }
  split; apply elem_of_nil_inv.
  - intros d Hd. apply (Hnone d). by apply (c_outstanding _ _ Hco').
  - intros req Hr. apply (c_queue _ _ Hco') in Hr as [Hr _]. by apply (Hnone (sr_deferred req)).
Qed.

(** [stop]: everything that was submitted is answered when it ends. *)
Lemma stop_wf view loads sent p :
  producer_wf cfg p → enabled (Stop loads sent) p = true →
  ∃ p' r, stop cfg view loads sent p = (p', r) ∧ producer_wf cfg p' ∧
    (looper_stuck p ∧ r = Err PyAssertionError ∨
     ¬ looper_stuck p ∧ r = Ok tt ∧ _outstanding p' = [] ∧ _batch_reqs p' = []).
Proof.
  intros Hp He. rewrite stop_eq.
  destruct (stop_answers_wf view loads sent p Hp He) as (p1 & H1 & Hp1).
  pose proof (stop_answers_follows cfg p view loads sent p ltac:(reflexivity)) as (Hl & _).
  rewrite H1 in Hl. erewrite proc_bind_ok by exact H1. cbn in Hl.
  destruct (stop_looper_wf p1 Hp1) as (p2 & r & H2 & Hp2 & _ & Hr).
  assert (looper_stuck p1 ↔ looper_stuck p) as Hs by (unfold looper_stuck; by rewrite Hl).
  rewrite Hs in Hr. destruct Hr as [[Hst ->]|[Hst ->]].
  - exists p2, (Err PyAssertionError). split; [unfold mbind, proc_bind; by rewrite H2|]. split; [done|by left].
  - erewrite proc_bind_ok by exact H2. destruct (cancel_outstanding_done p2 Hp2) as (p3 & H3 & Hp3 & Ho & Hq).
    exists p3, (Ok tt). split; [done|]. split; [done|by right].
Qed.

Definition stops (e : event) : bool := match e with Stop _ _ => true | _ => false end.

(** Each event leads to a good state, and raises nothing, but for a [stop] that
    finds its looping call stopped. *)
Lemma producer_handle_wf view e p :
  producer_wf cfg p → enabled e p = true →
  ∃ p' r, handle cfg view e p = (p', r) ∧ producer_wf cfg p' ∧
    (r = Ok tt ∨ r = Err PyAssertionError ∧ stops e = true ∧ looper_stuck p).
Proof.
  intros Hp He. destruct e as [topic key msgs|d| | |i loaded|i|result| |loads sent]; cbn [handle].
  - pose proof (send_messages_eq cfg view topic key msgs p Hp) as Hs.
    destruct (check_arguments topic key msgs) as [[[[t k] ms] n]|e].
    + destruct Hs as (p' & _ & Hw & Hs). exists p', (Ok tt).
      split; [by erewrite proc_bind_ok by exact Hs|]. split; [done|by left].
    + exists p, (Ok tt). split; [by erewrite proc_bind_ok by exact Hs|]. split; [done|by left].
  - apply bool_decide_eq_true in He. exists (cancel d p).1, (Ok tt).
    split; [by rewrite cancel_eq|]. split; [by apply producer_cancel_wf|by left].
  - destruct (tick_wf cfg view p Hp) as (p' & Ht & Hw). exists p', (Ok tt).
    split; [done|]. split; [done|by left].
  - eexists _, (Ok tt). split; [done|]. split; [by apply wf_looper, wf_emit|by left].
  - destruct (loaded_answer_wf cfg view i loaded p Hp) as (p' & Hl & Hw). exists p', (Ok tt).
    split; [done|]. split; [done|by left].
  - destruct (lookup_step_wf cfg view i (λ req, _next_partition cfg view (sr_topic req) (sr_key req)) p Hp)
      as (p' & Hl & Hw); [intros req; apply next_partition_books|].
    exists p', (Ok tt). split; [done|]. split; [done|by left].
  - destruct (send_answer_wf cfg view result p Hp He) as (p' & Hl & Hw). exists p', (Ok tt).
    split; [done|]. split; [done|by left].
  - destruct (retry_wf cfg view p Hp He) as (p' & Hl & Hw). exists p', (Ok tt).
    split; [done|]. split; [done|by left].
  - destruct (stop_wf view loads sent p Hp He) as (p' & r & Hl & Hw & Hr). exists p', r.
    split; [done|]. split; [done|]. destruct Hr as [[Hst ->]|(_ & -> & _)]; [by right|by left].
Qed.

Lemma producer_step_wf view e p : producer_wf cfg p → enabled e p = true → producer_wf cfg (step cfg view e p).
Proof.
  intros Hp He. unfold step. by destruct (producer_handle_wf view e p Hp He) as (p' & r & -> & Hw & _).
Qed.

Lemma producer_reachable_wf p0 p : producer_wf cfg p0 → reachable cfg p0 p → producer_wf cfg p.
Proof. intros H0. induction 1; [done|by apply producer_step_wf]. Qed.
End events.

Lemma producer_init_wf `{PS : Partitioners} acks timeout attempts codec send n b t cfg p :
  __init__ acks timeout attempts codec send n b t = Ok (cfg, p) → producer_wf cfg p.
Proof.
  unfold __init__. destruct (if send then _ else _) as [[[n' b'] t']|]; [|done]. cbn.
  destruct (check_codec codec) as [codec'|]; [|done]. cbn. intros [= <- <-].
  split; [|done|by intros _ _]. split; cbn; try done.
  - apply no_deferreds_wf.
  - intros d. split; [by intros ?%elem_of_nil|]. intros [? _]. cbn in *. lia.
  - constructor.
  - by intros req ?%elem_of_nil.
  - constructor.
  - by intros d ?%elem_of_nil.
Qed.
