(* ===== verification/ProducerTheorems.v ===== *)
(** Properties of [Producer]: its states stay well formed and its handlers do
    not raise; a batch becomes one payload per partition with the messages of
    the requests that wait for it; the answer to the payloads reaches the
    deferreds of each; a batch is finished after a bounded number of answers;
    [stop] leaves no request unanswered. *)
From S2P Require Import Prelude Common PyBytes Util Codec KafkaCodec Partitioner Deferred Client Routing Producer ProducerInvariant.
Local Open Scope Z_scope.

(** ** Batches *)

Section batches.
Context `{PS : Partitioners} `{CompressionLib} (cfg : config).
Implicit Types (p : Producer).

(** The requests whose partition is [k], in the order they were submitted. *)
Definition at_partition (k : TopicAndPartition) (found : list (res Z * SendRequest)) : list SendRequest :=
  (filter (λ kr, kr.1 = k) (placed found)).*2.

Lemma groups_get p results requests k :
  Dict.get k (groups p results requests) =
    match at_partition k (live p (zip results requests)) with [] => None | reqs => Some reqs end.
Proof.
  unfold groups, at_partition. set (l := placed _). pose proof (collect_get l k) as Hg.
  destruct (Dict.get k (collect l [])) as [xs|] eqn:Hx; cbn in Hg; rewrite <- Hg.
  - apply Dict.get_Some_elem, collect_elem in Hx as [_ Hne]. by destruct xs.
  - done.
Qed.

Lemma built_get reqs payloads k :
  built cfg reqs payloads →
  match Dict.get k reqs with
  | Some rs => ∃ msgs, create_message_set rs (codec cfg) = Ok msgs ∧
      Dict.get k payloads = Some (mkProduceRequest (tp_topic k) (tp_partition k) msgs)
  | None => Dict.get k payloads = None
  end.
Proof.
  induction 1 as [|[k1 rs] [k2 pl] reqs payloads (H1 & H2 & H3) _ IH]; [done|]. cbn in *. subst k2.
  destruct (decide (k = k1)) as [->|]; [|done]. exists (pr_messages pl). split; [done|].
  destruct pl. unfold payload_key in H2. cbn in *. by rewrite <- H2.
Qed.

Lemma build_payloads_err reqs e :
  build_payloads cfg reqs = Err e → ∃ k rs, (k, rs) ∈ reqs ∧ create_message_set rs (codec cfg) = Err e.
Proof.
  induction reqs as [|[k rs] reqs IH]; cbn; [done|].
  destruct (create_message_set rs (codec cfg)) as [ms|e'] eqn:Hm; cbn.
  - destruct (build_payloads cfg reqs); cbn; [done|]. intros [= ->]. destruct IH as (k' & rs' & Hin & He); [done|].
    exists k', rs'. split; [by right|done].
  - intros [= ->]. exists k, rs. split; [by left|done].
Qed.

Lemma deferreds_of_get reqs k : Dict.get k (deferreds_of reqs) = (λ rs : list SendRequest, sr_deferred <$> rs) <$> Dict.get k reqs.
Proof. induction reqs as [|[k' rs] reqs IH]; [done|]. cbn. by case_decide. Qed.

(** C19. When the partitions of a batch are known, a request that was cancelled
    meanwhile is skipped, one without partition fails with the reason, and the
    others are sent at once in one payload per topic and partition: it holds
    the message set made of its requests in the order they were submitted, and
    their deferreds are filed with it. No other deferred fires. If a message
    set cannot be made nothing is sent, and the batch ends with its deferreds
    waiting. *)
Theorem batch_sent results requests p :
  length results = length requests → NoDup (sr_deferred <$> requests) →
  let found := live p (zip results requests) in
  let '(p', r) := _send_requests cfg results requests p in
  _batch_reqs p' = _batch_reqs p ∧
  firings (pd_deferreds p') = firings (pd_deferreds p) ++ refused found ∧
  match r with
  | Ok (Some (BSending s payloads)) =>
      pd_effects p' = pd_effects p ++ [ESend payloads] ∧ _req_attempts p' = _req_attempts p + 1 ∧
      payloads = (payloadsByTopicPart s).*2 ∧ NoDup (Dict.keys (payloadsByTopicPart s)) ∧
      ∀ k, match at_partition k found with
           | [] => Dict.get k (payloadsByTopicPart s) = None ∧ deferreds_at s k = []
           | reqs => ∃ msgs, create_message_set reqs (codec cfg) = Ok msgs ∧
               Dict.get k (payloadsByTopicPart s) =
                 Some (mkProduceRequest (tp_topic k) (tp_partition k) msgs) ∧
               deferreds_at s k = sr_deferred <$> reqs
           end
  | Ok (Some _) => False
  | Ok None => pd_effects p' = pd_effects p ∧ ∀ k, at_partition k found = []
  | Err e =>
      pd_effects p' = pd_effects p ∧
      ∃ k, at_partition k found ≠ [] ∧ create_message_set (at_partition k found) (codec cfg) = Err e
  end.
Proof.
  intros Hl Hnd found. rewrite send_requests_eq by done. fold found.
  pose proof (groups_get p results requests) as Hg. fold found in Hg.
  destruct (build_payloads cfg (groups p results requests)) as [pls|e] eqn:Hb.
  - pose proof (build_payloads_ok _ _ _ Hb) as Hbuilt. destruct pls as [|pl pls'].
    + do 3 (split; [done|]). intros k. specialize (Hg k).
      inversion Hbuilt as [Hn|]. rewrite <- Hn in Hg. cbn in Hg. by destruct (at_partition k found).
    + set (pls := pl :: pls') in *. do 5 (split; [done|]).
      pose proof (built_ok cfg _ _ (collect_nodup _) Hbuilt) as Hok. split; [exact (so_nodup _ Hok)|].
      intros k. specialize (Hg k). pose proof (built_get _ _ k Hbuilt) as Hk.
      unfold deferreds_at. cbn [payloadsByTopicPart deferredsByTopicPart]. rewrite deferreds_of_get.
      destruct (at_partition k found) as [|r rs]; rewrite Hg in *; [done|].
      destruct Hk as (msgs & H1 & H2). by exists msgs.
  - do 3 (split; [done|]). apply build_payloads_err in Hb as (k & rs & Hin & He).
    exists k. unfold at_partition. unfold groups in Hin. fold found in Hin.
    apply collect_elem in Hin as [<- Hne]. done.
Qed.
End batches.

(** ** Answers *)

Section answers.
Context `{PS : Partitioners} `{CompressionLib} (cfg : config).
Implicit Types (p : Producer).

(** What an answer of the client says of the payload for a partition: its
    deferreds are called back with this, it failed, or nothing. *)
Inductive verdict := Answered (o : outcome delivered) | Failed (f : failure) | Silent.

Definition response_to (k : TopicAndPartition) (rs : list ProduceResponse) : option ProduceResponse :=
  head (filter (λ r, response_key r = k) rs).
Definition failure_of (k : TopicAndPartition) (failed : list (ProduceRequest * failure)) : option failure :=
  snd <$> head (filter (λ pf, payload_key pf.1 = k) failed).

Definition verdict_on (rs : list ProduceResponse) (failed : list (ProduceRequest * failure))
    (k : TopicAndPartition) : verdict :=
  match response_to k rs, failure_of k failed with
  | Some r, _ =>
    match raise_for_errno (prr_error r) with
    | Ok _ => Answered (Success (DResponse r))
    | Err e => Failed (FException e)
    end
  | None, Some f => Failed f
  | None, None => Silent
  end.

Definition failures_of (failed : list (ProduceRequest * exn)) : list (ProduceRequest * failure) :=
  (λ pe : ProduceRequest * exn, (pe.1, FFailure pe.2)) <$> failed.

Definition verdict_of (result : produce_result) (k : TopicAndPartition) : verdict :=
  match result with
  | Ok [] => Answered (if req_acks cfg =? PRODUCER_ACK_NOT_REQUIRED then Success DNone else Failure NoResponseError)
  | Ok rs => verdict_on rs [] k
  | Err (SExn e) => if is_KafkaError e then Failed (FFailure e) else Answered (Failure e)
  | Err (SFailedPayloads rs failed) => verdict_on rs (failures_of failed) k
  end.

(** A payload has one response or one failure at most, as the client promises
    ([RoutingTheorems.responses_collected]). *)
Definition once (rs : list ProduceResponse) (failed : list (ProduceRequest * failure)) : Prop :=
  NoDup ((response_key <$> rs) ++ (payload_key <$> failed.*1)).
Definition answers_once (result : produce_result) : Prop :=
  match result with
  | Ok rs => once rs []
  | Err (SExn _) => True
  | Err (SFailedPayloads rs failed) => once rs (failures_of failed)
  end.

Lemma fires_only l ds o : ∀ p d,
  uncalled p d → (ds, o) ∈ l → d ∈ ds → (∀ dso, dso ∈ l → d ∈ dso.1 → dso.2 = o) → (d, o) ∈ fires l p.
Proof.
  induction l as [|[ds' o'] l IH]; intros p d Hu Hin Hd Hl; [by apply elem_of_nil in Hin|].
  cbn. apply elem_of_app. destruct (decide (d ∈ ds')) as [Hd'|Hd'].
  - left. assert (o' = o) as -> by (by apply (Hl (ds', o')); [left|]).
    apply list_elem_of_fmap. exists d. split; [done|]. by apply list_elem_of_filter.
  - right. apply elem_of_cons in Hin as [[= -> ->]|Hin]; [done|]. apply IH; [|done|done|].
    + apply uncalled_settled. split; [done|]. rewrite fires_snd. by intros [_ ?]%list_elem_of_filter.
    + intros dso Hdso. apply Hl. by right.
Qed.

Lemma NoDup_fmap_eq {A B} (f : A → B) l x y : NoDup (f <$> l) → x ∈ l → y ∈ l → f x = f y → x = y.
Proof.
  induction l as [|z l IH]; [by intros _ ?%elem_of_nil|]. cbn. intros [Hz Hnd]%NoDup_cons Hx Hy He.
  apply elem_of_cons in Hx as [->|Hx], Hy as [->|Hy]; [done| | |by apply IH].
  - exfalso. apply Hz. rewrite He. by apply list_elem_of_fmap_2.
  - exfalso. apply Hz. rewrite <- He. by apply list_elem_of_fmap_2.
Qed.

Lemma head_filter_elem {A} (P : A → Prop) `{∀ x, Decision (P x)} (l : list A) x :
  head (filter P l) = Some x → x ∈ l ∧ P x.
Proof.
  intros Hh. destruct (filter P l) as [|y ys] eqn:Hf; [done|]. injection Hh as ->.
  assert (x ∈ filter P l) as Hx by (rewrite Hf; by left). by apply list_elem_of_filter in Hx as [? ?].
Qed.

Lemma head_filter_none {A} (P : A → Prop) `{∀ x, Decision (P x)} (l : list A) x :
  head (filter P l) = None → x ∈ l → ¬ P x.
Proof.
  intros Hh Hx Hp. assert (x ∈ filter P l) as Hin by (by apply list_elem_of_filter).
  destruct (filter P l); [by apply elem_of_nil in Hin|done].
Qed.

(** The deferreds of different partitions are different. *)
Lemma deferreds_at_inj s k k' d :
  NoDup (all_deferreds s) → d ∈ deferreds_at s k → d ∈ deferreds_at s k' → k = k'.
Proof.
  unfold all_deferreds, deferreds_at. generalize (deferredsByTopicPart s) as l.
  induction l as [|[k0 ds] l IH]; cbn; [by intros _ ?%elem_of_nil|]. intros (_ & Hdis & Hnd)%NoDup_app.
  assert (∀ k1, d ∈ default [] (Dict.get k1 l) → d ∈ concat l.*2) as Hin.
  { intros k1. destruct (Dict.get k1 l) as [ds1|] eqn:Hg; cbn; [|by intros ?%elem_of_nil]. intros Hd.
    apply Dict.get_Some_elem, (list_elem_of_fmap_2 snd) in Hg. apply list_elem_of_In, in_concat.
    exists ds1. by split; apply list_elem_of_In. }
  destruct (decide (k = k0)) as [->|], (decide (k' = k0)) as [->|]; cbn; [done| | |by apply IH].
  - intros Hd Hd'%Hin. by apply Hdis in Hd.
  - intros Hd%Hin Hd'. by apply Hdis in Hd'.
Qed.

Section payloads.
Context (s : sending) (rs : list ProduceResponse) (failed : list (ProduceRequest * failure)).
Hypothesis (Hok : sending_ok s) (Hnd : NoDup (all_deferreds s)) (Honce : once rs failed).
Hypothesis (Hkeys : ∀ r, r ∈ rs → response_key r ∈ Dict.keys (payloadsByTopicPart s)).

Lemma ack_elem ds o :
  (ds, o) ∈ acks s rs → ∃ r, r ∈ rs ∧ raise_for_errno (prr_error r) = Ok tt ∧
    ds = deferreds_at s (response_key r) ∧ o = Success (DResponse r).
Proof using Type.
  intros (r & Hr & He)%list_elem_of_omap. destruct (raise_for_errno (prr_error r)) as [[]|] eqn:Hc; [|done].
  injection He as <- <-. by exists r.
Qed.

Lemma response_unique r r' : r ∈ rs → r' ∈ rs → response_key r = response_key r' → r = r'.
Proof using Honce.
  unfold once in Honce. apply NoDup_app in Honce as (Hr & _ & _). by apply NoDup_fmap_eq.
Qed.

Lemma acked k r d p :
  response_to k rs = Some r → raise_for_errno (prr_error r) = Ok tt → d ∈ deferreds_at s k → uncalled p d →
  (d, Success (DResponse r)) ∈ fires (acks s rs) p.
Proof using Hnd Honce.
  intros [Hr <-]%head_filter_elem Hc Hd Hu.
  apply (fires_only _ (deferreds_at s (response_key r))); [done| |done|].
  - apply list_elem_of_omap. exists r. by rewrite Hc.
  - intros [ds o] (r' & Hr' & _ & -> & ->)%ack_elem Hd'. cbn in *.
    by rewrite (response_unique r' r Hr' Hr (deferreds_at_inj s _ _ d Hnd Hd' Hd)).
Qed.

Lemma not_acked k d p :
  match response_to k rs with Some r => raise_for_errno (prr_error r) ≠ Ok tt | None => True end →
  d ∈ deferreds_at s k → uncalled p d → uncalled (settled (fires (acks s rs) p) p) d.
Proof using Hnd Honce.
  intros Hr Hd Hu. apply uncalled_settled. split; [done|].
  intros ([d' o] & -> & Hin)%list_elem_of_fmap. apply fires_sound in Hin as (_ & ds & Hin & Hd').
  apply ack_elem in Hin as (r & Hin & Hc & -> & _).
  pose proof (deferreds_at_inj s _ _ _ Hnd Hd' Hd) as Hk.
  destruct (response_to k rs) as [r'|] eqn:Hr'.
  - apply head_filter_elem in Hr' as [Hr' Hk']. apply Hr.
    by rewrite <- (response_unique r r' Hin Hr') by congruence.
  - by apply (head_filter_none _ _ r Hr' Hin).
Qed.

Lemma error_elem pl f :
  (pl, f) ∈ errors s rs → ∃ r e, r ∈ rs ∧ raise_for_errno (prr_error r) = Err e ∧ f = FException e ∧
    payload_key pl = response_key r.
Proof using Hok.
  intros (r & Hr & He)%list_elem_of_omap. destruct (raise_for_errno (prr_error r)) as [|e] eqn:Hc; [done|].
  destruct (Dict.get _ _) as [pl'|] eqn:Hg; [|done]. injection He as <- <-.
  apply Dict.get_Some_elem in Hg. exists r, e. split_and!; try done. by apply (so_payload _ Hok).
Qed.

(** What has failed, by its partition. *)
Lemma failed_elem pf : pf ∈ failed ++ errors s rs → verdict_on rs failed (payload_key pf.1) = Failed pf.2.
Proof using Hok Honce.
  unfold verdict_on. pose proof Honce as Ho. unfold once in Ho. apply NoDup_app in Ho as (_ & Hdis & Hf).
  intros [Hin|Hin]%elem_of_app.
  - destruct (response_to (payload_key pf.1) rs) as [r|] eqn:Hr.
    { apply head_filter_elem in Hr as [Hr Hk]. exfalso. apply (Hdis (response_key r)).
      - by apply list_elem_of_fmap_2.
      - rewrite Hk. by do 2 apply list_elem_of_fmap_2. }
    unfold failure_of.
    destruct (head (filter _ failed)) as [pf'|] eqn:Hh.
    + cbn. do 2 f_equal. apply head_filter_elem in Hh as [Hin' Hk].
      rewrite <- list_fmap_compose in Hf. by rewrite (NoDup_fmap_eq _ _ pf' pf Hf).
    + by pose proof (head_filter_none _ _ pf Hh Hin).
  - destruct pf as [pl f]. apply error_elem in Hin as (r & e & Hr & Hc & -> & Hk). cbn. rewrite Hk.
    destruct (response_to (response_key r) rs) as [r'|] eqn:Hr'.
    + apply head_filter_elem in Hr' as [Hr' Hk']. by rewrite (response_unique r' r Hr' Hr Hk'), Hc.
    + by pose proof (head_filter_none _ _ r Hr' Hr).
Qed.

Lemma verdict_failed k f :
  verdict_on rs failed k = Failed f → ∃ pl, (pl, f) ∈ failed ++ errors s rs ∧ payload_key pl = k.
Proof using Hok Hkeys.
  unfold verdict_on. destruct (response_to k rs) as [r|] eqn:Hr.
  - apply head_filter_elem in Hr as [Hr <-]. destruct (raise_for_errno (prr_error r)) as [|e] eqn:Hc; [done|].
    intros [= <-]. destruct (Dict.get (response_key r) (payloadsByTopicPart s)) as [pl|] eqn:Hg.
    + exists pl. split; [|by apply (so_payload _ Hok), Dict.get_Some_elem]. apply elem_of_app. right.
      apply list_elem_of_omap. exists r. by rewrite Hc, Hg.
    + exfalso. apply Dict.get_None in Hg. by apply Hg, Hkeys.
  - unfold failure_of. destruct (head (filter _ failed)) as [[pl f']|] eqn:Hf; [|done].
    intros [= <-]. apply head_filter_elem in Hf as [Hf <-]. exists pl. split; [|done]. apply elem_of_app. by left.
Qed.
End payloads.

(** The whole of an answer that is not a single failure. *)
Definition handled s rs failed : proc exn Producer (option batch) :=
  failed ← handle_responses s rs failed;
  if is_empty failed then mret None else _check_retry_payloads cfg s failed.

(** What becomes of a deferred of the partition [k]. *)
Definition delivers (v : verdict) (k : TopicAndPartition) (d : nat) (s : sending) p p'
    (r : res (option batch)) : Prop :=
  match v with
  | Answered o => (d, o) ∈ firings (pd_deferreds p')
  | Silent => uncalled p' d
  | Failed f =>
    if _max_attempts cfg <=? _req_attempts p then
      (d, deliver_failure f) ∈ firings (pd_deferreds p') ∧ r = Ok None
    else
      uncalled p' d ∧ ECallLater (_retry_interval p) ∈ pd_effects p' ∧
      (stale f = true → ∃ ts, EResetTopics ts ∈ pd_effects p' ∧ tp_topic k ∈ ts) ∧
      ∃ again, r = Ok (Some (BDelay s again)) ∧ k ∈ payload_key <$> again
  end.

Lemma stale_topic k pf failed :
  pf ∈ failed → payload_key pf.1 = k → stale pf.2 = true → tp_topic k ∈ stale_topics failed.
Proof.
  intros Hin <- Hs. unfold stale_topics. apply elem_of_remove_dups.
  change (tp_topic (payload_key pf.1)) with (pr_topic pf.1).
  do 2 apply list_elem_of_fmap_2. by apply list_elem_of_filter.
Qed.

Lemma handled_delivers s rs failed p k d :
  sending_ok s → NoDup (all_deferreds s) → once rs failed →
  (∀ r, r ∈ rs → response_key r ∈ Dict.keys (payloadsByTopicPart s)) →
  d ∈ deferreds_at s k → uncalled p d →
  let '(p', r) := handled s rs failed p in delivers (verdict_on rs failed k) k d s p p' r.
Proof.
  intros Hok Hnd Honce Hkeys Hd Hu. assert (distinct s) as Hdis by (intros k'; by apply deferreds_at_nodup).
  unfold handled. rewrite (proc_bind_ok _ _ _ _ _ (handle_responses_eq s rs failed p Hdis Hkeys)).
  set (p1 := settled (fires (acks s rs) p) p). set (all := failed ++ errors s rs).
  assert (match verdict_on rs failed k with Answered o => (d, o) ∈ firings (pd_deferreds p1) | _ => uncalled p1 d end) as H1.
  { unfold verdict_on. destruct (response_to k rs) as [r|] eqn:Hr.
    - destruct (raise_for_errno (prr_error r)) as [[]|e] eqn:Hc.
      + cbn. apply elem_of_app. right. by eapply acked.
      + eapply not_acked; try done. rewrite Hr. by rewrite Hc.
    - assert (uncalled p1 d) by (eapply not_acked; try done; by rewrite Hr). by destruct (failure_of k failed). }
  assert (∀ pf, pf ∈ all → payload_key pf.1 = k → verdict_on rs failed k = Failed pf.2) as Hall.
  { intros pf Hpf <-. by eapply failed_elem. }
  destruct (is_empty all) eqn:He.
  { unfold all in *. cbn. destruct (verdict_on rs failed k) eqn:Hv; [done| |done].
    apply (verdict_failed s rs failed Hok Hkeys) in Hv as (pl & Hpl & _). destruct (failed ++ errors s rs); [|done].
    by apply elem_of_nil in Hpl. }
  rewrite check_retry_eq by done. change (_req_attempts p1) with (_req_attempts p). change (_retry_interval p1) with (_retry_interval p).
  unfold delivers. destruct (_max_attempts cfg <=? _req_attempts p).
  - destruct (verdict_on rs failed k) as [o|f|] eqn:Hv.
    + cbn. cbn in H1. rewrite <- app_assoc. rewrite elem_of_app in *. rewrite elem_of_app. tauto.
    + split; [|done]. cbn. rewrite elem_of_app. right.
      apply (verdict_failed s rs failed Hok Hkeys) in Hv as (pl & Hpl & Hk). fold all in Hpl.
      eapply (fires_only _ (deferreds_at s k)); [exact H1| |exact Hd|].
      * apply list_elem_of_fmap. exists (pl, f). cbn. by rewrite Hk.
      * intros dso (pf & -> & Hpf)%list_elem_of_fmap Hd'. cbn in *.
        specialize (Hall pf Hpf (deferreds_at_inj s _ _ _ Hnd Hd' Hd)). congruence.
    + apply uncalled_settled. split; [done|]. intros ([d' o] & -> & Hin)%list_elem_of_fmap.
      apply fires_sound in Hin as (_ & ds & (pf & [= -> ->] & Hpf)%list_elem_of_fmap & Hd').
      specialize (Hall pf Hpf (deferreds_at_inj s _ _ _ Hnd Hd' Hd)). congruence.
  - cbv zeta. set (p2 := emit _ _).
    assert (pd_deferreds (match stale_topics all with [] => p2 | l => emit (EResetTopics l) p2 end) = pd_deferreds p1) as Hpd
      by (by destruct (stale_topics all)).
    unfold uncalled. rewrite Hpd. destruct (verdict_on rs failed k) as [o|f|] eqn:Hv; [done| |done].
    apply (verdict_failed s rs failed Hok Hkeys) in Hv as (pl & Hpl & Hk). fold all in Hpl.
    split; [done|]. split_and!.
    + destruct (stale_topics all); cbn; set_solver.
    + intros Hs. pose proof (stale_topic k (pl, f) all Hpl Hk Hs) as Hts. exists (stale_topics all).
      split; [|done]. destruct (stale_topics all); [by apply elem_of_nil in Hts|]. cbn. set_solver.
    + exists all.*1. split; [done|]. rewrite <- Hk. apply list_elem_of_fmap_2. by apply (list_elem_of_fmap_2 fst) in Hpl.
Qed.

Lemma payload_at s k d :
  sending_ok s → d ∈ deferreds_at s k → ∃ pl, pl ∈ (payloadsByTopicPart s).*2 ∧ payload_key pl = k.
Proof.
  intros Hok. unfold deferreds_at. destruct (Dict.get k (deferredsByTopicPart s)) as [ds|] eqn:Hg;
    cbn; [|by intros ?%elem_of_nil]. intros _.
  apply Dict.get_Some_elem, (list_elem_of_fmap_2 fst) in Hg. change (k ∈ Dict.keys (deferredsByTopicPart s)) in Hg.
  rewrite (so_keys _ Hok) in Hg. apply list_elem_of_fmap in Hg as ([k' pl] & -> & Hin). exists pl.
  split; [by apply (list_elem_of_fmap_2 snd) in Hin|by apply (so_payload _ Hok)].
Qed.

Lemma payload_keys s : sending_ok s → payload_key <$> (payloadsByTopicPart s).*2 = Dict.keys (payloadsByTopicPart s).
Proof.
  intros Hok. unfold Dict.keys. pose proof (so_payload _ Hok) as Hp. clear Hok.
  induction (payloadsByTopicPart s) as [|[k pl] l IH]; [done|]. cbn. f_equal.
  - apply Hp. by left.
  - apply IH. intros k' pl' Hin. apply Hp. by right.
Qed.

(** C20. Each deferred of a batch gets what the client's answer says of its
    payload: its own response, the failure of a client that could not even
    try, or [NoResponseError] for an empty answer to a request with acks. A
    payload that failed, on the way or with an error code, is sent again after
    the delay, its topic forgotten first if the error is that of stale
    metadata; with no attempt left its deferreds get the failure, and when that
    is the exception of a response they are called back with it, not failed. *)
Theorem response_handled s payloads result p k d :
  core (all_deferreds s) p → sends s payloads → answer_fits payloads result = true →
  answers_once result → d ∈ deferreds_at s k → uncalled p d →
  let '(p', r) := _handle_send_response cfg s result p in
  delivers (verdict_of result k) k d s p p' r.
Proof.
  intros Hc Hs Hfit Honce Hd Hu. pose proof Hs as (Hok & _ & Hsub).
  pose proof (c_disjoint _ _ Hc) as Hnd. apply NoDup_app in Hnd as (Hnd & _ & _).
  assert (∀ o, let '(p', r) := (_ ← _deliver_result (all_deferreds s) o; mret (M := proc exn Producer) None) p in
    delivers (Answered o) k d s p p' r) as Hall.
  { intros o. rewrite (proc_bind_ok _ _ _ _ _ (deliver_eq o _ p Hnd)). cbn. apply elem_of_app. right.
    apply list_elem_of_fmap. exists d. split; [done|]. apply list_elem_of_filter. split; [done|].
    by apply deferreds_at_subset in Hd. }
  unfold _handle_send_response. destruct result as [[|r rs]|[e|rs failed]].
  - apply Hall.
  - apply (handled_delivers s (r :: rs) []); try done. by eapply answer_keys.
  - cbn [verdict_of]. destruct (is_KafkaError e); [|apply Hall].
    set (failed := (λ payload, (payload, FFailure e)) <$> (payloadsByTopicPart s).*2).
    assert (failed.*1 = (payloadsByTopicPart s).*2) as Hfst.
    { unfold failed. rewrite <- list_fmap_compose. apply list_fmap_id. }
    assert (verdict_on [] failed k = Failed (FFailure e)) as <-.
    { unfold verdict_on, failure_of. cbn. destruct (payload_at s k d Hok Hd) as (pl & Hpl & Hk).
      destruct (head (filter _ failed)) as [pf|] eqn:Hh.
      - apply head_filter_elem in Hh as [Hin _]. by apply list_elem_of_fmap in Hin as (pl' & -> & _).
      - exfalso. apply (head_filter_none _ _ (pl, FFailure e) Hh); [|done]. by apply list_elem_of_fmap; exists pl. }
    apply (handled_delivers s [] failed); try done.
    + unfold once. rewrite Hfst, payload_keys by done. apply Hok.
    + by intros r ?%elem_of_nil.
  - cbn [answer_fits] in Hfit. apply andb_prop in Hfit as [Hrs _].
    apply (handled_delivers s rs (failures_of failed)); try done. by eapply answer_keys.
Qed.
End answers.

(** ** Progress *)

Section progress.
Context `{PS : Partitioners} `{CompressionLib} (cfg : config).
Implicit Types (p : Producer).

(** The answers a batch waits for. *)
Definition answer (e : event) : bool :=
  match e with MetadataLoaded _ _ | DelayElapsed _ | SendAnswer _ | RetryElapsed => true | _ => false end.

(** How many answers the batches that are there can take, at most. *)
Definition left_of (attempts : Z) : nat := Z.to_nat (_max_attempts cfg - attempts).

Definition lookup_rank (n : nat) (l : lookup) : nat :=
  match l with
  | LDone _ => 0
  | LLoading => 2 * n + 2
  | LDelay => match n with O => 1 | _ => 2 * n + 3 end
  end%nat.

Definition batch_rank (n : nat) (b : option batch) : nat :=
  match b with
  | None => 0
  | Some (BLooking _ ls) => 2 * n + 2 + sum_list_with (lookup_rank n) ls
  | Some (BSending _ _) => 2 * n + 1
  | Some (BDelay _ _) => 2 * n
  end%nat.

Definition queue_rank (reqs : list SendRequest) : nat :=
  match reqs with
  | [] => 0
  | _ => 2 * left_of 0 + 3 + length reqs * (2 * left_of 0 + 2)
  end%nat.

Definition rank p : nat := (batch_rank (left_of (_req_attempts p)) (_batch_send_d p) + queue_rank (_batch_reqs p))%nat.

Lemma lookup_rank_mono n n' l : (n' ≤ n → lookup_rank n' l ≤ lookup_rank n l)%nat.
Proof. destruct l, n, n'; cbn; lia. Qed.

Lemma lookups_rank_mono n n' ls :
  (n' ≤ n → sum_list_with (lookup_rank n') ls ≤ sum_list_with (lookup_rank n) ls)%nat.
Proof.
  intros Hn. induction ls as [|l ls IH]; [done|]. cbn. pose proof (lookup_rank_mono n n' l Hn). lia.
Qed.

Lemma left_mono a a' : a ≤ a' → (left_of a' ≤ left_of a)%nat.
Proof. unfold left_of. lia. Qed.

(** A step of the chain leaves the queue alone, and waits for less than [N]
    answers if it waits. *)
Definition steps_below (N : nat) (m : proc exn Producer (option batch)) p : Prop :=
  let '(p', r) := m p in
  _batch_reqs p' = _batch_reqs p ∧
  match r with Ok (Some b) => (batch_rank (left_of (_req_attempts p')) (Some b) < N)%nat | _ => True end.

(** After a batch the check starts at most what the queue holds. *)
Definition check_below (P : Producer → Prop) (check : proc exn Producer unit) : Prop :=
  ∀ p, _batch_send_d p = None → _req_attempts p = 0 → P p →
    (rank (check p).1 ≤ queue_rank (_batch_reqs p))%nat.

Lemma chain_below N check m p P :
  (0 < N)%nat → steps_below N m p → check_below P check → (∀ p', _batch_reqs p' = _batch_reqs p → P p') →
  (rank (chain check m p).1 < N + queue_rank (_batch_reqs p))%nat.
Proof.
  unfold steps_below, chain. intros HN Hm Hck HP. destruct (m p) as [p1 [[b|]|e]]; destruct Hm as [Hq Hm].
  - unfold rank. cbn [fst _batch_send_d with_batch _req_attempts _batch_reqs]. rewrite Hq. apply Nat.add_lt_mono_r, Hm.
  - specialize (Hck (_complete_batch_send p1) eq_refl eq_refl (HP (_complete_batch_send p1) Hq)).
    change (_batch_reqs (_complete_batch_send p1)) with (_batch_reqs p1) in Hck. rewrite Hq in Hck. lia.
  - specialize (Hck (_complete_batch_send p1) eq_refl eq_refl (HP (_complete_batch_send p1) Hq)).
    change (_batch_reqs (_complete_batch_send p1)) with (_batch_reqs p1) in Hck. rewrite Hq in Hck. lia.
Qed.

Lemma looking_below N check requests ls p P :
  length ls = length requests → NoDup (sr_deferred <$> requests) → 0 ≤ _req_attempts p →
  (2 * left_of (_req_attempts p) + 2 + sum_list_with (lookup_rank (left_of (_req_attempts p))) ls < N)%nat →
  check_below P check → (∀ p', _batch_reqs p' = _batch_reqs p → P p') →
  (rank (looking cfg check requests ls p).1 < N + queue_rank (_batch_reqs p))%nat.
Proof.
  intros Hl Hnd Ha HN Hck HP. unfold looking. erewrite proc_bind_ok by done.
  destruct (forallb is_done ls); [|unfold rank; cbn in *; lia].
  set (p1 := with_batch _ p). change (_batch_reqs p) with (_batch_reqs p1) in *.
  eapply (chain_below N); [lia| |exact Hck|exact HP].
  unfold steps_below. rewrite send_requests_eq by (done || by rewrite length_fmap).
  pose proof (left_mono (_req_attempts p) (_req_attempts p + 1) ltac:(lia)).
  destruct (build_payloads cfg _) as [[|pl pls]|e]; (split; [done|]); cbn in *; lia.
Qed.

Lemma lookups_rank view requests p :
  let '(p', r) := lookups_of cfg view requests p in
  _req_attempts p' = _req_attempts p ∧
  match r with
  | Ok ls => (sum_list_with (lookup_rank (left_of (_req_attempts p))) ls ≤
      length requests * (2 * left_of (_req_attempts p) + 2))%nat
  | Err _ => True
  end.
Proof.
  revert p. induction requests as [|req reqs IH]; intros p; [by split|]. cbn [lookups_of].
  assert (let '(p', r) := _next_partition cfg view (sr_topic req) (sr_key req) p in
    _req_attempts p' = _req_attempts p ∧ match r with Ok l => l ≠ LDelay | Err _ => True end) as Hn.
  { unfold _next_partition, pick_partition, mbind, proc_bind, pget, pmodify. cbn.
    destruct (topic_error view (sr_topic req) =? 0).
    - destruct (topic_parts view (sr_topic req)) as [parts|]; [|by split].
      destruct (match partitioners p !! sr_topic req with Some _ => _ | None => _ end) as [pt|]; [|by split].
      by destruct (partition (sr_key req) parts pt).
    - destruct (if _max_attempts cfg <=? _req_attempts p then _ else _); by split. }
  unfold mbind at 1, proc_bind at 1. destruct (_next_partition _ _ _ _ p) as [p1 [l|e]]; destruct Hn as [Ha Hl]; [|by split].
  specialize (IH p1). unfold mbind, proc_bind. destruct (lookups_of cfg view reqs p1) as [p2 [ls|e]]; cbn;
    destruct IH as [Ha' Hls]; rewrite Ha in *; [|by split]. split; [done|].
  destruct l; cbn in *; try done; lia.
Qed.

Lemma no_check_below n view : check_below (λ p, _batch_reqs p = []) (check_send_batch cfg (S n) view).
Proof.
  intros p Hb Ha Hq. assert ((check_send_batch cfg (S n) view p).1 = p) as ->.
  - cbn. unfold mbind, proc_bind, pget. destruct (enough cfg p); [|done].
    unfold send_batch, mbind, proc_bind, pget. by rewrite Hq.
  - unfold rank. rewrite Hb, Hq. done.
Qed.

Lemma send_batch_below check view p :
  _batch_send_d p = None → _req_attempts p = 0 → NoDup (sr_deferred <$> _batch_reqs p) →
  check_below (λ p, _batch_reqs p = []) check →
  (rank (send_batch cfg check view p).1 ≤ queue_rank (_batch_reqs p))%nat.
Proof.
  intros Hb Ha Hnd Hck. unfold send_batch, mbind, proc_bind, pget. rewrite Hb.
  destruct (_batch_reqs p) as [|req reqs] eqn:Hq; [cbn; unfold rank; by rewrite Hb, Hq|].
  cbn [is_empty orb]. rewrite bool_decide_false by (by intros [? ?]). cbn [pmodify].
  set (p1 := with_waiting [] 0 0 p). pose proof (lookups_rank view (req :: reqs) p1) as Hr.
  destruct (lookups_books cfg view (req :: reqs) p1) as (p2 & ls & Hlk & Hs & Hl). rewrite Hlk in *.
  destruct Hr as [Ha2 Hls]. destruct Hs as (Hq2 & _). cbn in Ha2, Hq2. rewrite Ha in Ha2.
  change (_req_attempts p1) with (_req_attempts p) in Hls. rewrite Ha in Hls.
  enough (rank (looking cfg check (req :: reqs) ls p2).1 < queue_rank (req :: reqs) + queue_rank (_batch_reqs p2))%nat as Hlt.
  { rewrite Hq2 in Hlt. cbn [queue_rank] in Hlt |- *. lia. }
  eapply looking_below; [done|done|lia| |exact Hck|intros p' Hp'; by rewrite <- Hq2].
  rewrite Ha2. cbn [queue_rank]. lia.
Qed.

Lemma check_rank view : check_below (λ p, NoDup (sr_deferred <$> _batch_reqs p)) (_check_send_batch cfg view).
Proof.
  intros p Hb Ha Hnd. unfold _check_send_batch. cbn [check_send_batch].
  unfold mbind at 1, proc_bind at 1, pget at 1. destruct (enough cfg p).
  - exact (send_batch_below (check_send_batch cfg 1 view) view p Hb Ha Hnd (no_check_below 0 view)).
  - cbn. unfold rank. by rewrite Hb.
Qed.

Lemma sum_insert_lt {A} (f g : A → nat) (l : list A) i x y :
  (∀ z, f z ≤ g z)%nat → l !! i = Some x → (f y < g x)%nat →
  (sum_list_with f (<[i:=y]> l) < sum_list_with g l)%nat.
Proof.
  intros Hfg Hl Hy. revert i Hl. induction l as [|z l IH]; intros i Hl; [done|].
  assert (sum_list_with f l ≤ sum_list_with g l)%nat as Hle.
  { clear -Hfg. induction l as [|z l IH]; [done|]. cbn. specialize (Hfg z). lia. }
  destruct i as [|i].
  - injection Hl as ->. change (f y + sum_list_with f l < g x + sum_list_with g l)%nat. lia.
  - specialize (IH i Hl). specialize (Hfg z).
    change (f z + sum_list_with f (<[i:=y]> l) < g z + sum_list_with g l)%nat. lia.
Qed.

(** A lookup of the batch gets on. *)
Lemma lookup_step_rank view i step p requests ls l req :
  producer_wf cfg p → _batch_send_d p = Some (BLooking requests ls) → requests !! i = Some req → ls !! i = Some l →
  (∀ req, books (step req)) →
  (let '(p', r) := step req p in
   match r with
   | Ok l' => (lookup_rank (left_of (_req_attempts p')) l' < lookup_rank (left_of (_req_attempts p)) l)%nat
   | Err _ => True
   end) →
  (rank (lookup_step cfg (_check_send_batch cfg view) i step p).1 < rank p)%nat.
Proof.
  intros Hp Hb Hreq Hl Hbooks Hstep. unfold lookup_step, mbind, proc_bind, pget. rewrite Hb, Hreq.
  destruct (Hbooks req p) as (p1 & l' & H1 & Hs). rewrite H1 in *.
  pose proof (pw_core _ _ Hp) as Hc. pose proof (pw_batch _ _ Hp) as Hbo. rewrite Hb in Hc, Hbo.
  destruct Hbo as [Hlen _]. pose proof Hs as (Hq & _ & _ & _ & _ & _ & _ & Ha).
  pose proof (c_disjoint _ _ Hc) as Hdis. apply NoDup_app in Hdis as (Hnd & _ & Hndq).
  pose proof (c_attempts _ _ Hc) as Ha0. pose proof (left_mono _ _ Ha) as Hn.
  unfold rank at 2. rewrite Hb, <- Hq. rewrite <- Hq in Hndq.
  assert (sum_list_with (lookup_rank (left_of (_req_attempts p1))) (<[i:=l']> ls) <
          sum_list_with (lookup_rank (left_of (_req_attempts p))) ls)%nat as Hlt.
  { eapply sum_insert_lt; [intros z; by apply lookup_rank_mono|exact Hl|exact Hstep]. }
  eapply (looking_below _ _ _ _ p1 _); [by rewrite length_insert|done|lia| |apply check_rank|].
  2: { intros p' Hq'. cbn. by rewrite Hq'. }
  cbn [batch_rank]. lia.
Qed.

(** After a failed load a lookup waits for a delay, with one attempt less. *)
Lemma loaded_rank view req loaded p :
  let '(p', r) := metadata_loaded view (sr_topic req) (sr_key req) loaded p in
  match r with
  | Ok l' => (lookup_rank (left_of (_req_attempts p')) l' < lookup_rank (left_of (_req_attempts p)) LLoading)%nat
  | Err _ => True
  end.
Proof.
  unfold metadata_loaded, pick_partition, mbind, proc_bind, pget, pmodify.
  destruct loaded as [[]|e]; [|cbn; lia]. destruct (topic_error view (sr_topic req) =? 0).
  - destruct (topic_parts view (sr_topic req)) as [parts|]; [|cbn; lia].
    destruct (match partitioners p !! sr_topic req with Some _ => _ | None => _ end) as [pt|]; [|cbn; lia].
    destruct (partition (sr_key req) parts pt). cbn. lia.
  - cbn [_req_attempts with_attempts emit mret proc_ret]. unfold left_of, lookup_rank.
    destruct (Z.to_nat (_max_attempts cfg - (_req_attempts p + 1))) eqn:Hn; lia.
Qed.

Lemma delayed_rank view req p :
  let '(p', r) := _next_partition cfg view (sr_topic req) (sr_key req) p in
  match r with
  | Ok l' => (lookup_rank (left_of (_req_attempts p')) l' < lookup_rank (left_of (_req_attempts p)) LDelay)%nat
  | Err _ => True
  end.
Proof.
  assert (∀ n, 0 < lookup_rank n LDelay)%nat as Hpos by (intros [|n]; cbn; lia).
  unfold _next_partition, pick_partition, mbind, proc_bind, pget, pmodify.
  destruct (Z.eqb_spec (topic_error view (sr_topic req)) 0) as [Ht|Ht].
  - destruct (topic_parts view (sr_topic req)) as [parts|]; [|apply Hpos].
    destruct (match partitioners p !! sr_topic req with Some _ => _ | None => _ end) as [pt|]; [|apply Hpos].
    destruct (partition (sr_key req) parts pt). apply Hpos.
  - destruct (Z.leb_spec (_max_attempts cfg) (_req_attempts p)) as [Hm|Hm].
    + unfold raise_for_errno. rewrite decide_False by done.
      destruct (Dict.get (topic_error view (sr_topic req)) errnos); apply Hpos.
    + cbn [_req_attempts emit]. change (lookup_rank (left_of (_req_attempts p)) LLoading <
        lookup_rank (left_of (_req_attempts p)) LDelay)%nat. unfold lookup_rank.
      destruct (left_of (_req_attempts p)) eqn:Hn; [unfold left_of in Hn|]; lia.
Qed.

(** What an answer to the payloads leads to, if it is to be waited for. *)
Definition retries_only (a : Z) (m : proc exn Producer (option batch)) : Prop :=
  ∀ p, _req_attempts p = a → let '(p', r) := m p in
    _req_attempts p' = a ∧ match r with Ok (Some b) => ∃ s pls, b = BDelay s pls | _ => True end.

Lemma retries_bind {A} a (m : proc exn Producer A) f :
  keeps (λ p, _req_attempts p = a) m → (∀ x, retries_only a (f x)) → retries_only a (m ≫= f).
Proof.
  intros Hm Hf p Hp. unfold mbind, proc_bind. specialize (Hm p Hp).
  destruct (m p) as [p1 [x|e]]; [by apply Hf|by split].
Qed.

Lemma deliver_attempts a ds o : keeps (λ p, _req_attempts p = a) (_deliver_result ds o).
Proof.
  apply keeps_for. intros d _. unfold is_called. keeps_steps. intros p Hp. unfold settle.
  by destruct (fire d o (pd_deferreds p)).
Qed.

Lemma handle_responses_attempts a s rs failed : keeps (λ p, _req_attempts p = a) (handle_responses s rs failed).
Proof.
  revert failed. induction rs as [|r rs IH]; intros failed; [apply keeps_ret|]. cbn [handle_responses].
  destruct (raise_for_errno (prr_error r)); [apply keeps_bind; [apply deliver_attempts|auto]|].
  destruct (Dict.get _ _); [auto|apply keeps_raise].
Qed.

Lemma handle_retries a s result : retries_only a (_handle_send_response cfg s result).
Proof.
  assert (∀ b, match b with Some b => ∃ s pls, b = BDelay s pls | None => True end →
    retries_only a (mret b)) as Hret by (intros b Hb p Hp; by split; [|destruct b]).
  assert (∀ rs failed, retries_only a (handled cfg s rs failed)) as Hh.
  { intros rs failed. apply retries_bind; [apply handle_responses_attempts|]. intros failed'.
    destruct (is_empty failed'); [by apply Hret|]. unfold _check_retry_payloads.
    apply retries_bind; [apply keeps_get|]. intros att. destruct (_max_attempts cfg <=? att).
    - apply retries_bind; [|intros _; by apply Hret]. apply keeps_for. intros pf _. apply deliver_attempts.
    - apply retries_bind; [by apply keeps_modify|]. intros _. apply retries_bind.
      + destruct (is_empty _); [apply keeps_ret|by apply keeps_modify].
      + intros _. apply Hret. eauto. }
  unfold _handle_send_response. destruct result as [[|r rs]|[e|rs failed]].
  - apply retries_bind; [apply deliver_attempts|]. intros _. by apply Hret.
  - apply (Hh (r :: rs) []).
  - destruct (is_KafkaError e); [apply (Hh [])|].
    apply retries_bind; [apply deliver_attempts|]. intros _. by apply Hret.
  - apply (Hh rs).
Qed.

(** Each answer brings the batches closer to their end. *)
Lemma answer_rank view e p :
  producer_wf cfg p → answer e = true → enabled e p = true → (rank (step cfg view e p) < rank p)%nat.
Proof.
  intros Hp He Hen. unfold step. pose proof (pw_core _ _ Hp) as Hc. pose proof (pw_batch _ _ Hp) as Hb.
  pose proof (c_disjoint _ _ Hc) as Hdis. apply NoDup_app in Hdis as (_ & _ & Hnd).
  assert (∀ p', _batch_reqs p' = _batch_reqs p → NoDup (sr_deferred <$> _batch_reqs p')) as Hnd' by (by intros p' ->).
  destruct e as [| | | |i loaded|i|result| |]; try done; cbn [handle enabled] in *.
  - unfold lookup_at in Hen. destruct (_batch_send_d p) as [[requests ls| |]|] eqn:Hbd; try done.
    destruct (ls !! i) as [[| |r]|] eqn:Hl; try done. destruct Hb as [Hlen _].
    destruct (lookup_lt_is_Some_2 requests i) as [req Hreq]; [rewrite <- Hlen; by eapply lookup_lt_Some|].
    eapply (lookup_step_rank view i _ p requests ls LLoading req); try done.
    + intros req'. apply metadata_loaded_books.
    + apply loaded_rank.
  - unfold lookup_at in Hen. destruct (_batch_send_d p) as [[requests ls| |]|] eqn:Hbd; try done.
    destruct (ls !! i) as [[| |r]|] eqn:Hl; try done. destruct Hb as [Hlen _].
    destruct (lookup_lt_is_Some_2 requests i) as [req Hreq]; [rewrite <- Hlen; by eapply lookup_lt_Some|].
    eapply (lookup_step_rank view i _ p requests ls LDelay req); try done.
    + intros req'. apply next_partition_books.
    + apply delayed_rank.
  - unfold send_answer, mbind, proc_bind, pget. unfold rank at 2.
    destruct (_batch_send_d p) as [[|s payloads|]|]; try done. destruct Hb as [Hs Ha].
    eapply (chain_below _ _ _ p _); [cbn; lia| |apply check_rank|exact Hnd'].
    pose proof (handle_step cfg s payloads result p Hc Hs Hen ltac:(done)) as Hh.
    pose proof (handle_retries (_req_attempts p) s result p eq_refl) as Hr.
    unfold chain_step in Hh. unfold steps_below. destruct (_handle_send_response cfg s result p) as [p' [[b|]|err]];
      (split; [apply Hh|done || idtac]). destruct Hr as (-> & s' & pls & ->). cbn [batch_rank]. lia.
  - unfold retry_elapsed, mbind at 1, proc_bind at 1, pget at 1. unfold rank at 2.
    destruct (_batch_send_d p) as [[| |s payloads]|]; try done. destruct Hb as [Hs Ha].
    eapply (chain_below _ _ _ p _); [cbn; unfold left_of; lia| |apply check_rank|exact Hnd'].
    split; [done|]. cbn [batch_rank _req_attempts emit with_attempts]. unfold left_of. lia.
Qed.
End progress.

(** ** The producer *)

Section producer.
Context `{PS : Partitioners} `{CompressionLib}.
Implicit Types (p : Producer).

(** C18. Whatever is called on a new producer, and in whatever order its client
    answers and its timers run, its books are right: each deferred fires at
    most once and is listed as outstanding until then, the counts are those of
    the queue, no request is in two batches, a payload is filed with its
    deferreds, a retry waits only while attempts are left, and nothing that is
    enough for a batch waits while none is in progress. No handler raises,
    except a second [stop] whose looping call had been restarted. *)
Theorem producer_safe acks timeout attempts codec send n b t cfg p0 p view e :
  __init__ acks timeout attempts codec send n b t = Ok (cfg, p0) →
  reachable cfg p0 p → enabled e p = true →
  producer_wf cfg p ∧
  ∃ p' r, handle cfg view e p = (p', r) ∧ producer_wf cfg p' ∧
    (r = Ok tt ∨ r = Err PyAssertionError ∧ stops e = true ∧ looper_stuck cfg p).
Proof.
  intros Hi Hr He. pose proof (producer_reachable_wf cfg p0 p (producer_init_wf _ _ _ _ _ _ _ _ _ _ Hi) Hr) as Hp.
  split; [exact Hp|by apply producer_handle_wf].
Qed.

(** C21. A batch in progress always waits for something, and each answer brings
    the batches closer to their end: with the messages that are there, the
    lookups and retries end after at most [rank] answers, whatever they are.
    What is enough for a batch then has been sent. *)
Theorem producer_progress acks timeout attempts codec send n b t cfg p0 p :
  __init__ acks timeout attempts codec send n b t = Ok (cfg, p0) → reachable cfg p0 p →
  (is_Some (_batch_send_d p) → ∃ e, answer e = true ∧ enabled e p = true) ∧
  (∀ view e, answer e = true → enabled e p = true → (rank cfg (step cfg view e p) < rank cfg p)%nat) ∧
  (_batch_send_d p = None → enough cfg p = true → _batch_reqs p = []).
Proof.
  intros Hi Hr. pose proof (producer_reachable_wf cfg p0 p (producer_init_wf _ _ _ _ _ _ _ _ _ _ Hi) Hr) as Hp.
  split; [|split; [intros view e; by apply answer_rank|exact (pw_idle _ _ Hp)]].
  intros [bt Hb]. pose proof (pw_batch _ _ Hp) as Hbo. rewrite Hb in Hbo.
  destruct bt as [requests ls|s payloads|s payloads].
  - destruct Hbo as [_ Hd]. assert (∃ i l, ls !! i = Some l ∧ is_done l = false) as (i & l & Hl & Hn).
    { clear -Hd. induction ls as [|l ls IH]; [done|]. cbn in Hd. apply andb_false_iff in Hd as [Hd|Hd].
      - by exists 0%nat, l.
      - destruct (IH Hd) as (i & l' & Hl & Hn). by exists (S i), l'. }
    destruct l; [exists (MetadataLoaded i (Ok tt))|exists (DelayElapsed i)|done];
      (split; [done|]); unfold enabled, lookup_at; by rewrite Hb, Hl.
  - exists (SendAnswer (Ok [])). split; [done|]. cbn. by rewrite Hb.
  - exists RetryElapsed. split; [done|]. cbn. by rewrite Hb.
Qed.

Lemma cancel_outstanding_batch b : keeps (λ p, _batch_send_d p = b) _cancel_outstanding.
Proof.
  unfold _cancel_outstanding. apply keeps_bind; [apply keeps_get|]. intros ds. apply keeps_for. intros d _ p Hp.
  rewrite cancel_eq. cbn. destruct (decide (uncalled p d)); [|done]. cbn. unfold dequeued. by destruct (filter _ _).
Qed.

Lemma stop_looper_batch cfg b : keeps (λ p, _batch_send_d p = b) (stop_looper cfg).
Proof. unfold stop_looper. keeps_steps; done. Qed.

(** A failed send on which the producer is stopped is tried again. *)
Lemma stop_retries cfg view p s payloads rs failed :
  producer_wf cfg p → _batch_send_d p = Some (BSending s payloads) →
  answer_fits payloads (Err (SFailedPayloads rs failed)) = true → failed ≠ [] →
  _req_attempts p < _max_attempts cfg →
  let p' := (stop_answers cfg view [] (Some (Err (SFailedPayloads rs failed))) p).1 in
  ∃ again, _batch_send_d p' = Some (BDelay s again) ∧ failed.*1 ⊆ again.
Proof.
  intros Hp Hb Hfit Hne Ha. pose proof (pw_core _ _ Hp) as Hc. pose proof (pw_batch _ _ Hp) as Hbo.
  rewrite Hb in Hc, Hbo. destruct Hbo as [Hs _].
  pose proof (c_disjoint _ _ Hc) as Hdis. apply NoDup_app in Hdis as (Hnd & _ & _).
  cbn [answer_fits] in Hfit. apply andb_prop in Hfit as [Hrs _].
  unfold stop_answers. erewrite proc_bind_ok by done. set (p1 := with_stopping true p).
  assert (cancel_batch cfg view p1 = (emit ECancelSend p1, Ok tt)) as Hcb.
  { unfold cancel_batch, mbind, proc_bind, pget. change (_batch_send_d p1) with (_batch_send_d p). by rewrite Hb. }
  erewrite proc_bind_ok by exact Hcb. erewrite proc_bind_ok by done. set (p2 := emit ECancelSend p1).
  unfold send_answer. erewrite proc_bind_ok by done. change (_batch_send_d p2) with (_batch_send_d p). rewrite Hb.
  unfold chain. cbn [_handle_send_response]. fold (failures_of failed).
  rewrite (proc_bind_ok _ _ _ _ _ (handle_responses_eq s rs (failures_of failed) p2
    (λ k, deferreds_at_nodup s k Hnd) (answer_keys s payloads rs Hs Hrs))).
  set (all := failures_of failed ++ errors s rs).
  assert (is_empty all = false) as -> by (unfold all; by destruct failed).
  rewrite check_retry_eq by (intros k; by apply deferreds_at_nodup).
  change (_req_attempts (settled _ p2)) with (_req_attempts p). destruct (Z.leb_spec (_max_attempts cfg) (_req_attempts p)); [lia|].
  cbv zeta. exists all.*1. destruct (stale_topics all); (split; [done|]); unfold all, failures_of;
    rewrite fmap_app, <- list_fmap_compose; set_solver.
Qed.

(** C22. When [stop] ends every request has been answered and nothing waits. It
    does not end the batch whose payloads have been sent: if sending them
    failed for a payload, and attempts are left, that payload is sent again
    after the delay, although its senders were told that it was cancelled. *)
Theorem producer_stops acks timeout attempts codec send n b t cfg p0 p view loads sent :
  __init__ acks timeout attempts codec send n b t = Ok (cfg, p0) → reachable cfg p0 p →
  enabled (Stop loads sent) p = true → ¬ looper_stuck cfg p →
  let '(p', r) := stop cfg view loads sent p in
  r = Ok tt ∧ _outstanding p' = [] ∧ _batch_reqs p' = [] ∧
  (∀ d, (d < issued (pd_deferreds p'))%nat → d ∈ (firings (pd_deferreds p')).*1) ∧
  (∀ s payloads rs failed, _batch_send_d p = Some (BSending s payloads) →
    sent = Some (Err (SFailedPayloads rs failed)) → failed ≠ [] → _req_attempts p < _max_attempts cfg →
    ∃ again, _batch_send_d p' = Some (BDelay s again) ∧ failed.*1 ⊆ again ∧ enabled RetryElapsed p' = true ∧
      ∃ p'', send_payloads s again p' = (p'', Ok (Some (BSending s again))) ∧ ESend again ∈ pd_effects p'').
Proof.
  intros Hi Hr He Hst. pose proof (producer_reachable_wf cfg p0 p (producer_init_wf _ _ _ _ _ _ _ _ _ _ Hi) Hr) as Hp.
  destruct (stop_wf cfg view loads sent p Hp He) as (p' & r & Hs & Hp' & [[? _]|(_ & -> & Ho & Hq)]); [done|].
  rewrite Hs. split; [done|]. split; [done|]. split; [done|]. split.
  - intros d Hd. destruct (decide (d ∈ (firings (pd_deferreds p')).*1)) as [|Hn]; [done|].
    pose proof (c_outstanding _ _ (pw_core _ _ Hp') d) as [_ Hout]. rewrite Ho in Hout.
    by apply elem_of_nil in Hout.
  - intros s payloads rs failed Hb -> Hne Ha.
    cbn in He. rewrite Hb in He. apply andb_prop in He as [Hl He]. destruct loads; [|done].
    destruct (stop_retries cfg view p s payloads rs failed Hp Hb He Hne Ha) as (again & Hag & Hsub).
    rewrite stop_eq in Hs. unfold mbind, proc_bind in Hs.
    destruct (stop_answers _ _ _ _ _) as [p1 [[]|]]; [|done]. cbn in Hag.
    pose proof (stop_looper_batch cfg _ p1 Hag) as Hb1. destruct (stop_looper cfg p1) as [p2 [[]|]]; [|done]. cbn in Hb1.
    pose proof (cancel_outstanding_batch _ p2 Hb1) as Hb2. rewrite Hs in Hb2. cbn in Hb2.
    exists again. split; [done|]. split; [done|]. split; [cbn; by rewrite Hb2|].
    eexists. split; [done|]. cbn. set_solver.
Qed.
End producer.

(** ** Samples *)

#[local] Existing Instance tagged_lib.

Definition sample_config : config := mkConfig PRODUCER_ACK_LOCAL_WRITE 1000 3 CODEC_NONE 2 0 (Some 30).
Definition sample_producer : Producer :=
  mkProducer round_robin ∅ 0 0 [] 0 0 [] None (Some (LoopRunning true)) false no_deferreds [EStartLooper].
Definition sample_view : client_view := mkView (λ _, 0) (λ _, Some [0; 1]).
Definition sample_send : event := SendMessages (VStr [97]) None [Some (VBytes []); None].
Definition sample_sent : Producer := step sample_config sample_view sample_send sample_producer.
Definition sample_payload : ProduceRequest := mkProduceRequest [97] 0 [create_message (Some []) None; create_message None None].

Lemma sample_init :
  __init__ PRODUCER_ACK_LOCAL_WRITE 1000 3 None true (PInt 2) (PInt 0) (Some 30) = Ok (sample_config, sample_producer).
Proof. reflexivity. Qed.

Lemma sample_producer_reachable : reachable sample_config sample_producer sample_sent.
Proof. apply (reach_step _ _ _ sample_send); [constructor|done]. Qed.

Example sample_sent_is : _batch_send_d sample_sent = Some (BSending (mkSending [(mkTopicAndPartition [97] 0, sample_payload)] [(mkTopicAndPartition [97] 0, [0%nat])]) [sample_payload]).
Proof. vm_compute. reflexivity. Qed.

Lemma sample_wf : producer_wf sample_config sample_sent.
Proof. exact (producer_reachable_wf _ _ _ (producer_init_wf _ _ _ _ _ _ _ _ _ _ sample_init) sample_producer_reachable). Qed.

Example producer_safe_witness :
  producer_wf sample_config sample_sent ∧
  ∃ p' r, handle sample_config sample_view (Stop [] (Some (Ok []))) sample_sent = (p', r) ∧
    producer_wf sample_config p' ∧
    (r = Ok tt ∨ r = Err PyAssertionError ∧ stops (Stop [] (Some (Ok []))) = true ∧
       looper_stuck sample_config sample_sent).
Proof. apply (producer_safe _ _ _ _ _ _ _ _ _ _ _ _ _ sample_init sample_producer_reachable). vm_compute. reflexivity. Defined.

(** Two requests of which one has no partition. *)
Definition sample_requests : list SendRequest :=
  [mkSendRequest [97] None [Some []] 0%nat; mkSendRequest [98] None [None] 1%nat].
Definition sample_results : list (res Z) := [Ok 7; Err (BrokerError LeaderNotAvailableError)].
Definition sample_waiting : Producer :=
  mkProducer _ ∅ 0 0 [] 0 0 [0; 1]%nat (Some (BLooking sample_requests [LDone (Ok 7); LLoading])) None false
    (mkDeferreds 2 [] []) [].

Example batch_sent_witness :
  firings (pd_deferreds (_send_requests sample_config sample_results sample_requests sample_waiting).1) =
    [(1%nat, Failure (BrokerError LeaderNotAvailableError))].
Proof.
  pose proof (batch_sent sample_config sample_results sample_requests sample_waiting eq_refl
    ltac:(vm_compute; repeat constructor; set_solver)) as Hs. cbv zeta in Hs.
  destruct (_send_requests _ _ _ _) as [p' r]. destruct Hs as (_ & Hf & _).
  cbn [fst]. rewrite Hf. vm_compute. reflexivity.
Defined.

(** The response that says the leader has moved. *)
Definition sample_moved : produce_result := Ok [mkProduceResponse [97] 0 6 (-1)].
Definition sample_sending : sending :=
  mkSending [(mkTopicAndPartition [97] 0, sample_payload)] [(mkTopicAndPartition [97] 0, [0%nat])].

Lemma sample_sends : sends sample_sending [sample_payload].
Proof. pose proof (pw_batch _ _ sample_wf) as Hb. rewrite sample_sent_is in Hb. apply Hb. Qed.
Lemma sample_core : core (all_deferreds sample_sending) sample_sent.
Proof. pose proof (pw_core _ _ sample_wf) as Hc. by rewrite sample_sent_is in Hc. Qed.

Example response_handled_witness :
  let '(p', r) := _handle_send_response sample_config sample_sending sample_moved sample_sent in
  delivers sample_config (Failed (FException (BrokerError NotLeaderForPartitionError)))
    (mkTopicAndPartition [97] 0) 0 sample_sending sample_sent p' r.
Proof.
  apply (response_handled sample_config sample_sending [sample_payload] sample_moved sample_sent
    (mkTopicAndPartition [97] 0) 0 sample_core sample_sends); [by vm_compute| |vm_compute; by left|by vm_compute].
  unfold answers_once, sample_moved, once. cbn. repeat constructor; set_solver.
Defined.

Example producer_progress_witness :
  (rank sample_config (step sample_config sample_view (SendAnswer (Ok [])) sample_sent) < rank sample_config sample_sent)%nat.
Proof.
  apply (producer_progress _ _ _ _ _ _ _ _ _ _ _ sample_init sample_producer_reachable); vm_compute; reflexivity.
Defined.

Definition sample_failure : produce_result := Err (SFailedPayloads [] [(sample_payload, TwistedCancelledError)]).

Example producer_stops_witness :
  _outstanding (stop sample_config sample_view [] (Some sample_failure) sample_sent).1 = [] ∧
  ∃ again, _batch_send_d (stop sample_config sample_view [] (Some sample_failure) sample_sent).1 =
    Some (BDelay sample_sending again).
Proof.
  pose proof (producer_stops _ _ _ _ _ _ _ _ _ _ _ sample_view [] (Some sample_failure) sample_init sample_producer_reachable
    ltac:(vm_compute; reflexivity) ltac:(intros [_ Hl]; vm_compute in Hl; discriminate Hl)) as Hs.
  destruct (stop _ _ _ _ _) as [p' r]. destruct Hs as (_ & Ho & _ & _ & Hd).
  cbn [fst]. split; [exact Ho|].
  destruct (Hd sample_sending [sample_payload] [] [(sample_payload, TwistedCancelledError)]) as (again & Hag & _).
  - vm_compute. reflexivity.
  - reflexivity.
  - discriminate.
  - vm_compute. reflexivity.
  - exists again. exact Hag.
Defined.
