(* ===== verification/ProducerWire.v ===== *)
(** The messages of a [Producer] on their way to the log of a partition: the
    batch of [afkak/producer.py], the request of [afkak/kafkacodec.py], and what
    a broker finds in it. *)
From S2P Require Import Prelude Common PyBytes Util Codec Wire KafkaCodec MessageSet Requests Partitioner Deferred Client Routing Producer ProducerInvariant ProducerTheorems.
Local Open Scope Z_scope.
Local Open Scope schema_scope.

(** ** What brokers read

    Kafka's message set: the entries of plain messages, or one entry whose value
    is such a set, compressed. *)
Inductive holds `{CompressionLib} : bytes → list Message → Prop :=
| holds_plain oms : forallb set_entry_ok oms = true → forallb (λ om, plain (om_message om)) oms = true →
    holds (set_bytes oms) (om_message <$> oms)
| holds_wrapped offset m oms : set_entry_ok (mkOffsetAndMessage offset m) = true →
    wraps m oms → forallb set_entry_ok oms = true → forallb (λ om, plain (om_message om)) oms = true →
    holds (set_entry (mkOffsetAndMessage offset m)) (om_message <$> oms).

(** A broker that stores messages uncompressed appends those of a set to the log
    of the partition, under consecutive offsets. *)
Definition appended `{CompressionLib} (next : Z) (log : list OffsetAndMessage) (set : bytes) (log' : list OffsetAndMessage) : Prop :=
  ∃ ms, holds set ms ∧ log' = log ++ with_offsets 1 next ms.

(** The topics of a produce request, the message set it has for a partition. *)
Definition topic_sets (v : sem produce_schema) : list (option bytes * list (Z * unit * option bytes)) := v.2.2.

Definition carried (topic : text) (partition : Z) (request : bytes) : option bytes :=
  match parse produce_schema request with
  | Some (v, []) => set ← Dict.get (ascii_wire topic) (topic_sets v) ≫= Dict.get (partition, tt); set
  | _ => None
  end.

(** A set holds one list of messages: the decoder reads it. *)
Lemma holds_decodes `{CompressionLib} b ms : holds b ms →
  om_message <$> (_decode_message_set_iter 2 (Some b)).1 = ms.
Proof.
  intros [oms Hok Hp|offset m oms Hok Hc Hin Hp]; [by rewrite decode_plain_set|by rewrite (decode_wrapped 0 offset m oms)].
Qed.

Lemma holds_unique `{CompressionLib} b ms ms' : holds b ms → holds b ms' → ms = ms'.
Proof. by intros <-%holds_decodes <-%holds_decodes. Qed.

(** What [create_message_set] makes holds the messages of the requests. *)
Lemma created_holds `{HL : CompressionLaws} reqs codec ms : create_message_set reqs codec = Ok ms →
  forallb set_entry_ok (numbered ms None) = true → holds (set_bytes (numbered ms None)) (raw_messages reqs).
Proof.
  intros Hcreate Hok. pose proof (raw_messages_plain reqs) as Hp. rewrite <- (numbered_messages (raw_messages reqs) None).
  pose proof (eq_trans (numbered_plain (raw_messages reqs) None) Hp) as Hplain.
  destruct (created reqs codec ms Hcreate) as [->|(m & -> & Hw & Hraw)]; [by apply holds_plain|].
  cbn [numbered with_offsets forallb] in Hok |- *. rewrite andb_true_r in Hok. unfold set_bytes at 1. rewrite bind_cons, app_nil_r.
  by apply holds_wrapped.
Qed.

(** ** What a produce request carries *)

Lemma ascii_wire_inj s t b : ascii_wire s = Some b → ascii_wire t = Some b → s = t.
Proof.
  unfold ascii_wire. destruct (ascii_encode s) as [x|] eqn:Hs, (ascii_encode t) as [y|] eqn:Ht; try done.
  intros [= ->] [= ->]. apply ascii_decode_encode in Hs, Ht. congruence.
Qed.

(** The topics of a request are found under their names on the wire. *)
Lemma topics_get client_id correlation_id acks timeout (g : list (text * list (Z * ProduceRequest))) t b : ascii_wire t = Some b →
  Dict.get (Some b) (topic_sets (produce_value client_id correlation_id acks timeout g)) =
  (λ parts : list (Z * ProduceRequest), (λ pp, ((pp.1, tt), message_set_wire (pr_messages pp.2))) <$> parts) <$> Dict.get t g.
Proof.
  intros Ht. unfold topic_sets, produce_value, topics_value. cbn [snd]. induction g as [|[t' parts] g IH]; [done|]. cbn.
  destruct (decide (t = t')) as [<-|Hne]; [by rewrite Ht, decide_True|].
  rewrite decide_False; [done|]. intros He. destruct Hne. by apply (ascii_wire_inj t t' b).
Qed.

Lemma partitions_get (f : ProduceRequest → option bytes) (parts : list (Z * ProduceRequest)) p :
  Dict.get (p, tt) ((λ pp : Z * ProduceRequest, ((pp.1, tt), f pp.2)) <$> parts) = f <$> Dict.get p parts.
Proof.
  induction parts as [|[p' r] parts IH]; [done|]. cbn. destruct (decide (p = p')) as [<-|Hne]; [by rewrite decide_True|].
  rewrite decide_False; [done|]. by intros [= ?].
Qed.

Lemma keyed_payload k r (payloads : list (TopicAndPartition * ProduceRequest)) :
  (∀ k' r', (k', r') ∈ payloads → k' = payload_key r') → NoDup (Dict.keys payloads) → Dict.get k payloads = Some r →
  filter (λ x, pr_topic x = tp_topic k ∧ pr_partition x = tp_partition k) payloads.*2 = [r].
Proof.
  induction payloads as [|[k' r'] payloads IH]; intros Hk Hnd Hg; [done|]. cbn in Hg. rewrite fmap_cons.
  apply NoDup_cons in Hnd as [Hout Hnd]. pose proof (Hk k' r' ltac:(left)) as Hk'.
  assert (∀ k0 r0, (k0, r0) ∈ payloads → k0 = payload_key r0) as Hks by (intros; apply Hk; by right).
  destruct (decide (k = k')) as [->|Hne].
  - injection Hg as ->. rewrite filter_cons_True by (by rewrite Hk'). f_equal.
    apply elem_of_nil_inv. intros x [[H1 H2] (kr & -> & Hin)%list_elem_of_fmap]%list_elem_of_filter. destruct Hout.
    apply list_elem_of_fmap. exists kr. split; [|done]. destruct kr as [k0 r0]. cbn in *. rewrite (Hks k0 r0 Hin).
    unfold payload_key. rewrite H1, H2. by destruct k'.
  - rewrite filter_cons_False; [by apply IH|]. intros [H1 H2]. destruct Hne. rewrite Hk'. unfold payload_key. cbn in *. rewrite H1, H2. by destruct k.
Qed.

(** The request of a batch carries the message set of each payload. *)
Lemma request_carries client_id correlation_id acks timeout k r (payloads : list (TopicAndPartition * ProduceRequest)) request :
  (∀ k' r', (k', r') ∈ payloads → k' = payload_key r') → NoDup (Dict.keys payloads) → Dict.get k payloads = Some r →
  encode_produce_request client_id correlation_id (Some payloads.*2) acks timeout = Ok request →
  forallb set_entry_ok (numbered (pr_messages r) None) = true ∧
  carried (tp_topic k) (tp_partition k) request = Some (set_bytes (numbered (pr_messages r) None)).
Proof.
  intros Hk Hnd Hget Henc.
  pose proof (produce_request_conforms client_id correlation_id acks timeout (Some payloads.*2)) as Hc. rewrite Henc in Hc.
  set (g := group_by_topic_and_partition pr_topic pr_partition payloads.*2). change (default [] (Some payloads.*2)) with (payloads.*2) in Hc. fold g in Hc. destruct Hc as [Hok Hparse].
  destruct (group_by_topic_and_partition_correct pr_topic pr_partition payloads.*2) as (_ & Hlast & _). fold g in Hlast.
  specialize (Hlast (tp_topic k) (tp_partition k)). rewrite (keyed_payload k r payloads Hk Hnd Hget) in Hlast. cbn in Hlast.
  unfold grouped_get in Hlast. destruct (Dict.get (tp_topic k) g) as [parts|] eqn:Hparts; [|done]. cbn in Hlast.
  apply andb_prop in Hok as [Hfields _]. unfold encodable in Hfields. rewrite forallb_forall in Hfields.
  assert (∀ f, f ∈ topic_fields (λ r, [message_set_wire (pr_messages r)]) g → is_Some f) as Hsome.
  { intros f Hf%list_elem_of_In%Hfields. by apply bool_decide_eq_true in Hf. }
  pose proof (Dict.get_Some_elem _ _ _ Hparts) as Hin. pose proof (Dict.get_Some_elem _ _ _ Hlast) as Hin'.
  destruct (Hsome (ascii_wire (tp_topic k))) as [b Hb].
  { apply list_elem_of_bind. exists (tp_topic k, parts). split; [by left|done]. }
  destruct (Hsome (message_set_wire (pr_messages r))) as [set Hset].
  { apply list_elem_of_bind. exists (tp_topic k, parts). split; [right|done]. apply list_elem_of_bind. exists (tp_partition k, r). split; [by left|done]. }
  unfold carried. rewrite Hparse, Hb, (topics_get _ _ _ _ g _ b Hb), Hparts. cbn [fmap option_fmap option_map mbind option_bind].
  rewrite (partitions_get (λ r, message_set_wire (pr_messages r)) parts), Hlast. cbn [fmap option_fmap option_map mbind option_bind].
  unfold message_set_wire in *. by destruct (forallb _ _).
Qed.

Section batch.
Context `{PS : Partitioners} `{HL : CompressionLaws} (cfg : config).

(** What a batch sends for a partition: the request has one message set for it,
    and that holds the messages of the requests in it, in order, with their
    keys, and nothing else. *)
Lemma batch_carried results requests p p' s payloads client_id correlation_id acks timeout request k :
  length results = length requests → NoDup (sr_deferred <$> requests) →
  _send_requests cfg results requests p = (p', Ok (Some (BSending s payloads))) →
  encode_produce_request client_id correlation_id (Some payloads) acks timeout = Ok request →
  at_partition k (live p (zip results requests)) ≠ [] →
  ∃ set, carried (tp_topic k) (tp_partition k) request = Some set ∧
         holds set (raw_messages (at_partition k (live p (zip results requests)))).
Proof.
  intros Hl Hnd Hsend Henc Hne. rewrite send_requests_eq in Hsend by done.
  pose proof (groups_get p results requests k) as Hg. pose proof (collect_nodup (placed (live p (zip results requests)))) as Hkeys.
  fold (groups p results requests) in Hkeys.
  destruct (build_payloads cfg (groups p results requests)) as [pls|e] eqn:Hb; [|done]. apply build_payloads_ok in Hb.
  destruct pls as [|pl pls']; [done|]. set (pls := pl :: pls') in *. injection Hsend as _ _ <-.
  destruct (at_partition k _) as [|req reqs] eqn:Hat; [done|]. set (rs := req :: reqs) in *.
  pose proof (built_get cfg _ _ k Hb) as Hk. rewrite Hg in Hk. destruct Hk as (msgs & Hcreate & Hget).
  destruct (built_ok cfg _ _ Hkeys Hb) as [_ Hnodup Hfiled]. cbn [payloadsByTopicPart] in Hnodup, Hfiled.
  destruct (request_carries client_id correlation_id acks timeout k _ pls request (λ k' r' Hin, eq_sym (Hfiled k' r' Hin)) Hnodup Hget Henc) as [Hok Hc].
  eexists. split; [exact Hc|]. by eapply created_holds.
Qed.
End batch.
