(* ===== verification/Coordinator.v ===== *)
(** [afkak/_group.py]: the group coordinator client ([Coordinator]) and the
    consumers it manages ([ConsumerGroup]), as a state machine.

    [_join_and_sync] and [stop] are coroutines: each place where one waits is a
    constructor of its phase, and what runs when it is resumed a definition.
    The requests themselves ([KafkaClient]), the reactor's delayed calls and the
    [Consumer]s are outside: what is asked of them is recorded as effects, what
    they answer is an event. *)
From S2P Require Import Prelude Common PyBytes Util KafkaCodec Deferred Group.
Local Open Scope Z_scope.

(** [_rejoin_wait_dc]: [None], a delayed call of [join_and_sync] that is
    pending, or one that [stop] cancelled. *)
Inductive delayed_call := DCNone | DCPending | DCCancelled.

#[export] Instance delayed_call_eq_dec : EqDecision delayed_call.
Proof. solve_decision. Defined.

(** Where a [_join_and_sync] coroutine waits: for the coordinator, for the
    topics' metadata, for the consumers of the last generation to shut down,
    for the join response, for the partitions the leader needs, or for the sync
    response. *)
Inductive phase :=
| FetchingBroker
| LoadingMetadata
| Preparing (current_consumers : list (text * list nat))
| Joining
| LoadingPartitions (join_response : _JoinGroupResponse)
| Syncing.

(** Where a [stop] coroutine waits: for the consumers to shut down, or for the
    answer to the leave request. *)
Inductive stop_phase :=
| StoppingConsumers (current_consumers : list (text * list nat)) (errback_result : option exn)
| Leaving (errback_result : option exn).

(** Consumers are numbered in the order they are created. *)
Inductive effect :=
| EGetCoordinator
| ELoadMetadata
| ESendJoin (member : text) (protocols : list _JoinGroupRequestProtocol)
| ELoadPartitions (topics : list text)
| ESendSync (generation : option Z) (member : text) (assignment : list _SyncGroupRequestMember)
| ESendHeartbeat (generation : option Z) (member : text)
| ESendLeave (member : text)
| EResetGroup
| ECallLater (milliseconds : Z)
| EStartConsumer (consumer : nat) (topic : text) (partition : Z) (member : text)
    (generation : option Z)
| EShutdownConsumer (consumer : nat)
| EStopConsumer (consumer : nat)
| EJoinError (e : exn).

(** [protocol] is whether the attribute is still set. [joins] and [stops] are
    the coroutines that wait, [_rejoin_d] is the one whose deferred is kept;
    [other_calls] counts pending delayed calls of [join_and_sync] that no
    attribute refers to; [running] are the consumers whose [_start_d] is set. *)
Record Coordinator := mkCoordinator {
  member_id : text;
  leader_id : option text;
  generation_id : option Z;
  coordinator_broker : bool;
  protocol : bool;
  _start_d : option nat;
  _rejoin_needed : bool;
  _stopping : bool;
  _rejoin_wait_dc : delayed_call;
  _rejoin_d : option nat;
  _heartbeat_running : bool;
  _heartbeat_request_d : bool;
  consumers : list (text * list nat);
  joins : list (nat * phase);
  stops : list (nat * stop_phase);
  other_calls : nat;
  next_join : nat;
  next_stop : nat;
  next_consumer : nat;
  running : list nat;
  co_deferreds : deferreds unit;
  effects : list effect;
}.

Definition with_member_id x (c : Coordinator) : Coordinator :=
  mkCoordinator x (leader_id c) (generation_id c) (coordinator_broker c) (protocol c) (_start_d c)
    (_rejoin_needed c) (_stopping c) (_rejoin_wait_dc c) (_rejoin_d c) (_heartbeat_running c)
    (_heartbeat_request_d c) (consumers c) (joins c) (stops c) (other_calls c) (next_join c)
    (next_stop c) (next_consumer c) (running c) (co_deferreds c) (effects c).
Definition with_leader_id x (c : Coordinator) : Coordinator :=
  mkCoordinator (member_id c) x (generation_id c) (coordinator_broker c) (protocol c) (_start_d c)
    (_rejoin_needed c) (_stopping c) (_rejoin_wait_dc c) (_rejoin_d c) (_heartbeat_running c)
    (_heartbeat_request_d c) (consumers c) (joins c) (stops c) (other_calls c) (next_join c)
    (next_stop c) (next_consumer c) (running c) (co_deferreds c) (effects c).
Definition with_generation_id x (c : Coordinator) : Coordinator :=
  mkCoordinator (member_id c) (leader_id c) x (coordinator_broker c) (protocol c) (_start_d c)
    (_rejoin_needed c) (_stopping c) (_rejoin_wait_dc c) (_rejoin_d c) (_heartbeat_running c)
    (_heartbeat_request_d c) (consumers c) (joins c) (stops c) (other_calls c) (next_join c)
    (next_stop c) (next_consumer c) (running c) (co_deferreds c) (effects c).
Definition with_coordinator_broker x (c : Coordinator) : Coordinator :=
  mkCoordinator (member_id c) (leader_id c) (generation_id c) x (protocol c) (_start_d c)
    (_rejoin_needed c) (_stopping c) (_rejoin_wait_dc c) (_rejoin_d c) (_heartbeat_running c)
    (_heartbeat_request_d c) (consumers c) (joins c) (stops c) (other_calls c) (next_join c)
    (next_stop c) (next_consumer c) (running c) (co_deferreds c) (effects c).
Definition with_protocol x (c : Coordinator) : Coordinator :=
  mkCoordinator (member_id c) (leader_id c) (generation_id c) (coordinator_broker c) x
    (_start_d c) (_rejoin_needed c) (_stopping c) (_rejoin_wait_dc c) (_rejoin_d c)
    (_heartbeat_running c) (_heartbeat_request_d c) (consumers c) (joins c) (stops c)
    (other_calls c) (next_join c) (next_stop c) (next_consumer c) (running c) (co_deferreds c)
    (effects c).
Definition with_start_d x (c : Coordinator) : Coordinator :=
  mkCoordinator (member_id c) (leader_id c) (generation_id c) (coordinator_broker c) (protocol c)
    x (_rejoin_needed c) (_stopping c) (_rejoin_wait_dc c) (_rejoin_d c) (_heartbeat_running c)
    (_heartbeat_request_d c) (consumers c) (joins c) (stops c) (other_calls c) (next_join c)
    (next_stop c) (next_consumer c) (running c) (co_deferreds c) (effects c).
Definition with_rejoin_needed x (c : Coordinator) : Coordinator :=
  mkCoordinator (member_id c) (leader_id c) (generation_id c) (coordinator_broker c) (protocol c)
    (_start_d c) x (_stopping c) (_rejoin_wait_dc c) (_rejoin_d c) (_heartbeat_running c)
    (_heartbeat_request_d c) (consumers c) (joins c) (stops c) (other_calls c) (next_join c)
    (next_stop c) (next_consumer c) (running c) (co_deferreds c) (effects c).
Definition with_stopping x (c : Coordinator) : Coordinator :=
  mkCoordinator (member_id c) (leader_id c) (generation_id c) (coordinator_broker c) (protocol c)
    (_start_d c) (_rejoin_needed c) x (_rejoin_wait_dc c) (_rejoin_d c) (_heartbeat_running c)
    (_heartbeat_request_d c) (consumers c) (joins c) (stops c) (other_calls c) (next_join c)
    (next_stop c) (next_consumer c) (running c) (co_deferreds c) (effects c).
Definition with_rejoin_wait_dc x (c : Coordinator) : Coordinator :=
  mkCoordinator (member_id c) (leader_id c) (generation_id c) (coordinator_broker c) (protocol c)
    (_start_d c) (_rejoin_needed c) (_stopping c) x (_rejoin_d c) (_heartbeat_running c)
    (_heartbeat_request_d c) (consumers c) (joins c) (stops c) (other_calls c) (next_join c)
    (next_stop c) (next_consumer c) (running c) (co_deferreds c) (effects c).
Definition with_rejoin_d x (c : Coordinator) : Coordinator :=
  mkCoordinator (member_id c) (leader_id c) (generation_id c) (coordinator_broker c) (protocol c)
    (_start_d c) (_rejoin_needed c) (_stopping c) (_rejoin_wait_dc c) x (_heartbeat_running c)
    (_heartbeat_request_d c) (consumers c) (joins c) (stops c) (other_calls c) (next_join c)
    (next_stop c) (next_consumer c) (running c) (co_deferreds c) (effects c).
Definition with_heartbeat_running x (c : Coordinator) : Coordinator :=
  mkCoordinator (member_id c) (leader_id c) (generation_id c) (coordinator_broker c) (protocol c)
    (_start_d c) (_rejoin_needed c) (_stopping c) (_rejoin_wait_dc c) (_rejoin_d c) x
    (_heartbeat_request_d c) (consumers c) (joins c) (stops c) (other_calls c) (next_join c)
    (next_stop c) (next_consumer c) (running c) (co_deferreds c) (effects c).
Definition with_heartbeat_request_d x (c : Coordinator) : Coordinator :=
  mkCoordinator (member_id c) (leader_id c) (generation_id c) (coordinator_broker c) (protocol c)
    (_start_d c) (_rejoin_needed c) (_stopping c) (_rejoin_wait_dc c) (_rejoin_d c)
    (_heartbeat_running c) x (consumers c) (joins c) (stops c) (other_calls c) (next_join c)
    (next_stop c) (next_consumer c) (running c) (co_deferreds c) (effects c).
Definition with_consumers x (c : Coordinator) : Coordinator :=
  mkCoordinator (member_id c) (leader_id c) (generation_id c) (coordinator_broker c) (protocol c)
    (_start_d c) (_rejoin_needed c) (_stopping c) (_rejoin_wait_dc c) (_rejoin_d c)
    (_heartbeat_running c) (_heartbeat_request_d c) x (joins c) (stops c) (other_calls c)
    (next_join c) (next_stop c) (next_consumer c) (running c) (co_deferreds c) (effects c).
Definition with_joins x (c : Coordinator) : Coordinator :=
  mkCoordinator (member_id c) (leader_id c) (generation_id c) (coordinator_broker c) (protocol c)
    (_start_d c) (_rejoin_needed c) (_stopping c) (_rejoin_wait_dc c) (_rejoin_d c)
    (_heartbeat_running c) (_heartbeat_request_d c) (consumers c) x (stops c) (other_calls c)
    (next_join c) (next_stop c) (next_consumer c) (running c) (co_deferreds c) (effects c).
Definition with_stops x (c : Coordinator) : Coordinator :=
  mkCoordinator (member_id c) (leader_id c) (generation_id c) (coordinator_broker c) (protocol c)
    (_start_d c) (_rejoin_needed c) (_stopping c) (_rejoin_wait_dc c) (_rejoin_d c)
    (_heartbeat_running c) (_heartbeat_request_d c) (consumers c) (joins c) x (other_calls c)
    (next_join c) (next_stop c) (next_consumer c) (running c) (co_deferreds c) (effects c).
Definition with_other_calls x (c : Coordinator) : Coordinator :=
  mkCoordinator (member_id c) (leader_id c) (generation_id c) (coordinator_broker c) (protocol c)
    (_start_d c) (_rejoin_needed c) (_stopping c) (_rejoin_wait_dc c) (_rejoin_d c)
    (_heartbeat_running c) (_heartbeat_request_d c) (consumers c) (joins c) (stops c) x
    (next_join c) (next_stop c) (next_consumer c) (running c) (co_deferreds c) (effects c).
Definition with_next_join x (c : Coordinator) : Coordinator :=
  mkCoordinator (member_id c) (leader_id c) (generation_id c) (coordinator_broker c) (protocol c)
    (_start_d c) (_rejoin_needed c) (_stopping c) (_rejoin_wait_dc c) (_rejoin_d c)
    (_heartbeat_running c) (_heartbeat_request_d c) (consumers c) (joins c) (stops c)
    (other_calls c) x (next_stop c) (next_consumer c) (running c) (co_deferreds c) (effects c).
Definition with_next_stop x (c : Coordinator) : Coordinator :=
  mkCoordinator (member_id c) (leader_id c) (generation_id c) (coordinator_broker c) (protocol c)
    (_start_d c) (_rejoin_needed c) (_stopping c) (_rejoin_wait_dc c) (_rejoin_d c)
    (_heartbeat_running c) (_heartbeat_request_d c) (consumers c) (joins c) (stops c)
    (other_calls c) (next_join c) x (next_consumer c) (running c) (co_deferreds c) (effects c).
Definition with_next_consumer x (c : Coordinator) : Coordinator :=
  mkCoordinator (member_id c) (leader_id c) (generation_id c) (coordinator_broker c) (protocol c)
    (_start_d c) (_rejoin_needed c) (_stopping c) (_rejoin_wait_dc c) (_rejoin_d c)
    (_heartbeat_running c) (_heartbeat_request_d c) (consumers c) (joins c) (stops c)
    (other_calls c) (next_join c) (next_stop c) x (running c) (co_deferreds c) (effects c).
Definition with_running x (c : Coordinator) : Coordinator :=
  mkCoordinator (member_id c) (leader_id c) (generation_id c) (coordinator_broker c) (protocol c)
    (_start_d c) (_rejoin_needed c) (_stopping c) (_rejoin_wait_dc c) (_rejoin_d c)
    (_heartbeat_running c) (_heartbeat_request_d c) (consumers c) (joins c) (stops c)
    (other_calls c) (next_join c) (next_stop c) (next_consumer c) x (co_deferreds c) (effects c).
Definition with_co_deferreds x (c : Coordinator) : Coordinator :=
  mkCoordinator (member_id c) (leader_id c) (generation_id c) (coordinator_broker c) (protocol c)
    (_start_d c) (_rejoin_needed c) (_stopping c) (_rejoin_wait_dc c) (_rejoin_d c)
    (_heartbeat_running c) (_heartbeat_request_d c) (consumers c) (joins c) (stops c)
    (other_calls c) (next_join c) (next_stop c) (next_consumer c) (running c) x (effects c).
Definition with_effects x (c : Coordinator) : Coordinator :=
  mkCoordinator (member_id c) (leader_id c) (generation_id c) (coordinator_broker c) (protocol c)
    (_start_d c) (_rejoin_needed c) (_stopping c) (_rejoin_wait_dc c) (_rejoin_d c)
    (_heartbeat_running c) (_heartbeat_request_d c) (consumers c) (joins c) (stops c)
    (other_calls c) (next_join c) (next_stop c) (next_consumer c) (running c) (co_deferreds c) x.
Definition emit (e : effect) (c : Coordinator) : Coordinator :=
  with_effects (effects c ++ [e]) c.

(** [Coordinator(...)] and [ConsumerGroup(...)]; without topics it is a
    [ValueError]. *)
Definition __init__ (topics : list text) : res Coordinator :=
  match topics with
  | [] => Err PyValueError
  | _ => Ok (mkCoordinator [] None None false true None true false DCNone None false false
               [] [] [] 0 0 0 0 [] no_deferreds [])
  end.

(** The consumers of a [consumers] dict, in the order of its iteration. *)
Definition all_consumers (cs : list (text * list nat)) : list nat := concat (Dict.values cs).

(** ** Consumers *)

(** [if consumer._start_d: consumer.stop()] *)
Definition stop_consumer (consumer : nat) (c : Coordinator) : Coordinator :=
  if bool_decide (consumer ∈ running c) then
    with_running (filter (λ n, n ≠ consumer) (running c)) (emit (EStopConsumer consumer) c)
  else c.

Definition stop_all (cs : list (text * list nat)) (c : Coordinator) : Coordinator :=
  foldl (λ c consumer, stop_consumer consumer c) c (all_consumers cs).

Definition stop_consumers (c : Coordinator) : Coordinator :=
  stop_all (consumers c) (with_consumers [] c).

Definition on_group_leave : Coordinator → Coordinator := stop_consumers.

(** The first part of [shutdown_consumers]: [Some] are the consumers it waits
    for; [raises] are those whose [shutdown()] raises. *)
Definition shutdown_consumers (raises : nat → bool) (c : Coordinator)
    : option (list (text * list nat)) * Coordinator :=
  match consumers c with
  | [] => (None, c)
  | current_consumers =>
    (Some current_consumers,
     foldl (λ c consumer, if raises consumer then stop_consumer consumer c
                          else emit (EShutdownConsumer consumer) c)
       (with_consumers [] c) (all_consumers current_consumers))
  end.

(** Its end: when a shutdown failed, the consumers still there are stopped. *)
Definition shutdown_done (current_consumers : list (text * list nat)) (failed : bool)
    (c : Coordinator) : Coordinator :=
  if failed then stop_all current_consumers c else c.

(** One turn of the loops of [on_join_complete]. *)
Definition start_consumer (tp : text * Z) (c : Coordinator) : Coordinator :=
  let n := next_consumer c in
  let '(topic, partition) := tp in
  let c := with_next_consumer (S n) c in
  let c := with_consumers
    (Dict.set topic (default [] (Dict.get topic (consumers c)) ++ [n]) (consumers c)) c in
  with_running (running c ++ [n])
    (emit (EStartConsumer n topic partition (member_id c) (generation_id c)) c).

Definition on_join_complete (assignments : list (text * list Z)) (c : Coordinator) : Coordinator :=
  foldl (λ c tp, start_consumer tp c) c
    (assignments ≫= λ tps, pair tps.1 <$> tps.2).

(** ** Stopping *)

(** [send_join_group_request]: without a protocol it is an [AttributeError]. *)
Definition send_join_group_request (topics : list text) (id : nat) (c : Coordinator)
    : res Coordinator :=
  if protocol c then
    protocols ← join_group_protocols topics;
    Ok (with_joins (Dict.set id Joining (joins c)) (emit (ESendJoin (member_id c) protocols) c))
  else Err PyAttributeError.

(** A [_join_and_sync] coroutine returns ([cleanup_rejoin_d]), or raises. *)
Definition end_join (id : nat) (c : Coordinator) : Coordinator :=
  with_joins (Dict.del id (joins c)) (with_rejoin_d None c).

Definition fail_join (id : nat) (e : exn) (c : Coordinator) : Coordinator :=
  emit (EJoinError e) (end_join id c).

(** [yield self.on_join_prepare()] is over. *)
Definition resume_prepare (topics : list text) (id : nat) (c : Coordinator) : Coordinator :=
  match send_join_group_request topics id c with
  | Ok c => c
  | Err e => fail_join id e c
  end.

(** [d.cancel()] of the deferred of a coroutine while the client is stopping:
    the deferred it waits for is cancelled. The coordinator lookup fails with
    [CancelledError], and so does the coroutine; the join and the sync request
    fail with it too, which [rejoin_after_error] ignores, and the coroutine
    returns; the metadata requests may swallow it, and are answered later;
    [shutdown_consumers] handles it, and the coroutine goes on to join. *)
Definition cancel_join (topics : list text) (id : nat) (c : Coordinator) : Coordinator :=
  match Dict.get id (joins c) with
  | None => c
  | Some p =>
    match p with
    | FetchingBroker => fail_join id TwistedCancelledError c
    | LoadingMetadata | LoadingPartitions _ => c
    | Joining | Syncing => end_join id c
    | Preparing current => resume_prepare topics id (shutdown_done current true c)
    end
  end.

(** [stop] after the leave request. *)
Definition finish_stop (topics : list text) (errback_result : option exn) (c : Coordinator)
    : Coordinator :=
  let c := match _rejoin_d c with
           | None => c
           | Some id => cancel_join topics id (with_rejoin_d None c)
           end in
  let c := with_coordinator_broker false (with_generation_id None
             (with_member_id [] (with_protocol false c))) in
  match _start_d c with
  | None => c
  | Some d =>
    let c := with_start_d None c in
    let o := match errback_result with Some e => Failure e | None => Success tt end in
    if called d (co_deferreds c) then c
    else match fire d o (co_deferreds c) with
         | Ok ds => with_co_deferreds ds c
         | Err _ => c
         end
  end.

(** [Coordinator.stop]. (A delayed call is only cancelled here, so the one it
    finds is pending.) A heartbeat request in flight is cancelled, and
    [_handle_heartbeat_failure] stops the timer; [rejoin_after_error] ignores
    the cancellation. *)
Definition stop (topics : list text) (errback_result : option exn) : proc exn Coordinator unit := λ c,
  match _start_d c with
  | None => (c, Err RestopError)
  | Some _ =>
    if _stopping c then (c, Err RestopError)
    else
      let c := with_rejoin_needed false (with_stopping true c) in
      let c := match _rejoin_wait_dc c with
               | DCPending => with_rejoin_wait_dc DCCancelled c
               | _ => c
               end in
      let c := with_heartbeat_running false (with_heartbeat_request_d false c) in
      if coordinator_broker c && negb (bool_decide (member_id c = [])) then
        (with_next_stop (S (next_stop c))
           (with_stops (Dict.set (next_stop c) (Leaving errback_result) (stops c))
              (emit (ESendLeave (member_id c)) c)), Ok tt)
      else (finish_stop topics errback_result c, Ok tt)
  end.

(** [ConsumerGroup.stop]; [super().stop()] raises in the coroutine. *)
Definition group_stop (topics : list text) (raises : nat → bool) (errback_result : option exn)
    : proc exn Coordinator unit := λ c,
  match shutdown_consumers raises c with
  | (None, c) => stop topics errback_result c
  | (Some current, c) =>
    (with_next_stop (S (next_stop c))
       (with_stops (Dict.set (next_stop c) (StoppingConsumers current errback_result) (stops c)) c),
     Ok tt)
  end.

(** A [stop] coroutine is resumed: the consumers are down, or the leave request
    was answered ([_leave_group_success] when it succeeded). *)
Definition resume_stop (topics : list text) (id : nat) (failed : bool) (c : Coordinator)
    : Coordinator :=
  match Dict.get id (stops c) with
  | None => c
  | Some p =>
    let c := with_stops (Dict.del id (stops c)) c in
    match p with
    | StoppingConsumers current errback_result =>
      (stop topics errback_result (shutdown_done current failed c)).1
    | Leaving errback_result =>
      let c := if failed then c else with_generation_id None (with_member_id [] c) in
      finish_stop topics errback_result c
    end
  end.

(** ** Joining *)

Section coordinator.
(** The [topics], the delays in milliseconds, and the iteration order of a set
    of topics. *)
Context (topics : list text) (initial_backoff_ms retry_backoff_ms fatal_backoff_ms : Z).
Context (set_iter : list text → list text).

(** The end of [rejoin_after_error]. *)
Definition schedule_rejoin (rejoin_delay : Z) (c : Coordinator) : Coordinator :=
  let c := with_rejoin_needed true c in
  match _rejoin_wait_dc c with
  | DCNone => with_rejoin_wait_dc DCPending (emit (ECallLater rejoin_delay) c)
  | _ => c
  end.

Definition rejoin_after_error (result : exn) (c : Coordinator) : Coordinator :=
  match result with
  | BrokerError RebalanceInProgress => schedule_rejoin retry_backoff_ms c
  | BrokerError (CoordinatorNotAvailable | NotCoordinator) =>
    schedule_rejoin retry_backoff_ms (emit EResetGroup c)
  | BrokerError IllegalGeneration => schedule_rejoin retry_backoff_ms (on_group_leave c)
  | BrokerError (InvalidGroupId | UnknownMemberId) =>
    schedule_rejoin retry_backoff_ms (with_member_id [] (on_group_leave c))
  | BrokerError InconsistentGroupProtocol => schedule_rejoin fatal_backoff_ms c
  | BrokerError RequestTimedOutError =>
    schedule_rejoin fatal_backoff_ms (emit EResetGroup (on_group_leave c))
  | _ =>
    if _stopping c && bool_decide (result = TwistedCancelledError) then c
    else if is_KafkaError result then schedule_rejoin fatal_backoff_ms c
    else (group_stop topics (λ _, false) (Some result) (on_group_leave c)).1
  end.

(** [callLater(delay, self.join_and_sync)] without keeping the call. *)
Definition call_join_later (delay : Z) (c : Coordinator) : Coordinator :=
  with_other_calls (S (other_calls c)) (emit (ECallLater delay) c).

(** [join_and_sync()]: a delayed call that is still pending is no longer
    referred to. *)
Definition join_and_sync (c : Coordinator) : Coordinator :=
  let c := match _rejoin_wait_dc c with
           | DCPending => with_other_calls (S (other_calls c)) (with_rejoin_wait_dc DCNone c)
           | _ => with_rejoin_wait_dc DCNone c
           end in
  if negb (_rejoin_needed c) then c
  else match _rejoin_d c with
       | Some _ => c
       | None =>
         let id := next_join c in
         with_next_join (S id) (with_rejoin_d (Some id)
           (with_joins (Dict.set id FetchingBroker (joins c)) (emit EGetCoordinator c)))
       end.

(** The answer to [_get_coordinator_for_group]: whether there is a leader. *)
Definition resume_broker (id : nat) (answer : res bool) (c : Coordinator) : Coordinator :=
  match answer with
  | Ok true => with_joins (Dict.set id LoadingMetadata (joins c)) (emit ELoadMetadata c)
  | Ok false => end_join id (call_join_later initial_backoff_ms c)
  | Err e =>
    match e with
    | BrokerError (CoordinatorNotAvailable | NotCoordinator) =>
      end_join id (call_join_later initial_backoff_ms c)
    | BrokerError RequestTimedOutError => end_join id (call_join_later fatal_backoff_ms c)
    | _ => if is_KafkaError e then end_join id (call_join_later fatal_backoff_ms c)
           else fail_join id e c
    end
  end.

Definition resume_metadata (raises : nat → bool) (id : nat) (answer : res unit) (c : Coordinator)
    : Coordinator :=
  match answer with
  | Err e => fail_join id e c
  | Ok _ =>
    if _stopping c then end_join id c
    else
      match shutdown_consumers raises (with_coordinator_broker true c) with
      | (Some current, c) => with_joins (Dict.set id (Preparing current) (joins c)) c
      | (None, c) => resume_prepare topics id c
      end
  end.

Definition send_sync_group_request (assignments : list _SyncGroupRequestMember) (id : nat)
    (c : Coordinator) : Coordinator :=
  with_joins (Dict.set id Syncing (joins c))
    (emit (ESendSync (generation_id c) (member_id c) assignments) c).

(** [_join_group_success], or [rejoin_after_error]; then the leader makes the
    assignments. *)
Definition resume_join (id : nat) (answer : res _JoinGroupResponse) (c : Coordinator)
    : Coordinator :=
  match answer with
  | Err e => end_join id (rejoin_after_error e c)
  | Ok r =>
    let c := with_leader_id (Some (jgrr_leader_id r))
               (with_generation_id (Some (jgrr_generation_id r))
                  (with_member_id (jgrr_member_id r) c)) in
    if _stopping c then end_join id c
    else if bool_decide (jgrr_leader_id r = jgrr_member_id r) then
      match generate_assignments set_iter (jgrr_members r) [] with
      | Ok assignments => send_sync_group_request assignments id c
      | Err (_NeedTopicPartitions needed) =>
        with_joins (Dict.set id (LoadingPartitions r) (joins c)) (emit (ELoadPartitions needed) c)
      | Err (GExn e) => fail_join id e c
      end
    else send_sync_group_request [] id c
  end.

Definition resume_partitions (id : nat) (r : _JoinGroupResponse)
    (answer : res (list (text * list Z))) (c : Coordinator) : Coordinator :=
  match answer with
  | Err e => fail_join id e c
  | Ok topic_partitions =>
    if protocol c then
      match generate_assignments set_iter (jgrr_members r) topic_partitions with
      | Ok assignments => send_sync_group_request assignments id c
      | Err (_NeedTopicPartitions _) => fail_join id OtherError c
      | Err (GExn e) => fail_join id e c
      end
    else fail_join id PyAttributeError c
  end.

(** [reset_heartbeat_timer]: the timer runs, from now. *)
Definition reset_heartbeat_timer (c : Coordinator) : Coordinator := with_heartbeat_running true c.

Definition resume_sync (id : nat) (answer : res _SyncGroupResponse) (c : Coordinator)
    : Coordinator :=
  match answer with
  | Err e => end_join id (rejoin_after_error e c)
  | Ok r =>
    if _stopping c then end_join id c
    else
      match decode_assignment (sgrr_member_assignment r) with
      | Err e => fail_join id e c
      | Ok assignment =>
        end_join id (on_join_complete assignment
          (with_rejoin_needed false (reset_heartbeat_timer c)))
      end
  end.

(** ** Heartbeats *)

Definition _heartbeat (c : Coordinator) : Coordinator :=
  if _stopping c || _rejoin_needed c || _heartbeat_request_d c then c
  else with_heartbeat_request_d true (emit (ESendHeartbeat (generation_id c) (member_id c)) c).

(** [_handle_heartbeat_success], or [_handle_heartbeat_failure], where stopping
    a timer that does not run is an [AssertionError]. *)
Definition heartbeat_answer (answer : res unit) (c : Coordinator) : Coordinator :=
  let c := with_heartbeat_request_d false c in
  match answer with
  | Ok _ => c
  | Err e =>
    if _heartbeat_running c then rejoin_after_error e (with_heartbeat_running false c) else c
  end.

(** [start()] *)
Definition start : proc exn Coordinator nat := λ c,
  match _start_d c with
  | Some _ => (c, Err RestartError)
  | None =>
    let '(d, ds) := new_deferred (co_deferreds c) in
    (join_and_sync (with_start_d (Some d) (with_co_deferreds ds c)), Ok d)
  end.

(** A consumer's [_start_d] failed. *)
Definition on_consumer_error (result : exn) (c : Coordinator) : Coordinator :=
  if bool_decide (result = TwistedCancelledError) && bool_decide (consumers c = []) then c
  else rejoin_after_error result c.

(** ** The coordinator as a state machine

    The application starts and stops it; delayed calls and heartbeats come
    due; requests and loads are answered; consumers fail, and consumers that
    were asked to shut down are done. *)
Inductive event :=
| Start
| Stop (raises : nat → bool)
| CancelStart (d : nat)
| RejoinTimer
| OtherTimer
| BrokerAnswer (id : nat) (answer : res bool)
| MetadataAnswer (raises : nat → bool) (id : nat) (answer : res unit)
| ConsumersDown (id : nat) (failed : bool)
| JoinAnswer (id : nat) (answer : res _JoinGroupResponse)
| PartitionsAnswer (id : nat) (answer : res (list (text * list Z)))
| SyncAnswer (id : nat) (answer : res _SyncGroupResponse)
| StopResumes (id : nat) (failed : bool)
| HeartbeatTimer
| HeartbeatAnswer (answer : res unit)
| ConsumerFailed (consumer : nat) (e : exn)
| ConsumerDone (consumer : nat).

Definition waits (id : nat) (c : Coordinator) (p : phase → bool) : bool :=
  match Dict.get id (joins c) with Some q => p q | None => false end.

Definition enabled (e : event) (c : Coordinator) : bool :=
  match e with
  | Start | Stop _ => true
  | CancelStart d => bool_decide (d < issued (co_deferreds c))%nat
  | RejoinTimer => bool_decide (_rejoin_wait_dc c = DCPending)
  | OtherTimer => (0 <? other_calls c)%nat
  | BrokerAnswer id _ => waits id c (λ p, match p with FetchingBroker => true | _ => false end)
  | MetadataAnswer _ id _ => waits id c (λ p, match p with LoadingMetadata => true | _ => false end)
  | ConsumersDown id _ => waits id c (λ p, match p with Preparing _ => true | _ => false end)
  | JoinAnswer id _ => waits id c (λ p, match p with Joining => true | _ => false end)
  | PartitionsAnswer id _ =>
    waits id c (λ p, match p with LoadingPartitions _ => true | _ => false end)
  | SyncAnswer id _ => waits id c (λ p, match p with Syncing => true | _ => false end)
  | StopResumes id _ => bool_decide (is_Some (Dict.get id (stops c)))
  | HeartbeatTimer => _heartbeat_running c
  | HeartbeatAnswer _ => _heartbeat_request_d c
  | ConsumerFailed n _ => bool_decide (n ∈ running c)
  | ConsumerDone n => bool_decide (n ∈ running c ∧ n ∉ all_consumers (consumers c))
  end.

Definition handle (e : event) (c : Coordinator) : Coordinator :=
  match e with
  | Start => (start c).1
  | Stop raises => (group_stop topics raises None c).1
  | CancelStart d => match cancel_plain d (co_deferreds c) with
                     | Ok ds => with_co_deferreds ds c
                     | Err _ => c
                     end
  | RejoinTimer => join_and_sync (with_rejoin_wait_dc DCNone c)
  | OtherTimer => join_and_sync (with_other_calls (pred (other_calls c)) c)
  | BrokerAnswer id answer => resume_broker id answer c
  | MetadataAnswer raises id answer => resume_metadata raises id answer c
  | ConsumersDown id failed =>
    match Dict.get id (joins c) with
    | Some (Preparing current) => resume_prepare topics id (shutdown_done current failed c)
    | _ => c
    end
  | JoinAnswer id answer => resume_join id answer c
  | PartitionsAnswer id answer =>
    match Dict.get id (joins c) with
    | Some (LoadingPartitions r) => resume_partitions id r answer c
    | _ => c
    end
  | SyncAnswer id answer => resume_sync id answer c
  | StopResumes id failed => resume_stop topics id failed c
  | HeartbeatTimer => _heartbeat c
  | HeartbeatAnswer answer => heartbeat_answer answer c
  | ConsumerFailed _ e => on_consumer_error e c
  | ConsumerDone n => with_running (filter (λ m, m ≠ n) (running c)) c
  end.

Inductive reachable : Coordinator → Prop :=
| reach_init c : __init__ topics = Ok c → reachable c
| reach_step e c : reachable c → enabled e c = true → reachable (handle e c).
End coordinator.
