(* ===== verification/CoordinatorInvariant.v ===== *)
(** Invariants of the group coordinator ([Coordinator]): what controls it
    (its join attempt, delayed call and heartbeats), and its consumers. *)
From S2P Require Import Prelude Common PyBytes Util KafkaCodec Deferred Group Coordinator.
Local Open Scope Z_scope.

(** ** What working on the consumers leaves alone *)

(** No join attempt has ended in an exception so far. *)
Definition clean (c : Coordinator) : Prop := ∀ e, EJoinError e ∉ effects c.

Definition same_control (c c' : Coordinator) : Prop :=
  generation_id c' = generation_id c ∧
  protocol c' = protocol c ∧
  _start_d c' = _start_d c ∧ _rejoin_needed c' = _rejoin_needed c ∧
  _stopping c' = _stopping c ∧ _rejoin_wait_dc c' = _rejoin_wait_dc c ∧
  _rejoin_d c' = _rejoin_d c ∧ _heartbeat_running c' = _heartbeat_running c ∧
  _heartbeat_request_d c' = _heartbeat_request_d c ∧ joins c' = joins c ∧ stops c' = stops c ∧
  other_calls c' = other_calls c ∧ next_join c' = next_join c ∧ next_stop c' = next_stop c ∧
  (clean c' ↔ clean c).

#[export] Instance same_control_preorder : PreOrder same_control.
Proof.
  split.
  - intros c. unfold same_control. by split_and!.
  - unfold same_control. intros c1 c2 c3 H K. destruct_and!. split_and!; [congruence..|].
    etrans; eassumption.
Qed.

Lemma clean_emit e c :
  match e with EJoinError _ => False | _ => True end → clean (emit e c) ↔ clean c.
Proof.
  unfold clean. cbn. intros He. split; intros H e' Hin; apply (H e'); [set_solver|].
  apply elem_of_app in Hin as [?|Hin]; [done|]. apply list_elem_of_singleton in Hin as <-. done.
Qed.

Lemma same_control_emit e c :
  match e with EJoinError _ => False | _ => True end → same_control c (emit e c).
Proof. intros He. unfold same_control. split_and!; try done. by apply clean_emit. Qed.

Lemma same_control_foldl {X} (f : X → Coordinator → Coordinator) (xs : list X) c :
  (∀ x c, same_control c (f x c)) → same_control c (foldl (λ c x, f x c) c xs).
Proof.
  intros Hf. revert c. induction xs as [|x xs IH]; intros c; [done|]. cbn. etrans; [|apply IH]. apply Hf.
Qed.

Lemma same_control_stop_consumer n c : same_control c (stop_consumer n c).
Proof.
  unfold stop_consumer. case_bool_decide; [|done].
  etrans; [by apply (same_control_emit (EStopConsumer n))|]. unfold same_control. by split_and!.
Qed.

Lemma same_control_stop_all cs c : same_control c (stop_all cs c).
Proof. apply same_control_foldl, same_control_stop_consumer. Qed.

Lemma same_control_group_leave c : same_control c (on_group_leave c).
Proof. unfold on_group_leave, stop_consumers. etrans; [|apply same_control_stop_all]. done. Qed.

Lemma same_control_shutdown raises c : same_control c (shutdown_consumers raises c).2.
Proof.
  unfold shutdown_consumers. destruct (consumers c); [done|]. cbn [snd].
  etrans; [|apply (same_control_foldl (λ n c, if raises n then _ else _)); intros n c'; case_match;
            [apply same_control_stop_consumer|by apply same_control_emit]].
  done.
Qed.

Lemma same_control_shutdown_done cs f c : same_control c (shutdown_done cs f c).
Proof. unfold shutdown_done. case_match; [apply same_control_stop_all|done]. Qed.

Lemma same_control_start_consumer tp c : same_control c (start_consumer tp c).
Proof.
  destruct tp as [t p]. unfold start_consumer.
  set (c1 := with_consumers _ (with_next_consumer _ c)).
  trans c1; [done|].
  etrans; [by apply (same_control_emit (EStartConsumer (next_consumer c) t p (member_id c1)
    (generation_id c1)) c1)|done].
Qed.

Lemma same_control_join_complete a c : same_control c (on_join_complete a c).
Proof. apply same_control_foldl, same_control_start_consumer. Qed.

(** ** The control invariant *)

(** The phases after the join response. *)
Definition after_join (p : phase) : Prop :=
  match p with LoadingPartitions _ | Syncing => True | _ => False end.

(** Once it was started: while the coordinator is not stopping there is at most
    one join attempt, and [_rejoin_d] is its deferred; there is a heartbeat in
    flight only while the timer runs. *)
Record control_pre (c : Coordinator) : Prop := {
  ct_started : _start_d c ≠ None ∨ _stopping c = true;
  ct_join : _stopping c = false →
    match _rejoin_d c with Some id => ∃ p, joins c = [(id, p)] | None => joins c = [] end;
  ct_dc : _stopping c = false → _rejoin_wait_dc c ≠ DCCancelled;
  ct_heartbeat : _heartbeat_request_d c = true → _heartbeat_running c = true;
  ct_stopping : _stopping c = true → _heartbeat_running c = false;
  ct_protocol : _stopping c = false → protocol c = true;
  ct_generation id p : _stopping c = false → Dict.get id (joins c) = Some p → after_join p →
    is_Some (generation_id c);
  ct_leaving id r : (id, Leaving r) ∈ stops c → _stopping c = true;
}.

(** A joined member has a generation and sends heartbeats. *)
Definition joined_wf (c : Coordinator) : Prop :=
  _stopping c = false → _rejoin_needed c = false →
  _heartbeat_running c = true ∧ is_Some (generation_id c).

(** Something will make it join: it has joined, or a delayed call is pending. *)
Definition will_join (c : Coordinator) : Prop :=
  _rejoin_needed c = false ∨ _rejoin_wait_dc c = DCPending ∨ (0 < other_calls c)%nat.

Definition progress_wf (c : Coordinator) : Prop :=
  _stopping c = false → clean c → will_join c ∨ joins c ≠ [].

Definition control_wf (c : Coordinator) : Prop :=
  control_pre c ∧ joined_wf c ∧ progress_wf c.

Lemma control_pre_same c c' : same_control c c' → control_pre c → control_pre c'.
Proof.
  unfold same_control. intros H []. destruct_and!.
  split; repeat match goal with H : _ = _ |- _ => rewrite H end; done.
Qed.

Lemma control_same c c' : same_control c c' → control_wf c → control_wf c'.
Proof.
  intros H (H1 & H2 & H3). split; [by eapply control_pre_same|].
  unfold same_control, joined_wf, progress_wf, will_join in *. destruct_and!.
  split; repeat match goal with H : _ = _ |- _ => rewrite H end; [done|].
  intros ? ?. apply H3; [done|]. by match goal with K : clean c' ↔ clean c |- _ => apply K end.
Qed.

(** A handler that only writes attributes keeps the invariant when each field
    is checked. *)
Ltac control := split; cbn in *; try done; try naive_solver.

(** When the coordinator is stopping, only this much is left of it. *)
Lemma control_stopped c :
  _stopping c = true → _heartbeat_running c = false → _heartbeat_request_d c = false → control_wf c.
Proof.
  intros H1 H2 H3. split; [|split].
  - split; rewrite ?H1, ?H2, ?H3; auto; done.
  - intros H; congruence.
  - intros H; congruence.
Qed.

Lemma control_wf_stopping c :
  control_pre c → _stopping c = true → control_wf c.
Proof.
  intros [] Hs. pose proof (ct_stopping0 Hs) as Hr. apply control_stopped; [done..|].
  destruct (_heartbeat_request_d c) eqn:E; [|done]. rewrite ct_heartbeat0 in Hr; done.
Qed.

Lemma get_single {V} (id id' : nat) (p : V) : Dict.get id [(id', p)] ≠ None → id = id'.
Proof. cbn. by destruct (decide (id = id')). Qed.

Lemma del_single {V} (id : nat) (p : V) : Dict.del id [(id, p)] = [].
Proof. cbn. by destruct (decide (id = id)). Qed.

Lemma set_single {V} (id : nat) (p q : V) : Dict.set id q [(id, p)] = [(id, q)].
Proof. cbn. by destruct (decide (id = id)). Qed.

(** The attempt that is answered is the only one. *)
Lemma control_single id c :
  control_pre c → _stopping c = false → Dict.get id (joins c) ≠ None →
  _rejoin_d c = Some id ∧ ∃ p, joins c = [(id, p)].
Proof.
  intros Hc Hs Hg. pose proof (ct_join c Hc Hs) as H. destruct (_rejoin_d c) as [id'|].
  - destruct H as [p E]. rewrite E in *. apply get_single in Hg as ->. eauto.
  - by rewrite H in Hg.
Qed.

Lemma control_pre_end_join id c :
  control_pre c → (_stopping c = false → Dict.get id (joins c) ≠ None) →
  control_pre (end_join id c).
Proof.
  intros Hc Hg.
  assert (Hd : _stopping c = false → Dict.del id (joins c) = []).
  { intros Hs. destruct (control_single id c) as (_ & p & ->); auto. apply del_single. }
  destruct Hc. split; cbn; try done. intros id' p Hs. by rewrite Hd.
Qed.

Lemma control_end_join id c :
  control_pre c → joined_wf c →
  (_stopping c = false → Dict.get id (joins c) ≠ None ∧ (clean c → will_join c)) →
  control_wf (end_join id c).
Proof.
  intros Hc Hj Hw. split; [|split].
  - apply control_pre_end_join; [done|]. intros Hs. by apply Hw.
  - done.
  - intros Hs Hcl. left. by apply Hw.
Qed.

Lemma not_clean_emit_error e c : ¬ clean (emit (EJoinError e) c).
Proof. intros H. apply (H e). cbn. set_solver. Qed.

Lemma control_fail_join id e c :
  control_pre c → joined_wf c → (_stopping c = false → Dict.get id (joins c) ≠ None) →
  control_wf (fail_join id e c).
Proof.
  intros Hc Hj Hg. pose proof (control_pre_end_join id c Hc Hg) as Hp. split; [|split].
  - by destruct Hp.
  - done.
  - intros _ Hcl. by apply not_clean_emit_error in Hcl.
Qed.

Lemma control_set_phase id p c :
  control_pre c → joined_wf c → (_stopping c = false → Dict.get id (joins c) ≠ None) →
  (_stopping c = false → after_join p → is_Some (generation_id c)) →
  control_wf (with_joins (Dict.set id p (joins c)) c).
Proof.
  intros Hc Hj Hg Hp. destruct (_stopping c) eqn:Hs.
  - apply control_wf_stopping; [|done]. destruct Hc. split; cbn; try done; congruence.
  - destruct (control_single id c) as (Hd & p' & E); [done..|by apply Hg|]. rewrite E, set_single.
    split; [|split]; [|done|by right].
    destruct Hc. split; cbn; try done; [intros _; rewrite Hd; eauto|].
    intros id' q _ Hq. destruct (decide (id' = id)) as [->|]; [|done]. injection Hq as <-. auto.
Qed.

(** ** Stopping *)

Definition down (c : Coordinator) : Prop :=
  _stopping c = true ∧ _heartbeat_running c = false ∧ _heartbeat_request_d c = false.

Lemma control_down c : down c → control_wf c.
Proof. intros (? & ? & ?). by apply control_stopped. Qed.

Lemma down_pre c : control_pre c → _stopping c = true → down c.
Proof.
  intros Hc Hs. pose proof (ct_stopping c Hc Hs) as Hr. split_and!; [done..|].
  destruct (_heartbeat_request_d c) eqn:E; [|done]. rewrite (ct_heartbeat c) in Hr; done.
Qed.

Lemma down_same c c' : same_control c c' → down c → down c'.
Proof. unfold same_control, down. intros H. destruct_and!. intros (? & ? & ?). split_and!; congruence. Qed.

Lemma down_resume_prepare topics id c : down c → down (resume_prepare topics id c).
Proof.
  intros H. unfold resume_prepare, send_join_group_request.
  destruct (protocol c); [|done]. destruct (join_group_protocols topics); done.
Qed.

Lemma down_cancel_join topics id c : down c → down (cancel_join topics id c).
Proof.
  intros H. unfold cancel_join. destruct (Dict.get id (joins c)) as [[]|]; try done.
  apply down_resume_prepare. eapply down_same; [apply same_control_shutdown_done|done].
Qed.

Lemma down_finish_stop topics r c : down c → down (finish_stop topics r c).
Proof.
  intros H. unfold finish_stop. set (c1 := match _rejoin_d c with Some _ => _ | None => _ end).
  assert (H1 : down c1). { subst c1. destruct (_rejoin_d c); [|done]. by apply down_cancel_join. }
  clearbody c1. cbn. destruct (_start_d c1); [|done]. destruct (called _ _); [done|].
  destruct (fire _ _ _); done.
Qed.

(** [Coordinator.stop] raises, or the coordinator is stopping. *)
Lemma stop_spec topics r c :
  (_start_d c ≠ None ∧ _stopping c = false → down (stop topics r c).1) ∧
  (_start_d c = None ∨ _stopping c = true → stop topics r c = (c, Err RestopError)).
Proof.
  unfold stop. split.
  - intros [Hd ->]. destruct (_start_d c); [|done].
    set (c1 := with_heartbeat_running _ _). assert (down c1) as H.
    { subst c1. cbn. by destruct (_rejoin_wait_dc c). }
    destruct (_ && _); [done|]. by apply down_finish_stop.
  - intros [->| ->]; [done|]. by destruct (_start_d c).
Qed.

Lemma control_stop topics r c : control_wf c → control_wf (stop topics r c).1.
Proof.
  intros H. destruct (stop_spec topics r c) as [Hd He]. destruct (_stopping c) eqn:Hs.
  { by rewrite He by auto. }
  apply control_down, Hd. split; [|done]. by destruct (ct_started c) as [|]; [apply H| |congruence].
Qed.

Lemma control_group_stop topics raises r c :
  control_wf c → control_wf (group_stop topics raises r c).1.
Proof.
  intros H. unfold group_stop. pose proof (same_control_shutdown raises c) as Hf.
  destruct (shutdown_consumers raises c) as [[cur|] c1]; cbn in Hf |- *.
  - apply (control_same _ _ Hf) in H as ([] & ? & ?). split; [split; cbn; try done|done].
    intros id r' [[=]|Hin]%set_elem_inv. by eapply ct_leaving0.
  - apply control_stop. by eapply control_same.
Qed.

(** ** Joining *)

Lemma schedule_rejoin_spec delay c :
  let c' := schedule_rejoin delay c in
  control_pre c →
  control_wf c' ∧ (_stopping c' = false → joins c' = joins c ∧ _rejoin_wait_dc c' = DCPending).
Proof.
  unfold schedule_rejoin. cbn. intros []. destruct (_rejoin_wait_dc c) eqn:E.
  1-2: split; [(split; [|split]); [split; cbn; try done; rewrite ?E; done|done|left; right; left; done]|].
  1-2: done.
  split; [split; [|split]; [|done|]|].
  - split; cbn; try done. intros Hs. by destruct (ct_dc0 Hs).
  - intros Hs. by destruct (ct_dc0 Hs).
  - intros Hs. by destruct (ct_dc0 Hs).
Qed.

Lemma stop_joins topics r c :
  _stopping (stop topics r c).1 = false → (stop topics r c).1 = c.
Proof.
  intros H. destruct (stop_spec topics r c) as [Hd He].
  destruct (_start_d c) eqn:Es; [|by rewrite He by auto].
  destruct (_stopping c) eqn:Et; [by rewrite He by auto|].
  destruct Hd as [Hd _]; [done|congruence].
Qed.

Section joining.
Context (topics : list text) (initial_ms retry_ms fatal_ms : Z).
Context (set_iter : list text → list text).
Let rejoin_after_error := rejoin_after_error topics retry_ms fatal_ms.

(** What is done at once about an error before the rejoin is scheduled. *)
Definition reaction (c c1 : Coordinator) : Prop :=
  c1 = c ∨ c1 = emit EResetGroup c ∨ c1 = on_group_leave c ∨
  c1 = with_member_id [] (on_group_leave c) ∨ c1 = emit EResetGroup (on_group_leave c).

Lemma stop_all_consumers cs c : consumers (stop_all cs c) = consumers c.
Proof.
  unfold stop_all. revert c. induction (all_consumers cs) as [|n ns IH]; intros c; [done|].
  cbn [foldl]. rewrite IH. unfold stop_consumer. by case_bool_decide.
Qed.

Lemma group_leave_consumers c : consumers (on_group_leave c) = [].
Proof. unfold on_group_leave, stop_consumers. by rewrite stop_all_consumers. Qed.

Lemma rejoin_after_error_cases e c :
  (∃ delay c1, reaction c c1 ∧ rejoin_after_error e c = schedule_rejoin delay c1) ∨
  (_stopping c = true ∧ rejoin_after_error e c = c) ∨
  rejoin_after_error e c = (stop topics (Some e) (on_group_leave c)).1.
Proof.
  unfold rejoin_after_error, Coordinator.rejoin_after_error.
  set (def := if _stopping c && _ then c else _).
  set (goal := λ c', (∃ delay c1, reaction c c1 ∧ c' = schedule_rejoin delay c1) ∨
    (_stopping c = true ∧ c' = c) ∨ c' = (stop topics (Some e) (on_group_leave c)).1).
  assert (Hr : ∀ delay c1, reaction c c1 → goal (schedule_rejoin delay c1)).
  { intros delay c1 H. left. eauto. }
  assert (Hd : goal def).
  { subst def. destruct (_stopping c) eqn:Hs; cbn [andb]; [case_bool_decide; [by right; left|]|].
    all: destruct (is_KafkaError e); [apply Hr; by left|right; right].
    all: unfold group_stop, shutdown_consumers; by rewrite group_leave_consumers. }
  assert (Hall : ∀ cls, e = BrokerError cls → goal (Coordinator.rejoin_after_error topics retry_ms
    fatal_ms e c)).
  { intros cls He. unfold Coordinator.rejoin_after_error. fold def. rewrite He.
    destruct cls; try exact Hd; apply Hr; unfold reaction; auto 6. }
  destruct e; first [exact Hd|by eapply Hall].
Qed.

Lemma reaction_same c c1 : reaction c c1 → same_control c c1.
Proof.
  intros [->|[->|[->|[->| ->]]]]; [done|by apply same_control_emit|apply same_control_group_leave|..].
  - etrans; [apply same_control_group_leave|done].
  - etrans; [apply same_control_group_leave|by apply same_control_emit].
Qed.

(** After an error the coordinator is going to join again, or it is stopping;
    whether it was a member before does not matter. *)
Lemma rejoin_after_error_spec e c :
  let c' := rejoin_after_error e c in
  control_pre c →
  control_wf c' ∧ (_stopping c' = false → joins c' = joins c ∧ _rejoin_wait_dc c' = DCPending).
Proof.
  cbn. intros Hc. destruct (rejoin_after_error_cases e c) as
    [(delay & c1 & H1%reaction_same & ->)|[[Hs ->]| ->]].
  - destruct (schedule_rejoin_spec delay c1) as [H2 H3]; [by eapply control_pre_same|].
    split; [done|]. intros Hs. destruct (H3 Hs) as [-> ?]. split; [apply H1|done].
  - split; [by apply control_wf_stopping|congruence].
  - pose proof (same_control_group_leave c) as Hl.
    assert (Hd : down (stop topics (Some e) (on_group_leave c)).1).
    { destruct (stop_spec topics (Some e) (on_group_leave c)) as [Hd He].
      unfold same_control in Hl. destruct_and!. destruct (_stopping c) eqn:Hs.
      - rewrite He by (right; congruence). apply down_same with c; [apply same_control_group_leave|].
        by apply down_pre.
      - apply Hd. destruct (ct_started c Hc) as [|]; split; congruence. }
    split; [by apply control_down|]. intros Hs. destruct Hd as [Hd _]. congruence.
Qed.

Lemma control_after_error id e c :
  control_pre c → Dict.get id (joins c) ≠ None →
  control_wf (end_join id (rejoin_after_error e c)).
Proof.
  intros Hc Hg. destruct (rejoin_after_error_spec e c Hc) as [(Hc' & Hj' & Hp') Hjs].
  apply control_end_join; [done..|]. intros Hs. destruct (Hjs Hs) as [-> ?]. split; [done|].
  intros _. right. by left.
Qed.

Lemma control_join_and_sync c :
  control_pre c → joined_wf c → control_wf (join_and_sync c).
Proof.
  intros Hc Hj. unfold join_and_sync.
  set (c1 := match _rejoin_wait_dc c with DCPending => _ | _ => _ end).
  assert (control_pre c1 ∧ joined_wf c1) as [H1 H2].
  { subst c1. destruct Hc. destruct (_rejoin_wait_dc c); (split; [split; cbn; done|done]). }
  clearbody c1. clear Hc Hj c.
  destruct (_rejoin_needed c1) eqn:Hn; cbn [negb].
  2: { split; [done|split; [done|]]. intros _ _. left. by left. }
  destruct (_rejoin_d c1) as [id|] eqn:Hd.
  - split; [done|split; [done|]]. intros Hs _. right.
    pose proof (ct_join c1 H1 Hs) as Hjn. rewrite Hd in Hjn. destruct Hjn as [p ->]. done.
  - split; [|split].
    + pose proof (ct_join c1 H1) as Hjn. rewrite Hd in Hjn. destruct H1. split; cbn; try done.
      * intros Hs. rewrite Hjn by done. cbn. eauto.
      * intros id' q Hs. rewrite Hjn by done. cbn. case_decide; [|done]. by intros [= <-].
    + intros Hs. cbn. congruence.
    + intros _ _. right. cbn. by destruct (joins c1) as [|[]]; cbn; [|case_decide].
Qed.

(** The answers a join attempt waits for. *)
Lemma waits_get id c p : waits id c p = true → Dict.get id (joins c) ≠ None.
Proof. unfold waits. by destruct (Dict.get id (joins c)). Qed.

Lemma control_call_join_later id delay c :
  control_wf c → Dict.get id (joins c) ≠ None → control_wf (end_join id (call_join_later delay c)).
Proof.
  intros ([] & Hj & _) Hg. apply control_end_join; [split; cbn; done|done|].
  intros _. split; [done|]. intros _. right. right. cbn. lia.
Qed.

Lemma control_request eff id p c :
  match eff with EJoinError _ => False | _ => True end →
  control_wf c → Dict.get id (joins c) ≠ None →
  (_stopping c = false → after_join p → is_Some (generation_id c)) →
  control_wf (with_joins (Dict.set id p (joins c)) (emit eff c)).
Proof.
  intros He Hc Hg Hp. apply (control_same c (emit eff c)) in Hc; [|by apply same_control_emit].
  by apply (control_set_phase id p (emit eff c)); [apply Hc..| |].
Qed.

Lemma control_fail id e c :
  control_wf c → Dict.get id (joins c) ≠ None → control_wf (fail_join id e c).
Proof. intros (? & ? & _) ?. by apply control_fail_join. Qed.

Lemma control_end_stopping id c :
  control_wf c → _stopping c = true → control_wf (end_join id c).
Proof. intros (Hc & _) Hs. apply control_down. by apply down_pre in Hc. Qed.

Lemma control_resume_broker id a c :
  control_wf c → Dict.get id (joins c) ≠ None →
  control_wf (resume_broker initial_ms fatal_ms id a c).
Proof.
  intros Hc Hg. unfold resume_broker.
  destruct a as [[]|e]; [by apply control_request|by apply control_call_join_later|].
  destruct e; try match goal with K : broker_class |- _ => destruct K end; cbn;
    first [apply control_call_join_later|apply control_fail]; assumption.
Qed.

Lemma control_resume_prepare id c :
  control_wf c → Dict.get id (joins c) ≠ None → control_wf (resume_prepare topics id c).
Proof.
  intros Hc Hg. unfold resume_prepare, send_join_group_request.
  destruct (protocol c); [|by apply control_fail].
  destruct (join_group_protocols topics) as [ps|e]; cbn; [by apply control_request|by apply control_fail].
Qed.

Lemma control_resume_metadata raises id a c :
  control_wf c → Dict.get id (joins c) ≠ None → control_wf (resume_metadata topics raises id a c).
Proof.
  intros Hc Hg. unfold resume_metadata. destruct a as [[]|e]; [|by apply control_fail].
  destruct (_stopping c) eqn:Hs; [by apply control_end_stopping|].
  set (c1 := with_coordinator_broker true c).
  assert (H1 : control_wf c1) by by apply (control_same c).
  pose proof (same_control_shutdown raises c1) as Hf.
  assert (H2 : control_wf (shutdown_consumers raises c1).2) by by eapply control_same.
  assert (Hg' : Dict.get id (joins (shutdown_consumers raises c1).2) ≠ None).
  { replace (joins _) with (joins c); [done|]. symmetry. apply Hf. }
  destruct (shutdown_consumers raises c1) as [[cur|] c2]; cbn in H2, Hg'.
  - destruct H2 as (? & ? & _). by apply control_set_phase.
  - by apply control_resume_prepare.
Qed.

Lemma control_send_sync assignments id c :
  control_wf c → Dict.get id (joins c) ≠ None →
  (_stopping c = false → is_Some (generation_id c)) →
  control_wf (send_sync_group_request assignments id c).
Proof. intros ? ? H. apply control_request; auto. Qed.

Lemma control_generation g c :
  control_wf c → control_wf (with_generation_id (Some g) c).
Proof.
  intros ([] & Hj & Hp). split; [split; cbn; done|split; [|done]].
  intros Hs Hn. cbn. split; [by apply Hj|done].
Qed.

Lemma control_resume_join id a c :
  control_wf c → Dict.get id (joins c) ≠ None →
  control_wf (resume_join topics retry_ms fatal_ms set_iter id a c).
Proof.
  intros Hc Hg. unfold resume_join. destruct a as [r|e]; [|apply control_after_error; [apply Hc|done]].
  set (c1 := with_leader_id _ _).
  assert (H1 : control_wf c1).
  { apply (control_generation (jgrr_generation_id r)) in Hc. by apply (control_same) with (2 := Hc). }
  assert (Hg' : Dict.get id (joins c1) ≠ None ∧ is_Some (generation_id c1)) by done.
  destruct Hg' as [Hg' Hgen]. clearbody c1.
  destruct (_stopping c1) eqn:Hs; [by apply control_end_stopping|].
  case_bool_decide; [|by apply control_send_sync].
  destruct (generate_assignments _ _ _) as [l|[e|needed]];
    [by apply control_send_sync|by apply control_fail|by apply control_request].
Qed.

Lemma control_resume_partitions id r a c :
  control_wf c → Dict.get id (joins c) = Some (LoadingPartitions r) →
  control_wf (resume_partitions set_iter id r a c).
Proof.
  intros Hc Hg'. assert (Hg : Dict.get id (joins c) ≠ None) by congruence. unfold resume_partitions. destruct a as [tps|e]; [|by apply control_fail].
  destruct (protocol c); [|by apply control_fail].
  pose proof (λ Hs, ct_generation c (proj1 Hc) id _ Hs Hg' I) as Hgen.
  destruct (generate_assignments _ _ _) as [l|[e|needed]];
    [by apply control_send_sync|by apply control_fail..].
Qed.

Lemma control_resume_sync id a c :
  control_wf c → Dict.get id (joins c) = Some Syncing →
  control_wf (resume_sync topics retry_ms fatal_ms id a c).
Proof.
  intros Hc Hg'. assert (Hg : Dict.get id (joins c) ≠ None) by congruence. unfold resume_sync. destruct a as [r|e]; [|apply control_after_error; [apply Hc|done]].
  destruct (_stopping c) eqn:Hs; [by apply control_end_stopping|].
  destruct (decode_assignment _) as [asg|e]; [|by apply control_fail].
  set (c1 := with_rejoin_needed false (reset_heartbeat_timer c)).
  assert (H1 : control_wf c1).
  { pose proof (ct_generation c (proj1 Hc) id _ Hs Hg' I) as Hgen. destruct Hc as ([] & ? & ?).
    split; [split; cbn; try done|split]; [by rewrite Hs|intros _ _; by split|]. intros _ _. left. by left. }
  pose proof (same_control_join_complete asg c1) as Hf.
  apply (control_same _ _ Hf) in H1 as (Hp & Hj & _). apply control_end_join; [done..|].
  intros _. unfold same_control in Hf. destruct_and!. split; [by replace (joins _) with (joins c)|].
  intros _. left. by match goal with K : _rejoin_needed _ = _ |- _ => rewrite K end.
Qed.

(** ** Heartbeats, starting and stopping *)

Lemma control_heartbeat c :
  control_wf c → _heartbeat_running c = true → control_wf (_heartbeat c).
Proof.
  intros Hc Hr. unfold _heartbeat. destruct (_ || _); [done|].
  apply (control_same _ _ (same_control_emit (ESendHeartbeat (generation_id c) (member_id c)) c I)) in Hc
    as ([] & ? & ?).
  split; [split; cbn; done|done].
Qed.

Lemma control_heartbeat_answer a c :
  control_wf c → control_wf (heartbeat_answer topics retry_ms fatal_ms a c).
Proof.
  intros Hc. unfold heartbeat_answer. destruct a as [[]|e].
  - destruct Hc as ([] & ? & ?). split; [split; cbn; done|done].
  - cbn [_heartbeat_running with_heartbeat_request_d]. destruct (_heartbeat_running c) eqn:Hr.
    + apply rejoin_after_error_spec. destruct Hc as ([] & ? & ?). split; cbn; done.
    + destruct Hc as ([] & ? & ?). split; [split; cbn; done|done].
Qed.

Lemma control_consumer_error e c :
  control_wf c → control_wf (on_consumer_error topics retry_ms fatal_ms e c).
Proof.
  intros Hc. unfold on_consumer_error. destruct (_ && _); [done|].
  by apply rejoin_after_error_spec, Hc.
Qed.

Lemma control_start c : control_wf c → control_wf (start c).1.
Proof.
  intros Hc. unfold start. destruct (_start_d c); [done|]. cbn.
  apply control_join_and_sync; destruct Hc as ([] & ? & ?); [split; cbn; auto|done].
Qed.

Lemma control_del_stop id c : control_wf c → control_wf (with_stops (Dict.del id (stops c)) c).
Proof.
  intros ([] & ? & ?). split; [split; cbn; try done|done].
  intros id' r Hin. eapply ct_leaving0, sublist_subseteq; [apply Dict.del_sublist|done].
Qed.

Lemma control_resume_stop id f c : control_wf c → control_wf (resume_stop topics id f c).
Proof.
  intros Hc. unfold resume_stop. destruct (Dict.get id (stops c)) as [[cur r|r]|] eqn:Hg; [| |done].
  - apply control_stop. eapply control_same; [apply same_control_shutdown_done|].
    by apply control_del_stop.
  - pose proof (ct_leaving c (proj1 Hc) id r (Dict.get_Some_elem _ _ _ Hg)) as Hs.
    apply control_down, down_finish_stop. apply down_pre in Hs; [|apply Hc]. by destruct f.
Qed.

(** ** Every step *)

Let handle := handle topics initial_ms retry_ms fatal_ms set_iter.

Lemma waits_phase id c f : waits id c f = true → ∃ p, Dict.get id (joins c) = Some p ∧ f p = true.
Proof. unfold waits. destruct (Dict.get id (joins c)); [eauto|done]. Qed.

Lemma control_step ev c : control_wf c → enabled ev c = true → control_wf (handle ev c).
Proof.
  intros Hc. pose proof Hc as (Hp & Hj & _).
  destruct ev; cbn [enabled]; intros He; try apply waits_phase in He as (p & Hg & Hf).
  all: try (assert (Hn : Dict.get id (joins c) ≠ None) by congruence).
  all: cbn [handle Coordinator.handle].
  - by apply control_start.
  - by apply control_group_stop.
  - destruct (cancel_plain d (co_deferreds c)); [by apply (control_same c)|done].
  - apply control_join_and_sync; [|done]. destruct Hp. split; cbn; done.
  - apply control_join_and_sync; [|done]. destruct Hp. split; cbn; done.
  - by apply control_resume_broker.
  - by apply control_resume_metadata.
  - rewrite Hg. destruct p; try done. pose proof (same_control_shutdown_done current_consumers failed c) as Hs.
    apply control_resume_prepare; [by eapply control_same|]. replace (joins _) with (joins c); [done|].
    symmetry. apply Hs.
  - by apply control_resume_join.
  - rewrite Hg. destruct p; try done. by apply control_resume_partitions.
  - apply control_resume_sync; [done|]. by destruct p.
  - by apply control_resume_stop.
  - by apply control_heartbeat.
  - by apply control_heartbeat_answer.
  - by apply control_consumer_error.
  - by apply (control_same c).
Qed.

(** Before it is started nothing can happen to it. *)
Lemma control_reachable c :
  reachable topics initial_ms retry_ms fatal_ms set_iter c →
  __init__ topics = Ok c ∨ control_wf c.
Proof.
  induction 1 as [c Hc|ev c _ [Hc|Hc] He]; [by left| |right; by apply control_step].
  unfold __init__ in Hc. destruct topics as [|t ts] eqn:Ht; [done|]. injection Hc as <-.
  destruct ev; cbn in He; try done.
  - right. cbn. split; [|split].
    + split; cbn; try done; [by left|eauto| |set_solver].
      intros id p _. case_decide; [|done]. by intros [= <-].
    + done.
    + intros _ _. by right.
  - left. done.
Qed.
End joining.

(** ** The consumers *)

(** The consumers it manages are numbered apart; while it is not stopping, each
    was started as the current member in the current generation, and no join
    attempt has gone past loading the metadata while there are any. *)
Record consumers_wf (c : Coordinator) : Prop := {
  cw_fresh n : n ∈ all_consumers (consumers c) → (n < next_consumer c)%nat;
  cw_nodup : NoDup (all_consumers (consumers c));
  cw_current n : _stopping c = false → n ∈ all_consumers (consumers c) →
    ∃ t p, EStartConsumer n t p (member_id c) (generation_id c) ∈ effects c;
  cw_joins id p : _stopping c = false → consumers c ≠ [] → (id, p) ∈ joins c →
    p = FetchingBroker ∨ p = LoadingMetadata;
}.

(** What most of the code does to the consumers: it keeps them all, or gives
    them all up before anything that depends on them changes. *)
Record consumers_kept (c c' : Coordinator) : Prop := {
  ck_consumers : consumers c' = consumers c ∨ consumers c' = [];
  ck_next : (next_consumer c ≤ next_consumer c')%nat;
  ck_effects : effects c ⊆ effects c';
  ck_stopping : _stopping c = true → _stopping c' = true;
  ck_member : consumers c' ≠ [] → _stopping c' = false →
    member_id c' = member_id c ∧ generation_id c' = generation_id c;
  ck_joins id p : consumers c' ≠ [] → _stopping c' = false → (id, p) ∈ joins c' →
    (id, p) ∈ joins c ∨ p = FetchingBroker ∨ p = LoadingMetadata;
}.

#[export] Instance consumers_kept_preorder : PreOrder consumers_kept.
Proof.
  split.
  - intros c. split; auto.
  - intros c1 c2 c3 [] [].
    assert (H : consumers c3 ≠ [] → consumers c2 ≠ []) by (destruct ck_consumers1; congruence).
    assert (Hs : _stopping c3 = false → _stopping c2 = false).
    { destruct (_stopping c2) eqn:E; [|done]. intros. by rewrite ck_stopping1 in *. }
    split.
    + destruct ck_consumers1 as [->|]; auto.
    + lia.
    + set_solver.
    + auto.
    + intros Hc Hst. destruct ck_member1 as [-> ->]; auto.
    + intros id p Hc Hst Hin. destruct (ck_joins1 id p) as [|]; auto.
Qed.

Lemma consumers_wf_kept c c' : consumers_kept c c' → consumers_wf c → consumers_wf c'.
Proof.
  intros [] [].
  assert (Hs : _stopping c' = false → _stopping c = false).
  { destruct (_stopping c) eqn:E; [|done]. intros. by rewrite ck_stopping0 in *. }
  destruct (decide (consumers c' = [])) as [E|E].
  { split; rewrite ?E; cbn; [set_solver|constructor|set_solver|done]. }
  destruct ck_consumers0 as [Ec|]; [|done]. split; rewrite ?Ec.
  - intros n Hn. apply cw_fresh0 in Hn. lia.
  - done.
  - intros n Hst Hn. destruct ck_member0 as [-> ->]; [done..|].
    destruct (cw_current0 n) as (t & p & Hin); auto. exists t, p. auto.
  - intros id p Hst Hc Hin. destruct (ck_joins0 id p) as [|]; eauto.
Qed.

(** Without consumers anything goes. *)
Lemma kept_without c c' :
  consumers c' = [] → (next_consumer c ≤ next_consumer c')%nat → effects c ⊆ effects c' →
  (_stopping c = true → _stopping c' = true) → consumers_kept c c'.
Proof. intros. split; auto; congruence. Qed.

(** When it is stopping only the numbers matter. *)
Lemma kept_stopping c c' :
  consumers c' = consumers c ∨ consumers c' = [] → (next_consumer c ≤ next_consumer c')%nat →
  effects c ⊆ effects c' → _stopping c' = true → consumers_kept c c'.
Proof. intros. split; auto; congruence. Qed.

(** An attribute the consumers do not depend on is written. *)
Ltac kept := split; cbn; first [done | by left | by auto | clear; lia | clear; set_solver].

Lemma kept_emit e c : consumers_kept c (emit e c).
Proof. kept. Qed.

Lemma kept_end_join id c : consumers_kept c (end_join id c).
Proof.
  split; cbn; auto. intros id' p _ _ Hin. left.
  eapply sublist_subseteq; [apply Dict.del_sublist|done].
Qed.

Lemma kept_fail_join id e c : consumers_kept c (fail_join id e c).
Proof. unfold fail_join. etrans; [apply kept_end_join|apply kept_emit]. Qed.

Lemma kept_set_phase id p c :
  p = FetchingBroker ∨ p = LoadingMetadata ∨ consumers c = [] ∨ _stopping c = true →
  consumers_kept c (with_joins (Dict.set id p (joins c)) c).
Proof.
  intros Hp. split; cbn; auto. intros id' q Hc Hs [[= -> ->]|?]%set_elem_inv; [|by left].
  destruct Hp as [?|[?|[?|?]]]; [auto..|done|congruence].
Qed.

Lemma kept_request eff id p c :
  p = FetchingBroker ∨ p = LoadingMetadata ∨ consumers c = [] ∨ _stopping c = true →
  consumers_kept c (with_joins (Dict.set id p (joins c)) (emit eff c)).
Proof. intros Hp. etrans; [apply (kept_emit eff)|]. by apply (kept_set_phase id p (emit eff c)). Qed.

Lemma kept_stop_consumer n c : consumers_kept c (stop_consumer n c).
Proof. unfold stop_consumer. case_bool_decide; [|done]. etrans; [apply kept_emit|kept]. Qed.

Lemma kept_foldl {X} (f : X → Coordinator → Coordinator) (xs : list X) c :
  (∀ x c, consumers_kept c (f x c)) → consumers_kept c (foldl (λ c x, f x c) c xs).
Proof.
  intros Hf. revert c. induction xs as [|x xs IH]; intros c; [done|]. cbn. etrans; [|apply IH]. apply Hf.
Qed.

Lemma kept_stop_all cs c : consumers_kept c (stop_all cs c).
Proof. apply kept_foldl, kept_stop_consumer. Qed.

Lemma kept_give_up c : consumers_kept c (with_consumers [] c).
Proof. by apply kept_without. Qed.

Lemma kept_group_leave c : consumers_kept c (on_group_leave c).
Proof. unfold on_group_leave, stop_consumers. etrans; [apply kept_give_up|apply kept_stop_all]. Qed.

Lemma kept_shutdown_each (raises : nat → bool) ns c :
  consumers_kept c (foldl (λ c consumer, if raises consumer then stop_consumer consumer c
    else emit (EShutdownConsumer consumer) c) c ns).
Proof.
  apply (kept_foldl (λ n c, if raises n then stop_consumer n c else emit (EShutdownConsumer n) c)).
  intros n c'.
  destruct (raises n); [apply kept_stop_consumer|apply kept_emit].
Qed.

Lemma kept_shutdown raises c : consumers_kept c (shutdown_consumers raises c).2.
Proof.
  unfold shutdown_consumers. destruct (consumers c); [done|].
  etrans; [apply kept_give_up|apply kept_shutdown_each].
Qed.

Lemma shutdown_empties raises c : consumers (shutdown_consumers raises c).2 = [].
Proof.
  unfold shutdown_consumers. destruct (consumers c) as [|x l] eqn:E; [done|]. cbn [snd].
  by destruct (ck_consumers _ _ (kept_shutdown_each raises (all_consumers (x :: l))
    (with_consumers [] c))).
Qed.

Lemma kept_shutdown_done cs f c : consumers_kept c (shutdown_done cs f c).
Proof. unfold shutdown_done. destruct f; [apply kept_stop_all|done]. Qed.

Lemma kept_resume_prepare topics id c :
  consumers c = [] ∨ _stopping c = true → consumers_kept c (resume_prepare topics id c).
Proof.
  intros H. unfold resume_prepare, send_join_group_request.
  destruct (protocol c); [|apply kept_fail_join].
  destruct (join_group_protocols topics); cbn; [apply kept_request; auto|apply kept_fail_join].
Qed.

Lemma kept_cancel_join topics id c :
  _stopping c = true → consumers_kept c (cancel_join topics id c).
Proof.
  intros Hs. unfold cancel_join.
  destruct (Dict.get id (joins c)) as [[]|]; try done;
    [apply kept_fail_join| |apply kept_end_join..].
  etrans; [apply kept_shutdown_done|]. apply kept_resume_prepare. right.
  by apply (ck_stopping _ _ (kept_shutdown_done current_consumers true c)).
Qed.

Lemma kept_finish_stop topics r c :
  _stopping c = true → consumers_kept c (finish_stop topics r c).
Proof.
  intros Hs. unfold finish_stop. set (c1 := match _rejoin_d c with Some _ => _ | None => _ end).
  assert (H1 : consumers_kept c c1).
  { subst c1. destruct (_rejoin_d c); [|done]. etrans; [|by apply kept_cancel_join]. kept. }
  etrans; [exact H1|]. apply H1 in Hs. clearbody c1. clear H1. cbn.
  destruct (_start_d c1); [|apply kept_stopping; by auto].
  destruct (called _ _); [apply kept_stopping; by auto|].
  destruct (fire _ _ _); apply kept_stopping; by auto.
Qed.

Lemma kept_stop topics r c : consumers_kept c (stop topics r c).1.
Proof.
  unfold stop. destruct (_start_d c); [|done]. destruct (_stopping c); [done|].
  set (c1 := with_heartbeat_running _ _).
  assert (consumers_kept c c1 ∧ _stopping c1 = true) as [H1 H2].
  { subst c1. cbn. destruct (_rejoin_wait_dc c); split; first [done|apply kept_stopping; by auto]. }
  etrans; [exact H1|]. clearbody c1. destruct (andb _ _); cbn [fst]; [|by apply kept_finish_stop].
  etrans; [apply (kept_emit (ESendLeave (member_id c1)))|kept].
Qed.

Lemma kept_group_stop topics raises r c : consumers_kept c (group_stop topics raises r c).1.
Proof.
  unfold group_stop. pose proof (kept_shutdown raises c) as Hk.
  destruct (shutdown_consumers raises c) as [[cur|] c1]; cbn in Hk |- *; (etrans; [exact Hk|]).
  - kept.
  - apply kept_stop.
Qed.

Lemma kept_resume_stop topics id f c :
  control_pre c → consumers_kept c (resume_stop topics id f c).
Proof.
  intros Hc. unfold resume_stop. destruct (Dict.get id (stops c)) as [[cur r|r]|] eqn:Hg; [| |done].
  - etrans; [|apply kept_stop]. etrans; [|apply kept_shutdown_done]. kept.
  - pose proof (ct_leaving c Hc id r (Dict.get_Some_elem _ _ _ Hg)) as Hs.
    destruct f; (etrans; [|by apply kept_finish_stop]); apply kept_stopping; by auto.
Qed.

Section consumers.
Context (topics : list text) (initial_ms retry_ms fatal_ms : Z).
Context (set_iter : list text → list text).

Lemma kept_schedule_rejoin delay c : consumers_kept c (schedule_rejoin delay c).
Proof.
  unfold schedule_rejoin. cbn. destruct (_rejoin_wait_dc c); try kept.
Qed.

Lemma kept_reaction c c1 : reaction c c1 → consumers_kept c c1.
Proof.
  intros [->|[->|[->|[->| ->]]]]; [done|apply kept_emit|apply kept_group_leave|..].
  - etrans; [apply kept_group_leave|]. apply kept_without; try done. apply group_leave_consumers.
  - etrans; [apply kept_group_leave|apply kept_emit].
Qed.

Lemma kept_rejoin_after_error e c :
  consumers_kept c (rejoin_after_error topics retry_ms fatal_ms e c).
Proof.
  destruct (rejoin_after_error_cases topics retry_ms fatal_ms e c) as
    [(delay & c1 & H%kept_reaction & ->)|[[_ ->]| ->]].
  - etrans; [exact H|apply kept_schedule_rejoin].
  - done.
  - etrans; [apply kept_group_leave|apply kept_stop].
Qed.

Lemma kept_join_and_sync c : consumers_kept c (join_and_sync c).
Proof.
  unfold join_and_sync. set (c1 := match _rejoin_wait_dc c with DCPending => _ | _ => _ end).
  assert (H1 : consumers_kept c c1). { subst c1. destruct (_rejoin_wait_dc c); kept. }
  etrans; [exact H1|]. clearbody c1. destruct (negb _); [done|]. destruct (_rejoin_d c1); [done|].
  etrans; [apply (kept_request EGetCoordinator (next_join c1) FetchingBroker); by left|kept].
Qed.

Lemma kept_call_join_later id delay c : consumers_kept c (end_join id (call_join_later delay c)).
Proof. etrans; [|apply kept_end_join]. unfold call_join_later. etrans; [apply kept_emit|kept]. Qed.

Lemma kept_resume_broker id a c : consumers_kept c (resume_broker initial_ms fatal_ms id a c).
Proof.
  unfold resume_broker. destruct a as [[]|e];
    [apply kept_request; auto|apply kept_call_join_later|].
  destruct e; try match goal with K : broker_class |- _ => destruct K end; cbn;
    first [apply kept_call_join_later|apply kept_fail_join].
Qed.

Lemma kept_after_error id e c :
  consumers_kept c (end_join id (rejoin_after_error topics retry_ms fatal_ms e c)).
Proof. etrans; [apply kept_rejoin_after_error|apply kept_end_join]. Qed.

Lemma kept_resume_metadata raises id a c :
  consumers_kept c (resume_metadata topics raises id a c).
Proof.
  unfold resume_metadata. destruct a as [[]|e]; [|apply kept_fail_join].
  destruct (_stopping c) eqn:Hs; [apply kept_end_join|].
  set (c1 := with_coordinator_broker true c).
  pose proof (kept_shutdown raises c1) as Hk. pose proof (shutdown_empties raises c1) as He.
  trans c1; [subst c1; kept|].
  destruct (shutdown_consumers raises c1) as [[cur|] c2]; cbn in Hk, He; (etrans; [exact Hk|]).
  - apply kept_set_phase. auto.
  - apply kept_resume_prepare. by left.
Qed.

Lemma kept_resume_join id a c :
  (_stopping c = false → consumers c = []) →
  consumers_kept c (resume_join topics retry_ms fatal_ms set_iter id a c).
Proof.
  intros Hn. unfold resume_join. destruct a as [r|e]; [|apply kept_after_error].
  set (c1 := with_leader_id _ _).
  assert (Hn1 : consumers c1 = [] ∨ _stopping c1 = true).
  { cbn. destruct (_stopping c); auto. }
  assert (H1 : consumers_kept c c1).
  { destruct Hn1; [by apply kept_without|apply kept_stopping; by auto]. }
  etrans; [exact H1|]. clearbody c1.
  destruct (_stopping c1); [apply kept_end_join|]. destruct Hn1 as [Hn1|]; [|done].
  case_bool_decide; [|apply kept_request; tauto].
  destruct (generate_assignments _ _ _) as [l|[e|needed]];
    [apply kept_request; tauto|apply kept_fail_join|apply kept_request; tauto].
Qed.

Lemma kept_resume_partitions id r a c :
  (_stopping c = false → consumers c = []) →
  consumers_kept c (resume_partitions set_iter id r a c).
Proof.
  intros Hn. unfold resume_partitions. destruct a as [tps|e]; [|apply kept_fail_join].
  assert (Hn1 : consumers c = [] ∨ _stopping c = true) by (destruct (_stopping c); auto).
  destruct (protocol c); [|apply kept_fail_join].
  destruct (generate_assignments _ _ _) as [l|[e|needed]];
    [apply kept_request; right; by right|apply kept_fail_join..].
Qed.

Lemma kept_heartbeat c : consumers_kept c (_heartbeat c).
Proof.
  unfold _heartbeat. destruct (orb _ _); [done|]. etrans; [apply kept_emit|kept].
Qed.

Lemma kept_heartbeat_answer a c :
  consumers_kept c (heartbeat_answer topics retry_ms fatal_ms a c).
Proof.
  unfold heartbeat_answer. cbn. destruct a as [[]|e]; [kept|].
  destruct (_heartbeat_running c); [|kept]. etrans; [|apply kept_rejoin_after_error]. kept.
Qed.

Lemma kept_consumer_error e c : consumers_kept c (on_consumer_error topics retry_ms fatal_ms e c).
Proof. unfold on_consumer_error. destruct (andb _ _); [done|apply kept_rejoin_after_error]. Qed.

Lemma kept_start c : consumers_kept c (start c).1.
Proof.
  unfold start. destruct (_start_d c); [done|]. cbn. etrans; [|apply kept_join_and_sync]. kept.
Qed.
End consumers.

(** ** Starting consumers *)

Lemma all_consumers_add t n (cs : list (text * list nat)) :
  all_consumers (Dict.set t (default [] (Dict.get t cs) ++ [n]) cs) ≡ₚ all_consumers cs ++ [n].
Proof.
  unfold all_consumers, Dict.values. induction cs as [|[t' ns] cs IH]; cbn; [done|].
  case_decide as E; cbn; [subst; solve_Permutation|]. rewrite IH. by rewrite app_assoc.
Qed.

#[local] Arguments all_consumers : simpl never.
#[local] Arguments Dict.set : simpl never.

(** The consumers of an assignment, as they are created. *)
Definition assigned (assignment : list (text * list Z)) : list (text * Z) :=
  assignment ≫= λ tps, pair tps.1 <$> tps.2.

Lemma start_consumers_spec tps c :
  let c' := foldl (λ c tp, start_consumer tp c) c tps in
  same_control c c' ∧ member_id c' = member_id c ∧
  next_consumer c' = (next_consumer c + length tps)%nat ∧
  all_consumers (consumers c') ≡ₚ all_consumers (consumers c) ++ seq (next_consumer c) (length tps) ∧
  running c' = running c ++ seq (next_consumer c) (length tps) ∧
  effects c' = effects c ++ imap (λ i tp, EStartConsumer (next_consumer c + i) tp.1 tp.2 (member_id c)
    (generation_id c)) tps.
Proof.
  cbn. split; [apply same_control_foldl, same_control_start_consumer|].
  revert c. induction tps as [|[t p] tps IH]; intros c; cbn.
  { rewrite !app_nil_r. split_and!; [done|lia|done..]. }
  destruct (IH (start_consumer (t, p) c)) as (Hm & Hn & Ha & Hr & He). cbn in *.
  rewrite Hm, Hn, Ha, Hr, He. split_and!; [done|lia| |by rewrite <- app_assoc|].
  - rewrite all_consumers_add. by rewrite <- app_assoc.
  - rewrite <- app_assoc. cbn. rewrite Nat.add_0_r. do 2 f_equal.
    apply imap_ext. intros i [t' p'] _. cbn. f_equal. lia.
Qed.

Lemma on_join_complete_wf assignment id c :
  consumers_wf c → Dict.del id (joins c) = [] →
  consumers_wf (end_join id (on_join_complete assignment c)).
Proof.
  intros [] Hj. unfold on_join_complete. fold (assigned assignment).
  destruct (start_consumers_spec (assigned assignment) c) as (Hf & Hm & Hn & Ha & Hr & He).
  set (c' := foldl _ _ _) in *. clearbody c'. unfold same_control in Hf. destruct_and!.
  split; cbn.
  - intros n. rewrite Ha, Hn, elem_of_app, elem_of_seq. intros [Hin%cw_fresh0|]; lia.
  - rewrite Ha. apply NoDup_app. split_and!; [done| |apply NoDup_seq].
    intros n Hin%cw_fresh0. rewrite elem_of_seq. lia.
  - intros n Hs. rewrite Ha, elem_of_app, elem_of_seq, He, Hm.
    replace (generation_id c') with (generation_id c) by done. intros [Hin|Hin].
    + destruct (cw_current0 n) as (t & p & Hin'); [congruence|done|]. exists t, p. set_solver.
    + destruct (lookup_lt_is_Some_2 (assigned assignment) (n - next_consumer c)) as [[t p] Htp]; [lia|].
      exists t, p. apply elem_of_app. right. apply elem_of_lookup_imap.
      exists (n - next_consumer c)%nat, (t, p). cbn. split; [|done]. f_equal. lia.
  - intros id' p _ _. replace (joins c') with (joins c) by done. rewrite Hj. set_solver.
Qed.

Section consumers_step.
Context (topics : list text) (initial_ms retry_ms fatal_ms : Z).
Context (set_iter : list text → list text).

(** No consumers are managed once the join request is out. *)
Lemma joining_no_consumers id p c :
  consumers_wf c → Dict.get id (joins c) = Some p → p ≠ FetchingBroker → p ≠ LoadingMetadata →
  _stopping c = false → consumers c = [].
Proof.
  intros [] Hg H1 H2 Hs. destruct (decide (consumers c = [])) as [|Hc]; [done|].
  destruct (cw_joins0 id p); [done|done| |done..]. by apply Dict.get_Some_elem.
Qed.

Lemma consumers_resume_sync id a c :
  control_wf c → consumers_wf c → Dict.get id (joins c) = Some Syncing →
  consumers_wf (resume_sync topics retry_ms fatal_ms id a c).
Proof.
  intros Hc Hw Hg. unfold resume_sync.
  destruct a as [r|e]; [|by eapply consumers_wf_kept; [apply kept_after_error|]].
  destruct (_stopping c) eqn:Hs; [by eapply consumers_wf_kept; [apply kept_end_join|]|].
  destruct (decode_assignment _) as [asg|e]; [|by eapply consumers_wf_kept; [apply kept_fail_join|]].
  apply on_join_complete_wf.
  - destruct Hw. by split.
  - cbn. destruct (control_single id c) as (_ & p & ->); [apply Hc|done|congruence|]. apply del_single.
Qed.

Let handle := handle topics initial_ms retry_ms fatal_ms set_iter.

Lemma consumers_step ev c :
  control_wf c → consumers_wf c → enabled ev c = true → consumers_wf (handle ev c).
Proof.
  intros Hc Hw. pose proof Hc as (Hp & _).
  destruct ev; cbn [enabled]; intros He; try apply waits_phase in He as (p & Hg & Hf).
  11: { apply consumers_resume_sync; [done..|]. by destruct p. }
  all: apply (consumers_wf_kept c); [|exact Hw]; cbn [handle Coordinator.handle].
  - apply kept_start.
  - apply kept_group_stop.
  - destruct (cancel_plain d (co_deferreds c)); [kept|done].
  - etrans; [|apply kept_join_and_sync]. kept.
  - etrans; [|apply kept_join_and_sync]. kept.
  - apply kept_resume_broker.
  - apply kept_resume_metadata.
  - rewrite Hg. destruct p; try done. etrans; [apply kept_shutdown_done|]. apply kept_resume_prepare.
    pose proof (kept_shutdown_done current_consumers failed c) as [Hcs _ _ Hst _ _].
    destruct (_stopping c) eqn:Hs; [by right; apply Hst|left].
    assert (consumers c = []) by by eapply joining_no_consumers. destruct Hcs; congruence.
  - apply kept_resume_join. intros Hs. destruct p; try done. by eapply joining_no_consumers.
  - rewrite Hg. destruct p; try done. apply kept_resume_partitions. intros Hs.
    by eapply joining_no_consumers.
  - by apply kept_resume_stop.
  - apply kept_heartbeat.
  - apply kept_heartbeat_answer.
  - apply kept_consumer_error.
  - kept.
Qed.

Lemma consumers_reachable c :
  reachable topics initial_ms retry_ms fatal_ms set_iter c → consumers_wf c.
Proof.
  induction 1 as [c Hc|ev c Hr IH He].
  - unfold __init__ in Hc. destruct topics; [done|]. injection Hc as <-.
    split; cbn; [set_solver|constructor|set_solver|done].
  - destruct (control_reachable topics initial_ms retry_ms fatal_ms set_iter c Hr) as [Hc|Hc];
      [|by apply consumers_step].
    unfold __init__ in Hc. destruct topics; [done|]. injection Hc as <-.
    destruct ev; cbn in He; try done. apply (consumers_wf_kept _ _ (kept_start _) IH).
Qed.
End consumers_step.
