(* ===== verification/CoordinatorTheorems.v ===== *)
(** What the group coordinator ([Coordinator], [ConsumerGroup]) guarantees: the
    safety of its consumers, that it can always become a member, how it
    recovers from errors and stops, and where it does not. *)
From S2P Require Import Prelude Common PyBytes Util KafkaCodec Deferred Group Coordinator CoordinatorInvariant.
Local Open Scope Z_scope.

Lemma init_start topics c : __init__ topics = Ok c → _start_d c = None.
Proof. unfold __init__. destruct topics; [done|]. by intros [= <-]. Qed.

Lemma init_joins topics c : __init__ topics = Ok c → joins c = [].
Proof. unfold __init__. destruct topics; [done|]. by intros [= <-]. Qed.

Lemma group_stop_empty topics raises r c :
  consumers c = [] → group_stop topics raises r c = stop topics r c.
Proof. intros Hc. unfold group_stop, shutdown_consumers. by rewrite Hc. Qed.

Section coordinator_theorems.
Context (topics : list text) (initial_ms retry_ms fatal_ms : Z).
Context (set_iter : list text → list text).
Let reachable := reachable topics initial_ms retry_ms fatal_ms set_iter.
Let handle := handle topics initial_ms retry_ms fatal_ms set_iter.

(** C3. While it is not stopping there is at most one join attempt; no consumer is
    managed while a join or sync request is out, so none of the old
    generation's is left when the next begins; every managed consumer was
    started with the current member id and generation, and they are all
    different; a coordinator that needs not rejoin has a generation and sends
    heartbeats, one at a time. One that is stopping sends none. *)
Theorem coordinator_safe c : reachable c →
  (_stopping c = false →
    (length (joins c) ≤ 1)%nat ∧
    (∀ id p, (id, p) ∈ joins c → p ≠ FetchingBroker → p ≠ LoadingMetadata → consumers c = []) ∧
    (∀ n, n ∈ all_consumers (consumers c) →
      ∃ t p, EStartConsumer n t p (member_id c) (generation_id c) ∈ effects c) ∧
    (_rejoin_needed c = false → _heartbeat_running c = true ∧ is_Some (generation_id c))) ∧
  NoDup (all_consumers (consumers c)) ∧
  (_heartbeat_request_d c = true → _heartbeat_running c = true) ∧
  (_stopping c = true → _heartbeat_running c = false).
Proof.
  intros Hr. pose proof (consumers_reachable _ _ _ _ _ _ Hr) as Hw.
  assert (Hj : ∀ id p, (id, p) ∈ joins c → p ≠ FetchingBroker → p ≠ LoadingMetadata →
    _stopping c = false → consumers c = []).
  { intros id p Hin H1 H2 Hs. destruct (decide (consumers c = [])) as [|Hc]; [done|].
    by destruct (cw_joins c Hw id p). }
  destruct (control_reachable _ _ _ _ _ _ Hr) as [Hc|(Hc & Hm & _)].
  - unfold __init__ in Hc. destruct topics; [done|]. injection Hc as <-. cbn.
    split_and!; try done; [|constructor]. intros _. split_and!; set_solver by lia.
  - split_and!; [|apply Hw|apply Hc|apply Hc]. intros Hs. split_and!.
    + pose proof (ct_join c Hc Hs) as Hjn. destruct (_rejoin_d c); [destruct Hjn as [p ->]|rewrite Hjn];
        cbn; lia.
    + intros id p ???. by eapply Hj.
    + intros n Hn. by apply (cw_current c Hw).
    + intros Hn. by apply Hm.
Qed.

(** ** It can always join *)

(** A sequence of events, each of which can happen when it does. *)
Fixpoint run (evs : list event) (c : Coordinator) : option Coordinator :=
  match evs with
  | [] => Some c
  | ev :: evs => if enabled ev c then run evs (handle ev c) else None
  end.

(** Not a call of the application. *)
Definition internal (ev : event) : bool :=
  match ev with Start | Stop _ | CancelStart _ => false | _ => true end.

Definition joined (c : Coordinator) : Prop :=
  _stopping c = false ∧ _rejoin_needed c = false ∧ _heartbeat_running c = true ∧
  is_Some (generation_id c).

Definition can_join (c : Coordinator) : Prop :=
  ∃ evs c', forallb internal evs = true ∧ run evs c = Some c' ∧ joined c'.

Lemma can_join_step ev c :
  internal ev = true → enabled ev c = true → can_join (handle ev c) → can_join c.
Proof.
  intros Hi He (evs & c' & Hevs & Hrun & Hj). exists (ev :: evs), c'. cbn. by rewrite Hi, He.
Qed.

Lemma run_reachable evs c c' : reachable c → run evs c = Some c' → reachable c'.
Proof.
  revert c. induction evs as [|ev evs IH]; cbn; intros c Hr H; [by simplify_eq|].
  destruct (enabled ev c) eqn:He; [|done]. eapply IH; [|done]. by apply reach_step.
Qed.

Lemma waits_intro id c p f : Dict.get id (joins c) = Some p → f p = true → waits id c f = true.
Proof. unfold waits. by intros ->. Qed.

Lemma can_join_answer ev c :
  control_wf c → internal ev = true → enabled ev c = true →
  (control_wf (handle ev c) → can_join (handle ev c)) → can_join c.
Proof. intros Hc Hi He H. apply (can_join_step ev); [done..|]. apply H. by apply control_step. Qed.

(** An assignment of no partitions, as a broker sends it. *)
Definition nothing : option bytes := Some (replicate 10 Byte.x00).

Lemma can_join_syncing id c :
  control_wf c → _stopping c = false → Dict.get id (joins c) = Some Syncing → can_join c.
Proof.
  intros Hc Hs Hg. apply (can_join_step (SyncAnswer id (Ok (mkSyncGroupResponse 0 nothing)))); [done|..].
  { by eapply waits_intro. }
  exists [], (end_join id (with_rejoin_needed false (reset_heartbeat_timer c))).
  split_and!; [done| |split_and!; [done..|]].
  - cbn. unfold resume_sync. by rewrite Hs.
  - by eapply (ct_generation c (proj1 Hc)).
Qed.

(** A join response that makes another member the leader. *)
Definition joins_as_follower : _JoinGroupResponse :=
  mkJoinGroupResponse 0 1 (txt "roundrobin") (txt "leader") (txt "member") [].

Lemma can_join_joining id c :
  control_wf c → _stopping c = false → Dict.get id (joins c) = Some Joining → can_join c.
Proof.
  intros Hc Hs Hg.
  apply (can_join_answer (JoinAnswer id (Ok joins_as_follower))); [done|done|by eapply waits_intro|].
  cbn. rewrite Hs. cbn. intros Hc'. apply (can_join_syncing id); [done|done|].
  apply Dict.get_set_eq.
Qed.

Context (protocols : list _JoinGroupRequestProtocol).
Context (Hprotocols : join_group_protocols topics = Ok protocols).

Lemma resume_prepare_joins id c :
  control_wf c → _stopping c = false →
  resume_prepare topics id c =
    with_joins (Dict.set id Joining (joins c)) (emit (ESendJoin (member_id c) protocols) c).
Proof.
  intros Hc Hs. unfold resume_prepare, send_join_group_request.
  by rewrite (ct_protocol c (proj1 Hc) Hs), Hprotocols.
Qed.

Lemma can_join_preparing id cs c :
  control_wf c → _stopping c = false → Dict.get id (joins c) = Some (Preparing cs) → can_join c.
Proof.
  intros Hc Hs Hg.
  apply (can_join_answer (ConsumersDown id false)); [done|done|by eapply waits_intro|].
  cbn. rewrite Hg. cbn. rewrite resume_prepare_joins by done. intros Hc'.
  apply (can_join_joining id); [done|done|]. apply Dict.get_set_eq.
Qed.

Lemma can_join_loading id c :
  control_wf c → _stopping c = false → Dict.get id (joins c) = Some LoadingMetadata → can_join c.
Proof.
  intros Hc Hs Hg.
  apply (can_join_answer (MetadataAnswer (λ _, false) id (Ok tt))); [done|done|by eapply waits_intro|].
  cbn. unfold resume_metadata. rewrite Hs.
  set (c1 := with_coordinator_broker true c).
  assert (H1 : control_wf c1) by by apply (control_same c).
  pose proof (same_control_shutdown (λ _, false) c1) as Hf.
  apply (control_same _ _ Hf) in H1. unfold same_control in Hf. destruct_and!.
  destruct (shutdown_consumers _ c1) as [[cs|] c2]; cbn in *; intros Hc'.
  all: assert (_stopping c2 = false) by congruence.
  - apply (can_join_preparing id cs); [done..|]. apply Dict.get_set_eq.
  - rewrite resume_prepare_joins in * by done. apply (can_join_joining id); [done..|].
    apply Dict.get_set_eq.
Qed.

Lemma can_join_fetching id c :
  control_wf c → _stopping c = false → Dict.get id (joins c) = Some FetchingBroker → can_join c.
Proof.
  intros Hc Hs Hg.
  apply (can_join_answer (BrokerAnswer id (Ok true))); [done|done|by eapply waits_intro|].
  cbn. intros Hc'. apply (can_join_loading id); [done..|]. apply Dict.get_set_eq.
Qed.

Lemma can_join_calling c :
  control_wf (join_and_sync c) → _stopping c = false → _rejoin_needed c = true →
  _rejoin_d c = None → can_join (join_and_sync c).
Proof.
  intros Hc Hs Hn Hd. apply (can_join_fetching (next_join c)); [done|..];
    unfold join_and_sync; destruct (_rejoin_wait_dc c); cbn; rewrite ?Hn, ?Hd; cbn;
    done || apply Dict.get_set_eq.
Qed.

(** C4. A coordinator that was started, is not stopping and had no join attempt end
    in an exception becomes a joined member when what it waits for is answered
    favourably, whatever happened before; when it waits for the partitions the
    assignment needs, there must be some that can be assigned. *)
Theorem coordinator_can_join c :
  reachable c → _start_d c ≠ None → _stopping c = false → (∀ e, EJoinError e ∉ effects c) →
  (∀ id r, (id, LoadingPartitions r) ∈ joins c → ∃ tps assignments,
    generate_assignments set_iter (jgrr_members r) tps = Ok assignments) →
  can_join c.
Proof using Hprotocols.
  intros Hr Hst Hs Hcl Hp. destruct (control_reachable _ _ _ _ _ _ Hr) as [Hc|Hc].
  { by destruct (init_start topics c). }
  pose proof Hc as (Hpre & Hm & Hw).
  destruct (_rejoin_needed c) eqn:Hn; [|by exists [], c; split_and!; [..|split_and!; auto; apply Hm]].
  pose proof (ct_join c Hpre Hs) as Hj. destruct (_rejoin_d c) as [id|] eqn:Hd.
  - destruct Hj as [p Hj]. assert (Hg : Dict.get id (joins c) = Some p).
    { rewrite Hj. cbn. by destruct (decide (id = id)). }
    destruct p; [by eapply can_join_fetching|by eapply can_join_loading|by eapply can_join_preparing|
      by eapply can_join_joining| |by eapply can_join_syncing].
    destruct (Hp id join_response) as (tps & l & Hl); [rewrite Hj; set_solver|].
    apply (can_join_answer (PartitionsAnswer id (Ok tps))); [done|done|by eapply waits_intro|].
    cbn. rewrite Hg. cbn. rewrite (ct_protocol c Hpre Hs), Hl. cbn. intros Hc'.
    apply (can_join_syncing id); [done..|]. apply Dict.get_set_eq.
  - destruct (Hw Hs Hcl) as [[Hx|[Hx|Hx]]|]; [congruence| | |done].
    + apply (can_join_answer RejoinTimer); [done|done|by apply bool_decide_eq_true_2|].
      cbn. intros Hc'. by apply can_join_calling.
    + apply (can_join_answer OtherTimer); [done|done|by apply Nat.ltb_lt|].
      cbn. intros Hc'. by apply can_join_calling.
Qed.

End coordinator_theorems.

Section recovery.
Context (topics : list text) (initial_ms retry_ms fatal_ms : Z).
Context (set_iter : list text → list text).
Let reachable := reachable topics initial_ms retry_ms fatal_ms set_iter.
Let handle := handle topics initial_ms retry_ms fatal_ms set_iter.

(** ** What it does about errors *)

Lemma stop_consumers_spec ns c :
  NoDup ns →
  let c' := foldl (λ c n, stop_consumer n c) c ns in
  effects c' = effects c ++ (EStopConsumer <$> filter (λ n, n ∈ running c) ns) ∧
  (∀ n, n ∈ running c' ↔ n ∈ running c ∧ n ∉ ns) ∧ member_id c' = member_id c.
Proof.
  cbn. intros Hnd. revert c. induction Hnd as [|n ns Hn Hnd IH]; intros c.
  { cbn. rewrite app_nil_r. set_solver. }
  cbn [foldl]. destruct (IH (stop_consumer n c)) as (He & Hr & Hm). rewrite He, Hm.
  assert (Hr' : ∀ m, m ∈ running (stop_consumer n c) ↔ m ∈ running c ∧ m ≠ n).
  { intros m. unfold stop_consumer. case_bool_decide; cbn; [|set_solver].
    rewrite list_elem_of_filter. set_solver. }
  split_and!.
  - assert (filter (λ m, m ∈ running (stop_consumer n c)) ns = filter (λ m, m ∈ running c) ns) as ->.
    { apply filter_ext_in. intros m Hm'. rewrite Hr'. set_solver. }
    rewrite filter_cons. unfold stop_consumer. case_bool_decide; case_decide; try done; cbn.
    by rewrite <- app_assoc.
  - intros m. rewrite Hr, Hr'. set_solver.
  - unfold stop_consumer. by case_bool_decide.
Qed.

Lemma group_leave_spec c :
  NoDup (all_consumers (consumers c)) →
  let c' := on_group_leave c in
  effects c' = effects c ++
    (EStopConsumer <$> filter (λ n, n ∈ running c) (all_consumers (consumers c))) ∧
  (∀ n, n ∈ all_consumers (consumers c) → n ∉ running c') ∧ member_id c' = member_id c ∧
  consumers c' = [].
Proof.
  intros Hnd. cbn. destruct (stop_consumers_spec _ (with_consumers [] c) Hnd) as (He & Hr & Hm).
  split_and!; [exact He| |exact Hm|apply group_leave_consumers].
  intros n Hn H. by apply Hr in H as [_ H].
Qed.

(** How the state changes when the member [leaves] or not, has the client
    forget its coordinator or not, and forgets its member id or not. *)
Definition recovers (leave reset forget : bool) (delay : Z) (c c' : Coordinator) : Prop :=
  _stopping c' = false ∧ _rejoin_needed c' = true ∧ _rejoin_wait_dc c' = DCPending ∧
  joins c' = joins c ∧
  effects c' = effects c ++
    (if leave then EStopConsumer <$>
       filter (λ n, n ∈ running c) (all_consumers (consumers c)) else []) ++
    (if reset then [EResetGroup] else []) ++ [ECallLater delay] ∧
  (if leave then consumers c' = [] ∧ ∀ n, n ∈ all_consumers (consumers c) → n ∉ running c'
   else consumers c' = consumers c ∧ running c' = running c) ∧
  member_id c' = (if forget then [] else member_id c).

Lemma recovers_keep reset delay c :
  _stopping c = false → _rejoin_wait_dc c = DCNone →
  recovers false reset false delay c
    (schedule_rejoin delay (if reset then emit EResetGroup c else c)).
Proof.
  intros Hs Hdc. unfold schedule_rejoin, recovers.
  destruct reset; cbn; rewrite Hdc; cbn; rewrite <- ?app_assoc; done.
Qed.

Lemma recovers_leave reset forget delay c :
  NoDup (all_consumers (consumers c)) → _stopping c = false → _rejoin_wait_dc c = DCNone →
  recovers true reset forget delay c
    (schedule_rejoin delay (let c1 := on_group_leave c in
       let c1 := if forget then with_member_id [] c1 else c1 in
       if reset then emit EResetGroup c1 else c1)).
Proof.
  intros Hnd Hs Hdc. destruct (group_leave_spec c Hnd) as (He & Hr & Hm & Hc).
  pose proof (same_control_group_leave c) as Hl. unfold same_control in Hl. destruct_and!.
  set (c1 := on_group_leave c) in *. clearbody c1. unfold schedule_rejoin, recovers.
  assert (Hdc1 : _rejoin_wait_dc c1 = DCNone) by congruence.
  assert (Hs1 : _stopping c1 = false) by congruence.
  destruct reset, forget; cbn; rewrite Hdc1; cbn; rewrite He, <- ?app_assoc; done.
Qed.

(** The errors that mean it is no longer a member, those after which the client
    forgets the group's coordinator, those after which the member id is of no
    use, and those that a retry is likely to overcome. *)
Definition leaves (e : exn) : bool :=
  match e with
  | BrokerError (IllegalGeneration | InvalidGroupId | UnknownMemberId | RequestTimedOutError) => true
  | _ => false
  end.
Definition resets (e : exn) : bool :=
  match e with
  | BrokerError (CoordinatorNotAvailable | NotCoordinator | RequestTimedOutError) => true
  | _ => false
  end.
Definition forgets (e : exn) : bool :=
  match e with BrokerError (InvalidGroupId | UnknownMemberId) => true | _ => false end.
Definition quick (e : exn) : bool :=
  match e with
  | BrokerError (RebalanceInProgress | CoordinatorNotAvailable | NotCoordinator
                 | IllegalGeneration | InvalidGroupId | UnknownMemberId) => true
  | _ => false
  end.

(** C38. After a Kafka error, of a request or of a consumer, it stays started and
    joins again after one delay, the short one when a retry is likely to help;
    when it is no longer a member all its running consumers are stopped first,
    otherwise they go on. After anything else it stops with that error. *)
Theorem coordinator_recovers e c :
  reachable c → _start_d c ≠ None → _stopping c = false → _rejoin_wait_dc c = DCNone →
  let c' := rejoin_after_error topics retry_ms fatal_ms e c in
  (is_KafkaError e = true →
    recovers (leaves e) (resets e) (forgets e) (if quick e then retry_ms else fatal_ms) c c') ∧
  (is_KafkaError e = false →
    c' = (stop topics (Some e) (on_group_leave c)).1 ∧ _stopping c' = true ∧ consumers c' = []).
Proof.
  intros Hr Hst Hs Hdc. pose proof (cw_nodup c (consumers_reachable _ _ _ _ _ _ Hr)) as Hnd.
  pose proof (λ d, recovers_keep false d c Hs Hdc) as K.
  pose proof (λ d, recovers_keep true d c Hs Hdc) as R.
  pose proof (λ d, recovers_leave false false d c Hnd Hs Hdc) as L.
  pose proof (λ d, recovers_leave true false d c Hnd Hs Hdc) as LR.
  pose proof (λ d, recovers_leave false true d c Hnd Hs Hdc) as LF.
  cbn. split.
  - unfold rejoin_after_error. rewrite Hs. intros He.
    destruct e; try match goal with X : broker_class |- _ => destruct X end; try discriminate He;
      first [apply K|apply R|apply L|apply LR|apply LF].
  - intros He. assert (Hx : rejoin_after_error topics retry_ms fatal_ms e c =
      (stop topics (Some e) (on_group_leave c)).1).
    { rewrite <- (group_stop_empty _ (λ _, false)) by apply group_leave_consumers.
      unfold rejoin_after_error. rewrite Hs.
      destruct e; try match goal with X : broker_class |- _ => destruct X end; done || discriminate He. }
    split; [done|]. rewrite Hx. pose proof (same_control_group_leave c) as Hl.
    unfold same_control in Hl. destruct_and!. split.
    + apply stop_spec. split; congruence.
    + destruct (ck_consumers _ _ (kept_stop topics (Some e) (on_group_leave c))) as [->|]; [|done].
      apply group_leave_consumers.
Qed.

(** ** A new generation *)

(** C37. When the sync response is decoded, the coordinator is a joined member and
    there is exactly one new consumer for every assigned partition, in the order
    of the assignment, started for the current member and generation; there are
    no other managed ones. *)
Theorem sync_starts_consumers id r assignment c :
  reachable c → _stopping c = false → Dict.get id (joins c) = Some Syncing →
  decode_assignment (sgrr_member_assignment r) = Ok assignment →
  let c' := handle (SyncAnswer id (Ok r)) c in
  let new := seq (next_consumer c) (length (assigned assignment)) in
  joined c' ∧ joins c' = [] ∧ all_consumers (consumers c') ≡ₚ new ∧ running c' = running c ++ new ∧
  effects c' = effects c ++ imap (λ i tp,
    EStartConsumer (next_consumer c + i) tp.1 tp.2 (member_id c) (generation_id c))
    (assigned assignment).
Proof.
  intros Hr Hs Hg Hd. cbn. unfold resume_sync. rewrite Hs, Hd.
  destruct (control_reachable _ _ _ _ _ _ Hr) as [Hc%init_joins|Hc]; [by rewrite Hc in Hg|].
  set (c1 := with_rejoin_needed false (reset_heartbeat_timer c)).
  unfold on_join_complete. fold (assigned assignment).
  destruct (start_consumers_spec (assigned assignment) c1) as (Hf & Hm & Hn & Ha & Hrun & He).
  set (c2 := foldl _ _ _) in *. clearbody c2. unfold same_control in Hf. destruct_and!. subst c1. cbn in *.
  pose proof (joining_no_consumers id Syncing c (consumers_reachable _ _ _ _ _ _ Hr) Hg
    ltac:(done) ltac:(done) Hs) as Hno.
  split_and!; cbn.
  - split_and!; cbn; try congruence.
    replace (generation_id c2) with (generation_id c) by congruence.
    by eapply (ct_generation c (proj1 Hc)).
  - replace (joins c2) with (joins c) by congruence.
    destruct (control_single id c) as (_ & p & ->); [apply Hc|done|congruence|]. apply del_single.
  - rewrite Ha. by rewrite Hno.
  - done.
  - done.
Qed.

(** ** Stopping *)

(** The coordinator is stopped, and the deferred [d] of its [start] is told how,
    unless it was cancelled. *)
Definition stopped (d : nat) (r : option exn) (c c' : Coordinator) : Prop :=
  _stopping c' = true ∧ _start_d c' = None ∧ member_id c' = [] ∧ generation_id c' = None ∧
  protocol c' = false ∧ coordinator_broker c' = false ∧
  firings (co_deferreds c') = firings (co_deferreds c) ++
    (if called d (co_deferreds c) then []
     else [(d, match r with Some e => Failure e | None => Success tt end)]).

Lemma stop_all_deferreds cs c : co_deferreds (stop_all cs c) = co_deferreds c.
Proof.
  unfold stop_all. revert c. induction (all_consumers cs) as [|n ns IH]; intros c; [done|].
  cbn [foldl]. rewrite IH. unfold stop_consumer. by case_bool_decide.
Qed.

Lemma resume_prepare_keeps id c :
  _start_d (resume_prepare topics id c) = _start_d c ∧
  _stopping (resume_prepare topics id c) = _stopping c ∧
  co_deferreds (resume_prepare topics id c) = co_deferreds c.
Proof.
  unfold resume_prepare, send_join_group_request. destruct (protocol c); [|done].
  by destruct (join_group_protocols topics).
Qed.

Lemma cancel_join_keeps id c :
  _start_d (cancel_join topics id c) = _start_d c ∧
  _stopping (cancel_join topics id c) = _stopping c ∧
  co_deferreds (cancel_join topics id c) = co_deferreds c.
Proof.
  unfold cancel_join. destruct (Dict.get id (joins c)) as [[]|]; try done.
  destruct (resume_prepare_keeps id (shutdown_done current_consumers true c)) as (-> & -> & ->).
  pose proof (same_control_shutdown_done current_consumers true c) as Hf. unfold same_control in Hf.
  destruct_and!. split_and!; [done..|]. apply stop_all_deferreds.
Qed.

Lemma finish_stop_stopped d r c0 c :
  _stopping c = true → _start_d c = Some d → co_deferreds c = co_deferreds c0 →
  stopped d r c0 (finish_stop topics r c).
Proof.
  intros Hs Hd Hc0. unfold finish_stop. set (c1 := match _rejoin_d c with Some _ => _ | None => _ end).
  assert (H1 : _start_d c1 = Some d ∧ _stopping c1 = true ∧ co_deferreds c1 = co_deferreds c).
  { subst c1. destruct (_rejoin_d c) as [id|]; [|done].
    by destruct (cancel_join_keeps id (with_rejoin_d None c)) as (-> & -> & ->). }
  destruct H1 as (H1 & H2 & H3). clearbody c1. cbn. rewrite H1. unfold stopped, fire.
  rewrite <- Hc0, <- H3. destruct (called d (co_deferreds c1)) eqn:Hcl; cbn; rewrite ?Hcl;
    (split_and!; try done; by rewrite app_nil_r).
Qed.

End recovery.

(** ** Where it does not *)

Definition init (topics : list text) : Coordinator :=
  match __init__ topics with Ok c => c | Err _ => mkCoordinator [] None None false true None true false
    DCNone None false false [] [] [] 0 0 0 0 [] no_deferreds [] end.

(** A failure of the metadata load that follows the coordinator lookup ends the
    attempt with an exception, which is only logged: the coordinator stays
    started and in need of a rejoin, nothing is pending, and it cannot be
    started again. *)
Theorem coordinator_gives_up t ts initial_ms retry_ms fatal_ms set_iter raises e :
  ∃ c, run (t :: ts) initial_ms retry_ms fatal_ms set_iter
         [Start; BrokerAnswer 0 (Ok true); MetadataAnswer raises 0 (Err e)] (init (t :: ts)) = Some c ∧
    is_Some (_start_d c) ∧ _stopping c = false ∧ _rejoin_needed c = true ∧
    (∀ ev, enabled ev c = true → internal ev = false) ∧
    start c = (c, Err RestartError).
Proof.
  set (o := run _ _ _ _ _ _ _). vm_compute in o. subst o.
  eexists. split; [reflexivity|]. split; [by exists 0%nat|]. split_and!; try reflexivity.
  intros ev He. destruct ev; first [reflexivity|discriminate He].
Qed.

(** ** A concrete group *)

Definition sample_topics : list text := [txt "t"].
Definition sample_assignment (partitions : list Z) : option bytes :=
  match encode_sync_group_member_assignment 0 [(txt "t", partitions)] (Some []) with
  | Ok b => Some b
  | Err _ => None
  end.

(** The answers to the join attempt [id], whose member follows another, and
    gets [partitions]. *)
Definition sample_join (id : nat) (partitions : list Z) : list event :=
  [BrokerAnswer id (Ok true); MetadataAnswer (λ _, false) id (Ok tt);
   JoinAnswer id (Ok joins_as_follower);
   SyncAnswer id (Ok (mkSyncGroupResponse 0 (sample_assignment partitions)))].

Definition sample_run : list event → Coordinator → option Coordinator :=
  run sample_topics 1000 100 10000 (λ l, l).
Definition sample_state (evs : list event) : Coordinator :=
  default (init sample_topics) (sample_run evs (init sample_topics)).

(** A sample state is reachable when its run does not get stuck. *)
Ltac sample_reachable evs :=
  apply (run_reachable sample_topics 1000 100 10000 (λ l, l) evs (init sample_topics));
  [by apply reach_init | vm_compute; reflexivity].

Definition joined_run : list event := Start :: sample_join 0 [0; 3].

(** [stop] is called while an attempt waits for the consumers. *)
Definition leave_run : list event :=
  joined_run ++ [HeartbeatTimer; HeartbeatAnswer (Err (BrokerError RebalanceInProgress));
    RejoinTimer; BrokerAnswer 1 (Ok true); MetadataAnswer (λ _, false) 1 (Ok tt); Stop (λ _, false);
    StopResumes 0 false].

(** [stop] has three gaps. A join attempt that completes while [stop] waits for
    the consumers to shut down starts consumers that go on when it is stopped.
    An attempt that waits for the consumers to shut down when it is cancelled
    goes on to join after the leave request. And a coordinator that was stopped
    starts again only in appearance: its deferred stays outstanding, and no
    event but the application's can happen. *)
Theorem coordinator_stop_gaps :
  (∃ evs c, sample_run evs (init sample_topics) = Some c ∧ _stopping c = true ∧ _start_d c = None ∧
    (0%nat, Success tt) ∈ firings (co_deferreds c) ∧
    consumers c ≠ [] ∧ all_consumers (consumers c) ⊆ running c) ∧
  (∃ evs c before member protocols, sample_run evs (init sample_topics) = Some c ∧
    _stopping c = true ∧ _start_d c = None ∧
    effects c = before ++ [ESendJoin member protocols] ∧ ESendLeave (txt "member") ∈ before) ∧
  (∃ evs c d, sample_run evs (init sample_topics) = Some c ∧ _start_d c = None ∧
    (start c).2 = Ok d ∧ effects (start c).1 = effects c ∧ outstanding d (co_deferreds (start c).1) ∧
    ∀ ev, enabled ev (start c).1 = true → internal ev = false).
Proof.
  split; [|split].
  - exists (joined_run ++ [HeartbeatTimer; HeartbeatAnswer (Err (BrokerError RebalanceInProgress));
      RejoinTimer; Stop (λ _, false)] ++ sample_join 1 [0] ++
      [ConsumerDone 0; ConsumerDone 1; StopResumes 0 false; StopResumes 1 false]).
    eexists. split; [vm_compute; reflexivity|]. vm_compute. split_and!; try done; set_solver.
  - exists leave_run, (sample_state leave_run), (removelast (effects (sample_state leave_run))), [],
      (match join_group_protocols sample_topics with Ok ps => ps | Err _ => [] end).
    vm_compute. split_and!; [reflexivity..|set_solver].
  - exists [Start; Stop (λ _, false)]. eexists _, _. split; [vm_compute; reflexivity|].
    split_and!; try reflexivity; [by apply (bool_decide_eq_true_1 (outstanding _ _))|].
    intros ev He. destruct ev; first [reflexivity|discriminate He].
Qed.


(** *** Witnesses *)

Lemma coordinator_safe_witness :
  let c := sample_state joined_run in
  reachable sample_topics 1000 100 10000 (λ l, l) c ∧ all_consumers (consumers c) = [0%nat; 1%nat] ∧
  _rejoin_needed c = false ∧ _heartbeat_running c = true.
Proof.
  cbv zeta.
  assert (Hr : reachable sample_topics 1000 100 10000 (λ l, l) (sample_state joined_run))
    by sample_reachable joined_run.
  destruct (coordinator_safe _ _ _ _ _ _ Hr) as (H & _).
  assert (Hs : _stopping (sample_state joined_run) = false) by (vm_compute; reflexivity).
  assert (Hn : _rejoin_needed (sample_state joined_run) = false) by (vm_compute; reflexivity).
  destruct (H Hs) as (_ & _ & _ & Hh).
  split; [exact Hr|]. split; [vm_compute; reflexivity|]. split; [exact Hn|]. apply Hh, Hn.
Defined.

Lemma coordinator_can_join_witness :
  let c := sample_state [Start] in
  _rejoin_needed c = true ∧ can_join sample_topics 1000 100 10000 (λ l, l) c.
Proof.
  cbv zeta. split; [vm_compute; reflexivity|].
  refine (coordinator_can_join sample_topics 1000 100 10000 (λ l, l)
    (match join_group_protocols sample_topics with Ok ps => ps | Err _ => [] end) _
    (sample_state [Start]) _ _ _ _ _).
  - vm_compute. reflexivity.
  - sample_reachable [Start].
  - vm_compute. discriminate.
  - vm_compute. reflexivity.
  - intros e. vm_compute. set_solver.
  - intros id r Hin. exfalso. revert Hin.
    replace (joins _) with [(0%nat, FetchingBroker)] by (vm_compute; reflexivity). set_solver.
Defined.

Lemma coordinator_recovers_witness :
  let c := sample_state joined_run in
  let c' := rejoin_after_error sample_topics 100 10000 (BrokerError UnknownMemberId) c in
  running c = [0%nat; 1%nat] ∧ recovers true false true 100 c c'.
Proof.
  cbv zeta. split; [vm_compute; reflexivity|].
  refine (proj1 (coordinator_recovers sample_topics 1000 100 10000 (λ l, l)
    (BrokerError UnknownMemberId) (sample_state joined_run) _ _ _ _) _).
  - sample_reachable joined_run.
  - vm_compute. discriminate.
  - vm_compute. reflexivity.
  - vm_compute. reflexivity.
  - reflexivity.
Defined.

Lemma sync_starts_consumers_witness :
  let c := sample_state (Start :: take 3 (sample_join 0 [0; 3])) in
  joined (handle sample_topics 1000 100 10000 (λ l, l)
    (SyncAnswer 0 (Ok (mkSyncGroupResponse 0 (sample_assignment [0; 3])))) c).
Proof.
  cbv zeta.
  refine (proj1 (sync_starts_consumers sample_topics 1000 100 10000 (λ l, l) 0
    (mkSyncGroupResponse 0 (sample_assignment [0; 3])) [(txt "t", [0; 3])]
    (sample_state (Start :: take 3 (sample_join 0 [0; 3]))) _ _ _ _)).
  - sample_reachable (Start :: take 3 (sample_join 0 [0; 3])).
  - vm_compute. reflexivity.
  - vm_compute. reflexivity.
  - vm_compute. reflexivity.
Defined.

