(* ===== verification/Consumer.v ===== *)
(** [afkak/consumer.py]: [Consumer], which fetches the messages of a partition,
    hands them to the application's processor and commits what was processed.
    The client is seen through the requests it is given (effects) and its
    answers (events); what the processor returns, and how operations that are
    cancelled end, comes with each event ([environment]). *)
From S2P Require Import Prelude Common PyBytes Util KafkaCodec Deferred.
Local Open Scope Z_scope.

Definition AUTO_COMMIT_MSG_COUNT : Z := 100.
Definition AUTO_COMMIT_INTERVAL : Z := 5000.

Record SourcedMessage := mkSourcedMessage {
  sm_topic : text;
  sm_partition : Z;
  sm_offset : Z;
  sm_message : Message;
}.

Record config := mkConfig {
  topic : text;
  partition : Z;
  consumer_group : option text;
  commit_metadata : option bytes;
  commit_consumer_id : text;
  commit_generation_id : Z;
  auto_commit_every_n : option Z;
  auto_commit_every_ms : option Z;
  fetch_min_bytes : Z;
  fetch_max_wait_time : Z;
  max_buffer_size : option Z;
  auto_offset_reset : option Z;
}.

(** [if not self.consumer_group] *)
Definition grouped (cfg : config) : bool :=
  match consumer_group cfg with Some (_ :: _) => true | _ => false end.

(** An integer setting that is neither [None] nor zero. *)
Definition truthy (n : option Z) : option Z :=
  match n with Some z => if z =? 0 then None else Some z | None => None end.

(** ** State *)

(** The decoder of a response's messages runs when they are iterated. *)
Abbreviation fetched := (FetchResponse (pygen OffsetAndMessage unit)).

(** [_request_d]: what was asked for, or that it was answered while the last
    block of messages was being processed. *)
Inductive request := ROffset | ROffsetFetch | RFetch | RAnswered.

(** An [IDelayedCall] that is kept: it is due, with its arguments, or it was
    called or cancelled. *)
Inductive delayed_call (A : Type) := CallPending (a : A) | CallOver.
Arguments CallPending {A} a.
Arguments CallOver {A}.

(** What was attached to a deferred of [_commit_ds]: nothing by the consumer
    itself, [_handle_auto_commit_error], [_retry_auto_commit], the handlers of
    the commit of [shutdown], or its [_commit_and_stop]. *)
Inductive reaction :=
| RNone
| RAutoCommit
| RRetryCommit (by_count : bool)
| RShutdownCommit
| RCommitAndStop.

Record waiter := mkWaiter { w_deferred : nat; w_reaction : reaction }.

(** The outstanding commit request, and the delayed one: delays are the initial
    one increased that many times, up to the maximum. *)
Record commit_request := mkCommitRequest {
  commit_offset : option Z;
  commit_delay : nat;
  commit_attempt : Z;
}.

(** The call of the processor that has not ended: the messages of the block
    after those it was given, the offset of the last one it was given, and
    whether [shutdown] waits for it. *)
Record block := mkBlock {
  rest : list SourcedMessage;
  last_offset : Z;
  then_commit_and_stop : bool;
}.

Record Fetching := mkFetching {
  _fetch_offset : option Z;
  retry_delay : nat;
  _fetch_attempt_count : Z;
  request_retry_max_attempts : Z;
  buffer_size : Z;
  _request_d : option request;
  _retry_call : option (delayed_call unit);
}.

Record Committing := mkCommitting {
  _last_processed_offset : option Z;
  _last_committed_offset : option Z;
  _commit_ds : list waiter;
  _commit_req : option commit_request;
  _commit_call : option (delayed_call (nat * Z));
  _commit_looper : option looping;
}.

(** [_msg_block_d]: the responses that wait until the block is done. *)
Record Lifecycle := mkLifecycle {
  _start_d : option nat;
  _shutdown_d : option nat;
  _stopping : bool;
  _shuttingdown : bool;
  _msg_block_d : option (list (list fetched));
  _processor_d : option block;
}.

(** [fetch_call None]: at once. *)
Inductive effect :=
| ESendOffset (r : OffsetRequest)
| ESendOffsetFetch (group : option text) (r : OffsetFetchRequest)
| ESendFetch (r : FetchRequest)
| ECancelRequest
| EFetchLater (after : option nat)
| ECancelFetchCall
| EProcess (messages : list SourcedMessage)
| ECancelProcessor
| ESendCommit (offset : option Z)
| ECancelCommit
| ECommitLater (after : nat)
| ECancelCommitCall
| EStartLooper
| EResetLooper
| EStopLooper
| EUnhandled (e : exn).

Record Consumer := mkConsumer {
  fetching :> Fetching;
  committing :> Committing;
  lifecycle :> Lifecycle;
  cs_deferreds : deferreds (option Z);
  cs_effects : list effect;
}.

Definition set_fetching (f : Fetching → Fetching) (s : Consumer) : Consumer :=
  mkConsumer (f s) s s (cs_deferreds s) (cs_effects s).
Definition set_committing (f : Committing → Committing) (s : Consumer) : Consumer :=
  mkConsumer s (f s) s (cs_deferreds s) (cs_effects s).
Definition set_lifecycle (f : Lifecycle → Lifecycle) (s : Consumer) : Consumer :=
  mkConsumer s s (f s) (cs_deferreds s) (cs_effects s).
Definition with_deferreds (ds : deferreds (option Z)) (s : Consumer) : Consumer :=
  mkConsumer s s s ds (cs_effects s).
Definition emit (e : effect) (s : Consumer) : Consumer :=
  mkConsumer s s s (cs_deferreds s) (cs_effects s ++ [e]).

Definition with_fetch_offset x := set_fetching (λ f, mkFetching x (retry_delay f)
  (_fetch_attempt_count f) (request_retry_max_attempts f) (buffer_size f) (_request_d f) (_retry_call f)).
Definition with_retries d n := set_fetching (λ f, mkFetching (_fetch_offset f) d n
  (request_retry_max_attempts f) (buffer_size f) (_request_d f) (_retry_call f)).
Definition with_max_attempts x := set_fetching (λ f, mkFetching (_fetch_offset f) (retry_delay f)
  (_fetch_attempt_count f) x (buffer_size f) (_request_d f) (_retry_call f)).
Definition with_buffer_size x := set_fetching (λ f, mkFetching (_fetch_offset f) (retry_delay f)
  (_fetch_attempt_count f) (request_retry_max_attempts f) x (_request_d f) (_retry_call f)).
Definition with_request_d x := set_fetching (λ f, mkFetching (_fetch_offset f) (retry_delay f)
  (_fetch_attempt_count f) (request_retry_max_attempts f) (buffer_size f) x (_retry_call f)).
Definition with_retry_call x := set_fetching (λ f, mkFetching (_fetch_offset f) (retry_delay f)
  (_fetch_attempt_count f) (request_retry_max_attempts f) (buffer_size f) (_request_d f) x).

Definition with_last_processed x := set_committing (λ c, mkCommitting x (_last_committed_offset c)
  (_commit_ds c) (_commit_req c) (_commit_call c) (_commit_looper c)).
Definition with_last_committed x := set_committing (λ c, mkCommitting (_last_processed_offset c) x
  (_commit_ds c) (_commit_req c) (_commit_call c) (_commit_looper c)).
Definition with_commit_ds x := set_committing (λ c, mkCommitting (_last_processed_offset c)
  (_last_committed_offset c) x (_commit_req c) (_commit_call c) (_commit_looper c)).
Definition with_commit_req x := set_committing (λ c, mkCommitting (_last_processed_offset c)
  (_last_committed_offset c) (_commit_ds c) x (_commit_call c) (_commit_looper c)).
Definition with_commit_call x := set_committing (λ c, mkCommitting (_last_processed_offset c)
  (_last_committed_offset c) (_commit_ds c) (_commit_req c) x (_commit_looper c)).
Definition with_commit_looper x := set_committing (λ c, mkCommitting (_last_processed_offset c)
  (_last_committed_offset c) (_commit_ds c) (_commit_req c) (_commit_call c) x).

Definition with_start_d x := set_lifecycle (λ l, mkLifecycle x (_shutdown_d l) (_stopping l)
  (_shuttingdown l) (_msg_block_d l) (_processor_d l)).
Definition with_shutdown_d x := set_lifecycle (λ l, mkLifecycle (_start_d l) x (_stopping l)
  (_shuttingdown l) (_msg_block_d l) (_processor_d l)).
Definition with_stopping x := set_lifecycle (λ l, mkLifecycle (_start_d l) (_shutdown_d l) x
  (_shuttingdown l) (_msg_block_d l) (_processor_d l)).
Definition with_shuttingdown x := set_lifecycle (λ l, mkLifecycle (_start_d l) (_shutdown_d l)
  (_stopping l) x (_msg_block_d l) (_processor_d l)).
Definition with_msg_block_d x := set_lifecycle (λ l, mkLifecycle (_start_d l) (_shutdown_d l)
  (_stopping l) (_shuttingdown l) x (_processor_d l)).
Definition with_processor_d x := set_lifecycle (λ l, mkLifecycle (_start_d l) (_shutdown_d l)
  (_stopping l) (_shuttingdown l) (_msg_block_d l) x).

(** ** The environment *)

(** An answer to the request in progress. *)
Inductive answer :=
| AOffsets (responses : list (OffsetResponse + OffsetFetchResponse))
| AFetched (responses : list fetched)
| AFailed (e : exn).

(** What the processor returns for a block of messages, if its deferred has
    fired already; and how the operations end that are cancelled. Those of the
    client may end later; the deferred of a processor ends when it is
    cancelled. *)
Record environment := mkEnvironment {
  processor : list SourcedMessage → option (res unit);
  request_cancelled : option answer;
  processor_cancelled : res unit;
  commit_cancelled : option (res unit);
}.

(** [failure.check(CancelledError)], of Twisted. *)
Definition is_cancelled (e : exn) : bool :=
  match e with TwistedCancelledError => true | _ => false end.

Abbreviation cmeth := (proc exn Consumer).

(** What a callback raises becomes the result of its deferred ([attempt]), and
    is at last reported as unhandled ([unhandled]). *)
Definition attempt {A} (m : cmeth A) : cmeth (res A) := λ s,
  match m s with
  | (s, Err OutOfFuel) => (s, Err OutOfFuel)
  | (s, r) => (s, Ok r)
  end.

Definition unhandled (m : cmeth unit) : cmeth unit :=
  r ← attempt m;
  match r with Ok _ => mret tt | Err e => pmodify (emit (EUnhandled e)) end.

(** [d.callback(x)] and [d.errback(e)]. *)
Definition settle (d : nat) (o : outcome (option Z)) : cmeth unit := λ s,
  match fire d o (cs_deferreds s) with
  | Ok ds => (with_deferreds ds s, Ok tt)
  | Err e => (s, Err e)
  end.

Definition new_d : cmeth nat :=
  d ← pget (λ s : Consumer, issued (cs_deferreds s));
  _ ← pmodify (λ s : Consumer, with_deferreds (new_deferred (cs_deferreds s)).2 s);
  mret d.

(** [self._start_d.errback(failure)] *)
Definition start_errback (e : exn) : cmeth unit :=
  d ← pget (λ s : Consumer, _start_d s);
  match d with Some d => settle d (Failure e) | None => praise PyAttributeError end.

Section consumer.
Context (cfg : config) (env : environment).

(** ** Fetching *)

(** The delays of [_do_fetch] and of the retries; [after=0] is [None]. *)
Definition schedule_fetch (after : option nat) (delay : nat) (s : Consumer) : Consumer :=
  emit (EFetchLater after)
    (with_retry_call (Some (CallPending tt)) (with_retries delay (_fetch_attempt_count s + 1) s)).

(** [_retry_fetch()], and [_retry_fetch(0)] when [now]. *)
Definition _retry_fetch (now : bool) : cmeth unit :=
  idle ← pget (λ s : Consumer, _stopping s || _shuttingdown s || bool_decide (_start_d s = None));
  c ← pget (λ s : Consumer, _retry_call s);
  match c with
  | None =>
    if idle : bool then mret tt
    else if now then pmodify (λ s : Consumer, schedule_fetch None (retry_delay s) s)
    else pmodify (λ s : Consumer, schedule_fetch (Some (retry_delay s)) (S (retry_delay s)) s)
  | Some _ => mret tt
  end.

Definition send_request (r : request) (e : effect) : cmeth unit :=
  pmodify (λ s : Consumer, emit e (with_request_d (Some r) s)).

(** From [# Do we know our offset yet] on. *)
Definition send_fetch : cmeth unit :=
  offset ← pget (λ s : Consumer, _fetch_offset s);
  match offset with
  | None => praise PyTypeError
  | Some offset =>
    if (offset =? OFFSET_EARLIEST) || (offset =? OFFSET_LATEST) then
      send_request ROffset (ESendOffset (mkOffsetRequest (topic cfg) (partition cfg) offset 1))
    else if offset =? OFFSET_COMMITTED then
      _ ← (if grouped cfg then mret tt else start_errback InvalidConsumerGroupError);
      send_request ROffsetFetch
        (ESendOffsetFetch (consumer_group cfg) (mkOffsetFetchRequest (topic cfg) (partition cfg)))
    else
      size ← pget (λ s : Consumer, buffer_size s);
      send_request RFetch (ESendFetch (mkFetchRequest (topic cfg) (partition cfg) offset size))
  end.

Definition _do_fetch : cmeth unit :=
  r ← pget (λ s : Consumer, _request_d s);
  match r with
  | Some _ => mret tt
  | None =>
    c ← pget (λ s : Consumer, _retry_call s);
    _ ← match c with Some (CallPending _) => pmodify (emit ECancelFetchCall) | _ => mret tt end;
    _ ← pmodify (with_retry_call None);
    send_fetch
  end.

(** *** The offset to start from *)

Definition use_offset (response : OffsetResponse + OffsetFetchResponse) : cmeth unit :=
  match response with
  | inl r =>
    match orr_offsets r with
    | offset :: _ => pmodify (with_fetch_offset (Some offset))
    | [] => praise PyIndexError
    end
  | inr r =>
    if ofrr_offset r =? OFFSET_NOT_COMMITTED then
      pmodify (with_fetch_offset
        (Some (if decide (auto_offset_reset cfg = Some OFFSET_LATEST) then OFFSET_LATEST else OFFSET_EARLIEST)))
    else pmodify (λ s : Consumer, with_last_committed (Some (ofrr_offset r)) (with_fetch_offset (Some (ofrr_offset r + 1)) s))
  end.

Definition _handle_offset_response (responses : list (OffsetResponse + OffsetFetchResponse)) : cmeth unit :=
  _ ← pmodify (λ s : Consumer, with_retries 0 1 (with_request_d None s));
  match responses with
  | [response] => _ ← use_offset response; _do_fetch
  | _ => praise PyValueError
  end.

(** The end of both error handlers: give up, or try again after the delay. *)
Definition retry_or_fail (e : exn) : cmeth unit :=
  exhausted ← pget (λ s : Consumer, negb (request_retry_max_attempts s =? 0) &&
                         (request_retry_max_attempts s <=? _fetch_attempt_count s));
  if exhausted : bool then start_errback e else _retry_fetch false.

Definition _handle_offset_error (e : exn) : cmeth unit :=
  _ ← pmodify (with_request_d None);
  stopping ← pget (λ s : Consumer, _stopping s);
  if stopping && is_cancelled e then mret tt else retry_or_fail e.

Definition _handle_fetch_error (e : exn) : cmeth unit :=
  _ ← pmodify (with_request_d None);
  match e, auto_offset_reset cfg with
  | BrokerError OffsetOutOfRangeError, None => start_errback e
  | _, _ =>
    _ ← match e with
        | BrokerError OffsetOutOfRangeError => pmodify (with_fetch_offset (auto_offset_reset cfg))
        | _ => mret tt
        end;
    stopping ← pget (λ s : Consumer, _stopping s);
    if stopping && is_cancelled e then mret tt else retry_or_fail e
  end.

(** ** Committing *)

Definition _send_commit_request (retry_delay : nat) (attempt : Z) : cmeth unit :=
  c ← pget (λ s : Consumer, _commit_call s);
  _ ← match c with Some CallOver => pmodify (with_commit_call None) | _ => mret tt end;
  r ← pget (λ s : Consumer, _commit_req s);
  match r with
  | Some _ => praise OperationInProgress
  | None =>
    offset ← pget (λ s : Consumer, _last_processed_offset s);
    pmodify (λ s : Consumer, emit (ESendCommit offset)
                    (with_commit_req (Some (mkCommitRequest offset retry_delay attempt)) s))
  end.

(** What [commit] returns: a deferred that has fired, one that waits, or the
    failure with [OperationInProgress] and its deferred. *)
Inductive committed := CNow (r : res (option Z)) | CWaits (d : nat) | CInProgress (d : nat).

Definition add_waiter (r : reaction) : cmeth nat :=
  d ← new_d;
  _ ← pmodify (λ s : Consumer, with_commit_ds (_commit_ds s ++ [mkWaiter d r]) s);
  mret d.

(** [self._commit_looper.reset()] *)
Definition reset_looper : cmeth unit :=
  l ← pget (λ s : Consumer, _commit_looper s);
  match l with
  | None => mret tt
  | Some (LoopRunning _) => pmodify (emit EResetLooper)
  | Some LoopStopped => praise PyAssertionError
  end.

(** [commit()]. The caller attaches [waits] to the deferred it gets, or [busy]
    to that of [OperationInProgress]. *)
Definition commit (waits busy : reaction) : cmeth committed :=
  processed ← pget (λ s : Consumer, _last_processed_offset s);
  committed ← pget (λ s : Consumer, _last_committed_offset s);
  ds ← pget (λ s : Consumer, _commit_ds s);
  if negb (grouped cfg) then mret (CNow (Err InvalidConsumerGroupError))
  else if bool_decide (processed = None) || bool_decide (processed = committed) then mret (CNow (Ok committed))
  else if is_empty ds then
    d ← add_waiter waits;
    _ ← _send_commit_request 0 1;
    _ ← reset_looper;
    mret (CWaits d)
  else d ← add_waiter busy; mret (CInProgress d).

Definition _handle_auto_commit_error (e : exn) : cmeth unit :=
  d ← pget (λ s : Consumer, _start_d s);
  match d with
  | Some d =>
    c ← pget (λ s : Consumer, called d (cs_deferreds s));
    if c : bool then mret tt else settle d (Failure e)
  | None => mret tt
  end.

(** There is enough to commit, by the clock or by the number of messages. *)
Definition commit_due (by_count : bool) (s : Consumer) : bool :=
  negb by_count ||
  match _last_processed_offset s, _last_committed_offset s with
  | Some p, Some c => default 0 (auto_commit_every_n cfg) <=? p - c
  | _, _ => true
  end.

Definition _auto_commit (by_count : bool) : cmeth unit :=
  off ← pget (λ s : Consumer, _stopping s || _shuttingdown s || bool_decide (_start_d s = None) ||
                   bool_decide (_last_processed_offset s = None) || negb (grouped cfg) ||
                   (by_count && bool_decide (truthy (auto_commit_every_n cfg) = None)));
  due ← pget (commit_due by_count);
  ds ← pget (λ s : Consumer, _commit_ds s);
  if off || negb due then mret tt
  else if is_empty ds then
    r ← commit RAutoCommit RNone;
    match r with
    | CNow (Err e) => unhandled (_handle_auto_commit_error e)
    | CInProgress _ => unhandled (_handle_auto_commit_error OperationInProgress)
    | _ => mret tt
    end
  else _ ← add_waiter (RRetryCommit by_count); mret tt.

(** ** Processing *)

Definition _update_processed_offset (offset : Z) : cmeth unit :=
  _ ← pmodify (with_last_processed (Some offset)); _auto_commit true.

Definition _handle_processor_error (e : exn) : cmeth unit :=
  stopping ← pget (λ s : Consumer, _stopping s);
  d ← pget (λ s : Consumer, _start_d s);
  if stopping && is_cancelled e then mret tt
  else match d with Some d => settle d (Failure e) | None => mret tt end.

(** The callbacks of the processor's deferred: its result after them. *)
Definition processor_fired (offset : Z) (r : res unit) : cmeth (res unit) :=
  _ ← pmodify (with_processor_d None);
  r ← match r with Ok _ => attempt (_update_processed_offset offset) | Err e => mret (Err e) end;
  match r with Ok _ => mret (Ok tt) | Err e => attempt (_handle_processor_error e) end.

(** The callbacks [_msg_block_d] was given; when one raises the others are not
    called. *)
Definition end_block (handle : list fetched → cmeth unit) : cmeth unit :=
  b ← pget (λ s : Consumer, _msg_block_d s);
  match b with
  | None => mret tt
  | Some waiting =>
    _ ← pmodify (with_msg_block_d None);
    unhandled (pfor_each waiting handle)
  end.

Definition proc_block_size (messages : list SourcedMessage) : nat :=
  match truthy (auto_commit_every_n cfg) with Some n => Z.to_nat n | None => length messages end.

(** The loop of [_process_messages], from [fuel] messages on. *)
Fixpoint process_loop (fuel : nat) (handle : list fetched → cmeth unit) (messages : list SourcedMessage)
    : cmeth unit :=
  shutting ← pget (λ s : Consumer, _shuttingdown s);
  match fuel, last (take (proc_block_size messages) messages) with
  | S fuel, Some m =>
    if shutting : bool then end_block handle
    else
      let msgs_to_proc := take (proc_block_size messages) messages in
      let others := drop (proc_block_size messages) messages in
      _ ← pmodify (emit (EProcess msgs_to_proc));
      _ ← pmodify (with_processor_d (Some (mkBlock others (sm_offset m) false)));
      r ← match processor env msgs_to_proc with
          | Some r => r ← processor_fired (sm_offset m) r; mret (Some r)
          | None => mret None
          end;
      stopped ← pget (λ s : Consumer, _stopping s || bool_decide (_start_d s = None));
      match r with
      | None =>
        if stopped : bool then
          _ ← pmodify (emit ECancelProcessor);
          r ← processor_fired (sm_offset m) (processor_cancelled env);
          _ ← match r with Ok _ => mret tt | Err e => pmodify (emit (EUnhandled e)) end;
          end_block handle
        else mret tt
      | Some (Ok _) => if stopped : bool then end_block handle else process_loop fuel handle others
      | Some (Err e) =>
        if stopped : bool then _ ← pmodify (emit (EUnhandled e)); end_block handle
        else praise e
      end
  | _, _ => end_block handle
  end.

Definition _process_messages (handle : list fetched → cmeth unit) (messages : list SourcedMessage) : cmeth unit :=
  process_loop (length messages) handle messages.

(** ** The response to a fetch *)

(** The messages of a response that are to be processed, from the offset that
    is wanted on, and the offset wanted next. *)
Fixpoint wanted (messages : list OffsetAndMessage) (offset : Z) : list SourcedMessage * Z :=
  match messages with
  | [] => ([], offset)
  | m :: messages =>
    if om_offset m <? offset then wanted messages offset
    else
      let '(ms, offset) := wanted messages (om_offset m + 1) in
      (mkSourcedMessage (topic cfg) (partition cfg) (om_offset m) (om_message m) :: ms, offset)
  end.

(** [for resp in responses: ...], until a response cannot be decoded further. *)
Fixpoint collect_messages (responses : list fetched) (offset : Z) : list SourcedMessage * Z * res unit :=
  match responses with
  | [] => ([], offset, Ok tt)
  | resp :: responses =>
    if frr_partition resp =? partition cfg then
      let '(ms, offset) := wanted (frr_messages resp).1 offset in
      match (frr_messages resp).2 with
      | Err e => (ms, offset, Err e)
      | Ok _ => let '(ms', offset, r) := collect_messages responses offset in (ms ++ ms', offset, r)
      end
    else collect_messages responses offset
  end.

(** A message does not fit the buffer. *)
Definition grow_buffer : cmeth bool :=
  size ← pget (λ s : Consumer, buffer_size s);
  let factor := if size <=? 2 ^ 20 then 16 else 2 in
  match max_buffer_size cfg with
  | None => _ ← pmodify (with_buffer_size (size * factor)); mret true
  | Some max =>
    if size <? max then _ ← pmodify (with_buffer_size (Z.min (size * factor) max)); mret true
    else _ ← start_errback ConsumerFetchSizeTooSmall; mret false
  end.

(** The [except] clause: whether there is to be another fetch. *)
Definition fetch_next (r : res unit) : cmeth bool :=
  match r with
  | Ok _ => mret true
  | Err ConsumerFetchSizeTooSmall => grow_buffer
  | Err e => praise e
  end.

(** [try: m finally: final] *)
Definition finally {A} (m : cmeth A) (final : cmeth unit) : cmeth A := λ s,
  let '(s, r) := m s in
  match final s with
  | (s, Ok _) => (s, r)
  | (s, Err e) => (s, Err e)
  end.

(** [_process_messages] is a coroutine: what it raises stays in the deferred it
    returns. The nesting of blocks is [depth]. *)
Fixpoint handle_fetch_response (depth : nat) (responses : list fetched) : cmeth unit :=
  match depth with
  | O => praise OutOfFuel
  | S depth =>
    _ ← pmodify (with_retries 0 1);
    b ← pget (λ s : Consumer, _msg_block_d s);
    match b with
    | Some waiting => pmodify (λ s : Consumer, with_msg_block_d (Some (waiting ++ [responses])) (with_request_d (Some RAnswered) s))
    | None =>
      offset ← pget (λ s : Consumer, _fetch_offset s);
      match offset with
      | None => praise PyTypeError
      | Some offset =>
        let '(messages, offset, r) := collect_messages responses offset in
        _ ← pmodify (λ s : Consumer, with_fetch_offset (Some offset) (with_request_d None s));
        again ← finally (fetch_next r)
          (if is_empty messages then mret tt
           else
             _ ← pmodify (with_msg_block_d (Some []));
             unhandled (_process_messages (handle_fetch_response depth) messages));
        if again : bool then _retry_fetch true else mret tt
      end
    end
  end.

(** One level is enough: a response either waits for the block in progress or
    starts a new one, for which no response waits yet. *)
Definition _handle_fetch_response : list fetched → cmeth unit := handle_fetch_response 1.

(** The callbacks of the request in progress. *)
Definition request_answered (a : answer) : cmeth unit :=
  r ← pget (λ s : Consumer, _request_d s);
  match r, a with
  | Some RFetch, AFetched responses =>
    r ← attempt (_handle_fetch_response responses);
    match r with Ok _ => mret tt | Err e => unhandled (_handle_fetch_error e) end
  | Some RFetch, AFailed e => unhandled (_handle_fetch_error e)
  | Some (ROffset | ROffsetFetch), AOffsets responses => unhandled (_handle_offset_response responses)
  | Some (ROffset | ROffsetFetch), AFailed e => unhandled (_handle_offset_error e)
  | _, _ => mret tt
  end.

(** ** Stopping

    Stopping cancels deferreds that the graceful shutdown waits for, and their
    callbacks stop the consumer: [stop] is what these call. *)
Section stopping.
Context (stop : cmeth unit).

Definition end_shutdown (o : option Z → outcome (option Z)) : cmeth unit :=
  d ← pget (λ s : Consumer, _shutdown_d s);
  _ ← pmodify (with_shutdown_d None);
  _ ← stop;
  _ ← pmodify (with_shuttingdown false);
  processed ← pget (λ s : Consumer, _last_processed_offset s);
  match d with Some d => settle d (o processed) | None => praise PyAttributeError end.

Definition _handle_shutdown_commit_success : cmeth unit := end_shutdown Success.

(** A failure that is not [OperationInProgress]. *)
Definition _handle_shutdown_commit_failure (e : exn) : cmeth unit := end_shutdown (λ _, Failure e).

Definition _commit_and_stop : cmeth unit :=
  if negb (grouped cfg) then _handle_shutdown_commit_success
  else
    r ← commit RShutdownCommit RCommitAndStop;
    match r with
    | CNow (Ok _) => unhandled _handle_shutdown_commit_success
    | CNow (Err e) => unhandled (_handle_shutdown_commit_failure e)
    | CWaits _ | CInProgress _ => mret tt
    end.

(** What is attached to a deferred of [_commit_ds], when it fires. *)
Definition react (w : waiter) (o : outcome (option Z)) : cmeth unit :=
  match w_reaction w, o with
  | RAutoCommit, Failure e => unhandled (_handle_auto_commit_error e)
  | RRetryCommit by_count, Success _ => unhandled (_auto_commit by_count)
  | RShutdownCommit, Success _ => unhandled _handle_shutdown_commit_success
  | RShutdownCommit, Failure e => unhandled (_handle_shutdown_commit_failure e)
  | RCommitAndStop, Success _ => unhandled _commit_and_stop
  | _, _ => mret tt
  end.

(** [d.callback(result)]. One that was cancelled has called its callbacks. *)
Definition deliver (o : outcome (option Z)) (w : waiter) : cmeth unit :=
  c ← pget (λ s : Consumer, called (w_deferred w) (cs_deferreds s));
  _ ← settle (w_deferred w) o;
  if c : bool then mret tt else react w o.

Definition _deliver_commit_result (o : outcome (option Z)) : cmeth unit :=
  ds ← pget (λ s : Consumer, _commit_ds s);
  _ ← pmodify (with_commit_ds []);
  pfor_each (reverse ds) (deliver o).

Definition _update_committed_offset (offset : option Z) : cmeth unit :=
  _ ← pmodify (with_last_committed offset); _deliver_commit_result (Success offset).

Definition unretriable (e : exn) : bool :=
  match e with BrokerError (IllegalGeneration | InvalidGroupId | UnknownMemberId) => true | _ => false end.

Definition _handle_commit_error (e : exn) (c : commit_request) : cmeth unit :=
  stopping ← pget (λ s : Consumer, _stopping s);
  max ← pget (λ s : Consumer, request_retry_max_attempts s);
  committed ← pget (λ s : Consumer, _last_committed_offset s);
  if stopping && is_cancelled e then _deliver_commit_result (Success committed)
  else if negb (is_KafkaError e) || unretriable e then _deliver_commit_result (Failure e)
  else if negb (max =? 0) && (max <=? commit_attempt c) then _deliver_commit_result (Failure e)
  else
    pmodify (λ s : Consumer, emit (ECommitLater (S (commit_delay c)))
      (with_commit_call (Some (CallPending (S (commit_delay c), commit_attempt c + 1))) s)).

(** The callbacks of the commit request. *)
Definition commit_answered (r : res unit) : cmeth unit :=
  c ← pget (λ s : Consumer, _commit_req s);
  match c with
  | None => mret tt
  | Some c =>
    _ ← pmodify (with_commit_req None);
    unhandled (match r with Ok _ => _update_committed_offset (commit_offset c) | Err e => _handle_commit_error e c end)
  end.

(** The processor's deferred has fired: the callbacks it was given first, then
    the coroutine that waits for it, then the one [shutdown] gave it. *)
Definition processor_ended (r : res unit) : cmeth unit :=
  b ← pget (λ s : Consumer, _processor_d s);
  match b with
  | None => mret tt
  | Some b =>
    r ← processor_fired (last_offset b) r;
    _ ← unhandled (match r with
                   | Ok _ => process_loop (length (rest b)) _handle_fetch_response (rest b)
                   | Err e => praise e
                   end);
    if then_commit_and_stop b then unhandled _commit_and_stop else mret tt
  end.

(** [d.cancel()] of a deferred of [_commit_ds]. *)
Definition cancel_waiter (w : waiter) : cmeth unit := λ s,
  if called (w_deferred w) (cs_deferreds s) then (s, Ok tt)
  else
    match cancel_plain (w_deferred w) (cs_deferreds s) with
    | Ok ds => react w (Failure TwistedCancelledError) (with_deferreds ds s)
    | Err e => (s, Err e)
    end.

(** [while self._commit_ds: self._commit_ds.pop().cancel()] *)
Fixpoint cancel_waiters (fuel : nat) : cmeth unit :=
  ds ← pget (λ s : Consumer, reverse (_commit_ds s));
  match ds, fuel with
  | [], _ => mret tt
  | _ :: _, O => praise OutOfFuel
  | w :: ds, S fuel =>
    _ ← pmodify (with_commit_ds (reverse ds));
    _ ← cancel_waiter w;
    cancel_waiters fuel
  end.

(** [call.cancel()]: a call that was made or cancelled cannot be. *)
Definition cancel_call {A} (c : option (delayed_call A)) (over : cmeth unit) : cmeth unit :=
  match c with
  | None => mret tt
  | Some (CallPending _) => over
  | Some CallOver => praise OtherError
  end.

Definition stop_looper : cmeth unit :=
  l ← pget (λ s : Consumer, _commit_looper s);
  match l with
  | None => mret tt
  | Some (LoopRunning reports) =>
    pmodify (λ s : Consumer, with_commit_looper (if reports then None else Some LoopStopped) (emit EStopLooper s))
  | Some LoopStopped => praise PyAssertionError
  end.

(** [self._request_d.cancel()]; nothing happens to a request that was answered. *)
Definition cancel_request : cmeth unit :=
  r ← pget (λ s : Consumer, _request_d s);
  match r with
  | None | Some RAnswered => mret tt
  | Some _ =>
    _ ← pmodify (emit ECancelRequest);
    match request_cancelled env with Some a => request_answered a | None => mret tt end
  end.

Definition cancel_processor : cmeth unit :=
  b ← pget (λ s : Consumer, _processor_d s);
  match b with
  | None => mret tt
  | Some _ => _ ← pmodify (emit ECancelProcessor); processor_ended (processor_cancelled env)
  end.

Definition cancel_commit : cmeth unit :=
  c ← pget (λ s : Consumer, _commit_req s);
  match c with
  | None => mret tt
  | Some _ =>
    _ ← pmodify (emit ECancelCommit);
    match commit_cancelled env with Some r => commit_answered r | None => mret tt end
  end.

(** What [stop] does between [_stopping = True] and [_stopping = False]. *)
Definition cancel_operations : cmeth unit :=
  _ ← cancel_request;
  _ ← pmodify (with_msg_block_d None);
  _ ← cancel_processor;
  c ← pget (λ s : Consumer, _retry_call s);
  _ ← cancel_call c (pmodify (λ s : Consumer, with_retry_call (Some CallOver) (emit ECancelFetchCall s)));
  n ← pget (λ s : Consumer, length (_commit_ds s));
  _ ← cancel_waiters n;
  _ ← cancel_commit;
  c ← pget (λ s : Consumer, _commit_call s);
  _ ← cancel_call c (pmodify (λ s : Consumer, with_commit_call (Some CallOver) (emit ECancelCommitCall s)));
  stop_looper.

Definition stopped : cmeth unit :=
  _ ← pmodify (with_stopping false);
  d ← pget (λ s : Consumer, _start_d s);
  _ ← pmodify (with_start_d None);
  processed ← pget (λ s : Consumer, _last_processed_offset s);
  match d with
  | None => praise PyAttributeError
  | Some d =>
    c ← pget (λ s : Consumer, called d (cs_deferreds s));
    if c : bool then mret tt else settle d (Success processed)
  end.

Definition stop_body : cmeth unit :=
  d ← pget (λ s : Consumer, _start_d s);
  match d with
  | None => praise RestopError
  | Some _ =>
    _ ← pmodify (with_stopping true); _ ← cancel_operations; stopped
  end.
End stopping.

(** [stop()]. A stop that the shutdown in progress makes happens inside one
    stop at most: there is one shutdown at a time. *)
Fixpoint stop_within (depth : nat) : cmeth unit :=
  match depth with O => praise OutOfFuel | S depth => stop_body (stop_within depth) end.

Definition stop : cmeth unit := stop_within 3.

(** [start(start_offset)] *)
Definition start (start_offset : Z) : cmeth nat :=
  d ← pget (λ s : Consumer, _start_d s);
  match d with
  | Some _ => praise RestartError
  | None =>
    d ← new_d;
    _ ← pmodify (λ s : Consumer, with_fetch_offset (Some start_offset) (with_start_d (Some d) s));
    _ ← _do_fetch;
    _ ← (match truthy (auto_commit_every_ms cfg) with
         | Some _ =>
           if grouped cfg then
             pmodify (λ s : Consumer, with_commit_looper (Some (LoopRunning true)) (emit EStartLooper s))
           else mret tt
         | None => mret tt
         end);
    mret d
  end.

(** [shutdown()]: the failure at once, or its deferred. *)
Definition shutdown : cmeth (exn + nat) :=
  d ← pget (λ s : Consumer, _start_d s);
  down ← pget (λ s : Consumer, _shutdown_d s);
  match d, down with
  | None, _ | _, Some _ => mret (inl RestopError)
  | Some _, None =>
    _ ← pmodify (λ s : Consumer, with_max_attempts (if request_retry_max_attempts s =? 0 then 2 else request_retry_max_attempts s)
                         (with_shuttingdown true s));
    d ← new_d;
    _ ← pmodify (with_shutdown_d (Some d));
    b ← pget (λ s : Consumer, _processor_d s);
    _ ← match b with
        | Some b => pmodify (with_processor_d (Some (mkBlock (rest b) (last_offset b) true)))
        | None => _commit_and_stop stop
        end;
    mret (inr d)
  end.

Definition _commit_timer_failed (s : Consumer) : Consumer :=
  with_commit_looper (Some (LoopRunning false)) (emit EStartLooper s).

(** A delayed call is over when it is made. *)
Definition fetch_call : cmeth unit :=
  _ ← pmodify (with_retry_call (Some CallOver)); _do_fetch.

Definition commit_retry_call : cmeth unit :=
  c ← pget (λ s : Consumer, _commit_call s);
  match c with
  | Some (CallPending (delay, attempt)) =>
    _ ← pmodify (with_commit_call (Some CallOver)); _send_commit_request delay attempt
  | _ => mret tt
  end.

(** [d.cancel()] by the application, which has the deferreds of [start],
    [shutdown] and [commit]. *)
Definition cancel_by_user (d : nat) : cmeth unit :=
  ds ← pget (λ s : Consumer, cs_deferreds s);
  match cancel_plain d ds with
  | Ok ds => pmodify (with_deferreds ds)
  | Err e => praise e
  end.
End consumer.

(** ** Construction *)

(** A number argument: an [Integral], or not one, and then true or false. *)
Inductive pynum := NInt (z : Z) | NOther (truth : bool).

Definition as_integral (e : exn) (x : pynum) : res Z :=
  match x with NInt z => Ok z | NOther _ => Err e end.
Definition pynum_true (x : option pynum) : bool :=
  match x with Some (NInt z) => negb (z =? 0) | Some (NOther b) => b | None => false end.

(** The two settings that only make sense for a consumer group. *)
Definition check_auto_commit (group : option text) (every_n every_ms : option pynum)
    : res (option Z * option Z) :=
  match group with
  | Some (_ :: _) =>
    n ← as_integral PyValueError (default (NInt AUTO_COMMIT_MSG_COUNT) every_n);
    ms ← as_integral PyValueError (default (NInt AUTO_COMMIT_INTERVAL) every_ms);
    if (ms <? 0) || (n <? 0) then Err PyValueError else Ok (Some n, Some ms)
  | _ => if pynum_true every_ms || pynum_true every_n then Err PyValueError else Ok (None, None)
  end.

(** [Consumer(...)]. *)
Definition __init__ (topic : pyval) (partition : pynum) (consumer_group commit_metadata : option pyval)
    (auto_commit_every_n auto_commit_every_ms : option pynum)
    (fetch_size_bytes fetch_max_wait_time buffer_size : Z) (max_buffer_size : option Z)
    (request_retry_max_attempts : Z) (auto_offset_reset : option Z)
    (commit_consumer_id : text) (commit_generation_id : Z) : res (config * Consumer) :=
  topic ← _coerce_topic topic;
  group ← match consumer_group with
          | Some g => g ← _coerce_consumer_group g; Ok (Some g)
          | None => Ok None
          end;
  metadata ← match commit_metadata with
             | None => Ok None
             | Some (VBytes b) => Ok (Some b)
             | Some _ => Err PyTypeError
             end;
  '(n, ms) ← check_auto_commit group auto_commit_every_n auto_commit_every_ms;
  if request_retry_max_attempts <? 0 then Err PyValueError
  else if negb (bool_decide (auto_offset_reset ∈ [None; Some OFFSET_EARLIEST; Some OFFSET_LATEST])) then Err PyValueError
  else if (match max_buffer_size with Some max => max <? buffer_size | None => false end) then Err PyValueError
  else
    partition ← as_integral PyValueError partition;
    Ok (mkConfig topic partition group metadata commit_consumer_id commit_generation_id n ms
          fetch_size_bytes fetch_max_wait_time max_buffer_size auto_offset_reset,
        mkConsumer (mkFetching None 0 1 request_retry_max_attempts buffer_size None None)
          (mkCommitting None None [] None None None)
          (mkLifecycle None None false false None None) no_deferreds []).

(** ** The consumer as a state machine *)
Inductive event :=
| Start (offset : Z)
| Stop
| Shutdown
| Commit
| CancelDeferred (d : nat)
| RequestAnswer (a : answer)
| FetchCall
| ProcessorDone (r : res unit)
| CommitAnswer (r : res unit)
| CommitCall
| CommitTick
| LooperFailed.

Section machine.
Context (cfg : config).

(** The deferreds that the application has: those of [_commit_ds] to which the
    consumer attached something are its own. *)
Definition users (d : nat) (s : Consumer) : bool :=
  bool_decide (d < issued (cs_deferreds s))%nat &&
  forallb (λ w, negb (w_deferred w =? d)%nat || (match w_reaction w with RNone => true | _ => false end)) (_commit_ds s).

(** The fuel of the decoder of messages is always enough
    ([MessageSet.message_set_decode_terminates]). *)
Definition decodes (r : fetched) : bool :=
  match (frr_messages r).2 with Err OutOfFuel => false | _ => true end.

Definition answer_decodes (a : answer) : bool :=
  match a with AFetched rs => forallb decodes rs | _ => true end.

Definition answer_fits (a : answer) (s : Consumer) : bool :=
  answer_decodes a &&
  match _request_d s, a with
  | Some RFetch, (AFetched _ | AFailed _) | Some (ROffset | ROffsetFetch), (AOffsets _ | AFailed _) => true
  | _, _ => false
  end.

Definition environment_fits (env : environment) : bool :=
  match request_cancelled env with Some a => answer_decodes a | None => true end.

Definition enabled (env : environment) (e : event) (s : Consumer) : bool :=
  environment_fits env &&
  match e with
  | CancelDeferred d => users d s
  | RequestAnswer a => answer_fits a s
  | FetchCall => match _retry_call s with Some (CallPending _) => true | _ => false end
  | ProcessorDone _ => bool_decide (is_Some (_processor_d s))
  | CommitAnswer _ => bool_decide (is_Some (_commit_req s))
  | CommitCall => match _commit_call s with Some (CallPending _) => true | _ => false end
  | CommitTick | LooperFailed => match _commit_looper s with Some (LoopRunning _) => true | _ => false end
  | Start _ | Stop | Shutdown | Commit => true
  end.

Definition handle (env : environment) (e : event) : proc exn Consumer unit :=
  match e with
  | Start offset => _ ← start cfg offset; mret tt
  | Stop => stop cfg env
  | Shutdown => _ ← shutdown cfg env; mret tt
  | Commit => _ ← commit cfg RNone RNone; mret tt
  | CancelDeferred d => cancel_by_user d
  | RequestAnswer a => request_answered cfg env a
  | FetchCall => fetch_call cfg
  | ProcessorDone r => processor_ended cfg env (stop cfg env) r
  | CommitAnswer r => commit_answered cfg (stop cfg env) r
  | CommitCall => commit_retry_call
  | CommitTick => _auto_commit cfg false
  | LooperFailed => pmodify _commit_timer_failed
  end.

Definition step (env : environment) (e : event) (s : Consumer) : Consumer := (handle env e s).1.

Inductive reachable (s0 : Consumer) : Consumer → Prop :=
| reach_init : reachable s0 s0
| reach_step env e s : reachable s0 s → enabled env e s = true → reachable s0 (step env e s).
End machine.
