(* ===== verification/ConsumerSettings.v ===== *)
(** [Consumer.__init__] ([afkak/consumer.py]): which arguments make a consumer,
    and which settings it then has. *)
From S2P Require Import Prelude Common PyBytes Util KafkaCodec Deferred Consumer.
Local Open Scope Z_scope.

(** The settings of a consumer, in terms of the arguments they come from. *)
Definition group_named (group : option pyval) (name : option text) : Prop :=
  match group with
  | None => name = None
  | Some g => ∃ t, name = Some t ∧ (g = VStr t ∨ ∃ b, g = VBytes b ∧ utf8_decode b = Ok t)
  end.

Definition given (default : Z) (arg : option pynum) (z : Z) : Prop :=
  arg = Some (NInt z) ∨ (arg = None ∧ z = default).

Definition auto_commit_set (group : option text) (every_n every_ms : option pynum) (n ms : option Z) : Prop :=
  match group with
  | Some (_ :: _) =>
    ∃ n' ms', given AUTO_COMMIT_MSG_COUNT every_n n' ∧ given AUTO_COMMIT_INTERVAL every_ms ms' ∧
              0 ≤ n' ∧ 0 ≤ ms' ∧ n = Some n' ∧ ms = Some ms'
  | _ => pynum_true every_n = false ∧ pynum_true every_ms = false ∧ n = None ∧ ms = None
  end.

Definition idle_consumer (attempts buffer : Z) : Consumer :=
  mkConsumer (mkFetching None 0 1 attempts buffer None None) (mkCommitting None None [] None None None)
    (mkLifecycle None None false false None None) no_deferreds [].

Definition type_or_value_error (e : exn) : Prop := e = PyTypeError ∨ e = PyValueError ∨ e = PyUnicodeDecodeError.

Lemma coerce_topic_iff t name : _coerce_topic t = Ok name ↔ t = VStr name ∧ 1 ≤ len name ≤ 249.
Proof.
  destruct t as [s|b|]; cbn; [|by split; [|intros [? _]]..].
  destruct (Z.ltb_spec (len s) 1); [split; [done|intros [[= ->] ?]; lia]|].
  destruct (Z.ltb_spec 249 (len s)); [split; [done|intros [[= ->] ?]; lia]|].
  split; [intros [= ->]; split; [done|lia]|by intros [[= ->] _]].
Qed.

Lemma coerce_topic_err t e : _coerce_topic t = Err e → type_or_value_error e.
Proof.
  unfold type_or_value_error. destruct t as [s|b|]; cbn; [|intros [= <-]; tauto..].
  destruct (len s <? 1); [intros [= <-]; tauto|]. destruct (249 <? len s); [intros [= <-]; tauto|done].
Qed.

Definition coerce_group (group : option pyval) : res (option text) :=
  match group with Some g => g ← _coerce_consumer_group g; Ok (Some g) | None => Ok None end.

Lemma coerce_group_iff group name : coerce_group group = Ok name ↔ group_named group name.
Proof.
  destruct group as [[s|b|]|]; cbn.
  - split; [intros [= <-]; by exists s; split; [|left]|]. intros (t & -> & [[= ->]|(b & ? & _)]); done.
  - unfold mbind, result_bind. destruct (utf8_decode b) as [t|e] eqn:Hb.
    + split; [intros [= <-]; exists t; split; [done|by right; exists b]|].
      intros (t' & -> & [?|(b' & [= <-] & Hb')]); [done|]. rewrite Hb in Hb'. by injection Hb' as ->.
    + split; [done|]. intros (t' & -> & [?|(b' & [= <-] & Hb')]); congruence.
  - split; [done|]. intros (t & _ & [?|(b & ? & _)]); done.
  - split; [by intros [= <-]|by intros ->].
Qed.

Lemma coerce_group_err group e : coerce_group group = Err e → type_or_value_error e.
Proof.
  unfold type_or_value_error. destruct group as [[s|b|]|]; cbn; try done.
  - unfold mbind, result_bind. destruct (utf8_decode b) eqn:Hb; [done|]. intros [= <-].
    right. right. by eapply utf8_decode_err.
  - intros [= <-]. by left.
Qed.

Lemma given_iff d arg z : as_integral PyValueError (default (NInt d) arg) = Ok z ↔ given d arg z.
Proof.
  unfold given. destruct arg as [[x|b]|]; cbn; split.
  - intros [= ->]. by left.
  - by intros [[= ->]|[? _]].
  - done.
  - by intros [[=]|[? _]].
  - intros [= <-]. by right.
  - by intros [?|[_ ->]].
Qed.

Lemma as_integral_err e x e' : as_integral e x = Err e' → e' = e.
Proof. by destruct x; [|intros [= <-]]. Qed.

Lemma no_auto_commit_iff every_n every_ms n ms :
  (if pynum_true every_ms || pynum_true every_n then Err PyValueError else Ok (None, None) : res (option Z * option Z)) = Ok (n, ms) ↔
  pynum_true every_n = false ∧ pynum_true every_ms = false ∧ n = None ∧ ms = None.
Proof. destruct (pynum_true every_ms), (pynum_true every_n); naive_solver. Qed.

Lemma check_auto_commit_iff group every_n every_ms n ms :
  check_auto_commit group every_n every_ms = Ok (n, ms) ↔ auto_commit_set group every_n every_ms n ms.
Proof.
  unfold check_auto_commit, auto_commit_set. destruct group as [[|c g]|]; [apply no_auto_commit_iff| |apply no_auto_commit_iff].
  unfold mbind, result_bind. split.
  - destruct (as_integral _ (default _ every_n)) as [n'|] eqn:Hn; [|done].
    destruct (as_integral _ (default _ every_ms)) as [ms'|] eqn:Hms; [|done].
    destruct (_ || _) eqn:Hneg; [done|]. apply orb_false_iff in Hneg as [?%Z.ltb_ge ?%Z.ltb_ge].
    intros [= <- <-]. exists n', ms'. split_and!; [by apply given_iff..|done|done|done|done].
  - intros (n' & ms' & Hn%given_iff & Hms%given_iff & ? & ? & -> & ->). rewrite Hn, Hms.
    by rewrite !(proj2 (Z.ltb_ge _ _)).
Qed.

Lemma check_auto_commit_err group every_n every_ms e :
  check_auto_commit group every_n every_ms = Err e → e = PyValueError.
Proof.
  unfold check_auto_commit. destruct group as [[|c g]|]; [destruct (_ || _); by intros [=]| |destruct (_ || _); by intros [=]].
  unfold mbind, result_bind. destruct (as_integral _ _) eqn:Hn; [|intros [= <-]; by eapply as_integral_err].
  destruct (as_integral _ (default _ every_ms)) eqn:Hms; [|intros [= <-]; by eapply as_integral_err].
  by destruct (_ || _); intros [=].
Qed.

Definition check_metadata (metadata : option pyval) : res (option bytes) :=
  match metadata with None => Ok None | Some (VBytes b) => Ok (Some b) | Some _ => Err PyTypeError end.

Lemma check_metadata_iff metadata m : check_metadata metadata = Ok m ↔ metadata = VBytes <$> m.
Proof. destruct metadata as [[]|], m; cbn; naive_solver. Qed.

