(* ===== verification/ConsumerInvariant.v ===== *)
(** What stays true of a [Consumer], whatever is called and whatever its
    operations raise. Statements on methods that may raise are triples: of the
    state before, and of the state after if the method returns or raises. *)
From S2P Require Import Prelude Common PyBytes Util KafkaCodec Deferred Consumer.
Local Open Scope Z_scope.

(** ** Triples *)

(** From a state in [P], [m] ends in [Q], or raises in a state in [X]; it does
    not run out of fuel. *)
Definition triple {A} (P : Consumer → Prop) (m : cmeth A) (Q : A → Consumer → Prop) (X : Consumer → Prop) : Prop :=
  ∀ s, P s → match m s with
             | (s', Ok a) => Q a s'
             | (s', Err e) => e ≠ OutOfFuel ∧ X s'
             end.

Abbreviation safe P m := (triple P%function m (λ _, P%function) P%function).

Section triples.
Context {A : Type}.
Implicit Types (P X : Consumer → Prop) (m : cmeth A) (Q : A → Consumer → Prop).

Lemma triple_ret P (a : A) X : triple P (mret a) (λ _, P) X.
Proof. by intros s Hs. Qed.
Lemma triple_get P X (f : Consumer → A) : triple P (pget f) (λ a s, P s ∧ a = f s) X.
Proof. by intros s Hs. Qed.
Lemma triple_raise P Q (e : exn) : e ≠ OutOfFuel → triple P (praise e) Q P.
Proof. by intros He s Hs. Qed.
Lemma triple_pre P P' m Q X : (∀ s, P s → P' s) → triple P' m Q X → triple P m Q X.
Proof. intros Hp Hm s Hs. apply Hm, Hp, Hs. Qed.
Lemma triple_post P m Q Q' X X' :
  triple P m Q' X' → (∀ a s, Q' a s → Q a s) → (∀ s, X' s → X s) → triple P m Q X.
Proof. intros Hm Hq Hx s Hs. specialize (Hm s Hs). destruct (m s) as [s' [a|e]]; [by apply Hq|]. destruct Hm. auto. Qed.
Lemma triple_exists P m Q X {B} (P' : B → Consumer → Prop) :
  (∀ s, P s → ∃ b, P' b s) → (∀ b, triple (P' b) m Q X) → triple P m Q X.
Proof. intros Hp Hm s Hs. destruct (Hp s Hs) as [b Hb]. by apply (Hm b). Qed.
Lemma triple_and P m Q X P' : triple P m Q X → keeps P' m →
  triple (λ s, P s ∧ P' s) m (λ a s, Q a s ∧ P' s) (λ s, X s ∧ P' s).
Proof.
  intros Hm Hk s [Hs Hs']. specialize (Hm s Hs). specialize (Hk s Hs'). destruct (m s) as [s' [a|e]]; cbn in Hk; tauto.
Qed.
End triples.

Lemma triple_bind {A B} P (m : cmeth A) Q (f : A → cmeth B) R X :
  triple P m Q X → (∀ a, triple (Q a) (f a) R X) → triple P (m ≫= f) R X.
Proof.
  intros Hm Hf s Hs. specialize (Hm s Hs). unfold mbind, proc_bind.
  destruct (m s) as [s' [a|e]]; [by apply Hf|done].
Qed.

Lemma triple_modify P Q X f : (∀ s, P s → Q (f s)) → triple P (pmodify f) (λ _ : unit, Q) X.
Proof. intros Hf s Hs. exact (Hf s Hs). Qed.

Lemma triple_attempt {A} P (m : cmeth A) Q X I X' :
  triple P m Q X → (∀ a s, Q a s → I s) → (∀ s, X s → I s) →
  triple P (attempt m) (λ r s, I s ∧ r ≠ Err OutOfFuel) X'.
Proof.
  intros Hm Hq Hx s Hs. specialize (Hm s Hs). unfold attempt.
  destruct (m s) as [s' [a|e]]; [split; [by eapply Hq|done]|]. destruct Hm as [He Hs']. apply Hx in Hs'.
  destruct e; try done; by split.
Qed.

Lemma triple_for {X} (I E : Consumer → Prop) (xs : list X) (body : X → cmeth unit) :
  (∀ x, x ∈ xs → triple I (body x) (λ _, I) E) → triple I (pfor_each xs body) (λ _, I) E.
Proof.
  induction xs as [|x xs IH]; intros Hb; [intros s Hs; exact Hs|]. cbn [pfor_each].
  eapply triple_bind; [apply Hb; left|]. intros ?. apply IH. intros y Hy. apply Hb. by right.
Qed.

(** Safe procedures made of safe ones. *)
Section safe.
Context (I : Consumer → Prop).

Lemma safe_bind {A B} (m : cmeth A) (f : A → cmeth B) : safe I m → (∀ a, safe I (f a)) → safe I (m ≫= f).
Proof. intros Hm Hf. by eapply triple_bind. Qed.
Lemma safe_ret {A} (a : A) : safe I (mret a : cmeth A).
Proof. apply triple_ret. Qed.
Lemma safe_get {A} (f : Consumer → A) : safe I (pget f).
Proof. by intros s Hs. Qed.
Lemma safe_raise {A} (e : exn) : e ≠ OutOfFuel → safe I (praise e : cmeth A).
Proof. apply triple_raise. Qed.
Lemma safe_modify f : (∀ s, I s → I (f s)) → safe I (pmodify f).
Proof. apply triple_modify. Qed.
Lemma safe_attempt {A} (m : cmeth A) : safe I m → safe I (attempt m).
Proof.
  intros Hm. eapply triple_post; [by eapply triple_attempt|by intros ? ? [? _]|done].
Qed.
Lemma safe_for {X} (xs : list X) (body : X → cmeth unit) : (∀ x, x ∈ xs → safe I (body x)) → safe I (pfor_each xs body).
Proof. apply triple_for. Qed.
Lemma safe_finally {A} (m : cmeth A) final : safe I m → safe I final → safe I (finally m final).
Proof.
  intros Hm Hf s Hs. specialize (Hm s Hs). unfold finally. destruct (m s) as [s1 r].
  assert (I s1) as H1 by (by destruct r as [|]; [|destruct Hm]). specialize (Hf s1 H1).
  destruct (final s1) as [s2 [[]|e]]; [|done]. destruct r as [a|e]; [done|]. by destruct Hm.
Qed.
End safe.

Ltac safe_steps :=
  repeat first
    [ lazymatch goal with
      | |- triple ?P (_ ≫= _) _ _ => apply safe_bind; [|intros ?]
      | |- triple ?P (pmodify _) _ _ => apply safe_modify
      | |- triple ?P (mret _) _ _ => apply safe_ret
      | |- triple ?P (pget _) _ _ => apply safe_get
      | |- triple ?P (praise _) _ _ => apply safe_raise; done
      | |- triple ?P (attempt _) _ _ => apply safe_attempt
      end
    | solve [auto with safe]
    | case_match ].
Create HintDb safe.

Lemma unhandled_ends P I m X :
  triple P m (λ _, I) I → (∀ e s, I s → I (emit e s)) → triple P (unhandled m) (λ _, I) X.
Proof.
  intros Hm He s Hs. specialize (Hm s Hs). unfold unhandled, attempt, mbind, proc_bind.
  destruct (m s) as [s' [a|e]]; [done|]. destruct Hm as [Hne Hi].
  assert (I (emit (EUnhandled e) s')) by auto. by destruct e.
Qed.

Lemma attempt_ends {A} P I (m : cmeth A) X : triple P m (λ _, I) I → triple P (attempt m) (λ _, I) X.
Proof.
  intros Hm. eapply triple_post; [eapply (triple_attempt _ _ _ _ I X); [exact Hm|done|done]|by intros ? ? [? _]|done].
Qed.

(** ** The invariant *)

(** How many of the deferreds that the consumer waits for lead to the end of
    the shutdown in progress. *)
Definition ends_shutdown (r : reaction) : nat :=
  match r with RShutdownCommit | RCommitAndStop => 1 | _ => 0 end.
Definition tokens (s : Consumer) : nat :=
  sum_list_with (λ w, ends_shutdown (w_reaction w)) (_commit_ds s) +
  match _processor_d s with Some b => if then_commit_and_stop b then 1 else 0 | None => 0 end.

(** None does; none does but the caller, who has just taken it; one may. *)
Inductive tok := TNone | TTaken | TAny.

Definition tok_ok (t : tok) (s : Consumer) : Prop :=
  match t with
  | TNone => tokens s = 0%nat
  | TTaken => tokens s = 0%nat ∧ _shutdown_d s ≠ None
  | TAny => (tokens s ≤ 1)%nat ∧ (tokens s = 1%nat → _shutdown_d s ≠ None)
  end.

Definition waiting (s : Consumer) : list nat := w_deferred <$> _commit_ds s.

(** What is known of a stop: nothing; the consumer is stopping; so it is, and
    what it still cancels can be cancelled. *)
Inductive phase := Anyhow | Stopping | Callable (d todo : nat).

(** The consumer was started, with [d], and keeps no call that is over among the
    last of the three that are [todo]. *)
Definition callable (d todo : nat) (s : Consumer) : Prop :=
  _start_d s = Some d ∧ ((3 ≤ todo)%nat → _retry_call s ≠ Some CallOver) ∧
  ((2 ≤ todo)%nat → _commit_call s ≠ Some CallOver) ∧ ((1 ≤ todo)%nat → _commit_looper s ≠ Some LoopStopped).

(** The deferreds of those who wait for a commit, and those a caller holds
    meanwhile, of which some are known to be pending, can be fired, each once, and differ from those of [start] and
    [shutdown]; so can that of [shutdown]; who waits for a commit waits for a request or for its retry.
    [cap] bounds their number, [st] says what is known of its stopping, [np] that
    no response waits for the block in progress. *)
Record inv (held : list (nat * bool)) (t : tok) (cap : option nat) (st : phase) (np : bool) (s : Consumer) : Prop := {
  i_wf : deferreds_wf (cs_deferreds s);
  i_nodup : NoDup (held.*1 ++ waiting s);
  i_firable d : d ∈ held.*1 ++ waiting s → firable d (cs_deferreds s);
  i_pending d : (d, true) ∈ held → outstanding d (cs_deferreds s);
  i_own d : _start_d s = Some d ∨ _shutdown_d s = Some d →
    (d < issued (cs_deferreds s))%nat ∧ d ∉ held.*1 ++ waiting s;
  i_shutdown d : _shutdown_d s = Some d → firable d (cs_deferreds s) ∧ _start_d s ≠ Some d;
  i_tok : tok_ok t s;
  i_waiting : _commit_ds s ≠ [] → _commit_req s ≠ None ∨ ∃ a, _commit_call s = Some (CallPending a);
  i_cap : match cap with Some n => (length (_commit_ds s) ≤ n)%nat | None => True end;
  i_st : st ≠ Anyhow → _stopping s = true;
  i_callable d todo : st = Callable d todo → callable d todo s;
  i_blocked responses rs : _msg_block_d s = Some responses → rs ∈ responses →
    forallb decodes rs = true ∧ np = false;
}.

Definition consumer_wf : Consumer → Prop := inv [] TAny None Anyhow false.

Lemma tok_weaken t s : tok_ok t s → tok_ok TAny s.
Proof. destruct t; cbn; [intros ->; split; lia|intros [-> ?]; split; [lia|done]|done]. Qed.

Lemma inv_any held t cap st np s : inv held t cap st np s → inv held TAny None Anyhow false s.
Proof.
  intros []. split; try done; [by eapply tok_weaken|]. intros responses rs Hr Hrs. by destruct (i_blocked0 responses rs Hr Hrs).
Qed.

(** Changes that have nothing to do with it. *)
Definition same_state (s s' : Consumer) : Prop :=
  _commit_ds s' = _commit_ds s ∧ _commit_req s' = _commit_req s ∧ _commit_call s' = _commit_call s ∧ cs_deferreds s' = cs_deferreds s ∧
  _start_d s' = _start_d s ∧ _shutdown_d s' = _shutdown_d s ∧ _stopping s' = _stopping s ∧
  _processor_d s' = _processor_d s ∧ _msg_block_d s' = _msg_block_d s ∧
  (_retry_call s' = _retry_call s ∨ _retry_call s' ≠ Some CallOver) ∧
  (_commit_looper s' = _commit_looper s ∨ _commit_looper s' ≠ Some LoopStopped).
Ltac same_state := split_and!; first [done|by left|by right].

Lemma inv_same held t cap st np s s' : same_state s s' → inv held t cap st np s → inv held t cap st np s'.
Proof.
  intros (Hc & Hr & Hl & Hd & H1 & H2 & H3 & H4 & H5 & H6 & H7) [].
  split; unfold waiting in *; rewrite ?Hc, ?Hr, ?Hl, ?Hd, ?H1, ?H2, ?H3, ?H5; try done.
  - unfold tok_ok, tokens in *. by rewrite Hc, H2, H4.
  - intros d todo ->. destruct (i_callable0 d todo eq_refl) as (G1 & G2 & G3 & G4). unfold callable. rewrite Hl, H1.
    split_and!; [done| |done|]; [destruct H6 as [->|?]|destruct H7 as [->|?]]; auto.
Qed.

Ltac inv_same := intros ? ?; eapply inv_same; [|eassumption]; same_state.
#[export] Hint Extern 2 => lazymatch goal with |- ∀ s, inv _ _ _ _ _ s → inv _ _ _ _ _ _ => inv_same end : safe.

Lemma inv_emit held t cap st np e s : inv held t cap st np s → inv held t cap st np (emit e s).
Proof. apply inv_same. same_state. Qed.
#[export] Hint Resolve inv_emit : safe.

(** ** Fetching, processing and committing *)

Lemma fire_other {A} d (o : outcome A) ds ds' :
  deferreds_wf ds → (d < issued ds)%nat → fire d o ds = Ok ds' →
  deferreds_wf ds' ∧ issued ds' = issued ds ∧ (∀ d', d' ≠ d → firable d' ds → firable d' ds') ∧
  (∀ d', d' ≠ d → outstanding d' ds → outstanding d' ds').
Proof.
  intros Hwf Hd Hf. split; [by eapply fire_wf|]. split; [|split; [|intros; by eapply fire_effect]].
  - unfold fire in Hf. destruct (called d ds); [case_decide|]; by simplify_eq.
  - intros d' Hne. apply (fire_all_keeps [d] o ds ds' d'); [|set_solver].
    unfold fire_all. cbn. by rewrite Hf.
Qed.

(** *** Commit requests *)

(** All is well once a commit request is outstanding. *)
Definition inv_but held t cap st np (s : Consumer) : Prop := ∀ r, inv held t cap st np (with_commit_req (Some r) s).

Section sends.
Context (held : list (nat * bool)) (t : tok) (cap : option nat) (st : phase) (np : bool).
#[local] Abbreviation J := (inv held t cap st np).

Lemma inv_inv_but s : J s → inv_but held t cap st np s.
Proof using Type. intros [] r. split; try done. by left. Qed.

Lemma inv_but_pending s a : inv_but held t cap st np s → J (with_commit_call (Some (CallPending a)) s).
Proof using Type.
  intros Hi. destruct (Hi (mkCommitRequest None 0 0)). split; try done.
  - intros _. right. by exists a.
  - intros d todo Hd. by destruct (i_callable0 d todo Hd) as (? & ? & ? & ?).
Qed.

Lemma send_commit_request_safe d n : triple (inv_but held t cap st np) (_send_commit_request d n) (λ _, J) J.
Proof using Type.
  unfold _send_commit_request. eapply triple_bind; [apply triple_get|]. intros c.
  eapply triple_bind with (Q := λ _, inv_but held t cap st np).
  - destruct c as [[a|]|]; [by intros s [Hi _]| |by intros s [Hi _]].
    apply triple_modify. intros s [Hi _] r. destruct (Hi r). split; try done; [by left|].
    intros d' todo Hd. by destruct (i_callable0 d' todo Hd) as (? & ? & ? & ?).
  - intros ?. eapply triple_bind; [apply triple_get|]. intros [r|].
    + intros s [Hi Hr]. split; [done|]. specialize (Hi r).
      replace s with (with_commit_req (Some r) s); [done|]. destruct s as [f [] l d' e]. cbn in *. by rewrite Hr.
    + eapply triple_bind; [apply triple_get|]. intros offset. cbn. apply triple_modify.
      intros s [[Hi _] _]. eapply inv_same; [|exact (Hi (mkCommitRequest offset d n))]. same_state.
Qed.

Lemma reset_looper_safe : safe J reset_looper.
Proof using Type. unfold reset_looper. safe_steps. Qed.
End sends.


Section operations.
Context (cfg : config) (env : environment).
Context (held : list (nat * bool)) (t : tok) (cap : option nat) (st : phase) (np : bool).
Hypothesis (Hcap : cap ≠ None → st ≠ Anyhow).
#[local] Abbreviation J := (inv held t cap st np).

(** Firing a deferred that nobody in the consumer waits with. *)
Lemma settle_other d o :
  triple (λ s, J s ∧ (d < issued (cs_deferreds s))%nat ∧ (d ∉ held.*1 ++ waiting s) ∧ _shutdown_d s ≠ Some d)
    (settle d o) (λ _, J) J.
Proof using Type.
  intros s (Hi & Hd & Hn & Hs). unfold settle. destruct (fire d o (cs_deferreds s)) as [ds|e] eqn:Hf.
  - destruct Hi. destruct (fire_other d o _ _ i_wf0 Hd Hf) as (H1 & H2 & H3 & H4). split; unfold waiting in *; cbn; try done.
    + intros d' Hd'. apply H3; [|by apply i_firable0]. intros ->. done.
    + intros d' Hd'. apply H4; [|by apply i_pending0]. intros ->. apply Hn, elem_of_app. left. by apply (list_elem_of_fmap_2 fst) in Hd'.
    + rewrite H2. done.
    + intros d' Hd'. destruct (i_shutdown0 d' Hd'). split; [apply H3; [congruence|done]|done].
  - split; [|done]. unfold fire in Hf. destruct (called d _); [case_decide|]; by simplify_eq.
Qed.

Lemma settle_start d o : triple (λ s, J s ∧ _start_d s = Some d) (settle d o) (λ _, J) J.
Proof using Type.
  eapply triple_pre; [|apply settle_other]. intros s [Hi Hd]. split; [done|].
  destruct (i_own _ _ _ _ _ _ Hi d (or_introl Hd)). split_and!; [done..|].
  intros Hs. by apply (i_shutdown _ _ _ _ _ _ Hi) in Hs as [].
Qed.

Lemma start_errback_safe e : safe J (start_errback e).
Proof using Type.
  unfold start_errback. eapply triple_bind; [apply triple_get|]. intros [d|]; cbn.
  - eapply triple_pre; [|apply settle_start]. intros s [Hi Hd]. by split.
  - intros s [Hi _]. by split.
Qed.

Lemma handle_auto_commit_error_safe e : safe J (_handle_auto_commit_error e).
Proof using Type.
  unfold _handle_auto_commit_error. eapply triple_bind; [apply triple_get|]. intros [d|]; cbn; [|by intros s [Hi _]].
  eapply triple_bind; [apply triple_get|]. intros c. cbn. destruct c.
  - by intros s [[Hi _] _].
  - eapply triple_pre; [|apply settle_start]. by intros s [[Hi Hd] _].
Qed.

Lemma handle_processor_error_safe e : safe J (_handle_processor_error e).
Proof using Type.
  unfold _handle_processor_error. eapply triple_bind; [apply safe_get|]. intros stopping.
  eapply triple_bind; [apply triple_get|]. intros d. cbn.
  destruct (stopping && is_cancelled e); [by intros s [Hi _]|]. destruct d as [d|]; [|by intros s [Hi _]].
  eapply triple_pre; [|apply settle_start]. by intros s [Hi Hd].
Qed.

#[local] Hint Resolve start_errback_safe handle_auto_commit_error_safe handle_processor_error_safe : safe.

Lemma unhandled_safe m : safe J m → safe J (unhandled m).
Proof using Type.
  intros Hm. unfold unhandled. apply safe_bind; [by apply safe_attempt|]. intros [[]|e]; safe_steps.
Qed.

Lemma retry_fetch_safe now : safe J (_retry_fetch now).
Proof using Type. unfold _retry_fetch, schedule_fetch. safe_steps. Qed.

Lemma send_fetch_safe : safe J (send_fetch cfg).
Proof using Type. unfold send_fetch, send_request. safe_steps. Qed.
#[local] Hint Resolve unhandled_safe retry_fetch_safe send_fetch_safe : safe.

Lemma do_fetch_safe : safe J (_do_fetch cfg).
Proof using Type. unfold _do_fetch. safe_steps. Qed.
#[local] Hint Resolve do_fetch_safe : safe.

Definition adds (r : reaction) (t t' : tok) : Prop :=
  match ends_shutdown r with O => t' = t | _ => t = TTaken ∧ t' = TAny end.

Lemma adds_tok r t' s w :
  adds r t t' → w_reaction w = r → tok_ok t s → tok_ok t' (with_commit_ds (_commit_ds s ++ [w]) s).
Proof using Type.
  intros Ha Hw Ht. assert (tokens (with_commit_ds (_commit_ds s ++ [w]) s) = tokens s + ends_shutdown r)%nat as Hn.
  { unfold tokens. cbn. rewrite sum_list_with_app. cbn. rewrite Hw. lia. }
  unfold adds in Ha. destruct (ends_shutdown r) as [|[|n]] eqn:He.
  - subst t'. rewrite Nat.add_0_r in Hn. unfold tok_ok in *. by rewrite Hn.
  - destruct Ha as [-> ->]. cbn in Ht. destruct Ht as [H0 Hd]. cbn [tok_ok]. rewrite Hn, H0. by split.
  - by destruct r.
Qed.

Lemma add_waiter_all r t' : adds r t t' → cap = None →
  ∀ X, triple J (add_waiter r) (λ _, inv_but held t' None st np) X.
Proof using Type.
  intros Ha Hc X. unfold add_waiter, new_d. intros s Hi. cbn.
  set (d := issued (cs_deferreds s)). intros x. destruct Hi. unfold waiting in *.
  assert (d ∉ held.*1 ++ (w_deferred <$> _commit_ds s)) as Hfresh.
  { intros Hin. apply i_firable0 in Hin. pose proof i_wf0 as (_ & H2 & H3). destruct Hin as [[Hlt _]|Hin]; [unfold d in *; lia|].
    apply H3, H2 in Hin. unfold d in Hin. lia. }
  assert (∀ d', firable d' (cs_deferreds s) → firable d' (new_deferred (cs_deferreds s)).2) as Hkeep.
  { intros d' [Ho|Hs]; [left; apply new_deferred_outstanding; [done|by left]|by right]. }
  split; unfold waiting; cbn; rewrite ?fmap_app, ?app_assoc; cbn; try done.
  - by apply new_deferred_wf.
  - apply NoDup_app. split; [done|]. split; [|apply NoDup_singleton]. intros y Hy ->%list_elem_of_singleton. done.
  - intros y [Hy|Hy]%elem_of_app; [by apply Hkeep, i_firable0|].
    apply list_elem_of_singleton in Hy as ->. left. apply new_deferred_outstanding; [done|by right].
  - intros y Hy. apply new_deferred_outstanding; [done|left; by apply i_pending0].
  - intros y Hy. destruct (i_own0 y Hy) as [H1 H2]. split; [lia|]. intros [?|Hin]%elem_of_app; [done|].
    apply list_elem_of_singleton in Hin as ->. unfold d in H1. lia.
  - intros y Hy. destruct (i_shutdown0 y Hy). split; [by apply Hkeep|done].
  - apply (adds_tok r t' (with_commit_req (Some x) s) (mkWaiter d r) Ha eq_refl). exact i_tok0.
  - intros _. by left.
Qed.

Lemma add_waiter_safe r t' : adds r t t' → cap = None →
  ∀ X, triple (λ s, J s ∧ _commit_ds s ≠ []) (add_waiter r) (λ _, inv held t' None st np) X.
Proof using Type.
  intros Ha Hc X s [Hi Hne]. pose proof (add_waiter_all r t' Ha Hc X s Hi) as Hw.
  unfold add_waiter, new_d in *. cbn in *. destruct (Hw (mkCommitRequest None 0 0)). split; try done.
  intros _. cbn. by apply Hi.
Qed.

Lemma commit_safe waits busy t' : adds waits t t' → adds busy t t' → cap = None →
  triple J (commit cfg waits busy)
    (λ c s, match c with CNow _ => J s | _ => inv held t' None st np s end) (inv held t' None st np).
Proof using Type.
  intros Hw Hb Hc. unfold commit. do 2 (eapply triple_bind; [apply triple_get|]; intros ?).
  eapply triple_bind; [apply triple_get|]. intros ds. cbn.
  destruct (negb (grouped cfg)); [by intros s [[[Hi _] _] _]|].
  destruct (_ || _); [by intros s [[[Hi _] _] _]|]. destruct ds as [|w ds]; cbn [is_empty].
  - eapply triple_bind; [eapply triple_pre; [|apply (add_waiter_all waits t' Hw Hc)]; by intros s [[[? _] _] _]|]. intros d.
    eapply triple_bind; [apply send_commit_request_safe|]. intros ?.
    eapply triple_bind; [apply reset_looper_safe|]. intros ?. by intros s Hi.
  - eapply triple_bind; [eapply triple_pre; [|apply (add_waiter_safe busy t' Hb Hc)]|by intros d s Hi].
    intros s [[[Hi _] _] Hds]. by rewrite <- Hds.
Qed.

Lemma auto_commit_safe by_count : safe J (_auto_commit cfg by_count).
Proof using Hcap.
  unfold _auto_commit. eapply triple_bind; [apply triple_get|]. intros off.
  eapply triple_bind; [apply triple_get|]. intros due. eapply triple_bind; [apply triple_get|]. intros ds. cbn.
  destruct (off || negb due) eqn:Hoff; [by intros s [[[? _] _] _]|].
  destruct (decide (cap = None)) as [Hc|Hc].
  2: { intros s [[[Hi Ho] _] _]. exfalso. rewrite (i_st _ _ _ _ _ _ Hi (Hcap Hc)) in Ho. cbn in Ho. by subst off. }
  assert (∀ s, inv held t None st np s → J s) as Hj by (by rewrite Hc).
  destruct ds as [|w ds]; cbn [is_empty].
  - eapply triple_bind.
    { eapply triple_pre; [|eapply triple_post; [apply (commit_safe RAutoCommit RNone t); done|done|apply Hj]].
      by intros s [[[? _] _] _]. }
    intros [[v|e]|d|d]; cbn.
    + by intros s Hi.
    + apply unhandled_safe, handle_auto_commit_error_safe.
    + intros s Hi. by apply Hj.
    + eapply triple_pre; [apply Hj|]. apply unhandled_safe, handle_auto_commit_error_safe.
  - eapply triple_bind; [eapply triple_pre; [|apply (add_waiter_safe (RRetryCommit by_count) t eq_refl Hc)]|].
    + intros s [[[Hi _] _] Hds]. split; [done|]. by rewrite <- Hds.
    + intros d s Hi. by apply Hj.
Qed.
#[local] Hint Resolve auto_commit_safe : safe.

(** *** Processing *)

Lemma inv_drop_block s : J s → J (with_processor_d None s).
Proof using Type.
  intros []. split; try done. assert (tokens (with_processor_d None s) ≤ tokens s)%nat as Hle.
  { unfold tokens. cbn. lia. }
  unfold tok_ok in *. destruct t.
  - lia.
  - destruct i_tok0. split; [lia|done].
  - destruct i_tok0 as [H1 H2]. split; [lia|]. intros Hone. apply H2. lia.
Qed.

Lemma inv_block rest offset s : J s → J (with_processor_d (Some (mkBlock rest offset false)) s).
Proof using Type.
  intros Hi%inv_drop_block. destruct Hi. by split.
Qed.

Lemma update_processed_safe offset : safe J (_update_processed_offset cfg offset).
Proof using Hcap.
  unfold _update_processed_offset. safe_steps.
Qed.
#[local] Hint Resolve update_processed_safe inv_drop_block inv_block : safe.

Lemma processor_fired_ok offset r X :
  triple (λ s, J (with_processor_d None s)) (processor_fired cfg offset r) (λ r s, J s ∧ r ≠ Err OutOfFuel) X.
Proof using Hcap.
  unfold processor_fired. eapply triple_bind with (Q := λ _, J); [by apply triple_modify|]. intros ?.
  eapply triple_bind with (Q := λ r s, J s ∧ (r ≠ Err OutOfFuel ∨ ∃ e, r = Err e)).
  { destruct r as [u|e]; [|intros s Hi; split; [done|eauto]].
    eapply triple_post; [eapply (triple_attempt _ _ (λ _, J) J J X); [apply update_processed_safe|done|done]|..]; [|done].
    intros ? s [? ?]. auto. }
  intros [[]|e]; [by intros s [Hi _]|]. eapply triple_pre; [intros s [Hi _]; exact Hi|].
  eapply triple_attempt; [apply handle_processor_error_safe|done|done].
Qed.

Lemma inv_no_block s : J s → J (with_msg_block_d None s).
Proof using Type. intros []. by split. Qed.
Lemma inv_new_block s : J s → J (with_msg_block_d (Some []) s).
Proof using Type. intros []. split; try done. intros rs r [= <-] ?%elem_of_nil. done. Qed.
#[local] Hint Resolve inv_no_block inv_new_block : safe.

(** A handler of responses is called for those that wait. *)
Definition handles (handle : list fetched → cmeth unit) : Prop :=
  np = false → ∀ rs, forallb decodes rs = true → safe J (handle rs).

Lemma end_block_safe handle : handles handle → safe J (end_block handle).
Proof using Type.
  intros Hh s Hi. unfold end_block, pget. unfold mbind at 1, proc_bind at 1.
  destruct (_msg_block_d s) as [responses|] eqn:Hr; [|done].
  apply (safe_bind J (pmodify (with_msg_block_d None)) (λ _, unhandled (pfor_each responses handle))); [..|done].
  - apply safe_modify. auto with safe.
  - intros ?. apply unhandled_safe, safe_for. intros rs Hrs.
    destruct (i_blocked _ _ _ _ _ _ Hi responses rs Hr Hrs) as [Hd Hn]. by apply Hh.
Qed.

(** The processor is given a block, whose deferred fires at once or waits. *)
Lemma process_loop_safe handle : handles handle → ∀ fuel messages, safe J (process_loop cfg env fuel handle messages).
Proof using Hcap.
  intros Hh. pose proof (end_block_safe handle Hh) as He. induction fuel as [|fuel IH]; intros messages; cbn [process_loop].
  { apply safe_bind; [apply safe_get|]. intros shutting. exact He. }
  apply safe_bind; [apply safe_get|]. intros shutting. destruct (last _) as [m|]; [|exact He].
  destruct shutting; [exact He|]. cbv zeta.
  apply safe_bind; [safe_steps|]. intros ?. apply safe_bind; [safe_steps|]. intros ?.
  eapply triple_bind with (Q := λ r s, J s ∧ r ≠ Some (Err OutOfFuel)).
  { destruct (processor env _) as [r|]; [|by intros s Hi].
    eapply triple_bind; [eapply triple_pre; [apply inv_drop_block|apply processor_fired_ok]|]. intros r' s [Hi Hr]. split; [done|congruence]. }
  intros r. eapply triple_bind; [apply triple_get|]. intros stopped. cbn.
  destruct r as [[[]|e]|].
  - eapply triple_pre; [by intros s [[? _] _]|]. destruct stopped; [exact He|apply IH].
  - destruct stopped.
    + eapply triple_pre; [by intros s [[? _] _]|]. apply safe_bind; [safe_steps|]. intros ?. exact He.
    + intros s [[Hi Hr] _]. split; [congruence|done].
  - eapply triple_pre; [by intros s [[? _] _]|]. destruct stopped; [|by intros s Hi].
    apply safe_bind; [safe_steps|]. intros ?. eapply triple_bind; [eapply triple_pre; [apply inv_drop_block|apply processor_fired_ok]|]. intros r.
    eapply triple_pre; [by intros s [? _]|]. apply safe_bind; [destruct r; safe_steps|]. intros ?. exact He.
Qed.
End operations.

#[export] Hint Resolve start_errback_safe handle_auto_commit_error_safe handle_processor_error_safe
  unhandled_safe retry_fetch_safe send_fetch_safe do_fetch_safe auto_commit_safe inv_drop_block inv_block
  update_processed_safe inv_no_block inv_new_block reset_looper_safe : safe.

(** ** Answers of the client *)

Section answers.
Context (cfg : config) (env : environment).
Context (held : list (nat * bool)) (t : tok) (cap : option nat) (st : phase).
Hypothesis (Hcap : cap ≠ None → st ≠ Anyhow).
#[local] Abbreviation J := (inv held t cap st false).

Lemma inv_fresh_block s : J s → inv held t cap st true (with_msg_block_d (Some []) s).
Proof using Type. intros []. split; try done. intros responses rs [= <-] ?%elem_of_nil. done. Qed.

Lemma inv_unblock s : inv held t cap st true s → J s.
Proof using Type. intros []. split; try done. intros responses rs H1 H2. by destruct (i_blocked0 responses rs H1 H2). Qed.

(** A new block is processed without a response that waits for it. *)
Lemma process_messages_safe handle messages :
  safe J (_ ← pmodify (with_msg_block_d (Some [])); unhandled (_process_messages cfg env handle messages)).
Proof using Hcap.
  eapply triple_bind with (Q := λ _, inv held t cap st true).
  { apply triple_modify. apply inv_fresh_block. }
  intros ?. eapply triple_post; [|intros ? ?; apply inv_unblock|apply inv_unblock].
  apply unhandled_safe, process_loop_safe; [done|]. intros Hn. done.
Qed.

Lemma collect_decodes responses : ∀ offset,
  forallb decodes responses = true → (collect_messages cfg responses offset).2 ≠ Err OutOfFuel.
Proof using Type.
  induction responses as [|resp responses IH]; intros offset; [done|]. cbn [forallb collect_messages].
  intros [Hd Hr]%andb_prop. destruct (frr_partition resp =? partition cfg); [|by apply IH].
  destruct (wanted cfg _ _) as [ms offset']. unfold decodes in Hd. destruct (frr_messages resp).2 as [u|e]; [|by destruct e].
  specialize (IH offset' Hr). destruct (collect_messages cfg responses offset') as [[ms' offset''] r]. done.
Qed.

Lemma fetch_next_safe r : r ≠ Err OutOfFuel → safe J (fetch_next cfg r).
Proof using Type.
  intros Hr. unfold fetch_next, grow_buffer. destruct r as [u|e]; [safe_steps|].
  destruct e; try (apply safe_raise; congruence). safe_steps.
Qed.

Lemma fetch_response_safe depth responses :
  forallb decodes responses = true → safe J (handle_fetch_response cfg env (S depth) responses).
Proof using Hcap.
  intros Hd. cbn [handle_fetch_response]. apply safe_bind; [safe_steps|]. intros ?.
  eapply triple_bind; [apply triple_get|]. intros [waiting|].
  - apply triple_modify. intros s [Hi Hb]. destruct Hi. symmetry in Hb. split; try done. intros ws rs [= <-] Hrs.
    apply elem_of_app in Hrs as [Hrs|Hrs%list_elem_of_singleton]; [by eapply i_blocked0|by subst].
  - eapply triple_pre; [by intros s [Hi _]; exact Hi|].
    apply safe_bind; [apply safe_get|]. intros [offset|]; [|by apply safe_raise].
    pose proof (collect_decodes responses offset Hd) as Hr.
    destruct (collect_messages cfg responses offset) as [[messages offset'] r]. cbn in Hr.
    apply safe_bind; [safe_steps|]. intros ?. apply safe_bind; [|intros []; safe_steps].
    apply safe_finally; [by apply fetch_next_safe|]. destruct (is_empty messages); [apply safe_ret|apply process_messages_safe].
Qed.

Lemma retry_or_fail_safe e : safe J (retry_or_fail e).
Proof using Type. unfold retry_or_fail. safe_steps. Qed.
#[local] Hint Resolve retry_or_fail_safe : safe.

Lemma fetch_error_safe e : safe J (_handle_fetch_error cfg e).
Proof using Type. unfold _handle_fetch_error. safe_steps. Qed.

Lemma offset_error_safe e : safe J (_handle_offset_error e).
Proof using Type. unfold _handle_offset_error. safe_steps. Qed.

Lemma offset_response_safe responses : safe J (_handle_offset_response cfg responses).
Proof using Type.
  unfold _handle_offset_response, use_offset. safe_steps. all: intros ? []; by split.
Qed.
#[local] Hint Resolve fetch_error_safe offset_error_safe offset_response_safe : safe.

Lemma request_answered_ends a X : answer_decodes a = true → triple J (request_answered cfg env a) (λ _, J) X.
Proof using Hcap.
  intros Ha. unfold request_answered. eapply triple_bind; [apply triple_get|]. intros r.
  eapply triple_pre; [intros s [Hi _]; exact Hi|].
  assert (∀ m, safe J m → triple J (unhandled m) (λ _, J) X) as Hu by (intros m Hm; apply unhandled_ends; auto with safe).
  destruct r as [[]|], a; try apply triple_ret; try (apply Hu; auto with safe).
  eapply triple_bind; [by apply attempt_ends, fetch_response_safe|]. intros [[]|e]; [apply triple_ret|].
  apply Hu. auto with safe.
Qed.

Lemma request_answered_safe a : answer_decodes a = true → safe J (request_answered cfg env a).
Proof using Hcap. apply request_answered_ends. Qed.
End answers.

#[export] Hint Resolve retry_or_fail_safe fetch_error_safe offset_error_safe offset_response_safe request_answered_safe : safe.
