(* ===== verification/ConsumerSafety.v ===== *)
(** The invariant of a [Consumer] through the end of a commit, [stop] and
    [shutdown], whose callbacks call one another, and through every event. *)
From S2P Require Import Prelude Common PyBytes Util KafkaCodec Deferred Consumer ConsumerInvariant.
Local Open Scope Z_scope.

(** ** Changes of the invariant's parameters *)

Section changes.
Context (held : list (nat * bool)) (cap : option nat) (st : phase) (np : bool).

Lemma inv_tok t t' s : (∀ s, tok_ok t s → tok_ok t' s) → inv held t cap st np s → inv held t' cap st np s.
Proof. intros Ht []. split; try done. by apply Ht. Qed.

Lemma inv_st t s : inv held t cap st np s → inv held t cap Anyhow np s.
Proof. intros []. by split. Qed.

Lemma inv_stopping t ph s : (∀ d todo, ph = Callable d todo → callable d todo s) →
  inv held t cap st np s → inv held t cap ph np (with_stopping true s).
Proof. intros Hc []. by split. Qed.

Lemma inv_todo t d todo todo' s : (todo' ≤ todo)%nat →
  inv held t cap (Callable d todo) np s → inv held t cap (Callable d todo') np s.
Proof.
  intros Hle []. split; try done; [intros ?; by apply i_st|]. intros ? ? [= <- <-]. destruct (i_callable d todo eq_refl) as (H1 & H2 & H3 & H4).
  split_and!; [done|intros ?; apply H2; lia|intros ?; apply H3; lia|intros ?; apply H4; lia].
Qed.

Lemma inv_cap t cap' (s : Consumer) : match cap' with Some n => (length (_commit_ds s) ≤ n)%nat | None => True end →
  inv held t cap st np s → inv held t cap' st np s.
Proof. intros Hc []. by split. Qed.

Lemma inv_release t d s : inv (d :: held) t cap st np s → inv held t cap st np s.
Proof.
  intros []. apply NoDup_cons in i_nodup as [_ Hn]. split; try done.
  - intros d' Hd'. apply i_firable. cbn. by right.
  - intros d' Hd'. apply i_pending. by right.
  - intros d' Hd'. destruct (i_own d' Hd') as [H1 H2]. split; [done|]. intros Hin. apply H2. by right.
Qed.
End changes.

Lemma tok_none_any s : tok_ok TNone s → tok_ok TAny s.
Proof. apply tok_weaken. Qed.
Lemma tok_taken_any s : tok_ok TTaken s → tok_ok TAny s.
Proof. apply tok_weaken. Qed.

(** Firing a deferred that is held: it can be fired, and is held no longer. *)
Lemma settle_held d b o held t cap st np X :
  triple (inv ((d, b) :: held) t cap st np) (settle d o)
    (λ _ s, inv held t cap st np s ∧ (b = true → (d, o) ∈ firings (cs_deferreds s))) X.
Proof.
  intros s Hi. unfold settle. pose proof Hi as [].
  assert (firable d (cs_deferreds s)) as Hd by (apply i_firable; left).
  destruct (fire_firable d o _ i_wf Hd) as (ds & Hf & H1 & H2 & H4 & H3). rewrite Hf. split.
  - apply inv_release in Hi. destruct Hi. apply NoDup_cons in i_nodup as [Hn _].
    split; unfold waiting in *; cbn; try done.
    + intros d' Hd'. apply H3; [|by apply i_firable0]. by intros ->.
    + intros d' Hd'. apply H4. split; [by apply i_pending0|]. intros ->. apply Hn, elem_of_app. left.
      by apply (list_elem_of_fmap_2 fst) in Hd'.
    + rewrite H2. done.
    + intros d' Hd'. destruct (i_shutdown0 d' Hd'). split; [|done]. apply H3; [|done].
      intros ->. destruct (i_own d (or_intror Hd')) as [_ []]. by left.
  - intros ->. apply (fire_records _ _ _ _ Hf), i_pending. by left.
Qed.

(** ** What the callbacks of commits promise, if [stop] keeps its promise when
    no shutdown is in progress *)

Definition stops (stop : cmeth unit) : Prop := ∀ held cap, safe (inv held TNone cap Anyhow false) stop.

Section stopping.
Context (cfg : config) (env : environment) (stop : cmeth unit).

Lemma hold_shutdown held cap st d b (s : Consumer) : _shutdown_d s = Some d → (b = true → outstanding d (cs_deferreds s)) →
  inv held TTaken cap st false s → inv ((d, b) :: held) TNone cap st false (with_shutdown_d None s).
Proof.
  intros Hd Hb []. destruct (i_shutdown _ Hd) as [Hf Hs]. destruct (i_own d (or_intror Hd)) as [Hlt Hn]. split; try done.
  - cbn. by constructor.
  - intros d' [->|Hd']%elem_of_cons; [done|by apply i_firable].
  - intros d' [[= -> <-]|Hd']%elem_of_cons; [by apply Hb|by apply i_pending].
  - intros d' [Hd'|]; [|done]. destruct (i_own d' (or_introl Hd')) as [H1 H2]. split; [done|].
    intros [->|]%elem_of_cons; [|done]. done.
  - cbn. by destruct i_tok.
Qed.

Lemma end_shutdown_ends o held cap : stops stop →
  triple (inv held TTaken cap Anyhow false) (end_shutdown stop o) (λ _, inv held TNone cap Anyhow false)
    (inv held TNone cap Anyhow false).
Proof.
  intros Hstop. unfold end_shutdown. eapply triple_bind; [apply triple_get|]. intros d. cbn.
  destruct d as [d|].
  2: { intros s [Hi Hd]; destruct Hi; exfalso. by destruct i_tok as [_ []]. }
  eapply triple_bind with (Q := λ _, inv ((d, false) :: held) TNone cap Anyhow false).
  { apply triple_modify. intros s [Hi Hd]. by apply hold_shutdown. }
  intros ?. eapply triple_bind; [eapply triple_post; [apply Hstop|done|intros s; apply inv_release]|]. intros ?.
  eapply triple_bind with (Q := λ _, inv ((d, false) :: held) TNone cap Anyhow false); [apply triple_modify; inv_same|].
  intros ?. eapply triple_bind; [apply triple_get|]. intros processed. cbn.
  eapply triple_post; [eapply triple_pre; [|apply (settle_held d false)]; by intros s [Hi _]|by intros ? s [? _]|done].
Qed.

Lemma shutdown_ended held cap o X : stops stop →
  triple (inv held TTaken cap Anyhow false) (unhandled (end_shutdown stop o)) (λ _, inv held TAny cap Anyhow false) X.
Proof.
  intros Hstop. apply unhandled_ends; [|auto with safe].
  eapply triple_post; [by apply end_shutdown_ends|intros ? s|intros s]; apply inv_tok, tok_none_any.
Qed.

Lemma commit_and_stop_ends held : stops stop →
  triple (inv held TTaken None Anyhow false) (_commit_and_stop cfg stop) (λ _, inv held TAny None Anyhow false)
    (inv held TAny None Anyhow false).
Proof.
  intros Hstop. unfold _commit_and_stop. destruct (negb (grouped cfg)).
  - eapply triple_post; [by apply end_shutdown_ends|intros ? s|intros s]; apply inv_tok, tok_none_any.
  - eapply triple_bind; [by apply (commit_safe cfg held TTaken None Anyhow false RShutdownCommit RCommitAndStop TAny)|].
    intros [[v|e]|d|d]; [by apply shutdown_ended..|by intros s Hs|by intros s Hs].
Qed.

(** *** Who waits for a commit *)

(** The invariant's parameter while a waiter has been taken from the list. *)
Definition after_taking (n : nat) (t : tok) : tok := match n with O => t | _ => TTaken end.

(** What may be taken: a waiter that ends the shutdown needs [stop]. *)
Definition may_take (n : nat) (t : tok) : Prop := n = 0%nat ∨ (n ≤ 1)%nat ∧ t = TAny ∧ stops stop.

Lemma after_taking_tok n t s : may_take n t → tok_ok (after_taking n t) s → tok_ok t s.
Proof. intros [->|(H1 & -> & _)]; [done|]. destruct n; [done|]. apply tok_taken_any. Qed.

(** What is known of a stop afterwards: the end of the shutdown stops too. *)
Definition kept (t : tok) (ph : phase) : phase := match t with TNone => ph | _ => Anyhow end.

Lemma inv_kept held t cap ph np s : inv held t cap ph np s → inv held t cap (kept t ph) np s.
Proof. destruct t; [done|apply inv_st..]. Qed.

(** Adding waiters needs that their number is not bounded. *)
Lemma react_safe w o held t cap ph X : may_take (ends_shutdown (w_reaction w)) t →
  ((∃ e, o = Failure e) ∨ cap = None) →
  triple (inv held (after_taking (ends_shutdown (w_reaction w)) t) cap ph false) (react cfg stop w o)
    (λ _, inv held t cap (kept t ph) false) X.
Proof.
  intros Hmay Ho. unfold react.
  destruct (w_reaction w), o as [v|e]; cbn [ends_shutdown after_taking] in *; try (intros s; apply inv_kept).
  - eapply triple_post; [apply unhandled_ends; [apply handle_auto_commit_error_safe|auto with safe]|intros ? s; apply inv_kept|done].
  - destruct Ho as [[? [=]]| ->].
    eapply triple_post; [apply unhandled_ends; [by apply auto_commit_safe|auto with safe]|intros ? s; apply inv_kept|done].
  - destruct Hmay as [?|(_ & -> & Hs)]; [done|]. eapply triple_pre; [intros s; apply inv_st|]. by apply shutdown_ended.
  - destruct Hmay as [?|(_ & -> & Hs)]; [done|]. eapply triple_pre; [intros s; apply inv_st|]. by apply shutdown_ended.
  - destruct Hmay as [?|(_ & -> & Hs)]; [done|]. destruct Ho as [[? [=]]| ->]. eapply triple_pre; [intros s; apply inv_st|].
    apply unhandled_ends; [by apply commit_and_stop_ends|auto with safe].
  - destruct Hmay as [?|(_ & -> & Hs)]; [done|]. intros s Hi%inv_st. revert Hi. apply inv_tok, tok_taken_any.
Qed.

Lemma deliver_safe w o held t X : may_take (ends_shutdown (w_reaction w)) t →
  triple (inv ((w_deferred w, false) :: held) (after_taking (ends_shutdown (w_reaction w)) t) None Anyhow false)
    (deliver cfg stop o w) (λ _, inv held t None Anyhow false) X.
Proof.
  intros Hmay. unfold deliver. eapply triple_bind; [apply triple_get|]. intros c.
  eapply triple_bind.
  { eapply triple_post; [eapply triple_pre; [|apply settle_held]; by intros s [Hi _]|intros ? s [Hs _]; exact Hs|done]. }
  intros ?.
  destruct c.
  2: { eapply triple_post; [apply (react_safe w o held t None Anyhow X); auto|by destruct t|done]. }
  intros s. apply inv_tok. intros ?. by apply after_taking_tok.
Qed.

Definition held_of (ws : list waiter) : list (nat * bool) := (λ w, (w_deferred w, false)) <$> ws.
Lemma held_of_fst ws : (held_of ws).*1 = w_deferred <$> ws.
Proof. unfold held_of. by rewrite <- list_fmap_compose. Qed.
Definition tokens_of (ws : list waiter) : nat := sum_list_with (λ w, ends_shutdown (w_reaction w)) ws.

Lemma deliver_all o ws : ∀ held t X, may_take (tokens_of ws) t →
  triple (inv (held_of ws ++ held) (after_taking (tokens_of ws) t) None Anyhow false)
    (pfor_each ws (deliver cfg stop o)) (λ _, inv held t None Anyhow false) X.
Proof.
  induction ws as [|w ws IH]; intros held t X Hmay; [by intros s Hs|]. unfold held_of in *. cbn [pfor_each fmap list_fmap app] in *.
  unfold tokens_of in *. cbn [sum_list_with] in *.
  destruct (ends_shutdown (w_reaction w)) as [|n] eqn:He; cbn [Nat.add] in *.
  - eapply triple_bind; [|intros ?; by apply (IH held t)]. pose proof (deliver_safe w o (held_of ws ++ held)
      (after_taking (sum_list_with (λ w, ends_shutdown (w_reaction w)) ws) t) X) as Hd.
    rewrite He in Hd. apply Hd. by left.
  - assert (sum_list_with (λ w, ends_shutdown (w_reaction w)) ws = 0%nat) as H0.
    { destruct Hmay as [?|[? _]]; lia. }
    destruct Hmay as [?|(_ & -> & Hs)]; [done|].
    eapply triple_bind; [|intros ?; apply (IH held TAny); left; done]. rewrite H0.
    pose proof (deliver_safe w o (held_of ws ++ held) TAny X) as Hd. rewrite He in Hd.
    apply Hd. right. split_and!; [|done|done]. destruct (w_reaction w); cbn in He; lia.
Qed.

Lemma tokens_of_perm ws ws' : ws ≡ₚ ws' → tokens_of ws = tokens_of ws'.
Proof. unfold tokens_of. induction 1; cbn; lia. Qed.

(** All the waiters are taken at once. *)
Lemma inv_take_all held t (s : Consumer) ws : ws ≡ₚ _commit_ds s →
  may_take (tokens_of ws) t → inv_but held t None Anyhow false s →
  inv (held_of ws ++ held) (after_taking (tokens_of ws) t) None Anyhow false (with_commit_ds [] s).
Proof.
  intros Hp Hmay Hi. destruct (Hi (mkCommitRequest None 0 0)). unfold waiting in *. cbn in *.
  assert ((held_of ws ++ held).*1 ≡ₚ held.*1 ++ (w_deferred <$> _commit_ds s)) as Hw by (by rewrite fmap_app, held_of_fst, Hp, (comm (++))).
  split; unfold waiting; cbn; rewrite ?app_nil_r; try done.
  - by rewrite Hw.
  - intros d Hd. apply i_firable. by rewrite <- Hw.
  - intros d [Hd|Hd]%elem_of_app; [|by apply i_pending]. by apply list_elem_of_fmap in Hd as (? & [=] & _).
  - intros d Hd. rewrite Hw. by apply i_own.
  - assert (tokens s = tokens_of ws + tokens (with_commit_ds [] s))%nat as Ht.
    { rewrite (tokens_of_perm _ _ Hp). unfold tokens, tokens_of. cbn. lia. }
    change (tok_ok t s) in i_tok. destruct Hmay as [H0|(H1 & -> & _)].
    + rewrite H0 in *. cbn [after_taking]. unfold tok_ok in *. by rewrite Ht in i_tok.
    + destruct (tokens_of ws) as [|[|n]]; [|destruct i_tok as [Hle Hd]; split; [lia|by apply Hd; lia]|lia].
      cbn [after_taking tok_ok] in *. by rewrite Ht in i_tok.
Qed.

Lemma after_commit o held X : stops stop →
  triple (inv_but held TAny None Anyhow false) (_deliver_commit_result cfg stop o) (λ _, inv held TAny None Anyhow false) X.
Proof.
  intros Hstop s Hi. assert (may_take (tokens_of (reverse (_commit_ds s))) TAny) as Hmay.
  { right. split_and!; [|done|done]. rewrite (tokens_of_perm _ _ (reverse_Permutation _)).
    destruct (i_tok _ _ _ _ _ _ (Hi (mkCommitRequest None 0 0))) as [Ht _]. unfold tokens, tokens_of in *. cbn in Ht. lia. }
  apply (deliver_all o (reverse (_commit_ds s)) held TAny X Hmay).
  by apply inv_take_all; [apply reverse_Permutation|..].
Qed.

Lemma handle_commit_error_safe e c held X : stops stop →
  triple (inv_but held TAny None Anyhow false) (_handle_commit_error cfg stop e c) (λ _, inv held TAny None Anyhow false) X.
Proof.
  intros Hstop. unfold _handle_commit_error. do 3 (eapply triple_bind; [apply triple_get|]; intros ?). cbn.
  repeat case_match; try (eapply triple_pre; [|by apply after_commit]; by intros s [[[Hi _] _] _]).
  apply triple_modify. intros s [[[Hi _] _] _]. apply inv_emit. by apply inv_but_pending.
Qed.

Lemma commit_answered_safe r held : stops stop → safe (inv held TAny None Anyhow false) (commit_answered cfg stop r).
Proof.
  intros Hstop. unfold commit_answered. eapply triple_bind; [apply triple_get|]. intros [c|]; cbn; [|by intros s [Hi _]].
  eapply triple_bind with (Q := λ _, inv_but held TAny None Anyhow false).
  { apply triple_modify. intros s [Hi _] r'. destruct Hi. split; try done. by left. }
  intros ?. apply unhandled_ends; [|auto with safe]. destruct r; [|by apply handle_commit_error_safe].
  unfold _update_committed_offset. eapply triple_bind with (Q := λ _, inv_but held TAny None Anyhow false).
  - apply triple_modify. intros s Hi r'. destruct (Hi r'). by split.
  - intros ?. by apply after_commit.
Qed.

(** *** The processor's deferred *)

Lemma inv_end_block held t cap st np s b : may_take (if then_commit_and_stop b then 1 else 0) t →
  inv held t cap st np s → _processor_d s = Some b →
  inv held (after_taking (if then_commit_and_stop b then 1 else 0) t) cap st np (with_processor_d None s).
Proof.
  intros Hmay Hi Hb. destruct (then_commit_and_stop b) eqn:Hf; [|by apply inv_drop_block].
  destruct Hmay as [?|(_ & -> & _)]; [done|]. destruct Hi. split; try done.
  unfold tok_ok, tokens in *. cbn in *. rewrite Hb, Hf in i_tok. destruct i_tok as [Hle Hd].
  split; [lia|apply Hd; lia].
Qed.

Lemma processor_ended_ends r held t cap st X : (cap ≠ None → st ≠ Anyhow) → stops stop ∧ cap = None ∨ t = TNone →
  t ≠ TTaken →
  triple (inv held t cap st false) (processor_ended cfg env stop r) (λ _, inv held t cap (kept t st) false) X.
Proof.
  intros Hcap Hstop Htaken. unfold processor_ended. eapply triple_bind; [apply triple_get|]. intros [b|]; cbn.
  2: { intros s [Hi _]. by apply inv_kept. }
  set (n := if then_commit_and_stop b then 1%nat else 0%nat).
  eapply triple_exists with (P' := λ _ : may_take n t, λ s, inv held (after_taking n t) cap st false (with_processor_d None s)).
  { intros s [Hi Hb]. symmetry in Hb. assert (may_take n t) as Hmay; [|exists Hmay; by apply inv_end_block].
    unfold n. destruct (then_commit_and_stop b) eqn:Hf; [|by left]. right. destruct t; [exfalso|done|].
    - destruct Hi. unfold tok_ok, tokens in i_tok. rewrite Hb, Hf in i_tok. lia.
    - by destruct Hstop as [[]|]. }
  intros Hmay. eapply triple_bind; [by apply processor_fired_ok|]. intros r'.
  eapply triple_bind with (Q := λ _, inv held (after_taking n t) cap st false).
  { apply unhandled_ends; [|auto with safe]. destruct r' as [[]|e].
    - eapply triple_pre; [intros s [Hs _]; exact Hs|].
      apply (process_loop_safe cfg env held (after_taking n t) cap st false Hcap).
      intros _ rs Hrs. by apply (fetch_response_safe cfg env held (after_taking n t) cap st Hcap 0).
    - intros s [Hi He]. split; [congruence|done]. }
  intros ?. unfold n in *. destruct (then_commit_and_stop b) eqn:Hf; cbn [after_taking] in *; [|intros s; apply inv_kept].
  destruct Hmay as [?|(_ & -> & _)]; [done|]. destruct Hstop as [[Hstop ->]|?]; [|done].
  apply unhandled_ends; [|auto with safe].
  eapply triple_pre; [intros s; apply inv_st|by apply commit_and_stop_ends].
Qed.

(** *** Cancelling those who wait for a commit *)

Lemma inv_take held t n ws w st (s : Consumer) : _commit_ds s = ws ++ [w] →
  may_take (ends_shutdown (w_reaction w)) t → inv held t (Some (S n)) st false s →
  inv ((w_deferred w, false) :: held) (after_taking (ends_shutdown (w_reaction w)) t) (Some n) st false (with_commit_ds ws s).
Proof.
  intros Hds Hmay []. unfold waiting in *. rewrite Hds, fmap_app in *. cbn in *.
  assert (held.*1 ++ (w_deferred <$> ws) ++ [w_deferred w] ≡ₚ (w_deferred w :: held.*1) ++ (w_deferred <$> ws)) as Hp.
  { cbn. rewrite (comm (++) _ [_]). cbn. by rewrite Permutation_middle. }
  split; unfold waiting; cbn; try done.
  - by rewrite Hp in i_nodup.
  - intros d Hd. apply i_firable. by rewrite Hp.
  - intros d [[=]|Hd]%elem_of_cons. by apply i_pending.
  - intros d Hd. destruct (i_own d Hd) as [H1 H2]. by rewrite Hp in H2.
  - assert (tokens s = ends_shutdown (w_reaction w) + tokens (with_commit_ds ws s))%nat as Ht.
    { unfold tokens. rewrite Hds, sum_list_with_app. cbn. lia. }
    destruct Hmay as [H0|(H1 & -> & _)].
    + rewrite H0 in *. cbn [after_taking]. unfold tok_ok in *. by rewrite Ht in i_tok.
    + destruct (ends_shutdown _) as [|[|k]]; [|destruct i_tok as [Hle Hd]; split; [lia|by apply Hd; lia]|lia].
      cbn [after_taking tok_ok] in *. by rewrite Ht in i_tok.
  - intros _. apply i_waiting. by destruct ws.
  - rewrite length_app in i_cap. cbn in i_cap. lia.
Qed.

Lemma cancel_waiter_safe w held t cap ph X : may_take (ends_shutdown (w_reaction w)) t →
  triple (inv ((w_deferred w, false) :: held) (after_taking (ends_shutdown (w_reaction w)) t) cap ph false)
    (cancel_waiter cfg stop w) (λ _, inv held t cap (kept t ph) false) X.
Proof.
  intros Hmay s Hi. unfold cancel_waiter. destruct (called _ _) eqn:Hc.
  { apply inv_kept. eapply inv_tok; [intros ?; by apply after_taking_tok|]. by apply inv_release in Hi. }
  pose proof Hi as []. assert (firable (w_deferred w) (cs_deferreds s)) as Hf by (apply i_firable; left).
  assert (w_deferred w < issued (cs_deferreds s))%nat as Hlt.
  { destruct Hf as [[? _]|Hs]; [done|]. destruct i_wf as (_ & H2 & H3). auto. }
  destruct (cancel_plain_spec _ _ i_wf Hlt) as (ds & -> & H1 & H2 & H4 & H3).
  apply react_safe; [done|left; eauto|]. apply inv_release in Hi. destruct Hi. split; try done.
  - intros d Hd. apply H3. by apply i_firable0.
  - intros d Hd. apply H4. split; [by apply i_pending0|]. intros ->. apply NoDup_cons in i_nodup as [Hn _].
    apply Hn, elem_of_app. left. by apply (list_elem_of_fmap_2 fst) in Hd.
  - cbn. rewrite H2. done.
  - intros d Hd. destruct (i_shutdown0 d Hd). split; [by apply H3|done].
Qed.

Lemma get_bind {A B} (f : Consumer → A) (k : A → cmeth B) s : (pget f ≫= k) s = k (f s) s.
Proof. done. Qed.

Lemma triple_get_assoc {A B C} P (f : Consumer → A) (k : A → cmeth B) (k' : B → cmeth C) Q X :
  triple P ((pget f ≫= k) ≫= k') Q X → triple P (x ← pget f; y ← k x; k' y) Q X.
Proof. done. Qed.

(** With a level of the recursion for each waiter nobody is left. *)
Lemma cancel_waiters_ends held t ph : t ≠ TTaken → stops stop ∨ t = TNone → ∀ fuel X,
  triple (inv held t (Some fuel) (kept t ph) false) (cancel_waiters cfg stop fuel)
    (λ _ s, inv held t (Some 0%nat) (kept t ph) false s) X.
Proof.
  intros Ht Hstop. assert (kept t (kept t ph) = kept t ph) as Hk by (by destruct t).
  induction fuel as [|fuel IH]; intros X s Hi; cbn [cancel_waiters]; rewrite get_bind.
  all: destruct (reverse (_commit_ds s)) as [|w ds] eqn:Hds.
  all: assert (_commit_ds s = reverse (reverse (_commit_ds s))) as Hrev by (by rewrite reverse_involutive).
  all: rewrite Hds, ?reverse_nil, ?reverse_cons in Hrev.
  - eapply inv_cap; [|exact Hi]. by rewrite Hrev.
  - destruct Hi. rewrite Hrev, length_app in i_cap. cbn in i_cap. lia.
  - eapply inv_cap; [|exact Hi]. by rewrite Hrev.
  - assert (may_take (ends_shutdown (w_reaction w)) t) as Hmay.
    { destruct t; [left| done|right; split_and!; [by destruct (w_reaction w); cbn; lia|done|by destruct Hstop]].
      destruct Hi. unfold tok_ok, tokens in i_tok. rewrite Hrev, sum_list_with_app in i_tok. cbn in i_tok. lia. }
    pose proof (cancel_waiter_safe w held t (Some fuel) (kept t ph) X Hmay) as Hw. rewrite Hk in Hw.
    apply (triple_bind _ _ (λ _, inv held t (Some fuel) (kept t ph) false) (λ _, cancel_waiters cfg stop fuel) _ X Hw);
      [intros ?; apply IH|].
    by apply inv_take.
Qed.

Lemma cancel_request_ends held t cap st X : (cap ≠ None → st ≠ Anyhow) → environment_fits env = true →
  triple (inv held t cap st false) (cancel_request cfg env) (λ _, inv held t cap st false) X.
Proof.
  intros Hcap He. unfold cancel_request, environment_fits in *. eapply triple_bind; [apply triple_get|]. intros r.
  eapply triple_pre; [intros s [Hi _]; exact Hi|].
  assert (triple (inv held t cap st false) (_ ← pmodify (emit ECancelRequest);
    match request_cancelled env with Some a => request_answered cfg env a | None => mret tt end)
    (λ _, inv held t cap st false) X) as Hc.
  { eapply triple_bind with (Q := λ _, inv held t cap st false); [apply triple_modify; auto with safe|]. intros ?.
    destruct (request_cancelled env) as [a'|]; [|apply triple_ret]. by apply request_answered_ends. }
  destruct r as [[]|]; first [exact Hc|apply triple_ret].
Qed.

Lemma cancel_processor_ends held t cap st X : (cap ≠ None → st ≠ Anyhow) → stops stop ∧ cap = None ∨ t = TNone →
  t ≠ TTaken →
  triple (inv held t cap st false) (cancel_processor cfg env stop) (λ _, inv held t cap (kept t st) false) X.
Proof.
  intros Hcap Hstop Ht. unfold cancel_processor. eapply triple_bind; [apply triple_get|]. intros b.
  eapply triple_pre; [intros s [Hs _]; exact Hs|]. destruct b as [b|].
  - eapply triple_bind with (Q := λ _, inv held t cap st false); [apply triple_modify; inv_same|].
    intros ?. by apply processor_ended_ends.
  - intros s. apply inv_kept.
Qed.

(** Nobody waits any more. *)
Lemma deliver_nobody o held t st np X :
  triple (inv held t (Some 0%nat) st np) (_deliver_commit_result cfg stop o) (λ _, inv held t (Some 0%nat) st np) X.
Proof.
  intros s Hi. assert (_commit_ds s = []) as Hs by (destruct Hi; by apply nil_length_inv, Nat.le_0_r).
  unfold _deliver_commit_result. rewrite get_bind, Hs. cbn.
  destruct Hi. unfold waiting, tok_ok, tokens in *. rewrite Hs in *. by split.
Qed.

Lemma cancel_commit_ends held t st np X :
  triple (inv held t (Some 0%nat) st np) (cancel_commit cfg env stop) (λ _, inv held t (Some 0%nat) st np) X.
Proof.
  unfold cancel_commit. eapply triple_bind; [apply triple_get|]. intros c.
  eapply triple_pre; [intros s [Hs _]; exact Hs|]. destruct c as [c|]; [|apply triple_ret].
  eapply triple_bind with (Q := λ _, inv held t (Some 0%nat) st np); [apply triple_modify; auto with safe|]. intros ?.
  destruct (commit_cancelled env) as [r|]; [|apply triple_ret].
  unfold commit_answered. eapply triple_bind; [apply triple_get|]. intros c'.
  eapply triple_pre; [intros s [Hs _]; exact Hs|]. destruct c' as [c'|]; [|apply triple_ret].
  eapply triple_bind with (Q := λ _, inv held t (Some 0%nat) st np).
  { apply triple_modify. intros s []. split; try done. cbn. intros []. by apply nil_length_inv, Nat.le_0_r. }
  intros ?. apply unhandled_ends; [|auto with safe]. pose proof (λ o, deliver_nobody o held t st np).
  unfold _update_committed_offset, _handle_commit_error. destruct r as [u|e].
  - apply safe_bind; [safe_steps|done].
  - do 3 (apply safe_bind; [apply safe_get|]; intros ?). repeat case_match; try done.
    apply safe_modify. intros s []. split; try done.
    + intros []. by apply nil_length_inv, Nat.le_0_r.
    + intros d todo Hd. by destruct (i_callable d todo Hd) as (? & ? & ? & ?).
Qed.

(** *** What is cancelled last *)

(** One thing less is to be cancelled. *)
Definition fewer (ph : phase) : phase :=
  match ph with Callable d todo => Callable d (pred todo) | _ => ph end.
Definition raises (ph : phase) (n : nat) : Prop := ∀ d todo, ph = Callable d todo → (todo < n)%nat.

Section cancels.
Context (held : list (nat * bool)) (t : tok) (cap : option nat).

Lemma inv_fewer ph (s s' : Consumer) :
  _commit_ds s' = _commit_ds s → cs_deferreds s' = cs_deferreds s → lifecycle s' = lifecycle s →
  (_commit_ds s = [] ∨ committing s' = committing s) →
  (∀ d todo, ph = Callable d todo → callable d todo s → callable d (pred todo) s') →
  inv held t cap ph false s → inv held t cap (fewer ph) false s'.
Proof.
  intros H1 H2 H3 H4 H5 []. split; unfold waiting, tok_ok, tokens in *; rewrite ?H1, ?H2, ?H3; try done.
  - intros Hne. destruct H4 as [H4|H4]; [done|]. rewrite H4. auto.
  - intros Hph. apply i_st. by destruct ph.
  - intros d todo Hph. destruct ph as [| |d' todo']; try done. injection Hph as <- <-. by apply H5, i_callable.
Qed.

Lemma callable_pred d todo s : callable d todo s → callable d (pred todo) s.
Proof. intros (H1 & H2 & H3 & H4). split_and!; [done|intros ?; apply H2; lia|intros ?; apply H3; lia|intros ?; apply H4; lia]. Qed.

Lemma inv_pred ph s : inv held t cap ph false s → inv held t cap (fewer ph) false s.
Proof. apply inv_fewer; auto. intros ? ? _. apply callable_pred. Qed.

(** A step that raises when what it cancels is over already. *)
Definition cancels (n : nat) (m : cmeth unit) : Prop := ∀ ph X,
  (∀ d todo, ph = Callable d todo → (todo ≤ n)%nat) →
  (∀ s, inv held t cap Anyhow false s → (∀ d todo, ph = Callable d todo → (todo < n)%nat) → X s) →
  triple (inv held t cap ph false) m (λ _, inv held t cap (fewer ph) false) X.

Lemma cancel_call_ends {A} n (get : Consumer → option (delayed_call A)) (over : Consumer → Consumer) :
  (∀ d todo s, callable d todo s → (n ≤ todo)%nat → get s ≠ Some CallOver) →
  (∀ ph s, (∀ d todo, ph = Callable d todo → (todo ≤ n)%nat) →
     inv held t cap ph false s → inv held t cap (fewer ph) false (over s)) →
  cancels n (c ← pget get; cancel_call c (pmodify over)).
Proof.
  intros Hget Hover ph X Hle HX. eapply triple_bind; [apply triple_get|]. intros [[]|]; cbn.
  - apply triple_modify. intros s [Hi _]. by apply Hover.
  - intros s [Hi Hc]. split; [done|]. apply HX; [by apply inv_st in Hi|]. intros d todo ->.
    destruct (decide (n ≤ todo)%nat) as [Hn|]; [|lia]. destruct Hi. by destruct (Hget d todo s (i_callable d todo eq_refl) Hn).
  - intros s [Hi _]. by apply inv_pred.
Qed.

Lemma cancel_retry_call_ends :
  cancels 3 (c ← pget (λ s : Consumer, _retry_call s);
             cancel_call c (pmodify (λ s : Consumer, with_retry_call (Some CallOver) (emit ECancelFetchCall s)))).
Proof.
  apply cancel_call_ends; [intros d todo s (_ & H & _) Hn; by apply H|]. intros ph s Hle. apply inv_fewer; auto.
  intros d todo Hph (H1 & H2 & H3 & H4). specialize (Hle d todo Hph).
  split_and!; [done|intros ?; lia|intros ?; apply H3; lia|intros ?; apply H4; lia].
Qed.

Lemma stop_looper_ends : cancels 1 stop_looper.
Proof.
  intros ph X Hle HX. unfold stop_looper. eapply triple_bind; [apply triple_get|]. intros [[reports|]|]; cbn.
  - apply triple_modify. intros s [Hi _]. destruct Hi. split; unfold tok_ok, tokens in *; try done.
    + intros Hph. apply i_st. by destruct ph.
    + intros d todo Hph. destruct ph as [| |d' todo']; try done. injection Hph as <- <-. specialize (Hle d' todo' eq_refl).
      destruct (i_callable d' todo' eq_refl) as (H1 & H2 & H3 & H4). split_and!; [done|intros ?; lia..].
  - intros s [Hi Hc]. split; [done|]. apply HX; [by apply inv_st in Hi|]. intros d todo ->.
    destruct (decide (1 ≤ todo)%nat) as [Hn|]; [|lia]. destruct Hi.
    destruct (i_callable d todo eq_refl) as (_ & _ & _ & H). by destruct (H Hn).
  - intros s [Hi _]. by apply inv_pred.
Qed.
End cancels.

Lemma cancel_commit_call_ends held t :
  cancels held t (Some 0%nat) 2 (c ← pget (λ s : Consumer, _commit_call s);
             cancel_call c (pmodify (λ s : Consumer, with_commit_call (Some CallOver) (emit ECancelCommitCall s)))).
Proof.
  apply cancel_call_ends; [intros d todo s (_ & _ & H & _) Hn; by apply H|]. intros ph s Hle Hi.
  assert (_commit_ds s = []) as Hds by (destruct Hi; by apply nil_length_inv, Nat.le_0_r). revert Hi.
  apply inv_fewer; auto.
  intros d todo Hph (H1 & H2 & H3 & H4). specialize (Hle d todo Hph).
  split_and!; [done|intros ?; lia|intros ?; lia|intros ?; apply H4; lia].
Qed.

(** ** [stop] *)

Hypothesis (Hfits : environment_fits env = true).

(** If nothing that is kept is over, all is cancelled and nothing raises. *)
Lemma cancel_operations_ends held t cap ph X : stops stop ∧ cap = None ∨ t = TNone → t ≠ TTaken →
  ph ≠ Anyhow → (∀ d todo, kept t ph = Callable d todo → todo = 3%nat) →
  (∀ s, inv held t cap Anyhow false s → (∀ d, kept t ph ≠ Callable d 3) → X s) →
  triple (inv held t cap ph false) (cancel_operations cfg env stop)
    (λ _, inv held t (Some 0%nat) (fewer (fewer (fewer (kept t ph)))) false) X.
Proof.
  intros Hstop Ht Hph H3 HX. unfold cancel_operations. assert (cap ≠ None → ph ≠ Anyhow) as Hcap by done.
  assert (∀ s, inv held t (Some 0%nat) Anyhow false s → inv held t cap Anyhow false s) as Hc.
  { intros s Hi. eapply inv_cap; [|exact Hi]. destruct Hi. destruct cap; [lia|done]. }
  eapply triple_bind; [by apply cancel_request_ends|]. intros ?.
  eapply triple_bind with (Q := λ _, inv held t cap ph false); [apply triple_modify, inv_no_block|]. intros ?.
  eapply triple_bind; [by apply cancel_processor_ends|]. intros ?.
  apply triple_get_assoc. eapply triple_bind.
  { apply cancel_retry_call_ends; [intros d todo Hk; by rewrite (H3 d todo Hk)|].
    intros s Hi Hk. apply HX; [done|]. intros d Hd. specialize (Hk _ _ Hd). lia. }
  intros ?. eapply triple_bind; [apply triple_get|]. intros n. cbn.
  assert (kept t (fewer (kept t ph)) = fewer (kept t ph)) as Hk by (by destruct t).
  eapply triple_bind with (Q := λ _, inv held t (Some 0%nat) (fewer (kept t ph)) false).
  { rewrite <- Hk. eapply triple_pre; [|apply (cancel_waiters_ends held t _ Ht)].
    - intros s [Hi ->]. by eapply inv_cap; [|exact Hi].
    - destruct Hstop as [[]|]; auto. }
  intros ?. eapply triple_bind; [apply cancel_commit_ends|]. intros ?.
  assert (∀ d todo, kept t ph = Callable d todo → todo = 3%nat → kept t ph = Callable d 3) as H3' by (by intros d todo -> ->).
  apply triple_get_assoc. eapply triple_bind.
  { apply cancel_commit_call_ends.
    - intros d todo. destruct (kept t ph) as [| |d' todo'] eqn:Hkk; cbn; try done. intros [= <- <-]. by rewrite (H3 d' todo' eq_refl).
    - intros s Hi Hlt. apply HX; [by apply Hc|]. intros d Hd. rewrite Hd in Hlt. specialize (Hlt d 2%nat eq_refl). lia. }
  intros ?. apply stop_looper_ends.
  - intros d todo. destruct (kept t ph) as [| |d' todo'] eqn:Hkk; cbn; try done. intros [= <- <-]. by rewrite (H3 d' todo' eq_refl).
  - intros s Hi Hlt. apply HX; [by apply Hc|]. intros d Hd. rewrite Hd in Hlt. specialize (Hlt d 1%nat eq_refl). lia.
Qed.

Lemma settle_fresh d o held t cap st np X :
  triple (λ s, inv held t cap st np s ∧ (d < issued (cs_deferreds s))%nat ∧ (d ∉ held.*1 ++ waiting s) ∧
               _shutdown_d s ≠ Some d ∧ called d (cs_deferreds s) = false)
    (settle d o) (λ _ s, inv held t cap st np s ∧ called d (cs_deferreds s) = true) X.
Proof.
  intros s (Hi & Hlt & Hn & Hs & Hc).
  pose proof (settle_other held t cap st np d o s (conj Hi (conj Hlt (conj Hn Hs)))) as Hok. revert Hok.
  unfold settle, fire. rewrite Hc. intros Hok. split; [exact Hok|]. apply called_spec. cbn. rewrite fmap_app. set_solver.
Qed.

(** What is left of the stop, whether [start]'s deferred is there or not. *)
Lemma stopped_ends d held t cap st (X : Consumer → Prop) : (∀ s, inv held t cap Anyhow false s → d = None → X s) →
  triple (λ s, inv held t cap st false s ∧ _start_d s = d) stopped
    (λ _ s, inv held t cap Anyhow false s ∧ _start_d s = None ∧ _stopping s = false ∧
            ∀ d', d = Some d' → called d' (cs_deferreds s) = true) X.
Proof.
  intros HX. unfold stopped. eapply triple_bind with (Q := λ _ s, inv held t cap Anyhow false s ∧ _start_d s = d ∧ _stopping s = false).
  { apply triple_modify. intros s [[] Hd]. by split. }
  intros ?. eapply triple_bind; [apply triple_get|]. intros d'. cbn.
  eapply triple_bind with (Q := λ _ s, (inv held t cap Anyhow false s ∧ d' = d) ∧ (_start_d s = None ∧ _stopping s = false) ∧
    ∀ d, d' = Some d → (d < issued (cs_deferreds s))%nat ∧ (d ∉ held.*1 ++ waiting s) ∧ _shutdown_d s ≠ Some d).
  { apply triple_modify. intros s [(Hi & <- & Hst) ->]. split; [split; [destruct Hi; split; try done|done]|split; [done|]].
    - intros d' [?|Hd]; [done|]. apply i_own. by right.
    - intros d' Hd. cbn. split; [by apply i_shutdown|done].
    - intros d' Hd. destruct (i_own _ _ _ _ _ _ Hi d' (or_introl Hd)). split_and!; [done..|].
      intros [_ Hs]%(i_shutdown _ _ _ _ _ _ Hi). by apply Hs. }
  intros ?. eapply triple_bind; [apply triple_get|]. intros processed. cbn. destruct d' as [d'|].
  2: { intros s [[[Hi <-] _] _]. split; [done|]. by apply HX. }
  eapply triple_bind; [apply triple_get|]. intros c''. cbn. destruct c''.
  - intros s [[[[Hi <-] [[H1 H2] _]] _] Hc]. split_and!; try done. by intros ? [= <-].
  - intros s [[[[Hi <-] [[H1 H2] Hd]] _] Hc]. destruct (Hd d' eq_refl) as (Hlt & Hn & Hs).
    pose proof (settle_fresh d' (Success processed) held t cap Anyhow false X s (conj Hi (conj Hlt (conj Hn (conj Hs (eq_sym Hc)))))) as Hok.
    revert Hok. unfold settle, fire. rewrite <- Hc. intros [Hok Hcalled]. split_and!; [exact Hok|done|done|]. by intros ? [= <-].
Qed.

Lemma stop_body_safe held t cap st : stops stop ∧ cap = None ∨ t = TNone → t ≠ TTaken →
  triple (inv held t cap st false) (stop_body cfg env stop) (λ _, inv held t cap Anyhow false)
    (inv held t cap Anyhow false).
Proof.
  intros Hstop Ht. unfold stop_body. eapply triple_bind; [apply triple_get|]. intros d. cbn.
  destruct d as [d|]; [|intros s [Hi _]; split; [done|by apply inv_st in Hi]].
  eapply triple_bind with (Q := λ _, inv held t cap Stopping false).
  { apply triple_modify. intros s [Hi _]. by eapply inv_stopping. }
  intros ?. eapply triple_bind; [apply cancel_operations_ends; try done|].
  { by intros ? ? Hk; destruct t. }
  intros ? s Hi. assert (inv held t (Some 0%nat) Anyhow false s) as Hi' by (by apply inv_st in Hi).
  eapply triple_post; [apply (stopped_ends (_start_d s) held t cap Anyhow (inv held t cap Anyhow false)); auto|by intros ? ? [? _]|done|].
  split; [|done]. eapply inv_cap; [|exact Hi']. destruct Hi'. destruct cap; [lia|done].
Qed.

(** A stop returns when nothing that is kept is over and no shutdown waits. *)
Lemma stop_body_returns d held cap X :
  triple (λ s, inv held TNone cap Anyhow false s ∧ callable d 3 s) (stop_body cfg env stop)
    (λ _ s, inv held TNone (Some 0%nat) Anyhow false s ∧ _start_d s = None ∧ _stopping s = false ∧
            called d (cs_deferreds s) = true) X.
Proof.
  unfold stop_body. eapply triple_bind; [apply triple_get|]. intros d'. cbn. destruct d' as [d'|].
  2: { intros s [[_ [Hd _]] Hn]. congruence. }
  eapply triple_bind with (Q := λ _, inv held TNone cap (Callable d 3) false).
  { apply triple_modify. intros s [[Hi Hc] _]. eapply inv_stopping; [|exact Hi]. by intros ? ? [= <- <-]. }
  intros ?. eapply triple_bind; [apply (cancel_operations_ends held TNone cap (Callable d 3))|]; try done.
  - by right.
  - by intros ? ? [= <- <-].
  - intros s _ Hno. by destruct (Hno d).
  - intros ?. eapply triple_pre; [|eapply triple_post; [apply (stopped_ends (Some d) held TNone (Some 0%nat) (Callable d 0) X)|..]]; try done.
    + intros s Hi. split; [done|]. destruct Hi. by destruct (i_callable d 0%nat eq_refl).
    + intros ? s (? & ? & ? & Hc). split_and!; [done..|]. by apply Hc.
Qed.
End stopping.

(** A stop of a consumer that is not shutting down calls no other. *)
Lemma stop_within_stops cfg env depth : environment_fits env = true → stops (stop_within cfg env (S depth)).
Proof.
  intros He held cap. apply (stop_body_safe cfg env (stop_within cfg env depth) He held TNone cap Anyhow); [by right|done].
Qed.

Lemma stop_safe cfg env held : environment_fits env = true → safe (inv held TAny None Anyhow false) (stop cfg env).
Proof.
  intros He. apply (stop_body_safe cfg env (stop_within cfg env 2) He held TAny None Anyhow); [left|done].
  split; [exact (stop_within_stops cfg env 1 He)|done].
Qed.

Lemma stop_stops cfg env : environment_fits env = true → stops (stop cfg env).
Proof. exact (stop_within_stops cfg env 2). Qed.

(** ** Every event *)

Section events.
Context (cfg : config).
#[local] Abbreviation W := consumer_wf.

Lemma new_d_safe : triple W new_d
  (λ d s, W s ∧ (d < issued (cs_deferreds s))%nat ∧ firable d (cs_deferreds s) ∧ (d ∉ waiting s) ∧
     _start_d s ≠ Some d ∧ _shutdown_d s ≠ Some d) W.
Proof.
  intros s Hi. unfold new_d. cbn. destruct Hi.
  assert (∀ d, firable d (cs_deferreds s) → d ≠ issued (cs_deferreds s)) as Hfresh.
  { intros d [[Hlt _]|Hs] ->; [lia|]. destruct i_wf as (_ & H2 & H3). apply H3, H2 in Hs. lia. }
  assert (∀ d, firable d (cs_deferreds s) → firable d (new_deferred (cs_deferreds s)).2) as Hkeep.
  { intros d [Ho|Hs]; [left; apply new_deferred_outstanding; [done|by left]|by right]. }
  unfold waiting in *. cbn in *. split_and!.
  - split; try done.
    + by apply new_deferred_wf.
    + intros d Hd. by apply Hkeep, i_firable.
    + by intros d Hd%elem_of_nil.
    + intros d Hd. destruct (i_own d Hd). split; [cbn; lia|done].
    + intros d Hd. destruct (i_shutdown d Hd). split; [by apply Hkeep|done].
  - unfold new_deferred. cbn. lia.
  - left. apply new_deferred_outstanding; [done|by right].
  - intros Hin. by apply i_firable, Hfresh in Hin.
  - intros Hs. destruct (i_own _ (or_introl Hs)). lia.
  - intros Hs. destruct (i_own _ (or_intror Hs)). lia.
Qed.

Lemma start_safe offset : safe W (start cfg offset).
Proof.
  unfold start. eapply triple_bind; [apply safe_get|]. intros [d|]; [by apply safe_raise|].
  eapply triple_bind; [apply new_d_safe|]. intros d. cbn.
  apply (triple_bind _ _ (λ _, W)).
  { apply triple_modify. intros s (Hi & Hlt & _ & Hn & Hs & Hd). destruct Hi. split; try done.
    - intros d' [[= <-]|?]; [done|]. apply i_own. by right.
    - intros d' Hd'. split; [by apply i_shutdown|]. cbn in *. congruence. }
  intros ?. unfold W, consumer_wf. safe_steps.
Qed.

Lemma shutdown_safe env : environment_fits env = true → safe W (shutdown cfg env).
Proof.
  intros He. unfold shutdown. eapply triple_bind; [apply safe_get|]. intros start.
  eapply triple_bind; [apply triple_get|]. intros down. cbn. destruct start as [start|]; [|by intros s [Hi _]].
  destruct down as [down|]; [by intros s [Hi _]|].
  eapply (triple_bind _ _ (λ _ s, W s ∧ _shutdown_d s = None)).
  { apply triple_modify. intros s [Hi Hd]. split; [|done]. revert s Hi Hd. intros s Hi _. revert s Hi. inv_same. }
  intros ?. eapply (triple_bind _ _ (λ d s, inv [] TTaken None Anyhow false (with_shutdown_d (Some d) s))).
  { pose proof new_d_safe as Hn. intros s [Hi Hd]. specialize (Hn s Hi). unfold new_d in *. cbn in *.
    destruct Hn as (Hi' & Hlt & Hf & Hnot & Hs & _). destruct Hi'. split; try done.
    - intros d' [?|[= <-]]; [apply i_own; by left|done].
    - by intros d' [= <-].
    - cbn. split; [|done]. destruct i_tok as [Hle Hone]. unfold tokens in *. cbn in *.
      assert (sum_list_with (λ w, ends_shutdown (w_reaction w)) (_commit_ds s) +
        (match _processor_d s with Some b => if then_commit_and_stop b then 1 else 0 | None => 0 end) ≠ 1)%nat; [|lia].
      intros H. by apply Hone. }
  intros d. eapply (triple_bind _ _ (λ _, inv [] TTaken None Anyhow false)); [by apply triple_modify|].
  intros ?. eapply triple_bind; [apply triple_get|]. intros b. cbn.
  eapply (triple_bind _ _ (λ _, W)); [|intros ?; apply triple_ret]. destruct b as [b|].
  - apply triple_modify. intros s [Hi Hb]. destruct Hi. split; try done.
    destruct i_tok as [H0 Hd]. unfold tok_ok, tokens in *. cbn. rewrite <- Hb in H0. split; [|done].
    destruct (then_commit_and_stop b); lia.
  - eapply triple_pre; [intros s [Hi _]; exact Hi|]. by apply commit_and_stop_ends, stop_stops.
Qed.

Lemma cancel_by_user_safe d : triple (λ s, W s ∧ users d s = true) (cancel_by_user d) (λ _, W) W.
Proof.
  intros s [Hi Hu]. unfold cancel_by_user. rewrite get_bind. destruct Hi. apply andb_prop in Hu as [Hlt%bool_decide_eq_true _].
  destruct (cancel_plain_spec d _ i_wf Hlt) as (ds & -> & H1 & H2 & _ & H3). cbn. split; try done.
  - intros d' Hd. by apply H3, i_firable.
  - by intros d' Hd%elem_of_nil.
  - cbn. rewrite H2. done.
  - intros d' Hd. destruct (i_shutdown d' Hd). split; [by apply H3|done].
Qed.

Lemma commit_retry_call_safe : safe W commit_retry_call.
Proof.
  unfold commit_retry_call. eapply triple_bind; [apply triple_get|]. intros c. cbn.
  destruct c as [[[delay attempt]|]|]; [|by intros s [Hi _]|by intros s [Hi _]].
  eapply (triple_bind _ _ (λ _, inv_but [] TAny None Anyhow false)); [|intros ?; apply send_commit_request_safe].
  apply triple_modify. intros s [Hi _] r. destruct Hi. split; try done. by left.
Qed.

Lemma fetch_call_safe : safe W (fetch_call cfg).
Proof.
  unfold fetch_call, W, consumer_wf. apply safe_bind; [|intros ?; apply do_fetch_safe].
  apply safe_modify. intros s []. by split.
Qed.

(** Every event keeps the invariant, and its handler does not run out of fuel. *)
Lemma consumer_event_safe env e :
  triple (λ s, W s ∧ enabled env e s = true) (Consumer.handle cfg env e) (λ _, W) W.
Proof.
  intros s [Hi [He Hen]%andb_prop].
  assert (environment_fits env = true) as Hf by done.
  destruct e; cbn [Consumer.handle].
  - exact (safe_bind _ _ _ (start_safe offset) (λ _, safe_ret _ tt) s Hi).
  - by apply stop_safe.
  - exact (safe_bind _ _ _ (shutdown_safe env Hf) (λ _, safe_ret _ tt) s Hi).
  - pose proof (commit_safe cfg [] TAny None Anyhow false RNone RNone TAny eq_refl eq_refl eq_refl s Hi) as Hc.
    unfold mbind, proc_bind. destruct (commit cfg RNone RNone s) as [s' [c|e]]; [by destruct c|done].
  - by apply cancel_by_user_safe.
  - apply andb_prop in Hen as [Ha _]. by apply request_answered_safe.
  - by apply fetch_call_safe.
  - apply (processor_ended_ends cfg env (stop cfg env) r [] TAny None Anyhow); [done|left; split; [by apply stop_stops|done]|done|done].
  - apply commit_answered_safe; [by apply stop_stops|done].
  - by apply commit_retry_call_safe.
  - by apply auto_commit_safe.
  - cbn. eapply inv_same; [|exact Hi]. same_state.
Qed.
End events.
