(* ===== verification/ConsumerDelivery.v ===== *)
(** What every operation of a [Consumer] keeps, said once for all properties of
    the messages handed to the processor and of the deferreds that fired. *)
From S2P Require Import Prelude Common PyBytes Util KafkaCodec Deferred Consumer.
Local Open Scope Z_scope.

(** The buffer that follows one a message did not fit. *)
Definition grown (cfg : config) (size : Z) : Z :=
  let size' := size * (if size <=? 2 ^ 20 then 16 else 2) in
  match max_buffer_size cfg with Some max => Z.min size' max | None => size' end.

Definition can_grow (cfg : config) (size : Z) : Prop := ∀ max, max_buffer_size cfg = Some max → size < max.

(** ** Properties of what was delivered

    They may speak of the effects, of the deferreds, of the buffer and of the next
    offset, and of the messages that are yet to be handed over; [resets] says that
    they survive a change of the offset to something else than the next one. *)
Record lasting (cfg : config) (resets : bool) (P : list SourcedMessage → Consumer → Prop) : Prop := {
  l_frame pend (s s' : Consumer) : cs_effects s' = cs_effects s → _fetch_offset s' = _fetch_offset s →
    cs_deferreds s' = cs_deferreds s → buffer_size s' = buffer_size s → P pend s → P pend s';
  l_emit pend e s : (∀ ms, e ≠ EProcess ms) → (∀ r, e ≠ ESendFetch r) → P pend s → P pend (emit e s);
  l_send pend offset (s : Consumer) : _fetch_offset s = Some offset → P pend s →
    P pend (emit (ESendFetch (mkFetchRequest (topic cfg) (partition cfg) offset (buffer_size s))) s);
  l_grow pend (s : Consumer) : can_grow cfg (buffer_size s) → P pend s → P pend (with_buffer_size (grown cfg (buffer_size s)) s);
  l_deferreds pend ds s : firings (cs_deferreds s) `prefix_of` firings ds → P pend s → P pend (with_deferreds ds s);
  l_drop pend s : P pend s → P [] s;
  l_give ms pend s : P (ms ++ pend) s → P pend (emit (EProcess ms) s);
  l_collect rs offset ms offset' r (s : Consumer) : P [] s → _fetch_offset s = Some offset →
    collect_messages cfg rs offset = (ms, offset', r) → P ms (with_fetch_offset (Some offset') s);
  l_advance pend rs offset ms offset' r (s : Consumer) : P pend s → _fetch_offset s = Some offset →
    collect_messages cfg rs offset = (ms, offset', r) → P pend (with_fetch_offset (Some offset') s);
  l_reset x pend s : resets = true → P pend s → P pend (with_fetch_offset x s);
}.

(** ** What concerns neither the processor nor the offset *)

Record calm (cfg : config) (R : Consumer → Prop) : Prop := {
  c_frame (s s' : Consumer) : cs_effects s' = cs_effects s → _fetch_offset s' = _fetch_offset s →
    cs_deferreds s' = cs_deferreds s → buffer_size s' = buffer_size s → _processor_d s' = _processor_d s → R s → R s';
  c_emit e s : (∀ ms, e ≠ EProcess ms) → (∀ r, e ≠ ESendFetch r) → R s → R (emit e s);
  c_send offset (s : Consumer) : _fetch_offset s = Some offset → R s →
    R (emit (ESendFetch (mkFetchRequest (topic cfg) (partition cfg) offset (buffer_size s))) s);
  c_grow (s : Consumer) : can_grow cfg (buffer_size s) → R s → R (with_buffer_size (grown cfg (buffer_size s)) s);
  c_deferreds ds s : firings (cs_deferreds s) `prefix_of` firings ds → R s → R (with_deferreds ds s);
}.

Ltac calm_steps := intros; repeat first
  [ eassumption
  | eapply c_frame; [eassumption|..|eassumption]; reflexivity
  | eapply c_emit; [eassumption|by intros|by intros|]
  | lazymatch goal with
    | |- ?R (?f (emit ?e ?s)) => eapply (c_frame _ R) with (s := emit e s); [eassumption|reflexivity..|]
    end ].

Section calm.
Context (cfg : config) (R : Consumer → Prop).
Hypothesis (HR : calm cfg R).
#[local] Hint Extern 2 (∀ s, R s → R _) => solve [calm_steps] : keeps.

Lemma keeps_attempt {A} (m : cmeth A) : keeps R m → keeps R (attempt m).
Proof using Type.
  intros Hm s Hs. specialize (Hm s Hs). unfold attempt. destruct (m s) as [s' [a|e]]; [done|by destruct e].
Qed.
Lemma keeps_unhandled m : keeps R m → keeps R (unhandled m).
Proof using HR. intros Hm. unfold unhandled. apply keeps_bind; [by apply keeps_attempt|]. intros [[]|e]; keeps_steps. Qed.
Lemma unhandled_result m s : R (m s).1 → R (unhandled m s).1.
Proof using HR.
  unfold unhandled, attempt, mbind, proc_bind. destruct (m s) as [s1 [[]|e]]; [done|]. cbn. intros Hs.
  assert (R (emit (EUnhandled e) s1)) by (by apply (c_emit _ _ HR)). by destruct e.
Qed.
Lemma keeps_settle d o : keeps R (settle d o).
Proof using HR.
  intros s Hs. unfold settle. destruct (fire d o (cs_deferreds s)) as [ds|e] eqn:Hf; [|done].
  apply (c_deferreds _ _ HR); [|done]. by apply (fire_records _ _ _ _ Hf).
Qed.
Lemma keeps_new_d : keeps R new_d.
Proof using HR. intros s Hs. unfold new_d. cbn. by apply (c_deferreds _ _ HR). Qed.
#[local] Hint Resolve keeps_unhandled keeps_settle keeps_new_d keeps_attempt : keeps.

Lemma keeps_start_errback e : keeps R (start_errback e).
Proof using HR. unfold start_errback. keeps_steps. Qed.
#[local] Hint Resolve keeps_start_errback : keeps.
Lemma keeps_retry_fetch now : keeps R (_retry_fetch now).
Proof using HR. unfold _retry_fetch, schedule_fetch. keeps_steps. Qed.
Lemma keeps_do_fetch : keeps R (_do_fetch cfg).
Proof using HR.
  unfold _do_fetch. keeps_steps. unfold send_fetch. intros s Hs. unfold mbind at 1, proc_bind at 1, pget at 1. cbn beta iota.
  destruct (_fetch_offset s) as [offset|] eqn:Ho; [|done]. destruct (_ || _); [|destruct (offset =? _)].
  - revert s Hs Ho. intros s Hs _. revert s Hs.
    change (keeps R (send_request ROffset (ESendOffset (mkOffsetRequest (topic cfg) (partition cfg) offset 1)))).
    unfold send_request. keeps_steps.
  - revert s Hs Ho. intros s Hs _. revert s Hs.
    change (keeps R (_ ← (if grouped cfg then mret tt else start_errback InvalidConsumerGroupError);
      send_request ROffsetFetch (ESendOffsetFetch (consumer_group cfg) (mkOffsetFetchRequest (topic cfg) (partition cfg))))).
    unfold send_request. keeps_steps.
  - apply (c_send _ _ HR offset (with_request_d (Some RFetch) s)); [done|]. by eapply (c_frame _ _ HR s).
Qed.
Lemma keeps_send_commit n a : keeps R (_send_commit_request n a).
Proof using HR. unfold _send_commit_request. keeps_steps. Qed.
Lemma keeps_add_waiter r : keeps R (add_waiter r).
Proof using HR. unfold add_waiter. keeps_steps. Qed.
Lemma keeps_reset_looper : keeps R reset_looper.
Proof using HR. unfold reset_looper. keeps_steps. Qed.
#[local] Hint Resolve keeps_retry_fetch keeps_do_fetch keeps_send_commit keeps_add_waiter keeps_reset_looper : keeps.
Lemma keeps_commit r r' : keeps R (commit cfg r r').
Proof using HR. unfold commit. keeps_steps. Qed.
Lemma keeps_handle_auto_commit_error e : keeps R (_handle_auto_commit_error e).
Proof using HR. unfold _handle_auto_commit_error. keeps_steps. Qed.
#[local] Hint Resolve keeps_commit keeps_handle_auto_commit_error : keeps.
Lemma keeps_auto_commit b : keeps R (_auto_commit cfg b).
Proof using HR. unfold _auto_commit. keeps_steps. Qed.
#[local] Hint Resolve keeps_auto_commit : keeps.
Lemma keeps_handle_processor_error e : keeps R (_handle_processor_error e).
Proof using HR. unfold _handle_processor_error. keeps_steps. Qed.
#[local] Hint Resolve keeps_handle_processor_error : keeps.
Lemma keeps_fetch_next r : keeps R (fetch_next cfg r).
Proof using HR.
  unfold fetch_next. destruct r as [[]|e]; [keeps_steps|]. destruct e; try apply keeps_raise.
  intros s Hs. unfold grow_buffer. unfold mbind at 1, proc_bind at 1, pget at 1. cbn beta iota zeta.
  pose proof (c_grow _ _ HR s) as Hg. unfold grown, can_grow in Hg. destruct (max_buffer_size cfg) as [max|].
  - destruct (Z.ltb_spec (buffer_size s) max); [apply Hg; [by intros ? [= <-]|done]|].
    apply (keeps_bind R (start_errback ConsumerFetchSizeTooSmall) (λ _, mret false)); [by apply keeps_start_errback|intros ?; apply keeps_ret|done].
  - by apply Hg.
Qed.
Lemma keeps_retry_or_fail e : keeps R (retry_or_fail e).
Proof using HR. unfold retry_or_fail. keeps_steps. Qed.
End calm.

#[export] Hint Resolve keeps_attempt keeps_do_fetch keeps_commit keeps_auto_commit keeps_fetch_next : keeps.

(** The configuration does not show in what these say. *)
#[export] Hint Extern 2 (keeps _ _) => solve
  [ first [ eapply keeps_settle | eapply keeps_new_d | eapply keeps_start_errback | eapply keeps_retry_fetch | eapply keeps_send_commit
          | eapply keeps_add_waiter | eapply keeps_reset_looper | eapply keeps_handle_auto_commit_error
          | eapply keeps_handle_processor_error | eapply keeps_retry_or_fail | eapply keeps_unhandled ]; eauto 2 with keeps ] : keeps.

Ltac delivery_steps :=
  repeat first [progress keeps_steps|apply keeps_attempt|eapply keeps_unhandled; [solve [eauto 2 with keeps]|]].

Lemma leads_bind {A B} (Q Q' R : Consumer → Prop) (m : cmeth A) (f : A → cmeth B) s :
  (∀ s, Q s → Q' (m s).1) → (∀ a s, Q' s → R (f a s).1) → (∀ s, Q' s → R s) → Q s → R ((m ≫= f) s).1.
Proof.
  intros Hm Hf HQ Hs. unfold mbind, proc_bind. specialize (Hm s Hs). destruct (m s) as [s1 [a|e]]; [by apply Hf|by apply HQ].
Qed.

Lemma keeps_both {A} (Q R : Consumer → Prop) (m : cmeth A) : keeps Q m → keeps R m → keeps (λ s, Q s ∧ R s) m.
Proof. intros HQ HR s [Hs1 Hs2]. split; [by apply HQ|by apply HR]. Qed.

(** What is not raised. *)
Definition never {A} (x : exn) (m : cmeth A) : Prop := ∀ s, (m s).2 ≠ Err x.

Section never.
Context (x : exn).
Lemma never_bind {A B} (m : cmeth A) (f : A → cmeth B) : never x m → (∀ a, never x (f a)) → never x (m ≫= f).
Proof.
  intros Hm Hf s. unfold mbind, proc_bind. specialize (Hm s). destruct (m s) as [s' [a|e]]; [by apply Hf|]. cbn in *. congruence.
Qed.
Lemma never_finally {A} (m : cmeth A) final : never x m → never x final → never x (finally m final).
Proof.
  intros Hm Hf s. unfold finally. specialize (Hm s). destruct (m s) as [s1 r]. specialize (Hf s1).
  destruct (final s1) as [s2 [[]|e]]; cbn in *; congruence.
Qed.
Lemma never_unhandled m : x ≠ OutOfFuel → never x (unhandled m).
Proof.
  intros Hx s. unfold unhandled, attempt, mbind, proc_bind. destruct (m s) as [s' [a|e]]; [done|]. destruct e; cbn; congruence.
Qed.
Lemma never_modify f : never x (pmodify f).
Proof. by intros s. Qed.
Lemma never_get {A} (f : Consumer → A) : never x (pget f).
Proof. by intros s. Qed.
Lemma never_ret {A} (a : A) : never x (mret a : cmeth A).
Proof. by intros s. Qed.
Lemma never_raise {A} e : x ≠ e → never x (praise e : cmeth A).
Proof. intros He s. cbn. congruence. Qed.
Lemma never_settle d o : x ≠ AlreadyCalledError → never x (settle d o).
Proof. intros Hx s. unfold settle, fire. destruct (called _ _); [case_decide|]; cbn; congruence. Qed.
End never.

Ltac never_steps := repeat first
  [ apply never_unhandled; done | apply never_bind; [|intros ?] | apply never_modify | apply never_get | apply never_ret
  | apply never_raise; congruence | apply never_finally | apply never_unhandled; done | apply never_settle; done | case_match ].

Lemma never_collect cfg (rs : list fetched) : ∀ offset,
  forallb (λ r, bool_decide ((frr_messages r).2 ≠ Err (BrokerError OffsetOutOfRangeError))) rs = true →
  (collect_messages cfg rs offset).2 ≠ Err (BrokerError OffsetOutOfRangeError).
Proof.
  induction rs as [|r rs IH]; intros offset; [done|]. cbn [forallb collect_messages]. intros [Hr%bool_decide_eq_true Hrs]%andb_prop.
  destruct (frr_partition r =? partition cfg); [|by apply IH]. destruct (wanted cfg _ _) as [ms o].
  destruct (frr_messages r).2 as [u|e] eqn:He; [|cbn; intros [= ->]; by apply Hr]. specialize (IH o Hrs). by destruct (collect_messages cfg rs o) as [[? ?] ?].
Qed.

Lemma never_fetch_response cfg env depth (rs : list fetched) :
  forallb (λ r, bool_decide ((frr_messages r).2 ≠ Err (BrokerError OffsetOutOfRangeError))) rs = true →
  never (BrokerError OffsetOutOfRangeError) (handle_fetch_response cfg env depth rs).
Proof.
  intros Hrs. destruct depth as [|depth]; [by apply never_raise|]. cbn [handle_fetch_response].
  apply never_bind; [never_steps|]. intros ?. apply never_bind; [never_steps|]. intros b. destruct b as [waiting|]; [never_steps|].
  apply never_bind; [never_steps|]. intros [offset|]; [|by apply never_raise].
  pose proof (never_collect cfg rs offset Hrs) as Hc. destruct (collect_messages cfg rs offset) as [[ms o] r]. cbn in Hc.
  apply never_bind; [never_steps|]. intros ?. apply never_bind; [|intros []; unfold _retry_fetch; never_steps].
  apply never_finally; [|never_steps].
  unfold fetch_next, grow_buffer, start_errback. destruct r as [u|e]; [never_steps|].
  destruct e; try (apply never_raise; congruence). never_steps.
Qed.

(** ** The whole consumer *)

Section delivery.
Context (cfg : config) (env : environment) (resets : bool).
Context (P : list SourcedMessage → Consumer → Prop).
Hypothesis (HP : lasting cfg resets P).

(** The rest of the block in progress is yet to be handed over. *)
Definition lasts (s : Consumer) : Prop := P [] s ∧ ∀ b, _processor_d s = Some b → P (rest b) s.

Lemma pending_calm pend : calm cfg (P pend).
Proof using HP.
  split; intros.
  - by eapply (l_frame _ _ _ HP pend s).
  - by apply (l_emit _ _ _ HP).
  - by apply (l_send _ _ _ HP).
  - by apply (l_grow _ _ _ HP).
  - by apply (l_deferreds _ _ _ HP).
Qed.

Lemma lasts_calm : calm cfg lasts.
Proof using HP.
  split.
  - intros s s' H1 H2 H3 H4 H5 [Hn Hb]. split; [by eapply (l_frame _ _ _ HP)|]. rewrite H5.
    intros b Hs. eapply (l_frame _ _ _ HP); [done..|]. by apply Hb.
  - intros e s He He' [Hn Hb]. split; [by apply (l_emit _ _ _ HP)|]. intros b Hs. apply (l_emit _ _ _ HP); [done..|by apply Hb].
  - intros offset s Ho [Hn Hb]. split; [by apply (l_send _ _ _ HP)|]. intros b Hs. apply (l_send _ _ _ HP); [done|by apply Hb].
  - intros s Hg [Hn Hb]. split; [by apply (l_grow _ _ _ HP)|]. intros b Hs. apply (l_grow _ _ _ HP); [done|by apply Hb].
  - intros ds s Hp [Hn Hb]. split; [by apply (l_deferreds _ _ _ HP)|].
    intros b Hs. apply (l_deferreds _ _ _ HP); [done|by apply Hb].
Qed.
#[local] Hint Resolve lasts_calm pending_calm : keeps.
#[local] Hint Extern 2 (∀ s, lasts s → lasts _) => solve [pose proof lasts_calm; calm_steps] : keeps.

Lemma lasts_no_block s : lasts s → lasts (with_processor_d None s).
Proof using HP. intros [Hn Hb]. split; [|done]. by eapply (l_frame _ _ _ HP [] s). Qed.
#[local] Hint Resolve lasts_no_block : keeps.

Lemma keeps_processor_fired offset r : keeps lasts (processor_fired cfg offset r).
Proof using HP. unfold processor_fired, _update_processed_offset. delivery_steps. Qed.
Lemma keeps_processor_fired_pending pend offset r : keeps (P pend) (processor_fired cfg offset r).
Proof using HP.
  unfold processor_fired, _update_processed_offset. delivery_steps; intros s Hs; by eapply (l_frame _ _ _ HP pend s).
Qed.
#[local] Hint Resolve keeps_processor_fired : keeps.

Lemma keeps_end_block handle : (∀ rs, keeps lasts (handle rs)) → keeps lasts (end_block handle).
Proof using HP.
  intros Hh. unfold end_block. delivery_steps. apply keeps_for. auto.
Qed.

Lemma keeps_process_loop handle : (∀ rs, keeps lasts (handle rs)) → ∀ fuel messages s,
  P messages s → lasts s → lasts (process_loop cfg env fuel handle messages s).1.
Proof using HP.
  intros Hh. pose proof (keeps_end_block handle Hh) as He.
  induction fuel as [|fuel IH]; intros messages s Hp Hs; cbn [process_loop]; [by apply He|].
  unfold mbind at 1, proc_bind at 1, pget at 1. cbn beta iota.
  destruct (last _) as [m|]; [|by apply He]. destruct (_shuttingdown s); [by apply He|]. cbv zeta.
  set (n := proc_block_size cfg messages).
  set (s1 := with_processor_d (Some (mkBlock (drop n messages) (sm_offset m) false)) (emit (EProcess (take n messages)) s)).
  assert (P (drop n messages) s1) as Hp1.
  { eapply (l_frame _ _ _ HP _ (emit (EProcess (take n messages)) s)); [done..|]. apply (l_give _ _ _ HP). by rewrite take_drop. }
  assert (lasts s1) as Hs1.
  { split; [by eapply (l_drop _ _ _ HP)|]. by intros b [= <-]. }
  assert (∀ s, P (drop n messages) s ∧ lasts s → lasts s) as Hl by tauto.
  assert (∀ r, keeps (λ s, P (drop n messages) s ∧ lasts s) (processor_fired cfg (sm_offset m) r)) as Hf.
  { intros r. apply keeps_both; [apply keeps_processor_fired_pending|apply keeps_processor_fired]. }
  change (lasts ((r ← match processor env (take n messages) with
                      | Some r => r ← processor_fired cfg (sm_offset m) r; mret (Some r)
                      | None => mret None
                      end;
                  stopped ← pget (λ s : Consumer, _stopping s || bool_decide (_start_d s = None));
                  match r with
                  | None =>
                    if stopped : bool then
                      _ ← pmodify (emit ECancelProcessor);
                      r ← processor_fired cfg (sm_offset m) (processor_cancelled env);
                      _ ← match r with Ok _ => mret tt | Err e => pmodify (emit (EUnhandled e)) end;
                      end_block handle
                    else mret tt
                  | Some (Ok _) => if stopped : bool then end_block handle else process_loop cfg env fuel handle (drop n messages)
                  | Some (Err e) => if stopped : bool then _ ← pmodify (emit (EUnhandled e)); end_block handle else praise e
                  end) s1).1).
  apply (leads_bind (λ s, P (drop n messages) s ∧ lasts s) (λ s, P (drop n messages) s ∧ lasts s)); [|clear s Hp Hs s1 Hp1 Hs1|done|done].
  { destruct (processor env _) as [r|]; [|by intros ?]. refine (keeps_bind _ _ _ (Hf r) _). intros ?. apply keeps_ret. }
  intros r s Hs. apply (leads_bind (λ s, P (drop n messages) s ∧ lasts s) (λ s, P (drop n messages) s ∧ lasts s)); [by intros ?| |done|done].
  clear s Hs. intros stopped s [Hp Hs]. destruct r as [[[]|e]|].
  - destruct stopped; [by apply He|by apply IH].
  - revert s Hs Hp. intros s Hs _. revert s Hs.
    change (keeps lasts (if stopped then _ ← pmodify (emit (EUnhandled e)); end_block handle else praise e)).
    delivery_steps.
  - revert s Hs Hp. intros s Hs _. revert s Hs.
    change (keeps lasts (if stopped then _ ← pmodify (emit ECancelProcessor);
                      r ← processor_fired cfg (sm_offset m) (processor_cancelled env);
                      _ ← match r with Ok _ => mret tt | Err e => pmodify (emit (EUnhandled e)) end;
                      end_block handle else mret tt)).
    delivery_steps.
Qed.

Lemma keeps_finally {A} (Q R : Consumer → Prop) (m : cmeth A) final s :
  keeps Q m → (∀ s, Q s → R (final s).1) → Q s → R (finally m final s).1.
Proof using Type.
  intros Hm Hf Hs. specialize (Hm s Hs). unfold finally. destruct (m s) as [s1 r]. specialize (Hf s1 Hm).
  by destruct (final s1) as [s2 [[]|e]].
Qed.

Lemma keeps_process_messages handle ms s : (∀ rs, keeps lasts (handle rs)) → P ms s → lasts s →
  lasts ((_ ← pmodify (with_msg_block_d (Some [])); unhandled (_process_messages cfg env handle ms)) s).1.
Proof using HP.
  intros Hh Hp Hs. set (s1 := with_msg_block_d (Some []) s).
  assert (P ms s1) as Hp1 by (by eapply (l_frame _ _ _ HP ms s)).
  assert (lasts s1) as Hs1 by (eapply (c_frame _ _ lasts_calm s); done).
  pose proof (keeps_process_loop handle Hh (length ms) ms s1 Hp1 Hs1) as Hl.
  by apply (unhandled_result cfg _ lasts_calm (process_loop cfg env (length ms) handle ms) s1).
Qed.

Lemma keeps_fetch_response depth : ∀ rs, keeps lasts (handle_fetch_response cfg env depth rs).
Proof using HP.
  induction depth as [|depth IH]; intros rs; [apply keeps_raise|]. cbn [handle_fetch_response].
  apply keeps_bind; [delivery_steps|]. intros ?. apply keeps_bind; [apply keeps_get|]. intros [waiting|]; [delivery_steps|].
  intros s Hs. unfold mbind at 1, proc_bind at 1, pget at 1. cbn beta iota.
  destruct (_fetch_offset s) as [offset|] eqn:Ho; [|done].
  destruct (collect_messages cfg rs offset) as [[ms offset'] r] eqn:Hc.
  set (s1 := with_fetch_offset (Some offset') (with_request_d None s)).
  assert (P ms s1) as Hp1.
  { eapply (l_frame _ _ _ HP ms (with_fetch_offset (Some offset') s)); [done..|]. eapply (l_collect _ _ _ HP); [apply Hs|done..]. }
  assert (lasts s1) as Hs1.
  { eapply (c_frame _ _ lasts_calm (with_fetch_offset (Some offset') s)); [done..|]. destruct Hs as [H1 H2].
    split; [|intros b Hb]; eapply (l_advance _ _ _ HP); eauto. }
  assert (∀ s, P ms s ∧ lasts s → lasts s) as Hl by tauto.
  change (lasts ((again ← finally (fetch_next cfg r) (if is_empty ms then mret tt
     else _ ← pmodify (with_msg_block_d (Some [])); unhandled (_process_messages cfg env (handle_fetch_response cfg env depth) ms));
     if again : bool then _retry_fetch true else mret tt) s1).1).
  apply (leads_bind (λ s, P ms s ∧ lasts s) lasts); [|intros again; revert again|done|done].
  - intros s2 Hs2. apply (keeps_finally (λ s, P ms s ∧ lasts s)); [| |done].
    + apply keeps_both; apply keeps_fetch_next; auto with keeps.
    + intros s3 [Hp3 Hs3]. destruct (is_empty ms); [done|]. by apply keeps_process_messages.
  - intros []; [apply (keeps_retry_fetch cfg lasts lasts_calm)|by intros ?].
Qed.

(** *** Answers of the client *)

(** An answer that leaves the next offset. *)
Definition steady (a : answer) : bool :=
  match a with
  | AOffsets _ => false
  | AFailed e => bool_decide (e ≠ BrokerError OffsetOutOfRangeError)
  | AFetched rs => forallb (λ r, bool_decide ((frr_messages r).2 ≠ Err (BrokerError OffsetOutOfRangeError))) rs
  end.

Lemma lasts_reset x s : resets = true → lasts s → lasts (with_fetch_offset x s).
Proof using HP. intros Hr [H1 H2]. split; [|intros b Hb]; apply (l_reset _ _ _ HP); auto. Qed.

Lemma keeps_fetch_error e : steady (AFailed e) || resets = true → keeps lasts (_handle_fetch_error cfg e).
Proof using HP.
  intros Ha. unfold _handle_fetch_error. delivery_steps.
  all: intros ?; apply lasts_reset; by destruct resets.
Qed.
Lemma keeps_offset_error e : keeps lasts (_handle_offset_error e).
Proof using HP. unfold _handle_offset_error. delivery_steps. Qed.
Lemma keeps_offset_response rs : resets = true → keeps lasts (_handle_offset_response cfg rs).
Proof using HP.
  intros Hr. unfold _handle_offset_response, use_offset. delivery_steps.
  all: intros s1 Hs1; repeat (eapply (c_frame _ _ lasts_calm (with_fetch_offset _ s1)); [reflexivity..|]); by apply lasts_reset.
Qed.
#[local] Hint Resolve keeps_fetch_error keeps_offset_error keeps_offset_response keeps_fetch_response : keeps.

Lemma keeps_request_answered a : steady a || resets = true → keeps lasts (request_answered cfg env a).
Proof using HP.
  intros Ha. unfold request_answered. apply keeps_bind; [apply keeps_get|]. intros r.
  destruct r as [[]|], a as [rs|rs|e]; try (delivery_steps; by destruct resets).
  intros s Hs. unfold mbind at 1, proc_bind at 1, attempt.
  pose proof (keeps_fetch_response 1 rs s Hs) as Hk. pose proof (never_fetch_response cfg env 1 rs) as Hn. unfold _handle_fetch_response.
  destruct (handle_fetch_response cfg env 1 rs s) as [s1 [[]|e]] eqn:He; [done|]. cbn in Hk.
  destruct (decide (e = OutOfFuel)) as [->|]; [done|].
  assert (lasts (unhandled (_handle_fetch_error cfg e) s1).1) as Hl; [|by destruct e].
  apply (keeps_unhandled cfg lasts lasts_calm); [|done]. apply keeps_fetch_error. apply orb_true_iff in Ha as [Ha| ->]; [|by rewrite orb_true_r].
  apply orb_true_iff. left. cbn. apply bool_decide_eq_true. intros ->. apply (Hn Ha s). by rewrite He.
Qed.

(** *** Stopping *)

Section stopping.
Context (stop : cmeth unit).
Hypothesis (Hstop : keeps lasts stop).

Lemma keeps_end_shutdown o : keeps lasts (end_shutdown stop o).
Proof using HP Hstop. unfold end_shutdown. delivery_steps. Qed.
#[local] Hint Resolve keeps_end_shutdown : keeps.
Lemma keeps_commit_and_stop : keeps lasts (_commit_and_stop cfg stop).
Proof using HP Hstop.
  unfold _commit_and_stop, _handle_shutdown_commit_success, _handle_shutdown_commit_failure. delivery_steps.
Qed.
#[local] Hint Resolve keeps_commit_and_stop : keeps.
Lemma keeps_react w o : keeps lasts (react cfg stop w o).
Proof using HP Hstop.
  unfold react, _handle_shutdown_commit_success, _handle_shutdown_commit_failure. delivery_steps.
Qed.
#[local] Hint Resolve keeps_react : keeps.
Lemma keeps_deliver o w : keeps lasts (deliver cfg stop o w).
Proof using HP Hstop. unfold deliver. delivery_steps. Qed.
Lemma keeps_deliver_commit o : keeps lasts (_deliver_commit_result cfg stop o).
Proof using HP Hstop.
  unfold _deliver_commit_result. delivery_steps. apply keeps_for. intros w _. apply keeps_deliver.
Qed.
#[local] Hint Resolve keeps_deliver_commit : keeps.
Lemma keeps_commit_answered r : keeps lasts (commit_answered cfg stop r).
Proof using HP Hstop. unfold commit_answered, _update_committed_offset, _handle_commit_error. delivery_steps. Qed.

Lemma keeps_processor_ended r : keeps lasts (processor_ended cfg env stop r).
Proof using HP Hstop.
  intros s Hs. unfold processor_ended. unfold mbind at 1, proc_bind at 1, pget at 1. cbn beta iota.
  destruct (_processor_d s) as [b|] eqn:Hb; [|done].
  apply (leads_bind (λ s, P (rest b) s ∧ lasts s) (λ s, P (rest b) s ∧ lasts s)); [| |by intros ? []|by split; [apply Hs|]].
  - apply keeps_both; [apply keeps_processor_fired_pending|apply keeps_processor_fired].
  - intros r' s1 Hs1. apply (leads_bind (λ s, P (rest b) s ∧ lasts s) lasts); [| |done|done].
    + intros s2 [Hp2 Hs2]. apply (unhandled_result cfg _ lasts_calm). destruct r' as [[]|e]; [|done].
      apply keeps_process_loop; [|done|done]. apply keeps_fetch_response.
    + intros ? s2 Hs2. destruct (then_commit_and_stop b); [|done]. apply (keeps_unhandled cfg lasts lasts_calm); auto with keeps.
Qed.
#[local] Hint Resolve keeps_commit_answered keeps_processor_ended keeps_request_answered : keeps.

Lemma keeps_cancel_waiters fuel : keeps lasts (cancel_waiters cfg stop fuel).
Proof using HP Hstop.
  induction fuel as [|fuel IH]; cbn [cancel_waiters]; delivery_steps.
  intros s Hs. unfold cancel_waiter. destruct (called _ _) eqn:Hc; [done|].
  destruct (cancel_plain _ _) as [ds|e] eqn:Hd; [|done]. apply keeps_react. apply (c_deferreds _ _ lasts_calm); [|done].
  unfold cancel_plain in Hd. rewrite Hc in Hd. by apply fire_records in Hd as [Hp _].
Qed.
#[local] Hint Resolve keeps_cancel_waiters : keeps.

Lemma keeps_stop_body :
  (match request_cancelled env with Some a => steady a | None => true end) || resets = true →
  keeps lasts (stop_body cfg env stop).
Proof using HP Hstop.
  intros Hsteady. unfold stop_body, cancel_operations, cancel_request, cancel_processor, cancel_commit, cancel_call, stop_looper, stopped.
  destruct (request_cancelled env) as [a|]; delivery_steps.
Qed.
End stopping.

(** *** Every event *)

Definition steady_environment : bool := match request_cancelled env with Some a => steady a | None => true end.
Definition steady_event (e : event) : bool :=
  steady_environment && match e with Start _ => false | RequestAnswer a => steady a | _ => true end.

Lemma keeps_stop : steady_environment || resets = true → keeps lasts (stop cfg env).
Proof using HP.
  intros Hs. unfold stop. generalize 3%nat. intros depth. induction depth as [|depth IH]; cbn [stop_within]; [apply keeps_raise|].
  by apply keeps_stop_body.
Qed.

Lemma keeps_cancel_by_user d : keeps lasts (cancel_by_user d).
Proof using HP.
  intros s Hs. unfold cancel_by_user, mbind, proc_bind, pget. cbn beta iota.
  destruct (cancel_plain d (cs_deferreds s)) as [ds|e] eqn:Hd; [|done]. apply (c_deferreds _ _ lasts_calm); [|done].
  unfold cancel_plain in Hd. destruct (called _ _); [by simplify_eq|]. by apply fire_records in Hd as [Hp _].
Qed.

Lemma keeps_start offset : resets = true → keeps lasts (start cfg offset).
Proof using HP.
  intros Hr. unfold start. delivery_steps. intros s1 Hs1.
  eapply (c_frame _ _ lasts_calm (with_fetch_offset (Some offset) s1)); [reflexivity..|]. by apply lasts_reset.
Qed.

Lemma keeps_shutdown : steady_environment || resets = true → keeps lasts (shutdown cfg env).
Proof using HP.
  intros Hs. unfold shutdown. apply keeps_bind; [apply keeps_get|]. intros d. apply keeps_bind; [apply keeps_get|]. intros down.
  destruct d, down; try apply keeps_ret. apply keeps_bind; [delivery_steps|]. intros ?.
  apply keeps_bind; [delivery_steps|]. intros d. apply keeps_bind; [delivery_steps|]. intros ?.
  intros s Hl. unfold mbind at 1, proc_bind at 1, pget at 1. cbn beta iota.
  destruct (_processor_d s) as [b|] eqn:Hb.
  - destruct Hl as [H1 H2]. split; [by eapply (l_frame _ _ _ HP [] s)|]. intros b' [= <-].
    eapply (l_frame _ _ _ HP (rest b) s); [done..|]. by apply H2.
  - revert s Hl Hb. intros s Hl _. revert s Hl.
    apply (keeps_bind lasts (_commit_and_stop cfg (stop cfg env)) (λ _, mret (inr d))); [|intros ?; apply keeps_ret].
    apply keeps_commit_and_stop. by apply keeps_stop.
Qed.

Lemma keeps_handle e : steady_event e || resets = true → keeps lasts (handle cfg env e).
Proof using HP.
  intros He. assert (steady_environment || resets = true) as Henv.
  { unfold steady_event in He. by destruct steady_environment, resets. }
  assert (match e with RequestAnswer a => steady a | Start _ => false | _ => true end || resets = true) as Hev.
  { unfold steady_event in He. destruct resets; [apply orb_true_r|]. rewrite orb_false_r in *. by apply andb_prop in He as [_ ?]. }
  pose proof (keeps_stop Henv) as Hstop. destruct e; cbn [handle].
  - apply keeps_bind; [by apply keeps_start|intros ?; apply keeps_ret].
  - done.
  - apply keeps_bind; [by apply keeps_shutdown|intros ?; apply keeps_ret].
  - delivery_steps.
  - apply keeps_cancel_by_user.
  - by apply keeps_request_answered.
  - unfold fetch_call. delivery_steps.
  - by apply keeps_processor_ended.
  - by apply keeps_commit_answered.
  - unfold commit_retry_call. delivery_steps.
  - delivery_steps.
  - unfold _commit_timer_failed. delivery_steps.
Qed.
End delivery.
