(* ===== verification/ConsumerTheorems.v ===== *)
(** What the [Consumer] promises: messages in order, commits that are answered,
    and an end when it is stopped or shut down. *)
From S2P Require Import Prelude Common PyBytes Util KafkaCodec Deferred Consumer ConsumerInvariant ConsumerSafety ConsumerDelivery.
Local Open Scope Z_scope.

(** ** The order of the messages *)

Definition offsets (ms : list SourcedMessage) : list Z := sm_offset <$> ms.

(** The offsets handed to the processor, in order. *)
Definition handed_by (e : effect) : list Z := match e with EProcess ms => offsets ms | _ => [] end.
Definition handed (s : Consumer) : list Z := mjoin (handed_by <$> cs_effects s).

(** Strictly increasing, between two offsets. *)
Definition increasing (lo hi : Z) (l : list Z) : Prop := StronglySorted Z.lt l ∧ Forall (λ o, lo ≤ o < hi) l.

Lemma increasing_weaken lo lo' hi hi' l : lo' ≤ lo → hi ≤ hi' → increasing lo hi l → increasing lo' hi' l.
Proof. intros H1 H2 [Hs Hf]. split; [done|]. eapply Forall_impl; [exact Hf|]. cbn. lia. Qed.

Lemma sorted_app (l1 l2 : list Z) :
  StronglySorted Z.lt l1 → StronglySorted Z.lt l2 → Forall (λ x, Forall (Z.lt x) l2) l1 → StronglySorted Z.lt (l1 ++ l2).
Proof.
  induction l1 as [|x l1 IH]; [done|]. intros H1 H2 Hf. apply Forall_cons in Hf as [Hx Hf].
  apply StronglySorted_inv in H1 as [H1 Hx1]. cbn. constructor; [by apply IH|]. apply Forall_app. by split.
Qed.

Lemma sorted_app_l (l1 l2 : list Z) : StronglySorted Z.lt (l1 ++ l2) → StronglySorted Z.lt l1.
Proof.
  induction l1 as [|x l1 IH]; [constructor|]. cbn. intros [H1 H2]%StronglySorted_inv.
  constructor; [by apply IH|]. by apply Forall_app in H2 as [H2 _].
Qed.

Lemma increasing_app lo mid hi l1 l2 : lo ≤ mid → mid ≤ hi →
  increasing lo mid l1 → increasing mid hi l2 → increasing lo hi (l1 ++ l2).
Proof.
  intros Hlo Hhi [H1 F1] [H2 F2]. split.
  - apply sorted_app; [done..|]. apply Forall_forall. intros x Hx. apply Forall_forall. intros y Hy.
    rewrite Forall_forall in F1, F2. specialize (F1 x Hx). specialize (F2 y Hy). cbn in *. lia.
  - apply Forall_app. split; (eapply Forall_impl; [eassumption|]); cbn; lia.
Qed.

Lemma increasing_app_l lo hi l1 l2 : increasing lo hi (l1 ++ l2) → increasing lo hi l1.
Proof. intros [Hs Hf]. split; [by eapply sorted_app_l|]. by apply Forall_app in Hf as [Hf _]. Qed.

(** What [wanted] takes of a message set. *)
Lemma wanted_spec cfg (oms : list OffsetAndMessage) : ∀ offset,
  let '(ms, offset') := wanted cfg oms offset in
  offset ≤ offset' ∧ increasing offset offset' (offsets ms) ∧
  (∀ m, m ∈ ms → ∃ om, om ∈ oms ∧ m = mkSourcedMessage (topic cfg) (partition cfg) (om_offset om) (om_message om)) ∧
  (∀ om, om ∈ oms → offset ≤ om_offset om → om_offset om < offset').
Proof.
  induction oms as [|om oms IH]; intros offset; cbn.
  - split_and!; [lia|split; constructor|set_solver|set_solver].
  - destruct (om_offset om <? offset) eqn:Hlt; [apply Z.ltb_lt in Hlt|apply Z.ltb_ge in Hlt].
    + specialize (IH offset). destruct (wanted cfg oms offset) as [ms offset']. destruct IH as (H1 & H2 & H3 & H4).
      split_and!; [done|done| |].
      * intros m Hm. destruct (H3 m Hm) as (om' & ? & ?). exists om'. split; [by right|done].
      * intros om' [->|Hom]%elem_of_cons Hle; [lia|by apply H4].
    + specialize (IH (om_offset om + 1)). destruct (wanted cfg oms (om_offset om + 1)) as [ms offset'].
      destruct IH as (H1 & H2 & H3 & H4). split_and!; [lia| | |].
      * cbn. apply (increasing_app offset (om_offset om + 1) offset' [om_offset om]); [lia|lia| |done].
        split; repeat constructor; lia.
      * intros m [->|Hm]%elem_of_cons; [exists om; split; [by left|done]|].
        destruct (H3 m Hm) as (om' & ? & ?). exists om'. split; [by right|done].
      * intros om' [->|Hom]%elem_of_cons Hle; [lia|].
        destruct (decide (om_offset om + 1 ≤ om_offset om')); [by apply H4|lia].
Qed.

Lemma collect_spec cfg (rs : list fetched) : ∀ offset ms offset' r,
  collect_messages cfg rs offset = (ms, offset', r) →
  offset ≤ offset' ∧ increasing offset offset' (offsets ms).
Proof.
  induction rs as [|resp rs IH]; intros offset ms offset' r; cbn [collect_messages].
  - intros [= <- <- <-]. split; [lia|split; constructor].
  - destruct (frr_partition resp =? partition cfg); [|by apply IH].
    pose proof (wanted_spec cfg (frr_messages resp).1 offset) as Hw. destruct (wanted cfg _ _) as [ms1 o1].
    destruct Hw as (H1 & H2 & _ & _). destruct (frr_messages resp).2; [|by intros [= <- <- <-]].
    destruct (collect_messages cfg rs o1) as [[ms2 o2] r2] eqn:Hc. intros [= <- <- <-].
    destruct (IH _ _ _ _ Hc) as [H3 H4]. split; [lia|]. unfold offsets. rewrite fmap_app.
    by apply (increasing_app offset o1 o2).
Qed.

(** A message set in the order of the log: all from the wanted offset on. *)
Lemma wanted_sorted cfg (oms : list OffsetAndMessage) : ∀ offset, StronglySorted Z.lt (om_offset <$> oms) →
  (wanted cfg oms offset).1 =
  (λ om, mkSourcedMessage (topic cfg) (partition cfg) (om_offset om) (om_message om)) <$>
    filter (λ om, offset ≤ om_offset om) oms.
Proof.
  induction oms as [|om oms IH]; intros offset; [done|]. cbn [fmap list_fmap wanted].
  intros [Hs Hf]%StronglySorted_inv. destruct (om_offset om <? offset) eqn:Hlt.
  - apply Z.ltb_lt in Hlt. rewrite filter_cons_False by lia. by apply IH.
  - apply Z.ltb_ge in Hlt. rewrite filter_cons_True by done. specialize (IH (om_offset om + 1) Hs).
    destruct (wanted cfg oms (om_offset om + 1)) as [ms o]. cbn in *. f_equal. rewrite IH.
    f_equal. apply filter_ext_in. intros om' Hom. rewrite Forall_forall in Hf.
    assert (om_offset om < om_offset om') by (apply Hf, list_elem_of_fmap; eauto). lia.
Qed.

(** The messages handed over since [s0], with those of the block in progress. *)
Definition in_order (s0 : Consumer) (lo : Z) (pend : list SourcedMessage) (s : Consumer) : Prop :=
  ∃ new hi, handed s = handed s0 ++ new ∧ _fetch_offset s = Some hi ∧ lo ≤ hi ∧ increasing lo hi (new ++ offsets pend).

Lemma handed_emit e s : handed (emit e s) = handed s ++ handed_by e.
Proof. unfold handed. cbn. rewrite fmap_app, join_app. cbn. by rewrite app_nil_r. Qed.

Lemma in_order_lasting cfg s0 lo : lasting cfg false (in_order s0 lo).
Proof.
  split.
  - intros pend s s' H1 H2 H3 _ (new & hi & Hn & Hf & Hi). exists new, hi. unfold handed in *. by rewrite H1, H2.
  - intros pend e s He _ (new & hi & Hn & Hf & Hi). exists new, hi. rewrite handed_emit, Hn.
    split; [|done]. destruct e; cbn; rewrite ?app_nil_r; try done. by destruct (He messages).
  - intros pend offset s _ (new & hi & Hn & H). exists new, hi. rewrite handed_emit, Hn.
    split; [|done]. cbn. by rewrite app_nil_r.
  - done.
  - done.
  - intros pend s (new & hi & Hn & Hf & Hle & Hi). exists new, hi. split_and!; [done..|].
    cbn. rewrite app_nil_r. by eapply increasing_app_l.
  - intros ms pend s (new & hi & Hn & Hf & Hle & Hi). exists (new ++ offsets ms), hi. rewrite handed_emit, Hn.
    split_and!; [by rewrite <- app_assoc|done|done|]. unfold offsets in *. by rewrite fmap_app, app_assoc in Hi.
  - intros rs offset ms offset' r s (new & hi & Hn & Hf & Hle & Hi) Ho Hc. rewrite Hf in Ho. injection Ho as ->.
    destruct (collect_spec _ _ _ _ _ _ Hc) as [H1 H2]. exists new, offset'. cbn in Hi. rewrite app_nil_r in Hi.
    split_and!; [done..|lia|]. by apply (increasing_app lo offset offset').
  - intros pend rs offset ms offset' r s (new & hi & Hn & Hf & Hle & Hi) Ho Hc. rewrite Hf in Ho. injection Ho as ->.
    destruct (collect_spec _ _ _ _ _ _ Hc) as [H1 H2]. exists new, offset'.
    split_and!; [done..|lia|]. eapply increasing_weaken; [| |exact Hi]; lia.
  - done.
Qed.

(** A run in which the position is not changed to another than the next one: no
    start, no answer with an offset to start from, none that it is out of range. *)
Inductive steady_run (cfg : config) (s0 : Consumer) : Consumer → Prop :=
| steady_none : steady_run cfg s0 s0
| steady_step env e s : steady_run cfg s0 s → steady_event env e = true → steady_run cfg s0 (step cfg env e s).

(** C12. Whatever the client answers and however the processor, commits and stops
    interleave, as long as the position is not reset the processor is given
    messages in strictly increasing order of their offsets, each at most once,
    none from before the position at the beginning, and none that the next
    fetch asks for again. *)
Theorem consumer_in_order cfg (s0 : Consumer) lo (s : Consumer) :
  _fetch_offset s0 = Some lo → _processor_d s0 = None → steady_run cfg s0 s →
  ∃ new hi, handed s = handed s0 ++ new ∧ _fetch_offset s = Some hi ∧ lo ≤ hi ∧ increasing lo hi new.
Proof.
  intros Ho Hp Hrun. assert (lasts (in_order s0 lo) s) as [(new & hi & H1 & H2 & H3 & H4) _].
  - induction Hrun as [|env e s Hrun IH He].
    + split; [|intros b; by rewrite Hp]. exists [], lo. rewrite app_nil_r. split_and!; [done|done|lia|split; constructor].
    + apply (keeps_handle cfg env false (in_order s0 lo) (in_order_lasting cfg s0 lo) e); [by rewrite He|done].
  - exists new, hi. cbn in H4. by rewrite app_nil_r in H4.
Qed.

(** ** A block of messages *)

(** The calls of the processor, in order. *)
Definition calls_by (e : effect) : list (list SourcedMessage) := match e with EProcess ms => [ms] | _ => [] end.
Definition calls (s : Consumer) : list (list SourcedMessage) := mjoin (calls_by <$> cs_effects s).

Lemma calls_emit e s : calls (emit e s) = calls s ++ calls_by e.
Proof. unfold calls. cbn. rewrite fmap_app, join_app. cbn. by rewrite app_nil_r. Qed.

Lemma calls_none e (s s' : Consumer) : cs_effects s' = cs_effects s ++ [e] → calls_by e = [] → calls s' = calls s.
Proof. unfold calls. intros -> He. rewrite fmap_app, join_app. cbn. by rewrite He, !app_nil_r. Qed.

(** It was started, and neither stops nor shuts down. *)
Definition running (s : Consumer) : Prop := _start_d s ≠ None ∧ _stopping s = false ∧ _shuttingdown s = false.

(** A commit can be sent when nobody waits for one. *)
Definition can_commit (s : Consumer) : Prop :=
  (_commit_ds s = [] → _commit_req s = None) ∧ _commit_looper s ≠ Some LoopStopped.

(** What an automatic commit leaves as it was. *)
Definition same_progress (s s' : Consumer) : Prop :=
  lifecycle s' = lifecycle s ∧ calls s' = calls s ∧ _last_processed_offset s' = _last_processed_offset s ∧ fetching s' = fetching s.

Lemma send_commit_ok n a (s : Consumer) : _commit_req s = None →
  ∃ s', _send_commit_request n a s = (s', Ok tt) ∧ same_progress s s' ∧ _commit_ds s' = _commit_ds s ∧
        _commit_looper s' = _commit_looper s ∧ _commit_req s' = Some (mkCommitRequest (_last_processed_offset s) n a) ∧
        _commit_call s' ≠ Some CallOver ∧
        cs_effects s' = cs_effects s ++ [ESendCommit (_last_processed_offset s)] ∧ cs_deferreds s' = cs_deferreds s.
Proof.
  intros Hr. unfold _send_commit_request, mbind, proc_bind, pget, pmodify. cbn beta iota.
  destruct (_commit_call s) as [[x|]|] eqn:Hc; cbn; rewrite Hr; eexists; (split; [reflexivity|]);
    (unfold same_progress; split_and!; try done; try (by eapply calls_none); cbn; congruence).
Qed.

(** A commit that is sent. *)
Lemma commit_ok cfg waits busy (s : Consumer) :
  grouped cfg = true → _last_processed_offset s ≠ None → _last_processed_offset s ≠ _last_committed_offset s →
  _commit_ds s = [] → can_commit s →
  ∃ s', commit cfg waits busy s = (s', Ok (CWaits (issued (cs_deferreds s)))) ∧ same_progress s s' ∧
        _commit_ds s' = [mkWaiter (issued (cs_deferreds s)) waits] ∧
        _commit_looper s' = _commit_looper s ∧ _commit_req s' = Some (mkCommitRequest (_last_processed_offset s) 0 1) ∧
        _commit_call s' ≠ Some CallOver ∧ ESendCommit (_last_processed_offset s) ∈ cs_effects s' ∧
        cs_deferreds s' = (new_deferred (cs_deferreds s)).2.
Proof.
  intros Hg Hp Hne Hds [Hr Hl]. unfold commit. rewrite !get_bind. rewrite Hg, Hds. cbn [negb is_empty].
  rewrite !bool_decide_false by done. cbn [orb].
  set (s1 := with_commit_ds [mkWaiter (issued (cs_deferreds s)) waits] (with_deferreds (new_deferred (cs_deferreds s)).2 s)).
  assert (add_waiter waits s = (s1, Ok (issued (cs_deferreds s)))) as Ha.
  { unfold add_waiter, new_d, mbind, proc_bind, pget, pmodify. cbn. by rewrite Hds. }
  rewrite (proc_bind_ok _ _ _ _ _ Ha). destruct (send_commit_ok 0 1 s1) as (s2 & Hs & H1 & H2 & H3 & H4 & H5 & H6 & H7); [by apply Hr|].
  rewrite (proc_bind_ok _ _ _ _ _ Hs).
  assert (ESendCommit (_last_processed_offset s) ∈ cs_effects s2) as Hin by (rewrite H6; set_solver).
  assert (same_progress s s2) as Hsame by exact H1.
  destruct (_commit_looper s) as [[b|]|] eqn:Hlo; [|done|].
  - assert (reset_looper s2 = (emit EResetLooper s2, Ok tt)) as Hre by (unfold reset_looper; by rewrite get_bind, H3; cbn; rewrite Hlo).
    rewrite (proc_bind_ok _ _ _ _ _ Hre). eexists. split; [reflexivity|]. destruct Hsame as (G1 & G2 & G3 & G4).
    split_and!; try done; try (cbn; congruence).
    + unfold same_progress. split_and!; [done| |done|done]. etrans; [by eapply calls_none|done].
    + by change (_commit_looper s2 = Some (LoopRunning b)); rewrite H3.
    + cbn. set_solver.
  - assert (reset_looper s2 = (s2, Ok tt)) as Hre by (unfold reset_looper; by rewrite get_bind, H3; cbn; rewrite Hlo).
    rewrite (proc_bind_ok _ _ _ _ _ Hre). eexists. split; [reflexivity|]. split_and!; try done. by rewrite H3.
Qed.

Lemma auto_commit_ok cfg by_count (s : Consumer) : can_commit s →
  ∃ s', _auto_commit cfg by_count s = (s', Ok tt) ∧ same_progress s s' ∧ can_commit s'.
Proof.
  intros Hc. assert (∃ s', (s, Ok tt : res unit) = (s', Ok tt) ∧ same_progress s s' ∧ can_commit s') as Hs.
  { exists s. split_and!; [done|by split_and!|done]. }
  unfold _auto_commit. rewrite !get_bind. destruct (_ || _ || negb _) eqn:Hoff; [exact Hs|].
  apply orb_false_iff in Hoff as [Hoff _]. repeat (apply orb_false_iff in Hoff as [Hoff ?]).
  destruct (_commit_ds s) as [|w ds] eqn:Hds; cbn [is_empty].
  - destruct (decide (_last_processed_offset s = _last_committed_offset s)) as [He|Hne].
    + unfold commit. unfold mbind at 1, proc_bind at 1. rewrite !get_bind, H0, He.
      rewrite (bool_decide_true (_last_committed_offset s = _last_committed_offset s)) by done. by rewrite orb_true_r.
    + apply bool_decide_eq_false in H1. apply negb_false_iff in H0.
      destruct (commit_ok cfg RAutoCommit RNone s H0 H1 Hne Hds Hc) as (s' & He & G1 & G2 & G3 & _).
      rewrite (proc_bind_ok _ _ _ _ _ He). exists s'. split; [done|]. split; [done|].
      split; [by rewrite G2|]. destruct Hc as [_ Hl]. by rewrite G3.
  - eexists. split; [reflexivity|]. split; [by split_and!|]. destruct Hc. split; [|done]. intros Hn. cbn in Hn. by apply app_nil in Hn as [_ ?].
Qed.

(** What has become of the messages of a block: those [given], in blocks of the
    configured size, and those [left], which wait for the processor; or all are
    done and the block is over. *)
Definition block_size_ok (cfg : config) (b : list SourcedMessage) : Prop :=
  b ≠ [] ∧ match truthy (auto_commit_every_n cfg) with Some n => Z.of_nat (length b) ≤ n | None => True end.

Definition given_up_to (cfg : config) (messages : list SourcedMessage) (s s' : Consumer) : Prop :=
  ∃ given left, mjoin given ++ left = messages ∧ calls s' = calls s ++ given ∧ Forall (block_size_ok cfg) given ∧
    running s' ∧ can_commit s' ∧ fetching s' = fetching s ∧
    ((∃ m, last (mjoin given) = Some m ∧ _processor_d s' = Some (mkBlock left (sm_offset m) false) ∧
           _msg_block_d s' = Some []) ∨
     (left = [] ∧ _processor_d s' = None ∧ _msg_block_d s' = None ∧
      _last_processed_offset s' = match last messages with Some m => Some (sm_offset m) | None => _last_processed_offset s end)).

Lemma fired_ok cfg offset (s : Consumer) : running s → can_commit s →
  ∃ s', processor_fired cfg offset (Ok tt) s = (s', Ok (Ok tt)) ∧ running s' ∧ can_commit s' ∧ calls s' = calls s ∧
        _processor_d s' = None ∧ _msg_block_d s' = _msg_block_d s ∧ _last_processed_offset s' = Some offset ∧
        fetching s' = fetching s.
Proof.
  intros (H1 & H2 & H3) Hc. set (s1 := with_last_processed (Some offset) (with_processor_d None s)).
  destruct (auto_commit_ok cfg true s1) as (s' & He & (G1 & G2 & G3 & G5) & G4); [exact Hc|].
  exists s'. split.
  - unfold processor_fired, _update_processed_offset, attempt. unfold mbind, proc_bind, pmodify. cbn beta iota.
    change (with_last_processed (Some offset) (with_processor_d None s)) with s1. by rewrite He.
  - unfold running. rewrite G1. split_and!; done.
Qed.

Lemma block_taken cfg m0 messages : (∀ n, auto_commit_every_n cfg = Some n → 0 ≤ n) →
  block_size_ok cfg (take (proc_block_size cfg (m0 :: messages)) (m0 :: messages)).
Proof.
  intros Hn. unfold block_size_ok, proc_block_size, truthy. destruct (auto_commit_every_n cfg) as [z|]; [|done].
  specialize (Hn z eq_refl). destruct (z =? 0) eqn:H0; [done|]. apply Z.eqb_neq in H0. split; [|rewrite length_take; lia].
  by destruct (Z.to_nat z) eqn:Hz; [lia|].
Qed.

(** A block given, and what becomes of the others. *)
Lemma given_cons cfg b m others (s s1 s' : Consumer) : block_size_ok cfg b → last b = Some m →
  calls s1 = calls s ++ [b] → _last_processed_offset s1 = Some (sm_offset m) → fetching s1 = fetching s →
  given_up_to cfg others s1 s' → given_up_to cfg (b ++ others) s s'.
Proof.
  intros Hb Hm Hc Hp Hfe (given & left & <- & Hg & Hf & Hr & Hcc & Hfe' & H). exists (b :: given), left. change (mjoin (b :: given)) with (b ++ mjoin given).
  rewrite <- (assoc_L (++)). split; [done|]. split; [by rewrite Hg, Hc, <- (assoc (++))|].
  split; [by constructor|]. split; [done|]. split; [done|]. split; [congruence|]. destruct H as [(m' & H1 & H2 & H3)|(-> & H1 & H2 & H3)].
  - left. exists m'. split_and!; [|done|done]. by rewrite last_app, H1.
  - right. split_and!; [done..|]. rewrite app_nil_r in *. rewrite H3, last_app, Hp, Hm. by destruct (last (mjoin given)).
Qed.

Lemma given_none cfg (s s' : Consumer) : calls s' = calls s → running s' → can_commit s' → _processor_d s' = None → _msg_block_d s' = None →
  _last_processed_offset s' = _last_processed_offset s → fetching s' = fetching s → given_up_to cfg [] s s'.
Proof.
  intros H1 H2 Hc H3 H4 H5 H6. exists [], []. split; [done|]. split; [by rewrite app_nil_r|]. do 4 (split; [done|]). by right.
Qed.

Lemma process_loop_ok cfg env handle : (∀ n, auto_commit_every_n cfg = Some n → 0 ≤ n) →
  (∀ ms e, processor env ms ≠ Some (Err e)) → ∀ fuel messages (s : Consumer),
  (length messages ≤ fuel)%nat → running s → can_commit s → _processor_d s = None → _msg_block_d s = Some [] →
  ∃ s', process_loop cfg env fuel handle messages s = (s', Ok tt) ∧ given_up_to cfg messages s s' ∧
        ((∀ ms, processor env ms ≠ None) → _processor_d s' = None).
Proof.
  intros Hn Hp. assert (∀ s : Consumer, running s → can_commit s → _processor_d s = None → _msg_block_d s = Some [] →
    ∃ s', end_block handle s = (s', Ok tt) ∧ given_up_to cfg [] s s' ∧ ((∀ ms, processor env ms ≠ None) → _processor_d s' = None)) as Hend.
  { intros s Hr Hc Hd Hb. unfold end_block. rewrite get_bind, Hb. eexists. split; [reflexivity|]. split; [|done]. by apply given_none. }
  induction fuel as [|fuel IH]; intros messages s Hlen Hr Hc Hd Hb; cbn [process_loop]; rewrite get_bind.
  { destruct messages; [by apply Hend|cbn in Hlen; lia]. }
  destruct messages as [|m0 messages]; [unfold proc_block_size; rewrite take_nil; by apply Hend|].
  pose proof (block_taken cfg m0 messages Hn) as Hsize.
  pose proof (take_drop (proc_block_size cfg (m0 :: messages)) (m0 :: messages)) as Hsplit.
  set (b := take _ _) in *. set (others := drop _ _) in *. pose proof Hr as (Hr1 & Hr2 & Hr3). rewrite Hr3.
  destruct (last b) as [m|] eqn:Hlast; [|by apply last_None in Hlast as ->; destruct Hsize].
  assert (length others ≤ fuel)%nat as Hlen'.
  { rewrite <- Hsplit, length_app in Hlen. destruct Hsize as [Hne _]. destruct b; [done|]. cbn in Hlen. lia. }
  cbv zeta. set (s1 := with_processor_d (Some (mkBlock others (sm_offset m) false)) (emit (EProcess b) s)).
  assert (calls s1 = calls s ++ [b]) as Hcalls by (unfold s1; etrans; [apply (calls_emit (EProcess b) s)|done]).
  rewrite <- Hsplit. destruct (processor env b) as [[[]|e]|] eqn:Hpr; [|by destruct (Hp b e)|].
  - destruct (fired_ok cfg (sm_offset m) s1) as (s2 & He & G1 & G2 & G3 & G4 & G5 & G6 & G7); [exact Hr|exact Hc|].
    destruct (IH others s2) as (s3 & Hl & Hgiven & Hsync); [done..|by rewrite G5|].
    exists s3. split; [|by split; [apply (given_cons cfg b m others s s2 s3); [done|done|rewrite G3|..]|]].
    unfold mbind, proc_bind, pmodify, pget. cbn beta iota. fold s1. rewrite He.
    destruct G1 as (G11 & G12 & G13). cbn. rewrite G12, bool_decide_false by done. exact Hl.
  - exists s1. split; [|split; [|by intros Hs; destruct (Hs b)]].
    + unfold mbind, proc_bind, pmodify, pget. cbn. by rewrite Hr2, bool_decide_false by done.
    + exists [b], others. cbn. rewrite app_nil_r. split_and!; try done; [by constructor|]. left. exists m. by split_and!.
Qed.

Lemma given_step cfg messages (s0 s s' : Consumer) :
  calls s0 = calls s → fetching s0 = fetching s → _last_processed_offset s0 = _last_processed_offset s →
  given_up_to cfg messages s s' → given_up_to cfg messages s0 s'.
Proof. intros H1 H2 H3 (given & left & H). exists given, left. by rewrite H1, H2, H3. Qed.

Lemma attempt_ok {A} (m : cmeth A) s s' a : m s = (s', Ok a) → attempt m s = (s', Ok (Ok a)).
Proof. unfold attempt. by intros ->. Qed.
Lemma unhandled_ok m s s' : m s = (s', Ok tt) → unhandled m s = (s', Ok tt).
Proof. intros H. unfold unhandled. by rewrite (proc_bind_ok _ _ _ _ _ (attempt_ok _ _ _ _ H)). Qed.

(** The processor has dealt with a block: the next one is given. *)
Lemma block_ended cfg env stop b (s : Consumer) : (∀ n, auto_commit_every_n cfg = Some n → 0 ≤ n) →
  (∀ ms e, processor env ms ≠ Some (Err e)) → running s → can_commit s →
  _processor_d s = Some b → then_commit_and_stop b = false → _msg_block_d s = Some [] →
  ∃ s', processor_ended cfg env stop (Ok tt) s = (s', Ok tt) ∧
        given_up_to cfg (rest b) (with_last_processed (Some (last_offset b)) s) s'.
Proof.
  intros Hn Hp Hr Hc Hb Hf Hm. destruct (fired_ok cfg (last_offset b) s Hr Hc) as (s1 & He & G1 & G2 & G3 & G4 & G5 & G6 & G7).
  destruct (process_loop_ok cfg env (_handle_fetch_response cfg env) Hn Hp (length (rest b)) (rest b) s1) as (s2 & Hl & Hg & _); [done..|by rewrite G5|].
  exists s2. split; [|by eapply given_step; [| | |exact Hg]].
  unfold processor_ended. rewrite get_bind, Hb, (proc_bind_ok _ _ _ _ _ He), (proc_bind_ok _ _ _ _ _ (unhandled_ok _ _ _ Hl)).
  by rewrite Hf.
Qed.

Lemma wanted_next cfg (oms : list OffsetAndMessage) : ∀ offset,
  (wanted cfg oms offset).2 = match last (wanted cfg oms offset).1 with Some m => sm_offset m + 1 | None => offset end.
Proof.
  induction oms as [|om oms IH]; intros offset; [done|]. cbn [wanted].
  destruct (om_offset om <? offset); [apply IH|]. specialize (IH (om_offset om + 1)).
  destruct (wanted cfg oms (om_offset om + 1)) as [ms o]. cbn in *. rewrite IH. rewrite last_cons. by destruct (last ms).
Qed.

(** A response is taken: the messages that are wanted are given to the
    processor, and the next fetch is scheduled. *)
Lemma response_taken cfg env (resp : fetched) offset (s : Consumer) : (∀ n, auto_commit_every_n cfg = Some n → 0 ≤ n) →
  (∀ ms e, processor env ms ≠ Some (Err e)) → running s → can_commit s →
  _processor_d s = None → _msg_block_d s = None → _request_d s = Some RFetch → _retry_call s = None →
  _fetch_offset s = Some offset → frr_partition resp = partition cfg → (frr_messages resp).2 = Ok tt →
  let '(ms, next) := wanted cfg (frr_messages resp).1 offset in
  ∃ s1, request_answered cfg env (AFetched [resp]) s = (schedule_fetch None 0 s1, Ok tt) ∧
        given_up_to cfg ms (with_fetch_offset (Some next) (with_request_d None (with_retries 0 1 s))) s1 ∧
        ((∀ ms, processor env ms ≠ None) → _processor_d s1 = None).
Proof.
  intros Hn Hp Hr Hc Hd Hm Hreq Hretry Ho Hpart Hok. destruct (wanted cfg _ _) as [ms next] eqn:Hw.
  set (s0 := with_fetch_offset (Some next) (with_request_d None (with_retries 0 1 s))).
  assert (∃ s1, (given_up_to cfg ms s0 s1 ∧ ((∀ ms, processor env ms ≠ None) → _processor_d s1 = None)) ∧ (if is_empty ms then (s0, Ok tt : res unit) else
    (_ ← pmodify (with_msg_block_d (Some [])); unhandled (_process_messages cfg env (handle_fetch_response cfg env 0) ms)) s0) = (s1, Ok tt))
    as (s1 & Hg & He).
  { destruct ms as [|m ms].
    - exists s0. split; [|done]. split; [by apply given_none|done].
    - destruct (process_loop_ok cfg env (handle_fetch_response cfg env 0) Hn Hp (length (m :: ms)) (m :: ms) (with_msg_block_d (Some []) s0))
        as (s1 & Hl & Hg & Hsync); [done..|]. exists s1. split; [by split; [eapply given_step; [| | |exact Hg]|]|].
      cbn [is_empty]. by apply (unhandled_ok (process_loop cfg env (length (m :: ms)) (handle_fetch_response cfg env 0) (m :: ms))) in Hl. }
  exists s1. split; [|exact Hg]. pose proof Hg as ((given & left & _ & _ & _ & (R1 & R2 & R3) & _ & Hf & _) & _).
  assert (_retry_fetch true s1 = (schedule_fetch None 0 s1, Ok tt)) as Hrf.
  { unfold _retry_fetch. rewrite !get_bind. rewrite Hf. change (_retry_call s0) with (_retry_call s). rewrite Hretry, R2, R3, bool_decide_false by done.
    cbn [orb]. unfold pmodify. by rewrite Hf. }
  assert (_handle_fetch_response cfg env [resp] s = (schedule_fetch None 0 s1, Ok tt)) as Hh.
  { unfold _handle_fetch_response. cbn [handle_fetch_response].
    rewrite (proc_bind_ok (pmodify (with_retries 0 1)) _ s (with_retries 0 1 s) tt) by done. rewrite get_bind.
    change (_msg_block_d (with_retries 0 1 s)) with (_msg_block_d s). rewrite Hm, get_bind.
    change (_fetch_offset (with_retries 0 1 s)) with (_fetch_offset s). rewrite Ho. cbn [collect_messages].
    rewrite Hpart, Z.eqb_refl, Hw, Hok, app_nil_r. 
    rewrite (proc_bind_ok (pmodify _) _ (with_retries 0 1 s) s0 tt) by done.
    assert (finally (fetch_next cfg (Ok tt)) (if is_empty ms then mret tt else
      _ ← pmodify (with_msg_block_d (Some [])); unhandled (_process_messages cfg env (handle_fetch_response cfg env 0) ms)) s0 = (s1, Ok true)) as Hfin.
    { unfold finally. cbn [fetch_next]. destruct (is_empty ms); [by injection He as ->|]. unfold mret at 1, proc_ret at 1. by rewrite He. }
    by rewrite (proc_bind_ok _ _ _ _ _ Hfin). }
  unfold request_answered. rewrite get_bind, Hreq. by rewrite (proc_bind_ok _ _ _ _ _ (attempt_ok _ _ _ _ Hh)).
Qed.

Definition sourced (cfg : config) (om : OffsetAndMessage) : SourcedMessage :=
  mkSourcedMessage (topic cfg) (partition cfg) (om_offset om) (om_message om).

(** C14. A running consumer whose fetch is answered with a message set in the
    order of the log gives the processor exactly the messages from its position
    on, in blocks of at most [auto_commit_every_n], and schedules the fetch of
    what follows the last of them; whenever the processor has dealt with a block
    the next one is given, until all are, whether its answers come at once or
    later; each block that is done becomes the last processed offset. *)
Theorem messages_delivered cfg env (s : Consumer) :
  (∀ n, auto_commit_every_n cfg = Some n → 0 ≤ n) → (∀ ms e, processor env ms ≠ Some (Err e)) →
  running s → can_commit s →
  (∀ (resp : fetched) offset,
     _processor_d s = None → _msg_block_d s = None → _request_d s = Some RFetch → _retry_call s = None →
     _fetch_offset s = Some offset → frr_partition resp = partition cfg → (frr_messages resp).2 = Ok tt →
     StronglySorted Z.lt (om_offset <$> (frr_messages resp).1) →
     let ms := sourced cfg <$> filter (λ om, offset ≤ om_offset om) (frr_messages resp).1 in
     let next := match last ms with Some m => sm_offset m + 1 | None => offset end in
     ∃ s1, handle cfg env (RequestAnswer (AFetched [resp])) s = (schedule_fetch None 0 s1, Ok tt) ∧
           given_up_to cfg ms (with_fetch_offset (Some next) (with_request_d None (with_retries 0 1 s))) s1) ∧
  (∀ b, _processor_d s = Some b → then_commit_and_stop b = false → _msg_block_d s = Some [] →
     ∃ s1, handle cfg env (ProcessorDone (Ok tt)) s = (s1, Ok tt) ∧
           given_up_to cfg (rest b) (with_last_processed (Some (last_offset b)) s) s1).
Proof.
  intros Hn Hp Hr Hc. split.
  - intros resp offset Hd Hm Hreq Hretry Ho Hpart Hok Hs. pose proof (wanted_sorted cfg _ offset Hs) as Hw.
    pose proof (wanted_next cfg (frr_messages resp).1 offset) as Hx. rewrite Hw in Hx.
    pose proof (response_taken cfg env resp offset s Hn Hp Hr Hc Hd Hm Hreq Hretry Ho Hpart Hok) as Ht.
    destruct (wanted cfg _ _) as [ms next]. cbn in Hw, Hx. subst ms next. destruct Ht as (s1 & He & Hg & _). by exists s1.
  - intros b Hb Hf Hm. by apply block_ended.
Qed.

(** ** Commits *)

Lemma fired_lasting cfg x : lasting cfg true (λ _ (s : Consumer), x ∈ firings (cs_deferreds s)).
Proof.
  split; try done.
  - intros _ s s' _ _ H _. by rewrite H.
  - intros _ ds s [k Hk]. cbn. rewrite Hk. set_solver.
Qed.

Lemma react_fired cfg env w o x : keeps (λ s : Consumer, x ∈ firings (cs_deferreds s)) (react cfg (stop cfg env) w o).
Proof.
  intros s Hs. pose proof (fired_lasting cfg x) as HP.
  destruct (keeps_react cfg true _ HP (stop cfg env) (keeps_stop cfg env true _ HP (orb_true_r _)) w o s) as [H _]; [by split|exact H].
Qed.

Section answers.
Context (cfg : config) (env : environment).
Hypothesis (Hfits : environment_fits env = true).

(** Those whose deferred is pending get the result. *)
Definition told (o : outcome (option Z)) (ws : list waiter) (ds : deferreds (option Z)) (s : Consumer) : Prop :=
  ∀ w, w ∈ ws → outstanding (w_deferred w) ds → (w_deferred w, o) ∈ firings (cs_deferreds s).

Definition held_pending (ws : list waiter) (ds : deferreds (option Z)) : list (nat * bool) :=
  (λ w, (w_deferred w, bool_decide (outstanding (w_deferred w) ds))) <$> ws.

Lemma deliver_tells w o held b t X : may_take (stop cfg env) (ends_shutdown (w_reaction w)) t →
  triple (inv ((w_deferred w, b) :: held) (after_taking (ends_shutdown (w_reaction w)) t) None Anyhow false)
    (deliver cfg (stop cfg env) o w)
    (λ _ s, inv held t None Anyhow false s ∧ (b = true → (w_deferred w, o) ∈ firings (cs_deferreds s))) X.
Proof using Type.
  intros Hmay. unfold deliver. eapply triple_bind; [apply triple_get|]. intros c.
  eapply triple_bind; [eapply triple_pre; [intros s [Hi _]; exact Hi|apply settle_held]|]. intros ?.
  destruct c.
  { intros s [Hi Hb]. split; [|done]. eapply inv_tok; [|exact Hi]. intros ?. by apply (after_taking_tok (stop cfg env)). }
  intros s [Hi Hb]. pose proof (react_safe cfg (stop cfg env) w o held t None Anyhow X Hmay (or_intror eq_refl) s Hi) as Hr.
  pose proof (react_fired cfg env w o (w_deferred w, o) s) as Hf.
  destruct (react cfg (stop cfg env) w o s) as [s' [u|e]]; [|done]. cbn in Hf. split; [by destruct t|auto].
Qed.

Lemma deliver_fired w o x : keeps (λ s : Consumer, x ∈ firings (cs_deferreds s)) (deliver cfg (stop cfg env) o w).
Proof using Type.
  intros s Hs. pose proof (fired_lasting cfg x) as HP.
  destruct (keeps_deliver cfg true _ HP (stop cfg env) (keeps_stop cfg env true _ HP (orb_true_r _)) o w s) as [H _]; [by split|exact H].
Qed.

Lemma deliver_all_tell o ds ws : ∀ held t X, may_take (stop cfg env) (tokens_of ws) t →
  triple (inv (held_pending ws ds ++ held) (after_taking (tokens_of ws) t) None Anyhow false)
    (pfor_each ws (deliver cfg (stop cfg env) o)) (λ _ s, inv held t None Anyhow false s ∧ told o ws ds s) X.
Proof using Type.
  induction ws as [|w ws IH]; intros held t X Hmay; [intros s Hs; split; [done|intros ? []%elem_of_nil]|].
  cbn [pfor_each]. unfold held_pending, tokens_of in *. cbn [fmap list_fmap app sum_list_with] in *.
  set (n := sum_list_with _ ws) in *. set (t1 := after_taking n t).
  assert (may_take (stop cfg env) (ends_shutdown (w_reaction w)) t1 ∧ may_take (stop cfg env) n t ∧
    after_taking (ends_shutdown (w_reaction w) + n) t = after_taking (ends_shutdown (w_reaction w)) t1) as (Hm1 & Hm2 & ->).
  { unfold t1. destruct (ends_shutdown (w_reaction w)) as [|k]; [split_and!; [by left|done|done]|].
    destruct Hmay as [?|(Hle & -> & Hs)]; [lia|]. assert (n = 0%nat) as -> by lia.
    split_and!; [right; split_and!; [lia|done|done]|by left|done]. }
  eapply triple_bind; [apply (deliver_tells w o _ _ t1 X Hm1)|]. intros ? s [Hi Hb].
  pose proof (IH held t X Hm2 s Hi) as Hrest.
  pose proof (keeps_for _ ws _ (λ w' _, deliver_fired w' o (w_deferred w, o)) s) as Hk.
  destruct (pfor_each ws (deliver cfg (stop cfg env) o) s) as [s' [u|e]]; [|done]. destruct Hrest as [Hi' Ht]. split; [done|].
  intros w' [->|Hw]%elem_of_cons Ho; [|by apply Ht]. apply Hk, Hb. by apply bool_decide_eq_true.
Qed.

Lemma commit_delivered o (s : Consumer) : inv_but [] TAny None Anyhow false s →
  ∃ s', _deliver_commit_result cfg (stop cfg env) o s = (s', Ok tt) ∧ consumer_wf s' ∧ told o (_commit_ds s) (cs_deferreds s) s'.
Proof using Hfits.
  intros Hi. set (ws := reverse (_commit_ds s)).
  assert (tokens_of ws = tokens_of (_commit_ds s)) as Htok by apply tokens_of_perm, reverse_Permutation.
  assert (may_take (stop cfg env) (tokens_of ws) TAny) as Hmay.
  { right. split_and!; [|done|by apply stop_stops]. rewrite Htok.
    destruct (i_tok _ _ _ _ _ _ (Hi (mkCommitRequest None 0 0))) as [Ht _]. unfold tokens, tokens_of in *. cbn in Ht. lia. }
  assert (inv (held_pending ws (cs_deferreds s) ++ []) (after_taking (tokens_of ws) TAny) None Anyhow false (with_commit_ds [] s)) as Hi'.
  { pose proof (inv_take_all (stop cfg env) [] TAny s ws (reverse_Permutation _) Hmay Hi) as Ht. destruct Ht.
    assert (((held_of ws ++ []).*1) = (held_pending ws (cs_deferreds s) ++ []).*1) as He.
    { rewrite !app_nil_r. unfold held_of, held_pending. by rewrite <- !list_fmap_compose. }
    split; rewrite <- ?He; try done. intros d [Hd|Hd]%elem_of_app; [|by apply elem_of_nil in Hd].
    apply list_elem_of_fmap in Hd as (w & [= -> Hw] & _). by symmetry in Hw; apply bool_decide_eq_true in Hw. }
  pose proof (deliver_all_tell o (cs_deferreds s) ws [] TAny (λ _, False) Hmay _ Hi') as Hd.
  unfold _deliver_commit_result. rewrite get_bind. fold ws. rewrite (proc_bind_ok (pmodify _) _ s (with_commit_ds [] s) tt) by done.
  destruct (pfor_each _ _ _) as [s' [[]|e]]; [|by destruct Hd]. destruct Hd as [H1 H2].
  exists s'. split_and!; [done|done|]. intros w Hw. apply H2. unfold ws. by rewrite elem_of_reverse.
Qed.
End answers.

Lemma consumer_reachable_wf cfg s0 s : consumer_wf s0 → reachable cfg s0 s → consumer_wf s.
Proof.
  intros H0. induction 1 as [|env e s Hr IH He]; [done|]. unfold step.
  pose proof (consumer_event_safe cfg env e s (conj IH He)) as Hs. by destruct (handle cfg env e s) as [s' [[]|x]]; [|destruct Hs].
Qed.

(** A consumer as [Consumer(...)] makes it. *)
Definition constructed (cfg : config) (s : Consumer) : Prop :=
  ∃ topic partition group metadata n ms fetch_size max_wait buffer max_buffer attempts reset id generation,
    __init__ topic partition group metadata n ms fetch_size max_wait buffer max_buffer attempts reset id generation = Ok (cfg, s).

Lemma check_auto_commit_nonneg group n ms n' ms' : check_auto_commit group n ms = Ok (n', ms') →
  ∀ z, n' = Some z → 0 ≤ z.
Proof.
  unfold check_auto_commit. destruct group as [[|c g]|].
  - destruct (_ || _); [done|]. by intros [= <- <-].
  - unfold mbind, result_bind. destruct (as_integral _ _) as [x|]; [|done]. destruct (as_integral _ _) as [y|]; [|done].
    destruct (_ || _) eqn:Hneg; [done|]. apply orb_false_iff in Hneg as [_ Hneg%Z.ltb_ge]. by intros [= <- <-] z [= <-].
  - destruct (_ || _); [done|]. by intros [= <- <-].
Qed.

Lemma constructed_state cfg s : constructed cfg s →
  ∃ attempts buffer, s = mkConsumer (mkFetching None 0 1 attempts buffer None None) (mkCommitting None None [] None None None)
    (mkLifecycle None None false false None None) no_deferreds [] ∧ (∀ n, auto_commit_every_n cfg = Some n → 0 ≤ n) ∧
    ∀ max, max_buffer_size cfg = Some max → buffer ≤ max.
Proof.
  intros (tp & p & g & md & n & ms & fs & mw & b & mb & at_ & r & id & gn & H). unfold __init__ in H.
  unfold mbind, result_bind in H. destruct (_coerce_topic tp) as [tp'|]; [|done].
  destruct (match g with Some g => _ | None => _ end) as [g'|]; [|done].
  destruct (match md with Some _ => _ | None => _ end) as [md'|]; [|done].
  destruct (check_auto_commit g' n ms) as [[n' ms']|] eqn:Hc; [|done].
  destruct (at_ <? 0); [done|]. destruct (negb _); [done|]. destruct (match mb with Some _ => _ | None => _ end) eqn:Hmax; [done|].
  destruct (as_integral _ p) as [p'|]; [|done]. injection H as <- <-. exists at_, b. split_and!; [done|by eapply check_auto_commit_nonneg|].
  cbn. intros max ->. by apply Z.ltb_ge in Hmax.
Qed.

Lemma constructed_wf cfg s : constructed cfg s → consumer_wf s.
Proof.
  intros (attempts & buffer & -> & _)%constructed_state. split; try done.
  - apply no_deferreds_wf.
  - constructor.
  - by intros d ?%elem_of_nil.
  - by intros d ?%elem_of_nil.
  - by intros d [?|?].
  - split; [cbn; lia|done].
Qed.

(** C11. Whatever happens, in any order, and whatever the calls in between raise:
    every handler ends; a deferred the consumer has issued fires at most once;
    those that wait for a commit are distinct, none of them has been fired by the
    consumer, and they wait for a commit request or for its retry; and of all
    that the consumer waits for at most one thing ends the shutdown in progress. *)
Theorem consumer_safe cfg s0 s : constructed cfg s0 → reachable cfg s0 s →
  (∀ env e, enabled env e s = true → (handle cfg env e s).2 ≠ Err OutOfFuel) ∧
  NoDup (firings (cs_deferreds s)).*1 ∧
  NoDup (waiting s) ∧ (∀ d, d ∈ waiting s → firable d (cs_deferreds s)) ∧
  (_commit_ds s ≠ [] → _commit_req s ≠ None ∨ ∃ a, _commit_call s = Some (CallPending a)) ∧
  (tokens s ≤ 1)%nat ∧ (tokens s = 1%nat → ∃ d, _shutdown_d s = Some d ∧ firable d (cs_deferreds s)).
Proof.
  intros H0 Hr. pose proof (consumer_reachable_wf cfg s0 s (constructed_wf _ _ H0) Hr) as Hwf. split.
  { intros env e He. pose proof (consumer_event_safe cfg env e s (conj Hwf He)) as Hs.
    destruct (handle cfg env e s) as [s' [u|x]]; [done|]. destruct Hs as [Hx _]. by intros [= ->]. }
  destruct Hwf as [(Hn & _) Hnd Hf _ _ Hsh [Ht1 Ht2] Hw _ _ _ _]. split_and!; try done.
  - intros Hone. specialize (Ht2 Hone). destruct (_shutdown_d s) as [d|] eqn:Hd; [|done]. exists d. split; [done|]. by apply Hsh.
Qed.

(** What a failed commit leads to: an answer, or a retry. *)
Definition commit_failure (s : Consumer) (c : commit_request) (e : exn) : option (outcome (option Z)) :=
  if _stopping s && is_cancelled e then Some (Success (_last_committed_offset s))
  else if negb (is_KafkaError e) || unretriable e ||
          negb (request_retry_max_attempts s =? 0) && (request_retry_max_attempts s <=? commit_attempt c)
       then Some (Failure e) else None.

Lemma commit_error_cases cfg stop (s : Consumer) c e :
  _handle_commit_error cfg stop e c s =
  match commit_failure s c e with
  | Some o => _deliver_commit_result cfg stop o s
  | None => (emit (ECommitLater (S (commit_delay c)))
               (with_commit_call (Some (CallPending (S (commit_delay c), commit_attempt c + 1))) s), Ok tt)
  end.
Proof.
  unfold _handle_commit_error, commit_failure. rewrite !get_bind. destruct (_ && is_cancelled e); [done|].
  destruct (negb (is_KafkaError e) || unretriable e); [done|]. cbn [orb]. by destruct (_ && _).
Qed.

(** C15. A commit request is sent for the last processed offset, when it is
    retried for the one of that moment. If it succeeds all that wait for it get
    the offset it was sent for; if it fails it is retried after a longer delay,
    nobody being told, unless the error is none that a retry helps or the
    attempts are used up: then they all get the failure. *)
Theorem commits_answered cfg s0 s env : constructed cfg s0 → reachable cfg s0 s → environment_fits env = true →
  (∀ c, _commit_req s = Some c →
     (∃ s', handle cfg env (CommitAnswer (Ok tt)) s = (s', Ok tt) ∧
            told (Success (commit_offset c)) (_commit_ds s) (cs_deferreds s) s') ∧
     ∀ e, match commit_failure s c e with
          | Some o => ∃ s', handle cfg env (CommitAnswer (Err e)) s = (s', Ok tt) ∧ told o (_commit_ds s) (cs_deferreds s) s'
          | None => handle cfg env (CommitAnswer (Err e)) s =
                    (emit (ECommitLater (S (commit_delay c)))
                       (with_commit_call (Some (CallPending (S (commit_delay c), commit_attempt c + 1)))
                          (with_commit_req None s)), Ok tt)
          end) ∧
  (∀ delay attempt, _commit_call s = Some (CallPending (delay, attempt)) → _commit_req s = None →
     ∃ s', handle cfg env CommitCall s = (s', Ok tt) ∧ _commit_ds s' = _commit_ds s ∧
           _commit_req s' = Some (mkCommitRequest (_last_processed_offset s) delay attempt) ∧
           cs_effects s' = cs_effects s ++ [ESendCommit (_last_processed_offset s)]).
Proof.
  intros H0 Hr Hfits. pose proof (consumer_reachable_wf cfg s0 s (constructed_wf _ _ H0) Hr) as Hwf.
  assert (inv_but [] TAny None Anyhow false (with_commit_req None s)) as Hbut.
  { intros r. destruct Hwf. split; try done. by left. }
  split.
  - intros c Hc. assert (∀ m : cmeth unit, ∀ s', m (with_commit_req None s) = (s', Ok tt) →
      (_ ← pmodify (with_commit_req None); unhandled m) s = (s', Ok tt)) as Hun by (intros m s'; apply unhandled_ok).
    split.
    + destruct (commit_delivered cfg env Hfits (Success (commit_offset c)) (with_last_committed (commit_offset c) (with_commit_req None s)))
        as (s' & Hd & _ & Ht); [intros r; by destruct (Hbut r)|].
      exists s'. split; [|exact Ht]. cbn [handle]. unfold commit_answered. rewrite get_bind, Hc. by apply Hun.
    + intros e. cbn [handle]. unfold commit_answered. rewrite get_bind, Hc.
      pose proof (commit_error_cases cfg (stop cfg env) (with_commit_req None s) c e) as He.
      change (commit_failure (with_commit_req None s) c e) with (commit_failure s c e) in He.
      destruct (commit_failure s c e) as [o|]; [|by apply Hun].
      destruct (commit_delivered cfg env Hfits o (with_commit_req None s) Hbut) as (s' & Hd & _ & Ht).
      exists s'. split; [|exact Ht]. apply Hun. by rewrite He.
  - intros delay attempt Hc Hreq. cbn [handle]. unfold commit_retry_call. rewrite get_bind, Hc.
    destruct (send_commit_ok delay attempt (with_commit_call (Some CallOver) s) Hreq) as (s' & Hs & _ & H1 & _ & H2 & _ & H3 & _).
    exists s'. by split_and!.
Qed.

(** ** The end *)

(** The consumer has stopped; nobody waits for it, nor for a commit. *)
Definition at_rest (d : nat) (s : Consumer) : Prop :=
  _start_d s = None ∧ _stopping s = false ∧ _commit_ds s = [] ∧ called d (cs_deferreds s) = true.

Section ends.
Context (cfg : config) (env : environment).
Hypothesis (Hfits : environment_fits env = true).

Lemma nobody_left held t st np s : inv held t (Some 0%nat) st np s → _commit_ds s = [].
Proof using Type. intros []. by apply nil_length_inv, Nat.le_0_r. Qed.

Lemma stop_returns d held cap X :
  triple (λ s, inv held TNone cap Anyhow false s ∧ callable d 3 s) (stop cfg env)
    (λ _ s, inv held TNone (Some 0%nat) Anyhow false s ∧ at_rest d s) X.
Proof using Hfits.
  eapply triple_post; [apply (stop_body_returns cfg env (stop_within cfg env 2) Hfits d held cap X)| |done].
  intros ? s (Hi & H1 & H2 & H3). split; [done|]. split_and!; [done..|by eapply nobody_left|done].
Qed.

Lemma no_shutdown s : consumer_wf s → _shutdown_d s = None → inv [] TNone None Anyhow false s.
Proof using Type.
  intros [] Hd. split; try done. destruct i_tok as [Hle Hone]. cbn. destruct (tokens s) as [|[|n]]; [done|by destruct Hone|lia].
Qed.

(** The shutdown is over, and its deferred has fired. *)
Definition shut_down (x : nat) (o : option Z → outcome (option Z)) (s : Consumer) : Prop :=
  _shuttingdown s = false ∧ (x, o (_last_processed_offset s)) ∈ firings (cs_deferreds s).

Lemma end_shutdown_returns o d x X :
  triple (λ s, inv [] TTaken None Anyhow false s ∧ callable d 3 s ∧ _shutdown_d s = Some x ∧ outstanding x (cs_deferreds s))
    (end_shutdown (stop cfg env) o) (λ _ s, at_rest d s ∧ shut_down x o s) X.
Proof using Hfits.
  unfold end_shutdown. eapply triple_bind; [apply triple_get|]. intros x'. cbn.
  eapply (triple_bind _ _ (λ _ s, (inv [(x, true)] TNone None Anyhow false s ∧ callable d 3 s) ∧ x' = Some x)).
  { apply triple_modify. intros s [(Hi & Hc & Hx & Ho) ->]. split; [split; [by apply hold_shutdown|exact Hc]|done]. }
  intros ?. destruct (decide (x' = Some x)) as [->|Hne]; [|by intros s [_ ?]].
  eapply (triple_bind _ _ (λ _ s, inv [(x, true)] TNone (Some 0%nat) Anyhow false s ∧ at_rest d s)).
  { eapply triple_pre; [intros s [Hs _]; exact Hs|]. apply stop_returns. }
  intros ?. eapply (triple_bind _ _ (λ _ s, (inv [(x, true)] TNone (Some 0%nat) Anyhow false s ∧ at_rest d s) ∧ _shuttingdown s = false)).
  { apply triple_modify. intros s [Hi Hr]. split; [|done]. split; [|exact Hr]. revert Hi. apply inv_same. same_state. }
  intros ?. eapply triple_bind; [apply triple_get|]. intros p. cbn.
  intros s [[[Hi Hr] Hsd] ->]. pose proof (settle_held x true (o (_last_processed_offset s)) [] TNone (Some 0%nat) Anyhow false X s Hi) as Hs.
  unfold settle in *. destruct (fire x _ (cs_deferreds s)) as [ds|e] eqn:Hf; [|done]. destruct Hs as [_ Hs]. destruct Hr as (R1 & R2 & R3 & R4).
  split; [|by split; [|apply Hs]]. split_and!; [done..|]. cbn. apply called_spec. apply called_spec in R4.
  destruct (fire_records _ _ _ _ Hf) as [[k Hk] _]. rewrite Hk, fmap_app. set_solver.
Qed.

(** There is something to commit first. *)
Definition must_commit (s : Consumer) : bool :=
  grouped cfg && negb (bool_decide (_last_processed_offset s = None)) &&
  negb (bool_decide (_last_processed_offset s = _last_committed_offset s)).

(** The commit of a shutdown is on its way. *)
Definition last_commit (d x : nat) (p : option Z) (s : Consumer) : Prop :=
  callable d 3 s ∧ _shuttingdown s = true ∧ _shutdown_d s = Some x ∧ outstanding x (cs_deferreds s) ∧
  ESendCommit p ∈ cs_effects s ∧ _commit_req s = Some (mkCommitRequest p 0 1) ∧
  ∃ w, _commit_ds s = [mkWaiter w RShutdownCommit] ∧ called w (cs_deferreds s) = false.

Definition shutting_down (d x : nat) (s : Consumer) : Prop :=
  inv [] TTaken None Anyhow false s ∧ callable d 3 s ∧ _shutdown_d s = Some x ∧ outstanding x (cs_deferreds s).

Lemma new_not_called (ds : deferreds (option Z)) : deferreds_wf ds → called (issued ds) ds = false.
Proof using Type.
  intros (_ & H & _). apply not_true_is_false. intros Hc%called_spec. apply H in Hc. lia.
Qed.

Lemma commit_and_stop_returns d x (s : Consumer) : shutting_down d x s → _shuttingdown s = true →
  _commit_ds s = [] → _commit_req s = None →
  ∃ s', _commit_and_stop cfg (stop cfg env) s = (s', Ok tt) ∧
        if must_commit s then last_commit d x (_last_processed_offset s) s'
        else at_rest d s' ∧ shut_down x Success s'.
Proof using Hfits.
  intros Hs Hsd Hds Hreq. pose proof (end_shutdown_returns Success d x (λ _, False) s Hs) as Hend.
  fold (_handle_shutdown_commit_success (stop cfg env)) in Hend.
  assert (∃ s', _handle_shutdown_commit_success (stop cfg env) s = (s', Ok tt) ∧ at_rest d s' ∧ shut_down x Success s') as (s' & He & Hok).
  { destruct (_handle_shutdown_commit_success (stop cfg env) s) as [s' [[]|e]]; [by exists s'|by destruct Hend]. }
  clear Hend. unfold _commit_and_stop, must_commit. destruct (grouped cfg) eqn:Hg; cbn [negb andb]; [|by exists s'].
  destruct (decide (_last_processed_offset s = None ∨ _last_processed_offset s = _last_committed_offset s)) as [Hnow|Hne].
  - exists s'. assert (commit cfg RShutdownCommit RCommitAndStop s = (s, Ok (CNow (Ok (_last_committed_offset s))))) as Hc.
    { unfold commit. rewrite !get_bind, Hg. cbn [negb]. destruct Hnow as [H|H]; rewrite H.
      - by rewrite bool_decide_true.
      - by rewrite (bool_decide_true (_last_committed_offset s = _last_committed_offset s)), orb_true_r by done. }
    rewrite (proc_bind_ok _ _ _ _ _ Hc). split; [by apply unhandled_ok|].
    destruct Hnow as [H|H]; rewrite H; [by rewrite bool_decide_true|].
    by rewrite (bool_decide_true (_last_committed_offset s = _last_committed_offset s)), andb_false_r by done.
  - destruct Hs as (Hi & Hcall & Hx & Hout). rewrite !bool_decide_false by tauto. cbn [negb andb].
    destruct (commit_ok cfg RShutdownCommit RCommitAndStop s) as (s1 & Hc & (P1 & _ & _ & P4) & G1 & G2 & G3 & G4 & G5 & G6); [done|tauto|tauto|done| |].
    { split; [done|]. destruct Hcall as (_ & _ & _ & Hl). apply Hl. lia. }
    exists s1. split; [by rewrite (proc_bind_ok _ _ _ _ _ Hc)|]. destruct Hcall as (C1 & C2 & _ & C4).
    unfold last_commit, callable. rewrite P1, P4, G1, G2, G6. split_and!; try done.
    + apply new_deferred_outstanding; [apply Hi|by left].
    + exists (issued (cs_deferreds s)). split; [done|].
      exact (new_not_called (cs_deferreds s) (i_wf _ _ _ _ _ _ Hi)).
Qed.

(** What the shutdown's deferred gets for an answer to its commit. *)
Definition shutdown_result (v : outcome (option Z)) : option Z → outcome (option Z) :=
  match v with Success _ => Success | Failure e => λ _, Failure e end.

Lemma shutdown_waiter_told d x w v (s : Consumer) : inv_but [] TAny None Anyhow false s → callable d 3 s →
  _shutdown_d s = Some x → outstanding x (cs_deferreds s) →
  _commit_ds s = [mkWaiter w RShutdownCommit] → called w (cs_deferreds s) = false →
  ∃ s', _deliver_commit_result cfg (stop cfg env) v s = (s', Ok tt) ∧ at_rest d s' ∧ shut_down x (shutdown_result v) s'.
Proof using Hfits.
  intros Hi Hcall Hx Hout Hds Hw. set (wt := mkWaiter w RShutdownCommit) in *.
  assert (may_take (stop cfg env) (tokens_of [wt]) TAny) as Hmay by (right; split_and!; [done|done|by apply stop_stops]).
  pose proof (inv_take_all (stop cfg env) [] TAny s [wt]) as Ht. rewrite Hds in Ht. specialize (Ht (Permutation_refl _) Hmay Hi).
  assert (x ≠ w) as Hne.
  { intros ->. destruct (i_own _ _ _ _ _ _ (Hi (mkCommitRequest None 0 0)) w (or_intror Hx)) as [_ Hn].
    apply Hn. unfold waiting. cbn. rewrite Hds. by left. }
  pose proof (settle_held w false v [] TTaken None Anyhow false (λ _, False) _ Ht) as Hs.
  unfold _deliver_commit_result. rewrite get_bind, (proc_bind_ok (pmodify _) _ s (with_commit_ds [] s) tt), Hds by done.
  assert (∃ s2, settle w v (with_commit_ds [] s) = (s2, Ok tt) ∧ shutting_down d x s2) as (s2 & He & Hdown).
  { unfold settle in *. change (cs_deferreds (with_commit_ds [] s)) with (cs_deferreds s) in *. destruct (fire w v (cs_deferreds s)) as [ds|e] eqn:Hf; [|by destruct Hs].
    destruct Hs as [Hs _]. eexists. split; [reflexivity|]. split_and!; [exact Hs|done|done|].
    by apply (fire_effect _ _ _ _ x Hf). }
  assert (∃ s', react cfg (stop cfg env) wt v s2 = (s', Ok tt) ∧ at_rest d s' ∧ shut_down x (shutdown_result v) s') as (s' & Hr & Hend).
  { assert (∀ o, ∃ s', unhandled (end_shutdown (stop cfg env) o) s2 = (s', Ok tt) ∧ at_rest d s' ∧ shut_down x o s') as Hu.
    { intros o. pose proof (end_shutdown_returns o d x (λ _, False) s2 Hdown) as He'.
      destruct (end_shutdown (stop cfg env) o s2) as [s' [[]|e]] eqn:Hes; [|by destruct He'].
      exists s'. split; [by apply unhandled_ok|exact He']. }
    destruct v as [v|e]; [exact (Hu Success)|exact (Hu (λ _, Failure e))]. }
  exists s'. split; [|exact Hend]. change (reverse [wt]) with [wt]. cbn [pfor_each]. unfold deliver.
  assert (deliver cfg (stop cfg env) v wt (with_commit_ds [] s) = (s', Ok tt)) as Hdel.
  { unfold deliver. rewrite get_bind. change (called (w_deferred wt) _) with (called w (cs_deferreds s)). rewrite Hw.
    by rewrite (proc_bind_ok _ _ _ _ _ He). }
  by rewrite (proc_bind_ok _ _ _ _ _ Hdel).
Qed.

(** The commit of the shutdown is answered. *)
Lemma last_commit_answered d x p r v (s : Consumer) : consumer_wf s → last_commit d x p s →
  (match r with Ok _ => v = Success p | Err e => commit_failure s (mkCommitRequest p 0 1) e = Some v end) →
  ∃ s', commit_answered cfg (stop cfg env) r s = (s', Ok tt) ∧ at_rest d s' ∧ shut_down x (shutdown_result v) s'.
Proof using Hfits.
  intros Hwf (Hcall & Hsd & Hx & Hout & _ & Hreq & w & Hds & Hw) Hr. set (s1 := with_commit_req None s).
  assert (inv_but [] TAny None Anyhow false s1) as Hbut by (intros c; destruct Hwf; split; try done; by left).
  unfold commit_answered. rewrite get_bind, Hreq, (proc_bind_ok (pmodify _) _ s s1 tt) by done. destruct r as [u|e].
  - subst v. destruct (shutdown_waiter_told d x w (Success p) (with_last_committed p s1)) as (s' & He & Hend); [|done..|].
    { intros c. by destruct (Hbut c). }
    exists s'. split; [by apply unhandled_ok|done].
  - destruct (shutdown_waiter_told d x w v s1) as (s' & He & Hend); [done..|]. exists s'. split; [|done].
    apply unhandled_ok. rewrite commit_error_cases. change (commit_failure s1) with (commit_failure s). by rewrite Hr.
Qed.

(** What follows when there is nothing left to process. *)
Definition shutdown_proceeds (d x : nat) (p : option Z) (must : bool) (s : Consumer) : Prop :=
  if must then last_commit d x p s else at_rest d s ∧ shut_down x Success s.

Lemma shutdown_idle d (s : Consumer) : consumer_wf s → callable d 3 s → _shutdown_d s = None → _processor_d s = None →
  _commit_ds s = [] → _commit_req s = None →
  ∃ s', shutdown cfg env s = (s', Ok (inr (issued (cs_deferreds s)))) ∧
        shutdown_proceeds d (issued (cs_deferreds s)) (_last_processed_offset s) (must_commit s) s'.
Proof using Hfits.
  intros Hwf Hcall Hsd Hpd Hds Hreq. set (x := issued (cs_deferreds s)).
  set (s1 := with_max_attempts (if request_retry_max_attempts s =? 0 then 2 else request_retry_max_attempts s) (with_shuttingdown true s)).
  set (s2 := with_shutdown_d (Some x) (with_deferreds (new_deferred (cs_deferreds s)).2 s1)).
  assert (shutting_down d x s2) as Hs2.
  { assert (consumer_wf s1) as Hwf1 by (eapply inv_same; [|exact Hwf]; same_state).
    pose proof (new_d_safe s1 Hwf1) as Hn. unfold new_d in Hn. cbn in Hn. destruct Hn as (Hn & H1 & H2 & H3 & H4 & H5).
    split; [|split; [exact Hcall|split; [done|]]].
    - destruct Hn. split; try done.
      + intros d' [?|[= <-]]; [apply i_own; by left|done].
      + intros d' [= <-]. done.
      + split; [|done]. pose proof (no_shutdown s Hwf Hsd) as H0. destruct H0. exact i_tok0.
    - apply new_deferred_outstanding; [apply Hwf|by right]. }
  destruct (commit_and_stop_returns d x s2) as (s' & He & Hend); [done..|]. exists s'. split; [|exact Hend].
  unfold shutdown. rewrite !get_bind, Hsd. destruct Hcall as [Hstart _]. rewrite Hstart.
  rewrite (proc_bind_ok (pmodify _) _ s s1 tt) by done.
  rewrite (proc_bind_ok new_d _ s1 (with_deferreds (new_deferred (cs_deferreds s)).2 s1) x) by done.
  rewrite (proc_bind_ok (pmodify _) _ _ s2 tt) by done. rewrite get_bind. change (_processor_d s2) with (_processor_d s).
  by rewrite Hpd, (proc_bind_ok _ _ _ _ _ He).
Qed.

(** The processor has dealt with the last messages. *)
Lemma shutdown_processed d x b (s : Consumer) : consumer_wf s → callable d 3 s → _shuttingdown s = true →
  _shutdown_d s = Some x → outstanding x (cs_deferreds s) → _processor_d s = Some b → then_commit_and_stop b = true →
  _msg_block_d s = Some [] → _commit_ds s = [] → _commit_req s = None →
  let s1 := with_last_processed (Some (last_offset b)) s in
  ∃ s', processor_ended cfg env (stop cfg env) (Ok tt) s = (s', Ok tt) ∧
        shutdown_proceeds d x (Some (last_offset b)) (must_commit s1) s'.
Proof using Hfits.
  intros Hwf Hcall Hsd Hx Hout Hb Hflag Hm Hds Hreq s1.
  set (s2 := with_processor_d None s1). set (s3 := with_msg_block_d None s2).
  assert (processor_fired cfg (last_offset b) (Ok tt) s = (s2, Ok (Ok tt))) as Hf.
  { assert (_auto_commit cfg true s2 = (s2, Ok tt)) as Ha.
    { unfold _auto_commit. rewrite !get_bind. change (_shuttingdown s2) with (_shuttingdown s). by rewrite Hsd, orb_true_r. }
    unfold processor_fired, _update_processed_offset, attempt, mbind, proc_bind, pmodify. cbn beta iota.
    change (with_last_processed (Some (last_offset b)) (with_processor_d None s)) with s2. by rewrite Ha. }
  assert (process_loop cfg env (length (rest b)) (_handle_fetch_response cfg env) (rest b) s2 = (s3, Ok tt)) as Hl.
  { assert (end_block (_handle_fetch_response cfg env) s2 = (s3, Ok tt)) as He.
    { unfold end_block. rewrite get_bind. change (_msg_block_d s2) with (_msg_block_d s). by rewrite Hm. }
    destruct (rest b) as [|m ms]; cbn [length process_loop]; rewrite get_bind; [exact He|].
    change (_shuttingdown s2) with (_shuttingdown s). rewrite Hsd. by destruct (last _). }
  assert (inv [] TTaken None Anyhow false (with_processor_d None s)) as Hi.
  { pose proof (inv_end_block (stop cfg env) [] TAny None Anyhow false s b) as H. rewrite Hflag in H. apply H; [|exact Hwf|exact Hb].
    right. split_and!; [done|done|by apply stop_stops]. }
  assert (shutting_down d x s3) as Hs3.
  { split_and!; [|exact Hcall|done|done]. apply inv_no_block. eapply inv_same; [|exact Hi]. same_state. }
  destruct (commit_and_stop_returns d x s3) as (s' & He & Hend); [done..|]. exists s'. split; [|exact Hend].
  unfold processor_ended. rewrite get_bind, Hb, (proc_bind_ok _ _ _ _ _ Hf).
  rewrite (proc_bind_ok _ _ _ _ _ (unhandled_ok _ _ _ Hl)), Hflag. by apply unhandled_ok.
Qed.
End ends.

(** A consumer that was started, that keeps no delayed call that is over and
    is not being shut down, stops: every operation in progress is cancelled
    whatever that sets off, nobody is left waiting for a commit, and [start]'s
    deferred has fired. Stopping one that does not run fails, as starting one
    that does. *)
Lemma consumer_stops cfg s0 s env : constructed cfg s0 → reachable cfg s0 s → environment_fits env = true →
  (_start_d s = None → handle cfg env Stop s = (s, Err RestopError)) ∧
  (∀ d offset, _start_d s = Some d → handle cfg env (Start offset) s = (s, Err RestartError)) ∧
  (∀ d, callable d 3 s → _shutdown_d s = None → ∃ s', handle cfg env Stop s = (s', Ok tt) ∧ at_rest d s').
Proof.
  intros H0 Hr Hfits. pose proof (consumer_reachable_wf cfg s0 s (constructed_wf _ _ H0) Hr) as Hwf. split_and!.
  - intros Hd. cbn [handle]. unfold stop. cbn [stop_within]. unfold stop_body. by rewrite get_bind, Hd.
  - intros d offset Hd. cbn [handle]. assert (start cfg offset s = (s, Err RestartError)) as Hs by (unfold start; by rewrite get_bind, Hd).
    by rewrite (proc_bind_err _ _ _ _ _ Hs).
  - intros d Hc Hsd. pose proof (stop_returns cfg env Hfits d [] None (λ _, False) s (conj (no_shutdown s Hwf Hsd) Hc)) as Hs.
    cbn [handle]. destruct (stop cfg env s) as [s' [[]|e]]; [exists s'; by destruct Hs|by destruct Hs].
Qed.

(** A graceful shutdown first lets the processor deal with what it was
    given, then commits the last processed offset if it has not been, and stops
    the consumer when the commit is answered; its deferred then fires with the
    last processed offset, or with the failure of the commit. *)
Lemma consumer_shuts_down cfg s0 s env d : constructed cfg s0 → reachable cfg s0 s → environment_fits env = true →
  callable d 3 s →
  (_shutdown_d s = None → _processor_d s = None → _commit_ds s = [] → _commit_req s = None →
   ∃ s', handle cfg env Shutdown s = (s', Ok tt) ∧
         shutdown_proceeds d (issued (cs_deferreds s)) (_last_processed_offset s) (must_commit cfg s) s') ∧
  (∀ x b, _shuttingdown s = true → _shutdown_d s = Some x → outstanding x (cs_deferreds s) →
   _processor_d s = Some b → then_commit_and_stop b = true → _msg_block_d s = Some [] →
   _commit_ds s = [] → _commit_req s = None →
   ∃ s', handle cfg env (ProcessorDone (Ok tt)) s = (s', Ok tt) ∧
         shutdown_proceeds d x (Some (last_offset b)) (must_commit cfg (with_last_processed (Some (last_offset b)) s)) s') ∧
  (∀ x p r v, last_commit d x p s →
   match r with Ok _ => v = Success p | Err e => commit_failure s (mkCommitRequest p 0 1) e = Some v end →
   ∃ s', handle cfg env (CommitAnswer r) s = (s', Ok tt) ∧ at_rest d s' ∧ shut_down x (shutdown_result v) s').
Proof.
  intros H0 Hr Hfits Hc. pose proof (consumer_reachable_wf cfg s0 s (constructed_wf _ _ H0) Hr) as Hwf. split_and!.
  - intros Hsd Hpd Hds Hreq. destruct (shutdown_idle cfg env Hfits d s Hwf Hc Hsd Hpd Hds Hreq) as (s' & He & Hend).
    exists s'. split; [|exact Hend]. cbn [handle]. by rewrite (proc_bind_ok _ _ _ _ _ He).
  - intros x b Hsd Hx Hout Hb Hf Hm Hds Hreq. exact (shutdown_processed cfg env Hfits d x b s Hwf Hc Hsd Hx Hout Hb Hf Hm Hds Hreq).
  - intros x p r v Hl Hv. exact (last_commit_answered cfg env Hfits d x p r v s Hwf Hl Hv).
Qed.

