(* ===== verification/ConsumerLog.v ===== *)
(** A [Consumer] that reads the log of a partition: [afkak/consumer.py] against
    brokers that answer its fetches as Kafka's documentation says, through the
    decoders of [afkak/kafkacodec.py]. *)
From S2P Require Import Prelude Common PyBytes Util Codec Wire KafkaCodec MessageSet Requests Responses Deferred Consumer ConsumerInvariant ConsumerSafety ConsumerDelivery ConsumerTheorems.
Local Open Scope Z_scope.
Local Open Scope schema_scope.

(** ** What brokers store and serve *)

(** The messages from an offset on. *)
Definition from (offset : Z) (log : list OffsetAndMessage) : list OffsetAndMessage :=
  filter (λ om, offset ≤ om_offset om) log.

(** The messages of a partition: in order, none compressed, each in a form the
    wire has, less than 2 GiB together. *)
Record stored (log : list OffsetAndMessage) : Prop := {
  st_sorted : StronglySorted Z.lt (om_offset <$> log);
  st_ok : forallb set_entry_ok log = true;
  st_plain : forallb (λ om, plain (om_message om)) log = true;
  st_size : len (set_bytes log) < 2 ^ 31;
}.

(** A fetch is answered with as many bytes as were asked for, from the message
    at the offset on; the last message may be cut. *)
Definition served (log : list OffsetAndMessage) (r : FetchRequest) : bytes :=
  take (Z.to_nat (fr_max_bytes r)) (set_bytes (from (fr_offset r) log)).

(** The response on the wire: correlation id, topic, partition, no error, the
    high-water mark, the message set. *)
Definition fetch_response (correlation_id high : Z) (log : list OffsetAndMessage) (r : FetchRequest) : bytes :=
  response_bytes (SNums [Fi; Fh; Fq] +> SLong)
    (λ x : Z * Z * Z * option bytes, let '(p, e, h, ms) := x in ((p, (e, (h, tt))), ms))
    correlation_id [(fr_topic r, [(fr_partition r, 0, high, Some (served log r))])].

(** *** Message sets that are cut *)

Lemma take_set_bytes (oms : list OffsetAndMessage) : ∀ n, ∃ pre post k,
  oms = pre ++ post ∧
  take n (set_bytes oms) = set_bytes pre ++ match post with om :: _ => take k (set_entry om) | [] => [] end ∧
  (match post with om :: _ => k < length (set_entry om) | [] => True end)%nat ∧
  (pre = [] → k = n ∨ oms = []) ∧
  (∀ om tl, oms = om :: tl → length (set_entry om) ≤ n → pre ≠ [])%nat.
Proof.
  induction oms as [|om oms IH]; intros n.
  - exists [], [], 0%nat. split_and!; try done; [by destruct n|by right].
  - destruct (decide (length (set_entry om) ≤ n)%nat) as [Hle|Hgt].
    + destruct (IH (n - length (set_entry om))%nat) as (pre & post & k & -> & Ht & Hk & _ & _).
      exists (om :: pre), post, k. split_and!; try done. unfold set_bytes in *. rewrite !bind_cons, take_app_ge by done.
      by rewrite Ht, (assoc_L (++)).
    + exists [], (om :: oms), n. split_and!; try done; [|lia|by left|by intros ? ? [= <- <-]].
      unfold set_bytes. rewrite bind_cons, take_app_le by lia. done.
Qed.

Lemma forallb_app_inv {A} (p : A → bool) l1 l2 : forallb p (l1 ++ l2) = true → forallb p l1 = true ∧ forallb p l2 = true.
Proof. rewrite forallb_app. by intros [? ?]%andb_prop. Qed.

(** What is decoded: the messages that were served whole, or that not even one
    was. *)
Lemma cut_set_decodes `{L : CompressionLib} depth n oms :
  forallb set_entry_ok oms = true → forallb (λ om, plain (om_message om)) oms = true → (1 ≤ n)%nat → ∃ pre post,
  oms = pre ++ post ∧ (∀ om tl, oms = om :: tl → length (set_entry om) ≤ n → pre ≠ [])%nat ∧
  _decode_message_set_iter (S depth) (Some (take n (set_bytes oms))) =
    (pre, if is_empty pre && negb (is_empty oms) then Err ConsumerFetchSizeTooSmall else Ok tt).
Proof.
  intros Hok Hp Hn. destruct (take_set_bytes oms n) as (pre & post & k & -> & Ht & Hk & Hpre & Hfit).
  exists pre, post. split; [done|]. split; [done|]. rewrite Ht.
  apply forallb_app_inv in Hok as [Hok1 Hok2]. apply forallb_app_inv in Hp as [Hp1 Hp2].
  destruct post as [|om post].
  - rewrite !app_nil_r. rewrite decode_plain_set by done. by destruct pre.
  - destruct (decide (k = 0)%nat) as [->|Hne].
    + rewrite take_0, app_nil_r, decode_plain_set by done. destruct pre; [|done]. by destruct Hpre as [<-|?]; [done|lia|].
    + rewrite message_set_truncated; [by destruct pre| |done|lia].
      rewrite forallb_app, Hok1. cbn in Hok2 |- *. by apply andb_prop in Hok2 as [-> _].
Qed.

Lemma stored_from offset log : stored log → stored (from offset log).
Proof.
  intros [Hs Ho Hp Hl]. split.
  - clear Ho Hp Hl. induction log as [|om log IH]; [constructor|].
    rewrite fmap_cons in Hs. apply StronglySorted_inv in Hs as [Hs Hf].
    unfold from. rewrite filter_cons. case_decide; [|by apply IH]. cbn. constructor; [by apply IH|].
    apply Forall_fmap, Forall_forall. rewrite Forall_forall in Hf.
    intros om' [_ Hom]%list_elem_of_filter. apply Hf, list_elem_of_fmap. by exists om'.
  - rewrite forallb_forall in *. intros om [_ Hom]%list_elem_of_In%list_elem_of_filter. by apply Ho, list_elem_of_In.
  - rewrite forallb_forall in *. intros om [_ Hom]%list_elem_of_In%list_elem_of_filter. by apply Hp, list_elem_of_In.
  - enough (length (set_bytes (from offset log)) ≤ length (set_bytes log))%nat by (unfold len in *; lia). clear.
    induction log as [|om log IH]; [done|]. unfold from, set_bytes in *. rewrite filter_cons, bind_cons, length_app.
    case_decide; [rewrite bind_cons, length_app|]; lia.
Qed.

(** The consumer's partition can be named on the wire. *)
Definition addressable (cfg : config) : Prop :=
  wire_text_ok (ascii_wire (topic cfg)) = true ∧ frange Fi (partition cfg) = true.

Lemma fetch_response_decoded `{L : CompressionLib} cfg depth correlation_id high log offset size :
  addressable cfg → frange Fi correlation_id = true → frange Fq high = true → stored log →
  let r := mkFetchRequest (topic cfg) (partition cfg) offset size in
  (decode_fetch_response depth (fetch_response correlation_id high log r)).1 =
  [mkFetchResponse (topic cfg) (partition cfg) 0 high (_decode_message_set_iter depth (Some (served log r)))].
Proof.
  intros [Ht Hp] Hc Hh Hst r. unfold fetch_response. rewrite <- (app_nil_r (response_bytes _ _ _ _)).
  rewrite (fetch_response_decodes depth correlation_id _ []); [done|].
  rewrite wire_text_ok_eq in Ht. apply andb_prop in Ht as [Ht1 Ht2].
  assert (int_string_ok (Some (served log r)) = true) as Hs.
  { unfold int_string_ok, served. pose proof (st_size _ (stored_from offset log Hst)). cbn [fr_offset fr_max_bytes r].
    apply Z.ltb_lt. unfold len in *. rewrite length_take. lia. }
  unfold response_ok, response_fields, response_topics. cbn [mbind list_bind fmap list_fmap app encodable forallb fst snd].
  cbn [ok response_schema tuple_ok topics_schema fst snd forallb fr_topic fr_partition r].
  by rewrite Ht1, Ht2, Hc, Hp, Hh, Hs.
Qed.

(** ** Rounds

    A round is the answer to the fetch that was sent last, and the call that
    sends the next one. *)
Definition fetches_by (e : effect) : list FetchRequest := match e with ESendFetch r => [r] | _ => [] end.
Definition asked (s : Consumer) : option FetchRequest := last (mjoin (fetches_by <$> cs_effects s)).

Lemma asked_send r (s : Consumer) : asked (emit (ESendFetch r) s) = Some r.
Proof. unfold asked. cbn. rewrite fmap_app, join_app. cbn. by rewrite last_snoc. Qed.

(** A fetch from an offset is out, and nothing else is going on but commits. *)
Record awaiting (cfg : config) (offset : Z) (s : Consumer) : Prop := {
  aw_running : running s;
  aw_commit : can_commit s;
  aw_processor : _processor_d s = None;
  aw_block : _msg_block_d s = None;
  aw_request : _request_d s = Some RFetch;
  aw_retry : _retry_call s = None;
  aw_offset : _fetch_offset s = Some offset;
  aw_nonneg : 0 ≤ offset;
  aw_asked : asked s = Some (mkFetchRequest (topic cfg) (partition cfg) offset (buffer_size s));
}.

Section rounds.
Context `{L : CompressionLib} (cfg : config) (env : environment) (depth : nat) (correlation_id high : Z).
Context (log : list OffsetAndMessage).

(** The answer to a fetch, decoded. *)
Definition answer_to (r : FetchRequest) : answer :=
  AFetched (decode_fetch_response depth (fetch_response correlation_id high log r)).1.

Definition round (s s' : Consumer) : Prop := ∃ r s1,
  asked s = Some r ∧ enabled env (RequestAnswer (answer_to r)) s = true ∧
  handle cfg env (RequestAnswer (answer_to r)) s = (s1, Ok tt) ∧
  enabled env FetchCall s1 = true ∧ handle cfg env FetchCall s1 = (s', Ok tt).
End rounds.

(** A call to fetch that is due sends the request. *)
Lemma fetch_call_sends cfg offset delay (s : Consumer) : running s → can_commit s → _processor_d s = None → _msg_block_d s = None →
  _request_d s = None → _fetch_offset s = Some offset → 0 ≤ offset →
  ∃ s', fetch_call cfg (schedule_fetch None delay s) = (s', Ok tt) ∧ awaiting cfg offset s' ∧
        calls s' = calls s ∧ buffer_size s' = buffer_size s ∧ _last_processed_offset s' = _last_processed_offset s.
Proof.
  intros Hr Hc Hp Hm Hq Ho Hn. unfold fetch_call, _do_fetch, schedule_fetch, send_fetch, send_request, mbind, proc_bind, pmodify, pget.
  cbn. rewrite Hq. cbn. rewrite Ho.
  assert ((offset =? OFFSET_EARLIEST) = false ∧ (offset =? OFFSET_LATEST) = false ∧ (offset =? OFFSET_COMMITTED) = false) as (-> & -> & ->).
  { rewrite !Z.eqb_neq. unfold OFFSET_EARLIEST, OFFSET_LATEST, OFFSET_COMMITTED. lia. }
  cbn. eexists. split; [reflexivity|]. split_and!; try done.
  - split; try done. apply (asked_send (mkFetchRequest (topic cfg) (partition cfg) offset (buffer_size s))).
  - unfold calls. cbn. by rewrite !fmap_app, !join_app, !app_nil_r.
Qed.

(** *** A message that does not fit *)

Lemma finally_ret {A} (m : cmeth A) s : finally m (mret tt) s = m s.
Proof. unfold finally. by destruct (m s). Qed.

Lemma proc_bind_eq {A B} (m m' : cmeth A) (f : A → cmeth B) s : m s = m' s → (m ≫= f) s = (m' ≫= f) s.
Proof. unfold mbind, proc_bind. by intros ->. Qed.

Section too_small.
Context (cfg : config) (env : environment) (resp : fetched) (offset : Z) (s : Consumer).
Hypothesis (Hblock : _msg_block_d s = None) (Hreq : _request_d s = Some RFetch) (Hoff : _fetch_offset s = Some offset).
Hypothesis (Hpart : frr_partition resp = partition cfg) (Hbad : frr_messages resp = ([], Err ConsumerFetchSizeTooSmall)).

(** The request is no longer out. *)
Let taken : Consumer := with_request_d None (with_retries 0 1 s).

Lemma too_small_response : _handle_fetch_response cfg env [resp] s =
  (again ← grow_buffer cfg; if again : bool then _retry_fetch true else mret tt) taken.
Proof using All.
  assert (with_fetch_offset (Some offset) taken = taken) as Htaken.
  { unfold taken. clear -Hoff. destruct s as [[] ? ? ? ?]; cbn in *. by rewrite Hoff. }
  unfold _handle_fetch_response. cbn [handle_fetch_response].
  rewrite (proc_bind_ok (pmodify (with_retries 0 1)) _ s (with_retries 0 1 s) tt) by done. rewrite get_bind.
  change (_msg_block_d (with_retries 0 1 s)) with (_msg_block_d s). rewrite Hblock, get_bind.
  change (_fetch_offset (with_retries 0 1 s)) with (_fetch_offset s). rewrite Hoff. cbn [collect_messages].
  rewrite Hpart, Z.eqb_refl, Hbad. cbn [fst snd wanted].
  rewrite (proc_bind_ok (pmodify _) _ (with_retries 0 1 s) taken tt) by (unfold pmodify; by rewrite <- Htaken).
  apply proc_bind_eq. cbn [is_empty fetch_next]. apply finally_ret.
Qed.

Lemma too_small_grows : running s → _retry_call s = None → can_grow cfg (buffer_size s) →
  request_answered cfg env (AFetched [resp]) s =
    (schedule_fetch None 0 (with_buffer_size (grown cfg (buffer_size s)) taken), Ok tt).
Proof using All.
  intros (R1 & R2 & R3) Hretry Hg.
  assert (grow_buffer cfg taken = (with_buffer_size (grown cfg (buffer_size s)) taken, Ok true)) as Hgrow.
  { unfold grow_buffer, grown. rewrite get_bind. cbv zeta. change (buffer_size taken) with (buffer_size s).
    unfold can_grow in Hg. destruct (max_buffer_size cfg) as [max|]; [|done]. by rewrite (proj2 (Z.ltb_lt _ _)) by (by apply Hg). }
  pose proof too_small_response as Hh. rewrite (proc_bind_ok _ _ _ _ _ Hgrow) in Hh.
  assert (_retry_fetch true (with_buffer_size (grown cfg (buffer_size s)) taken) =
    (schedule_fetch None 0 (with_buffer_size (grown cfg (buffer_size s)) taken), Ok tt)) as Hr.
  { unfold _retry_fetch. rewrite !get_bind. cbn. by rewrite Hretry, R2, R3, bool_decide_false. }
  rewrite Hr in Hh. unfold request_answered. rewrite get_bind, Hreq. by rewrite (proc_bind_ok _ _ _ _ _ (attempt_ok _ _ _ _ Hh)).
Qed.

(** At the limit it is the end. *)
Lemma too_small_fails d : ¬ can_grow cfg (buffer_size s) → _start_d s = Some d → outstanding d (cs_deferreds s) →
  ∃ ds, request_answered cfg env (AFetched [resp]) s = (with_deferreds ds taken, Ok tt) ∧
        firings ds = firings (cs_deferreds s) ++ [(d, Failure ConsumerFetchSizeTooSmall)].
Proof using All.
  intros Hg Hd Hout.
  set (ds := mkDeferreds (issued (cs_deferreds s)) (firings (cs_deferreds s) ++ [(d, Failure ConsumerFetchSizeTooSmall)])
               (suppressed (cs_deferreds s))).
  exists ds. split; [|done]. assert (grow_buffer cfg taken = (with_deferreds ds taken, Ok false)) as Hgrow.
  { unfold grow_buffer. rewrite get_bind. cbv zeta. change (buffer_size taken) with (buffer_size s).
    unfold can_grow in Hg. destruct (max_buffer_size cfg) as [max|]; [|by destruct Hg].
    destruct (Z.ltb_spec (buffer_size s) max); [by destruct Hg; intros ? [= <-]|].
    unfold start_errback. unfold mbind at 1, proc_bind at 1. rewrite get_bind. change (_start_d taken) with (_start_d s). rewrite Hd.
    unfold settle. change (cs_deferreds taken) with (cs_deferreds s). by rewrite (fire_outstanding d _ _ Hout). }
  pose proof too_small_response as Hh. rewrite (proc_bind_ok _ _ _ _ _ Hgrow) in Hh.
  unfold request_answered. rewrite get_bind, Hreq. by rewrite (proc_bind_ok _ _ _ _ _ (attempt_ok _ _ _ _ Hh)).
Qed.
End too_small.

(** ** Reading on *)

Lemma filter_all {A} (P : A → Prop) `{∀ x, Decision (P x)} (l : list A) : (∀ x, x ∈ l → P x) → filter P l = l.
Proof.
  induction l as [|x l IH]; intros Hl; [done|]. rewrite filter_cons_True by (apply Hl; set_solver). f_equal. apply IH. set_solver.
Qed.

Lemma from_next offset log pre om post : StronglySorted Z.lt (om_offset <$> log) →
  from offset log = pre ++ om :: post → from (om_offset om + 1) log = post.
Proof.
  intros Hs He.
  assert (offset ≤ om_offset om) as Hle.
  { assert (om ∈ from offset log) as [? _]%list_elem_of_filter; [rewrite He; set_solver|done]. }
  assert (StronglySorted Z.lt (om_offset <$> pre ++ om :: post)) as Hs'.
  { rewrite <- He. clear -Hs. induction log as [|x log IH]; [constructor|]. rewrite fmap_cons in Hs.
    apply StronglySorted_inv in Hs as [Hs Hf]. unfold from. rewrite filter_cons. case_decide; [|by apply IH].
    rewrite fmap_cons. constructor; [by apply IH|]. rewrite Forall_forall in *. intros z (x' & -> & [_ Hx]%list_elem_of_filter)%list_elem_of_fmap.
    apply Hf, list_elem_of_fmap. by exists x'. }
  transitivity (from (om_offset om + 1) (from offset log)).
  { unfold from. rewrite list_filter_filter. apply list_filter_iff. intros x. lia. }
  rewrite He. clear He Hs. induction pre as [|x pre IH]; cbn [app] in *; rewrite fmap_cons in Hs';
    apply StronglySorted_inv in Hs' as [Hs' Hf]; rewrite Forall_forall in Hf; unfold from; rewrite filter_cons.
  - rewrite decide_False by lia. apply filter_all. intros x Hx.
    assert (om_offset om < om_offset x) by (apply Hf, list_elem_of_fmap; by exists x). lia.
  - assert (om_offset x < om_offset om) by (apply Hf, list_elem_of_fmap; exists om; set_solver).
    rewrite decide_False by lia. by apply IH.
Qed.

Definition next_offset (offset : Z) (ms : list OffsetAndMessage) : Z :=
  match last ms with Some om => om_offset om + 1 | None => offset end.

Definition last_done (p : option Z) (ms : list OffsetAndMessage) : option Z :=
  match last ms with Some om => Some (om_offset om) | None => p end.

Lemma from_next_offset offset log pre post : StronglySorted Z.lt (om_offset <$> log) →
  from offset log = pre ++ post → from (next_offset offset pre) log = post.
Proof.
  intros Hs He. unfold next_offset. destruct pre as [|om pre] using rev_ind; [done|].
  rewrite last_snoc. rewrite <- app_assoc in He. by eapply from_next.
Qed.

(** The reading of [pre] left the consumer like this. *)
Record read (cfg : config) (offset : Z) (pre : list OffsetAndMessage) (s s' : Consumer) : Prop := {
  rd_awaiting : awaiting cfg (next_offset offset pre) s';
  rd_calls : mjoin (calls s') = mjoin (calls s) ++ (sourced cfg <$> pre);
  rd_processed : _last_processed_offset s' = last_done (_last_processed_offset s) pre;
}.

Lemma wanted_from cfg log pre post offset : stored log → from offset log = pre ++ post →
  wanted cfg pre offset = (sourced cfg <$> pre, next_offset offset pre).
Proof.
  intros Hlog He. pose proof (st_sorted _ (stored_from offset log Hlog)) as Hs.
  rewrite He, fmap_app in Hs. apply StronglySorted_app_1_l in Hs.
  assert ((wanted cfg pre offset).1 = sourced cfg <$> filter (λ om, offset ≤ om_offset om) pre) as Hw by exact (wanted_sorted cfg pre offset Hs).
  pose proof (wanted_next cfg pre offset) as Hn. rewrite Hw in Hn.
  rewrite filter_all in Hw, Hn by (intros om Hom; assert (om ∈ from offset log) as [? _]%list_elem_of_filter; [rewrite He; set_solver|done]).
  destruct (wanted cfg pre offset) as [ms n]. cbn in Hw, Hn. subst ms n. f_equal. unfold next_offset.
  destruct pre as [|om pre] using rev_ind; [done|]. rewrite fmap_app.
  change (sourced cfg <$> [om]) with [sourced cfg om]. by rewrite !last_snoc.
Qed.

Section reading.
Context `{L : CompressionLib} (cfg : config) (env : environment) (depth : nat) (correlation_id high : Z).
Context (log : list OffsetAndMessage).
Hypothesis (Hcount : ∀ n, auto_commit_every_n cfg = Some n → 0 ≤ n).
Hypothesis (Hsync : ∀ ms, processor env ms = Some (Ok tt)) (Hfits : environment_fits env = true).
Hypothesis (Haddr : addressable cfg) (Hid : frange Fi correlation_id = true) (Hhigh : frange Fq high = true) (Hlog : stored log).

Abbreviation round := (round cfg env (S depth) correlation_id high log).
Abbreviation answer_to := (answer_to (S depth) correlation_id high log).

(** Some of the messages are served whole: they are read. *)
Lemma round_reads pre post offset (s : Consumer) : awaiting cfg offset s → from offset log = pre ++ post →
  _decode_message_set_iter (S depth) (Some (served log (mkFetchRequest (topic cfg) (partition cfg) offset (buffer_size s)))) = (pre, Ok tt) →
  ∃ s', round s s' ∧ read cfg offset pre s s' ∧ buffer_size s' = buffer_size s.
Proof using All.
  intros [Hr Hc Hp Hb Hq Hretry Ho Hnn Hask] He Hdec. set (r := mkFetchRequest _ _ _ _) in *.
  pose proof (fetch_response_decoded cfg (S depth) correlation_id high log offset (buffer_size s) Haddr Hid Hhigh Hlog) as Hresp.
  cbv zeta in Hresp. fold r in Hresp. rewrite Hdec in Hresp. set (resp := mkFetchResponse _ _ _ _ _) in Hresp.
  pose proof (response_taken cfg env resp offset s Hcount ltac:(intros ms e; by rewrite Hsync) Hr Hc Hp Hb Hq Hretry Ho eq_refl eq_refl) as Ht.
  change (frr_messages resp).1 with pre in Ht. rewrite (wanted_from cfg log pre post offset Hlog He) in Ht.
  destruct Ht as (s1 & Hans & Hgiven & Hdone). specialize (Hdone ltac:(intros ms; by rewrite Hsync)).
  destruct Hgiven as (given & left & Hsplit & Hcalls & _ & Hr1 & Hc1 & Hfetch & Hend).
  destruct Hend as [(m & _ & Hbad & _)|(-> & _ & Hb1 & Hlast)]; [by rewrite Hdone in Hbad|]. rewrite app_nil_r in Hsplit. 
  assert (0 ≤ next_offset offset pre) as Hnext.
  { unfold next_offset. destruct (last pre) as [om|] eqn:Hl; [|done]. apply last_Some_elem_of in Hl.
    assert (om ∈ from offset log) as [? _]%list_elem_of_filter; [rewrite He; set_solver|lia]. }
  destruct (fetch_call_sends cfg (next_offset offset pre) 0 s1) as (s' & Hcall & Haw & Hcs & Hsize & Hproc);
    [done..|by rewrite Hfetch|by rewrite Hfetch|done|].
  exists s'. split; [|split].
  - exists r, (schedule_fetch None 0 s1). unfold ConsumerLog.answer_to. rewrite Hresp. split_and!; try done.
    unfold enabled, answer_fits. by rewrite Hfits, Hq.
    unfold enabled. by rewrite Hfits.
  - split; [done|by rewrite Hcs, Hcalls, join_app, Hsplit|]. rewrite Hproc, Hlast. unfold last_done.
    destruct pre as [|om pre] using rev_ind; [done|]. rewrite fmap_app. change (sourced cfg <$> [om]) with [sourced cfg om].
    by rewrite !last_snoc.
  - by rewrite Hsize, Hfetch.
Qed.

(** Not even the first is: the buffer grows. *)
Lemma round_grows offset (s : Consumer) : awaiting cfg offset s → can_grow cfg (buffer_size s) →
  _decode_message_set_iter (S depth) (Some (served log (mkFetchRequest (topic cfg) (partition cfg) offset (buffer_size s)))) =
    ([], Err ConsumerFetchSizeTooSmall) →
  ∃ s', round s s' ∧ read cfg offset [] s s' ∧ buffer_size s' = grown cfg (buffer_size s).
Proof using All.
  intros [Hr Hc Hp Hb Hq Hretry Ho Hnn Hask] Hg Hdec. set (r := mkFetchRequest _ _ _ _) in *.
  pose proof (fetch_response_decoded cfg (S depth) correlation_id high log offset (buffer_size s) Haddr Hid Hhigh Hlog) as Hresp.
  cbv zeta in Hresp. fold r in Hresp. rewrite Hdec in Hresp. set (resp := mkFetchResponse _ _ _ _ _) in Hresp.
  pose proof (too_small_grows cfg env resp offset s Hb Hq Ho eq_refl eq_refl Hr Hretry Hg) as Hans.
  set (s1 := with_buffer_size _ _) in Hans.
  destruct (fetch_call_sends cfg offset 0 s1) as (s' & Hcall & Haw & Hcs & Hsize & Hproc); [done..|].
  exists s'. split; [|split].
  - exists r, (schedule_fetch None 0 s1). unfold ConsumerLog.answer_to. rewrite Hresp. split_and!; try done.
    unfold enabled, answer_fits. by rewrite Hfits, Hq.
    unfold enabled. by rewrite Hfits.
  - split; [done|by rewrite Hcs; cbn; rewrite app_nil_r|]. by rewrite Hproc.
  - by rewrite Hsize.
Qed.

(** *** All of it *)

Lemma read_none offset (s : Consumer) : awaiting cfg offset s → read cfg offset [] s s.
Proof using Type. intros H. split; [done|by rewrite app_nil_r|done]. Qed.

Lemma read_app offset pre post (s s1 s2 : Consumer) : read cfg offset pre s s1 → read cfg (next_offset offset pre) post s1 s2 →
  read cfg offset (pre ++ post) s s2.
Proof using Type.
  intros [A1 C1 P1] [A2 C2 P2]. destruct post as [|om post _] using rev_ind.
  - rewrite app_nil_r. split; [done|by rewrite C2, C1, app_nil_r|by rewrite P2].
  - unfold next_offset, last_done in *. rewrite last_snoc in A2, P2. split; unfold next_offset, last_done; rewrite (assoc_L (++)), ?last_snoc;
      [done| |done]. by rewrite C2, C1, !fmap_app, !(assoc_L (++)).
Qed.

(** How often the buffer can still grow before [largest] bytes fit. *)
Definition growths (largest size : Z) : nat :=
  if largest <=? size then O else Z.to_nat (Z.log2_up largest - Z.log2 size).

Lemma growths_grown largest size : (∀ max, max_buffer_size cfg = Some max → largest ≤ max) → 1 ≤ size < largest →
  1 ≤ grown cfg size ∧ (growths largest (grown cfg size) < growths largest size)%nat.
Proof using Type.
  intros Hmax [Hpos Hlt]. set (size' := size * (if size <=? 2 ^ 20 then 16 else 2)).
  assert (2 * size ≤ size') as Hdouble by (unfold size'; destruct (size <=? 2 ^ 20); lia).
  assert (largest ≤ grown cfg size ∨ 2 * size ≤ grown cfg size) as Hg.
  { unfold grown. fold size'. destruct (max_buffer_size cfg) as [max|]; [|by right]. specialize (Hmax max eq_refl). lia. }
  split; [lia|]. unfold growths. rewrite (proj2 (Z.leb_gt largest size)) by done.
  assert (Z.log2 size < Z.log2_up largest) as Hlog2.
  { rewrite Z.log2_up_eqn by lia. pose proof (Z.log2_le_mono size (Z.pred largest)). lia. }
  destruct (Z.leb_spec largest (grown cfg size)); [lia|]. destruct Hg as [Hg|Hg]; [lia|].
  pose proof (Z.log2_le_mono (2 * size) (grown cfg size) Hg) as Hm. rewrite Z.log2_double in Hm by lia. lia.
Qed.

Lemma reads_log largest : (∀ om, om ∈ log → len (set_entry om) ≤ largest) →
  (∀ max, max_buffer_size cfg = Some max → largest ≤ max) →
  ∀ fuel offset s, awaiting cfg offset s → 1 ≤ buffer_size s →
  (length (from offset log) + growths largest (buffer_size s) ≤ fuel)%nat →
  ∃ k s', nsteps round k s s' ∧ (k ≤ fuel)%nat ∧ read cfg offset (from offset log) s s'.
Proof using All.
  intros Hlarge Hmax. induction fuel as [|fuel IH]; intros offset s Haw Hsize Hfuel.
  { assert (from offset log = []) as -> by (by apply nil_length_inv; lia).
    exists 0%nat, s. split_and!; [constructor|done|by apply read_none]. }
  pose proof (stored_from offset log Hlog) as [_ Hok Hplain _].
  destruct (cut_set_decodes depth (Z.to_nat (buffer_size s)) (from offset log) Hok Hplain ltac:(lia)) as (pre & post & He & Hfit & Hdec).
  destruct (from offset log) as [|om tl] eqn:Hfrom.
  { exists 0%nat, s. split_and!; [constructor|lia|by apply read_none]. }
  assert (served log (mkFetchRequest (topic cfg) (partition cfg) offset (buffer_size s)) =
    take (Z.to_nat (buffer_size s)) (set_bytes (om :: tl))) as Hserved by (unfold served; cbn; by rewrite Hfrom).
  rewrite <- Hserved in Hdec. destruct pre as [|om' pre].
  - assert (om ∈ log) as Hin by (assert (om ∈ from offset log) as [_ ?]%list_elem_of_filter; [rewrite Hfrom; set_solver|done]).
    assert (buffer_size s < len (set_entry om)) as Hlt.
    { destruct (decide (length (set_entry om) ≤ Z.to_nat (buffer_size s))%nat) as [Hf|]; [by destruct (Hfit om tl eq_refl Hf)|unfold len; lia]. }
    pose proof (Hlarge om Hin). destruct (growths_grown largest (buffer_size s) Hmax ltac:(lia)) as [Hpos Hless].
    destruct (round_grows offset s Haw ltac:(intros max Hm; specialize (Hmax max Hm); lia) Hdec) as (s1 & Hround & Hread & Hb).
    destruct (IH offset s1) as (k & s' & Hsteps & Hk & Hread'); [apply Hread|by rewrite Hb|rewrite Hb, Hfrom; cbn in *; lia|].
    exists (S k), s'. split_and!; [by eapply nsteps_l|lia|]. rewrite <- Hfrom. apply (read_app offset [] _ s s1 s' Hread Hread').
  - rewrite He. destruct (round_reads (om' :: pre) post offset s Haw) as (s1 & Hround & Hread & Hb); [by rewrite Hfrom|done|].
    assert (from (next_offset offset (om' :: pre)) log = post) as Hpost.
    { apply from_next_offset; [apply Hlog|by rewrite Hfrom]. }
    destruct (IH (next_offset offset (om' :: pre)) s1) as (k & s' & Hsteps & Hk & Hread');
      [apply Hread|by rewrite Hb|rewrite Hb, Hpost; rewrite He, length_app in Hfuel; cbn in *; lia|].
    rewrite Hpost in Hread'. exists (S k), s'. split_and!; [by eapply nsteps_l|lia|by eapply read_app].
Qed.
End reading.

(** The last step of [start]. *)
Definition start_looper (l : bool) : cmeth unit :=
  if l then pmodify (λ s : Consumer, with_commit_looper (Some (LoopRunning true)) (emit EStartLooper s)) else mret tt.

Lemma start_awaits cfg env s0 offset : constructed cfg s0 → 0 ≤ offset →
  ∃ s, handle cfg env (Start offset) s0 = (s, Ok tt) ∧ awaiting cfg offset s ∧ calls s = [] ∧
       buffer_size s = buffer_size s0 ∧ _last_processed_offset s = None.
Proof.
  intros (attempts & buffer & -> & _)%constructed_state Hnn.
  set (s0 := mkConsumer _ _ _ _ _).
  set (s1 := with_fetch_offset (Some offset) (with_start_d (Some 0%nat) (with_deferreds (new_deferred (cs_deferreds s0)).2 s0))).
  set (s2 := emit (ESendFetch (mkFetchRequest (topic cfg) (partition cfg) offset buffer)) (with_request_d (Some RFetch) (with_retry_call None s1))).
  assert (_do_fetch cfg s1 = (s2, Ok tt)) as Hfetch.
  { unfold _do_fetch, send_fetch, send_request, mbind, proc_bind, pmodify, pget. cbn.
    assert ((offset =? OFFSET_EARLIEST) = false ∧ (offset =? OFFSET_LATEST) = false ∧ (offset =? OFFSET_COMMITTED) = false) as (-> & -> & ->).
    { rewrite !Z.eqb_neq. unfold OFFSET_EARLIEST, OFFSET_LATEST, OFFSET_COMMITTED. lia. }
    done. }
  assert (awaiting cfg offset s2 ∧ calls s2 = []) as [Haw Hcalls] by (split; [split|]; done).
  assert (∀ l, ∃ s, start_looper l s2 = (s, Ok tt) ∧
    awaiting cfg offset s ∧ calls s = [] ∧ buffer_size s = buffer ∧ _last_processed_offset s = None) as Hloop.
  { intros []; eexists; (split; [reflexivity|]); (split_and!; [|done..]); [|done]. destruct Haw. by split. }
  assert (start cfg offset s0 = (_ ← start_looper (match truthy (auto_commit_every_ms cfg) with Some _ => grouped cfg | None => false end); mret 0%nat) s2) as Hstart.
  { unfold start. rewrite get_bind. cbn [_start_d s0 lifecycle]. rewrite (proc_bind_ok new_d _ s0 (with_deferreds (new_deferred (cs_deferreds s0)).2 s0) 0%nat) by done.
    rewrite (proc_bind_ok (pmodify _) _ _ s1 tt) by done. rewrite (proc_bind_ok _ _ _ _ _ Hfetch). apply proc_bind_eq.
    destruct (truthy _); [by destruct (grouped cfg)|done]. }
  destruct (Hloop (match truthy (auto_commit_every_ms cfg) with Some _ => grouped cfg | None => false end)) as (s & Hl & H).
  exists s. split; [|done]. cbn [handle]. rewrite (proc_bind_ok _ _ _ _ _ Hl) in Hstart. by rewrite (proc_bind_ok _ _ _ _ _ Hstart).
Qed.

(** A consumer set to read a log: its processor deals with each block at once, the
    brokers store and serve the log, and every message fits the largest buffer. *)
Record can_read (cfg : config) (env : environment) (s0 : Consumer) (correlation_id high : Z)
    (log : list OffsetAndMessage) (largest : Z) : Prop := {
  cr_made : constructed cfg s0;
  cr_size : 1 ≤ buffer_size s0;
  cr_sync ms : processor env ms = Some (Ok tt);
  cr_fits : environment_fits env = true;
  cr_address : addressable cfg;
  cr_id : frange Fi correlation_id = true;
  cr_high : frange Fq high = true;
  cr_log : stored log;
  cr_largest om : om ∈ log → len (set_entry om) ≤ largest;
  cr_max max : max_buffer_size cfg = Some max → largest ≤ max;
}.

Lemma started_reads `{L : CompressionLib} cfg env s0 depth correlation_id high log offset largest :
  can_read cfg env s0 correlation_id high log largest → 0 ≤ offset →
  ∃ s k s', handle cfg env (Start offset) s0 = (s, Ok tt) ∧
    nsteps (round cfg env (S depth) correlation_id high log) k s s' ∧
    (k ≤ length (from offset log) + growths largest (buffer_size s0))%nat ∧
    read cfg offset (from offset log) s s' ∧ calls s = [] ∧ _last_processed_offset s = None.
Proof.
  intros [Hmade Hsize Hsync Hfits Haddr Hid Hhigh Hlog Hlarge Hmax] Hnn.
  destruct (start_awaits cfg env s0 offset Hmade Hnn) as (s & Hstart & Haw & Hcalls & Hb & Hproc).
  destruct (constructed_state cfg s0 Hmade) as (_ & _ & _ & Hcount & _).
  destruct (reads_log cfg env depth correlation_id high log Hcount Hsync Hfits Haddr Hid Hhigh Hlog largest Hlarge Hmax
    _ offset s Haw ltac:(by rewrite Hb) (le_n _)) as (k & s' & Hsteps & Hk & Hread).
  exists s, k, s'. by rewrite Hb in Hk.
Qed.


(** ** The buffer *)

(** A size between the initial and the largest one. *)
Definition size_within (cfg : config) (initial size : Z) : Prop :=
  initial ≤ size ∧ ∀ max, max_buffer_size cfg = Some max → size ≤ max.

Definition sizes_within (cfg : config) (initial : Z) (_ : list SourcedMessage) (s : Consumer) : Prop :=
  size_within cfg initial (buffer_size s) ∧ ∀ r, ESendFetch r ∈ cs_effects s → size_within cfg initial (fr_max_bytes r).

Lemma grown_within cfg initial size : 0 ≤ initial → size_within cfg initial size → can_grow cfg size →
  size_within cfg initial (grown cfg size).
Proof.
  intros H0 [H1 H2] Hg. unfold grown, can_grow, size_within in *.
  assert (size ≤ size * (if size <=? 2 ^ 20 then 16 else 2)) by (destruct (size <=? 2 ^ 20); lia).
  destruct (max_buffer_size cfg) as [max|]; [|by split; [lia|]].
  specialize (Hg max eq_refl). split; [lia|]. intros ? [= <-]. lia.
Qed.

Lemma sizes_within_lasting cfg initial : 0 ≤ initial → lasting cfg true (sizes_within cfg initial).
Proof.
  intros H0. split; unfold sizes_within.
  - intros _ s s' H1 _ _ H2. by rewrite H1, H2.
  - intros _ e s _ He [H1 H2]. split; [done|]. cbn. intros r [?|Hr%list_elem_of_singleton]%elem_of_app; [auto|]. by destruct (He r).
  - intros _ offset s _ [H1 H2]. split; [done|]. cbn. intros r [?|Hr%list_elem_of_singleton]%elem_of_app; [auto|]. by injection Hr as ->.
  - intros _ s Hg [H1 H2]. split; [|done]. by apply grown_within.
  - done.
  - done.
  - intros ms _ s [H1 H2]. split; [done|]. cbn. intros r [?|Hr%list_elem_of_singleton]%elem_of_app; [auto|done].
  - done.
  - done.
  - done.
Qed.

(** C16. The buffer is bounded: whatever happens to a consumer, it asks for at least
    as many bytes as at first and for at most [max_buffer_size]. When the first
    message of a response does not fit, the buffer becomes 16 times as large up
    to 1 MiB, twice as large beyond, or the largest one, and the message is
    fetched again; when it already is the largest the start's deferred fails
    with [ConsumerFetchSizeTooSmall] and nothing is fetched any more. *)
Theorem fetch_buffer_bounded cfg env s0 s : constructed cfg s0 → 0 ≤ buffer_size s0 → reachable cfg s0 s →
  size_within cfg (buffer_size s0) (buffer_size s) ∧
  (∀ r, ESendFetch r ∈ cs_effects s → size_within cfg (buffer_size s0) (fr_max_bytes r)) ∧
  (∀ (resp : fetched) offset, _msg_block_d s = None → _request_d s = Some RFetch → _fetch_offset s = Some offset →
     frr_partition resp = partition cfg → frr_messages resp = ([], Err ConsumerFetchSizeTooSmall) →
     (running s → _retry_call s = None → can_grow cfg (buffer_size s) →
      handle cfg env (RequestAnswer (AFetched [resp])) s =
        (schedule_fetch None 0 (with_buffer_size (grown cfg (buffer_size s)) (with_request_d None (with_retries 0 1 s))), Ok tt)) ∧
     (∀ d, ¬ can_grow cfg (buffer_size s) → _start_d s = Some d → outstanding d (cs_deferreds s) →
      ∃ ds, handle cfg env (RequestAnswer (AFetched [resp])) s = (with_deferreds ds (with_request_d None (with_retries 0 1 s)), Ok tt) ∧
            firings ds = firings (cs_deferreds s) ++ [(d, Failure ConsumerFetchSizeTooSmall)])).
Proof.
  intros Hmade Hpos Hr. pose proof (sizes_within_lasting cfg (buffer_size s0) Hpos) as HP.
  assert (lasts (sizes_within cfg (buffer_size s0)) s) as [[H1 H2] _].
  { induction Hr as [|env' e s Hr IH He]; [|by apply (keeps_handle cfg env' true _ HP e); [apply orb_true_r|]].
    apply constructed_state in Hmade as (attempts & buffer & -> & _ & Hmax).
    split; [split; [by split|]|]; [|done]. intros r Hr. by apply elem_of_nil in Hr. }
  split_and!; [done..|]. intros resp offset Hb Hq Ho Hp Hbad. split.
  - intros Hrun Hretry Hg. by apply (too_small_grows cfg env resp offset s).
  - intros d Hg Hd Hout. by apply (too_small_fails cfg env resp offset s).
Qed.
