(* ===== verification/ConsumerRuns.v ===== *)
(** Runs of a [Consumer]: the theorems at concrete states, and what the code
    does that it does not mean to. *)
From S2P Require Import Prelude Common PyBytes Util Codec Wire KafkaCodec MessageSet Deferred Consumer ConsumerInvariant ConsumerSafety ConsumerDelivery ConsumerTheorems ConsumerLog.
Local Open Scope Z_scope.

(** The consumer's state and the results of the handlers, if each event could
    happen. *)
Fixpoint run (cfg : config) (es : list (environment * event)) (s : Consumer) : option (Consumer * list (res unit)) :=
  match es with
  | [] => Some (s, [])
  | (env, e) :: es =>
    if enabled env e s then
      let '(s, r) := handle cfg env e s in
      match run cfg es s with Some (s, rs) => Some (s, r :: rs) | None => None end
    else None
  end.

Lemma consumer_run_reachable cfg s0 es : ∀ s s' rs, reachable cfg s0 s → run cfg es s = Some (s', rs) → reachable cfg s0 s'.
Proof.
  induction es as [|[env e] es IH]; intros s s' rs Hr; cbn [run]; [by intros [= <- _]|].
  destruct (enabled env e s) eqn:He; [|done]. pose proof (reach_step cfg s0 env e s Hr He) as Hs. unfold step in Hs.
  destruct (handle cfg env e s) as [s1 r]. destruct (run cfg es s1) as [[s2 rs']|] eqn:Hrun; [|done].
  intros [= <- _]. by eapply IH.
Qed.

(** A consumer of a group that commits every two messages, and one without a
    group, as they are made. *)
Definition made (group : option pyval) (every_n every_ms : option pynum) : res (config * Consumer) :=
  __init__ (VStr [97]) (NInt 0) group None every_n every_ms 1 100 1000 None 0 None [] (-1).
Definition member := made (Some (VStr [103])) (Some (NInt 2)) (Some (NInt 5000)).
Definition alone := made None None None.

Definition the (r : res (config * Consumer)) : config * Consumer :=
  match r with
  | Ok x => x
  | Err _ => (mkConfig [] 0 None None [] 0 None None 0 0 None None,
              mkConsumer (mkFetching None 0 1 0 0 None None) (mkCommitting None None [] None None None)
                (mkLifecycle None None false false None None) no_deferreds [])
  end.

Lemma member_constructed : constructed (the member).1 (the member).2.
Proof.
  exists (VStr [97]), (NInt 0), (Some (VStr [103])), None, (Some (NInt 2)), (Some (NInt 5000)), 1, 100, 1000, None, 0, None, [], (-1).
  vm_compute. reflexivity.
Qed.

(** Environments: what is cancelled fails at once; the processor deals with the
    messages at once, or later, or fails. *)
Definition cancels (p : list SourcedMessage → option (res unit)) : environment :=
  mkEnvironment p (Some (AFailed TwistedCancelledError)) (Err TwistedCancelledError) (Some (Err TwistedCancelledError)).
Definition sync := cancels (λ _, Some (Ok tt)).
Definition later := cancels (λ _, None).
Definition fails := cancels (λ _, Some (Err OtherError)).

(** [n] messages from the offset [a] on, and the end of the decoding. *)
Definition fetched_messages (a : Z) (n : nat) (r : res unit) : event :=
  RequestAnswer (AFetched [mkFetchResponse [97] 0 0 100
    ((λ i, mkOffsetAndMessage (a + Z.of_nat i) (mkMessage 0 0 None None)) <$> seq 0 n, r)]).

(** The state after a run. *)
Definition after (c : res (config * Consumer)) (es : list (environment * event)) : Consumer :=
  match run (the c).1 es (the c).2 with Some (s, _) => s | None => (the c).2 end.

Lemma after_reachable c es : reachable (the c).1 (the c).2 (after c es).
Proof.
  unfold after. destruct (run _ _ _) as [[s rs]|] eqn:Hr; [|apply reach_init].
  eapply consumer_run_reachable; [apply reach_init|exact Hr].
Qed.

(** ** The theorems at concrete states *)

Definition fetched_two := after member [(sync, Start 0); (sync, fetched_messages 0 2 (Ok tt))].
Definition between := after member [(sync, Start 0); (later, fetched_messages 0 3 (Ok tt))].

Lemma consumer_safe_witness :
  constructed (the member).1 (the member).2 ∧ reachable (the member).1 (the member).2 fetched_two ∧ tokens fetched_two = 0%nat ∧
  (_commit_req fetched_two ≠ None ∨ ∃ a, _commit_call fetched_two = Some (CallPending a)).
Proof.
  split_and!; [apply member_constructed|apply after_reachable|vm_compute; reflexivity|].
  destruct (consumer_safe (the member).1 (the member).2 fetched_two member_constructed (after_reachable _ _)) as (_ & _ & _ & _ & H & _).
  apply H. vm_compute. discriminate.
Defined.

Lemma consumer_in_order_witness : ∃ new hi,
  handed between = handed (after member [(sync, Start 0)]) ++ new ∧ _fetch_offset between = Some hi ∧ 0 ≤ hi ∧ increasing 0 hi new.
Proof.
  apply (consumer_in_order (the member).1 (after member [(sync, Start 0)]) 0 between); [vm_compute; reflexivity..|].
  replace between with (step (the member).1 later (fetched_messages 0 3 (Ok tt)) (after member [(sync, Start 0)])) by (vm_compute; reflexivity).
  apply steady_step; [apply steady_none|vm_compute; reflexivity].
Defined.

Lemma messages_delivered_witness :
  ∃ s1, handle (the member).1 sync (ProcessorDone (Ok tt)) between = (s1, Ok tt) ∧
    given_up_to (the member).1 (match _processor_d between with Some b => rest b | None => [] end)
      (with_last_processed (Some 1) between) s1.
Proof.
  destruct (messages_delivered (the member).1 sync between) as [_ H].
  - intros n. vm_compute. intros [= <-]. discriminate.
  - intros ms e. vm_compute. discriminate.
  - vm_compute. split_and!; [discriminate|reflexivity..].
  - vm_compute. split; [reflexivity|discriminate].
  - destruct (_processor_d between) as [b|] eqn:Hb; [|vm_compute in Hb; discriminate].
    destruct (H b eq_refl) as (s1 & He & Hg); [vm_compute in Hb; injection Hb as <-; reflexivity|vm_compute; reflexivity|].
    exists s1. split; [exact He|]. vm_compute in Hb. injection Hb as <-. exact Hg.
Defined.

Lemma commits_answered_witness : ∃ s', handle (the member).1 sync (CommitAnswer (Ok tt)) fetched_two = (s', Ok tt) ∧
  told (Success (Some 1)) (_commit_ds fetched_two) (cs_deferreds fetched_two) s'.
Proof.
  destruct (commits_answered (the member).1 (the member).2 fetched_two sync member_constructed (after_reachable _ _)) as [H _];
    [vm_compute; reflexivity|].
  exact (proj1 (H (mkCommitRequest (Some 1) 0 1) ltac:(vm_compute; reflexivity))).
Defined.

Lemma fetched_two_callable : callable 0 3 fetched_two.
Proof. vm_compute. split_and!; [reflexivity|intros _; discriminate..]. Qed.

Definition committed_two := after member [(sync, Start 0); (sync, fetched_messages 0 2 (Ok tt)); (sync, CommitAnswer (Ok tt)); (sync, FetchCall)].


(** A consumer whose buffer is 10 bytes and may become 200, and a log. *)
Definition reader : res (config * Consumer) :=
  __init__ (VStr [97]) (NInt 0) (Some (VStr [103])) None (Some (NInt 2)) (Some (NInt 5000)) 1 100 10 (Some 200) 0 None [] (-1).

Lemma reader_constructed : constructed (the reader).1 (the reader).2.
Proof.
  exists (VStr [97]), (NInt 0), (Some (VStr [103])), None, (Some (NInt 2)), (Some (NInt 5000)), 1, 100, 10, (Some 200), 0, None, [], (-1).
  vm_compute. reflexivity.
Qed.

Definition sample_log : list OffsetAndMessage :=
  (λ o, mkOffsetAndMessage o (create_message (Some (byte_of_Z <$> [104; 105])) None)) <$> [3; 5; 6; 9].

Lemma sample_log_stored : stored sample_log.
Proof.
  split; [|vm_compute; reflexivity..]. unfold sample_log. vm_compute fmap. repeat constructor.
Qed.

Lemma sample_log_read : can_read (the reader).1 sync (the reader).2 7 10 sample_log 100.
Proof.
  split; [apply reader_constructed|vm_compute; discriminate|reflexivity|reflexivity|split; vm_compute; reflexivity|
          reflexivity|reflexivity|apply sample_log_stored| |].
  - intros om Hom. assert (Forall (λ om, len (set_entry om) ≤ 100) sample_log) as Hf.
    { repeat constructor; vm_compute; discriminate. }
    rewrite Forall_forall in Hf. by apply Hf.
  - intros max. vm_compute. intros [= <-]. discriminate.
Qed.


(** It reads a message of 30 bytes: the buffer grows. *)
Definition small_fetch : fetched := mkFetchResponse [97] 0 0 100 ([], Err ConsumerFetchSizeTooSmall).
Definition reading := after reader [(sync, Start 0)].
Definition at_limit := after reader [(sync, Start 0); (sync, RequestAnswer (AFetched [small_fetch])); (sync, FetchCall);
                                     (sync, RequestAnswer (AFetched [small_fetch])); (sync, FetchCall)].

Lemma fetch_buffer_bounded_witness :
  (∃ s', handle (the reader).1 sync (RequestAnswer (AFetched [small_fetch])) reading = (s', Ok tt) ∧ buffer_size s' = 160) ∧
  (buffer_size at_limit = 200 ∧
   ∃ ds, handle (the reader).1 sync (RequestAnswer (AFetched [small_fetch])) at_limit =
           (with_deferreds ds (with_request_d None (with_retries 0 1 at_limit)), Ok tt) ∧
         firings ds = [(0%nat, Failure ConsumerFetchSizeTooSmall)]).
Proof.
  split; [|split; [vm_compute; reflexivity|]].
  - destruct (fetch_buffer_bounded (the reader).1 sync (the reader).2 reading reader_constructed) as (_ & _ & H);
      [vm_compute; discriminate|apply after_reachable|].
    destruct (H small_fetch 0) as [Hg _]; [vm_compute; reflexivity..|]. eexists. split.
    + apply Hg; [vm_compute; split_and!; [discriminate|reflexivity..]|vm_compute; reflexivity|].
      vm_compute. intros max [= <-]. reflexivity.
    + vm_compute. reflexivity.
  - destruct (fetch_buffer_bounded (the reader).1 sync (the reader).2 at_limit reader_constructed) as (_ & _ & H);
      [vm_compute; discriminate|apply after_reachable|].
    destruct (H small_fetch 0) as [_ Hf]; [vm_compute; reflexivity..|].
    apply (Hf 0%nat); [|vm_compute; reflexivity|apply (bool_decide_unpack _); vm_compute; exact I].
    intros Hg. specialize (Hg 200 ltac:(vm_compute; reflexivity)). vm_compute in Hg. discriminate.
Defined.

(** ** What the code does not mean to do *)

(** The result of the last handler of a run. *)
Definition last_result (c : res (config * Consumer)) (es : list (environment * event)) : option (res unit) :=
  match run (the c).1 es (the c).2 with Some (_, rs) => last rs | None => None end.

(** It waits for nothing: no request, no call to fetch, no processor. *)
Definition stalled (s : Consumer) : bool :=
  bool_decide (_start_d s ≠ None) && bool_decide (_processor_d s = None) && bool_decide (_retry_call s = None) &&
  match _request_d s with None | Some RAnswered => true | _ => false end.

