(* ===== verification/EndToEnd.v ===== *)
(** From a producer to a consumer: what the application gives to a [Producer] is
    what a [Consumer] gives to its processor, through the bytes of the produce
    request, the log of the partition and the bytes of the fetch responses. *)
From S2P Require Import Prelude Common PyBytes Util Codec Wire KafkaCodec MessageSet Requests Partitioner Producer ProducerInvariant ProducerTheorems ProducerWire.
From S2P Require Import Deferred Consumer ConsumerInvariant ConsumerSafety ConsumerDelivery ConsumerTheorems ConsumerLog ConsumerRuns.
Local Open Scope Z_scope.

Lemma from_below next (log : list OffsetAndMessage) : Forall (λ om, om_offset om < next) log → from next log = [].
Proof.
  induction 1 as [|om log H _ IH]; [done|]. unfold from in *. rewrite filter_cons_False by (cbn; lia). done.
Qed.

Lemma from_appended next ms : from next (with_offsets 1 next ms) = with_offsets 1 next ms.
Proof.
  apply filter_all. assert (∀ o, next ≤ o → ∀ om, om ∈ with_offsets 1 o ms → next ≤ om_offset om) as H.
  { induction ms as [|m ms IH]; intros o Ho om; cbn; [by intros ?%elem_of_nil|].
    intros [->|Hin]%elem_of_cons; [done|]. eapply (IH (o + 1)); [lia|done]. }
  apply H. lia.
Qed.


(** ** A run *)

#[local] Existing Instance tagged_lib.

(** Three requests for a topic, two of them for its partition 0. *)
Definition hi : bytes := byte_of_Z <$> [104; 105].
Definition sample_batch : list SendRequest :=
  [mkSendRequest [97] (Some hi) [Some hi; None] 0; mkSendRequest [97] None [Some []] 1; mkSendRequest [97] None [Some hi] 2].
Definition sample_results : list (res Z) := [Ok 0; Ok 1; Ok 0].
Definition sample_pcfg : Producer.config := Producer.mkConfig PRODUCER_ACK_LOCAL_WRITE 1000 3 CODEC_GZIP 2 0 None.
Definition sample_waiting : Producer :=
  mkProducer round_robin ∅ 0 0 [] 0 0 [0; 1; 2]%nat (Some (BLooking sample_batch [LDone (Ok 0); LDone (Ok 1); LLoading])) None false
    (mkDeferreds 3 [] []) [].
Definition sample_payloads : list ProduceRequest :=
  match (_send_requests sample_pcfg sample_results sample_batch sample_waiting).2 with
  | Ok (Some (BSending _ payloads)) => payloads
  | _ => []
  end.
Definition sample_request : bytes :=
  match encode_produce_request [] 1 (Some sample_payloads) 1 1000 with Ok b => b | Err _ => [] end.

Definition sample_new_log : list OffsetAndMessage :=
  sample_log ++ with_offsets 1 10 [create_message (Some hi) (Some hi); create_message None (Some hi); create_message (Some hi) None].

Lemma sample_new_log_read : can_read (the reader).1 sync (the reader).2 7 10 sample_new_log 100.
Proof.
  split; [apply reader_constructed|vm_compute; discriminate|reflexivity|reflexivity|split; vm_compute; reflexivity|
          reflexivity|reflexivity| | |].
  - split; [|vm_compute; reflexivity..]. unfold sample_new_log. vm_compute fmap. repeat constructor.
  - intros om Hom. assert (Forall (λ om, len (set_entry om) ≤ 100) sample_new_log) as Hf.
    { repeat constructor; vm_compute; discriminate. }
    rewrite Forall_forall in Hf. by apply Hf.
  - intros max. vm_compute. intros [= <-]. discriminate.
Qed.

Lemma sample_batch_nodup : NoDup (sr_deferred <$> sample_batch).
Proof. apply (bool_decide_unpack _). vm_compute. exact I. Qed.

Lemma sample_encoded : encode_produce_request [] 1 (Some sample_payloads) 1 1000 = Ok sample_request.
Proof. vm_compute. reflexivity. Qed.

Lemma sample_placed : at_partition (mkTopicAndPartition [97] 0) (live sample_waiting (zip sample_results sample_batch)) ≠ [].
Proof. vm_compute. discriminate. Qed.

